(* ===== verification/_CoqProject ===== *)
-Q . S2P
Prelude.v
Ident.v
Enums.v
Authority.v
Operation.v
Idempotency.v
Registry.v
FailureRecord.v
Retry.v
Recovery.v
Rollback.v
Codec.v
RecordCodec.v
Store.v
Protocol.v
Socket.v
Reload.v
Explain.v
Worker.v
Cli.v
Coordinator.v
Launch.v
Restart.v
System.v
Float32.v
Device.v
Clients.v
