(* ===== verification/Prelude.v ===== *)
(** * Failure Fabric: a verification development

    Failure Fabric ([src/]) is a C++ library, with a coordinator and a worker
    process, that makes the failures of a distributed program first-class data:
    every failure becomes an immutable record, every report is checked against
    an authority envelope (coordinator epoch, boot, attempt, generations), and
    retry, recovery, rollback and compensation are decided by pure rules over
    the record. This development translates that code into Rocq functions and
    proves what the code promises about them.

    ** The parts and how they interact

    - Identities and generations name everything; an authority envelope is a
      record of them, and the fences compare a reported envelope with the
      current one.
    - The operation registry keeps one runtime per operation: a state machine,
      the current envelope and the recorded outcome. It consults the fences
      before it accepts a report.
    - The idempotency store keeps one entry per operation and key, and says of
      a submission whether it is new, running, a replay or a conflict.
    - Failure records are built with explicit or derived dimensions. The retry
      classifier and the recovery planner read a record and an input and
      answer a decision and a plan; the recovery ownership, the rollback
      executor and the compensator carry them out, each under a check.
    - The failure store holds the log of records, the registry, the idempotency
      store and the ownership, and saves and loads them as a sequence of
      checksummed frames. The wire protocol sends messages in the same frames.
    - The coordinator process drives the registry and the store from the
      messages of the workers.

    ** Files

    - [Prelude]: bytes, machine words, hints, tactics, record update, text.
    - [Ident]: [include/failure_fabric/id.hpp]. An [Id tag] is the code's
      phantom-typed [Id<Tag>], sixteen bytes; a generation is a 64-bit word whose
      successor wraps.
    - [Enums]: [enum.hpp], [src/enum.cpp]. One module per [enum class]; the two
      states that the loader casts from unchecked integers ([OperationState] and
      the [IdempotencyState] of [Idempotency]) have a constructor for the other
      values.
    - [Authority]: [authority.hpp], [src/authority.cpp].
    - [Operation]: [operation.hpp], [src/operation.cpp].
    - [Idempotency]: [idempotency.hpp], [src/idempotency.cpp]; the store is a
      [gmap] and each method one function on it. The class has no mutex, so a
      sequence of calls stands for callers that take turns; the race of two
      callers that do not is a lemma. The coordinator never calls it.
    - [Registry]: [operation_registry.hpp], [src/operation_registry.cpp]; a
      [gmap] as well, where every method is one step because the code holds the
      registry's mutex for the whole method. Sequences of the calls about an
      operation are lists of [reg_call], run by [reg_run], and stand for every
      interleaving of the threads; [registry_clear], which drops all operations,
      starts a new history and is not one of them.
    - [FailureRecord]: [failure_record.hpp], [src/failure_record.cpp]; a use of
      the builder is a list of setter calls.
    - [Retry]: [retry.hpp], [src/retry.cpp]. [Recovery]: [recovery.hpp],
      [src/recovery.cpp]. [Rollback]: [rollback.hpp], [compensation.hpp] and
      their sources.
    - [Codec]: the frame layer of [persistence.hpp], [src/persistence.cpp]: the
      FNV checksum, the byte writer, the reader and the frames. [RecordCodec]:
      the failure-record codec of the same files.
    - [Store]: [store.hpp], [src/store.cpp].
    - [Protocol]: [protocol.hpp], [src/protocol.cpp]; the socket is a class
      [stream_laws] of operations with the documented laws of a stream socket,
      with an instance over an in-memory network.
    - [Socket]: the life of the handles of [TcpSocket] and [TcpListener]
      ([protocol.hpp], [src/protocol.cpp]): construction, moves, connect, listen,
      accept, close, destruction, as actions on named objects.
    - [Reload]: what the loader of [src/store.cpp] can produce.
    - [Explain]: [explain.hpp], [src/explain.cpp], and a reader for the JSON it
      prints.
    - [Worker]: [src/worker.cpp]: arguments, the messages it sends, the marker
      files it writes, the loop that serves one dispatch, the exit code. The
      socket is the class of [Protocol]; whether a file opens is an argument.
    - [Coordinator]: [src/coordinator.cpp]: the globals as a record, every
      connection thread as a program counter ([Pc]) between its locked
      sections, one function [advance] per thread step, and runs as sequences
      of thread choices ([coord_run]), so the theorems quantify over the
      interleavings. The messages that arrive and the connections that are lost
      are events of the run.
    - [Cli]: [tools/ff_cli.cpp]: every command as a function from the arguments
      to the output, the exit code, the file written and the command run.
    - [Launch]: [main] of [src/coordinator.cpp], and the command lines by which
      the tool starts the two processes; how a command line is cut into
      arguments is a class [argv_laws], with an instance.
    - [Restart]: coordinator processes one after the other, each started from
      the state file the one before it left. A save can leave the file as it
      was, whole or torn ([save_effect] of [Store]).
    - [System]: the coordinator and the worker processes together: the messages
      of [worker_main] are fed to [coord_run].
    - [Float32]: the [float] of the language, as the 24-bit format of the Standard
      Library's [SpecFloat], exact on small integers.
    - [Device]: [src/cuda_proof.cu]: the kernel as a function of one thread on the
      device memory, a launch as all threads of the grid in any order, the host
      scenarios in a state monad. The CUDA run time is a record of operations
      with laws, with an instance in memory.
    - [Clients]: [examples/*.cpp] and [consumer/main.cpp]: each program as a
      function to its output and exit code.

    ** What the theorems show

    - Single outcome: along every sequence of registry calls, between two
      clears, an operation gets at most one terminal outcome, which never
      changes ([one_terminal_outcome]); re-dispatching fences every older attempt
      ([redispatch_fences_old_attempts]); states move only along the transition
      table, terminal ones absorb, and a run is bounded by its retries.
    - Execution at most once per key: [idempotency_at_most_once], replay of the
      published result, rejection of a different payload.
    - Decisions: the classifier never repeats an effect that is not safe to
      repeat ([classify_never_unsafe]) and its answer has an exact condition;
      the planner is an exact decision table ([plan_action_exact]); recovery
      ownership has one current holder; rollback executes exactly a prefix of
      its plan and can be resumed; a compensation is decided once.
    - Bytes: each decoder accepts exactly the encodings of well-formed data
      ([decode_frame_exact], [failure_record_codec_exact]); damaged frames and
      images are rejected; a saved store loads back; messages arrive in order
      whatever the segmentation of the stream.
    - Coordinator process: in every interleaving the registry and the store
      change by calls of their own operations only
      ([coordinator_refines_components]), one operation has one outcome
      ([coordinator_single_outcome]), a completion with a stale authority gets
      no effect ([stale_complete_fenced]), acknowledgements never outnumber
      dispatches, and the loss of the running worker is recorded and the
      operation dispatched again under a fresh attempt
      ([lost_worker_recovered], which also says when the log and the ownership
      take what the recovery hands them).
    - Worker process: it exits on every stream of bytes
      ([worker_always_exits]), and [worker_runs_one_operation] gives what it
      writes and sends for a dispatch, mode by mode.
    - The whole system: a requested operation completes and the saved state
      says so ([requested_operation_completes]), also with the real worker
      process on the other side ([process_completes_operation]), and also when
      its worker is lost ([lost_operation_completes_elsewhere]).
    - Persistence of the process: any file that loads gives a well-formed store
      ([loaded_store_well_formed]). Over any sequence of coordinator processes
      killed at any point, the next one starts from exactly what was handed to
      the last save that was written whole, or, if the last one was torn, from
      that or from nothing; and as long as none is torn no recorded outcome is
      lost or changed ([outcomes_survive_restarts]).
    - Resources: socket handles are owned by one object and closed once, unless
      Winsock returns 0 or the program wraps a handle that is not its own
      ([socket_handles_owned]).
    - The tool: what it saves it replays, what its exit codes mean, and that the
      processes it starts meet on the same port, for modes and paths that the
      shell passes on unchanged.
    - The device proof: whatever the order of the threads and the contraction of
      the arithmetic, the kernel computes what the host does
      ([device_matches_host]), and only a failing run time makes the program fail
      ([device_proof_exit]).
    - Clients: the exact output of the example programs ([example_outputs]).
    - Text: the JSON explanations read back as what they explain.

    ** Bounds and fuel

    Unsigned integers are [N] with [wrap w] where the code can overflow; lengths
    written in 16 or 32 bits are truncated as the casts do. [load_loop] has the
    length of the data as fuel: each frame takes 19 bytes at least, and the
    loop stops at the end of the data or at the first bad frame. The send and
    receive loops have the number of remaining bytes as fuel, since every
    successful call moves one byte at least; each call asks for at most
    [INT_MAX] bytes, as in the code. The JSON reader has the length of the text
    as fuel. The loop of the worker has more fuel than the stream has bytes,
    since a message takes eight bytes at least. The rollback loops of the tool and
    of the examples have the number of steps as fuel. A coordinator thread has no
    fuel: a run is the finite sequence of steps taken so far. The theorems state
    results of these functions for the fuel the definitions choose, never for
    runs that stop early.

    ** What is not modelled

    The mutexes of the registry, of the failure store and of the coordinator
    appear as the atomicity of what runs under them; in the coordinator the
    steps are the locked sections, the calls of the registry, the unlocked reads
    of globals and the sends, which is the granularity at which its threads can
    interleave. The seeding from [random_device] is an argument (an engine, or
    the fresh identity itself), and so are clocks, the order in which unordered
    maps are enumerated, the answers of Winsock, whether a file opens, and the
    shell. A save reads the store as it stands at the step that calls it: that
    [save] reads the runtimes of the registry without its mutex, while a
    concurrent report may change them, is not modelled (it is a data race, and
    recorded as a finding). What it leaves on the disk is any prefix of the image,
    the whole, or the old file; the reordering of writes by a power failure is
    not covered. The console output of the two processes and the sleeps are left
    out.

    Of [src/cuda_proof.cu] the printed lines are left out, and an access of the
    kernel outside its buffers, which has no defined effect, has none. The
    benchmarks and the tests time and exercise the modelled functions. *)
From stdpp Require Export base tactics list vector gmap strings countable pretty.
From Stdlib Require Export NArith ZArith Lia.
From Stdlib Require Import Strings.Byte.

Local Open Scope N_scope.

(** ** Bytes: [uint8_t] values are Rocq's 256-value [byte]. *)
Abbreviation byte := Byte.byte.

#[export] Instance byte_eq_dec : EqDecision byte := Byte.byte_eq_dec.

Definition byte_to_N (b : byte) : N := Byte.to_N b.

(** [static_cast<uint8_t>(n)]: reduction modulo 256. *)
Definition byte_of_N (n : N) : byte :=
  default Byte.x00 (Byte.of_N (n mod 256)).

Lemma byte_to_N_bound b : byte_to_N b < 256.
Proof. destruct b; reflexivity. Qed.

Lemma byte_to_of_N n : byte_to_N (byte_of_N n) = n mod 256.
Proof.
  unfold byte_to_N, byte_of_N.
  destruct (Byte.of_N (n mod 256)) as [b|] eqn:E; cbn [default from_option id].
  - by apply Byte.to_of_N.
  - apply Byte.of_N_None_iff in E. pose proof (N.mod_lt n 256). lia.
Qed.

Lemma byte_of_to_N b : byte_of_N (byte_to_N b) = b.
Proof. destruct b; reflexivity. Qed.

Lemma byte_to_N_inj b1 b2 : byte_to_N b1 = byte_to_N b2 → b1 = b2.
Proof.
  intros H. rewrite <- (byte_of_to_N b1), <- (byte_of_to_N b2). by f_equal.
Qed.

#[export] Program Instance byte_countable : Countable byte :=
  inj_countable' byte_to_N byte_of_N _.
Next Obligation. apply byte_of_to_N. Qed.

(** ** Machine words: an unsigned [w]-bit integer is an [N], and the
    operations that can overflow reduce modulo [2^w]. *)
Definition wrap (w n : N) : N := n mod 2 ^ w.

Definition fits (w n : N) : Prop := n < 2 ^ w.

#[export] Instance fits_dec w n : Decision (fits w n).
Proof. unfold fits. apply _. Defined.

Lemma wrap_fits w n : fits w (wrap w n).
Proof. unfold fits, wrap. apply N.mod_lt. apply N.pow_nonzero. lia. Qed.

Lemma wrap_small w n : fits w n → wrap w n = n.
Proof. unfold fits, wrap. apply N.mod_small. Qed.

Lemma wrap_le w n : wrap w n <= n.
Proof. unfold wrap. apply N.Div0.mod_le. Qed.

(** ** Hint databases and tactics. *)
Create HintDb ff discriminated.
#[export] Hint Constants Transparent : ff.

(** Splits every [match]/[if] of the goal, then of the hypotheses. *)
Ltac break :=
  repeat (case_match; simplify_eq/=; try done).

(** Turns boolean tests into propositions. *)
Ltac bool_simp :=
  repeat match goal with
  | H : (_ =? _) = true |- _ => apply N.eqb_eq in H
  | H : (_ =? _) = false |- _ => apply N.eqb_neq in H
  | H : (_ <? _) = true |- _ => apply N.ltb_lt in H
  | H : (_ <? _) = false |- _ => apply N.ltb_ge in H
  | H : (_ <=? _) = true |- _ => apply N.leb_le in H
  | H : (_ <=? _) = false |- _ => apply N.leb_gt in H
  | H : _ && _ = true |- _ => apply andb_prop in H as [? ?]
  | H : _ || _ = false |- _ => apply orb_false_elim in H as [? ?]
  | H : negb _ = true |- _ => apply negb_true_iff in H
  | H : negb _ = false |- _ => apply negb_false_iff in H
  | H : bool_decide _ = true |- _ => apply bool_decide_eq_true in H
  | H : bool_decide _ = false |- _ => apply bool_decide_eq_false in H
  end.

(** Splits on the leftmost atom of a guard. *)
Ltac split_atom b :=
  lazymatch b with
  | andb ?x ?y => split_atom x
  | orb ?x _ => split_atom x
  | negb ?x => split_atom x
  | _ => destruct b eqn:?
  end.

(** Splits the guards of the goal one atom at a time. *)
Ltac split_guards tac :=
  repeat match goal with
  | |- context [if ?b then _ else _] => split_atom b; cbn [andb orb negb]; try solve [tac]
  end.

(** ** Record update: [r <| f := v |>] is [r] with its field [f] set to [v],
    for the records with an instance of [Settable]. *)
Class Settable (R : Type) := eta : R → R.

Class Setter {R T} (proj : R → T) := set_field : T → R → R.

Ltac build_setter proj :=
  match type of proj with
  | ?R → _ =>
    let inst := constr:(_ : Settable R) in
    let e := eval hnf in inst in
    let e := eval pattern proj in e in
    match e with ?g _ => exact (λ v r, g (λ _, v) r) end
  end.

#[export] Hint Extern 1 (Setter ?proj) => build_setter proj : typeclass_instances.

Declare Scope record_set_scope.
Open Scope record_set_scope.
Notation "r <| f := v |>" := (set_field (proj:=f) v r)
  (at level 12, left associativity, format "r <| f := v |>") : record_set_scope.

(** ** Text output: the character literals the sources print. *)
Definition dquote : string := String (Ascii.ascii_of_N 34) EmptyString.
Definition newline : string := String (Ascii.ascii_of_N 10) EmptyString.

(** Decimal output of an unsigned integer: [std::to_string], [operator<<]. *)
Definition dec (n : N) : string := pretty n.

(** [a << b << c]: concatenation in order. *)
Definition put (parts : list string) : string := String.concat "" parts.
