(* ===== verification/Ident.v ===== *)
(** * Identities and generations ([include/failure_fabric/id.hpp])

    128-bit identities as sixteen bytes, their order, their hexadecimal
    form and its parser, the seeded generator, the phantom-typed [Id], and
    the 64-bit generation counters. *)
From S2P Require Import Prelude.
From Stdlib Require Import Ascii.

Local Open Scope N_scope.

(** ** [uuid128] *)
Record uuid128 := Uuid128 { bytes : vec byte 16 }.

#[export] Instance uuid128_eq_dec : EqDecision uuid128.
Proof. solve_decision. Defined.

(** Identities as 128-bit numbers, the keys of the finite maps. *)
Fixpoint vec_num {n} (v : vec byte n) : N :=
  match v with
  | [#] => 0
  | b ::: v => byte_to_N b + 256 * vec_num v
  end.

Fixpoint num_vec (n : nat) (x : N) : vec byte n :=
  match n with
  | O => [#]
  | S n => byte_of_N x ::: num_vec n (x / 256)
  end.

Lemma num_vec_num n (v : vec byte n) : num_vec n (vec_num v) = v.
Proof.
  induction v as [|b n v IH]; [done|]. cbn [vec_num num_vec].
  pose proof (byte_to_N_bound b) as Hb. f_equal.
  - apply byte_to_N_inj. rewrite byte_to_of_N.
    rewrite N.mul_comm, N.Div0.mod_add. by apply N.mod_small.
  - rewrite N.add_comm, N.mul_comm, N.div_add_l by lia.
    by rewrite (N.div_small _ _ Hb), N.add_0_r.
Qed.

#[export] Program Instance uuid128_countable : Countable uuid128 :=
  inj_countable' (λ u, vec_num (bytes u)) (λ x, Uuid128 (num_vec 16 x)) _.
Next Obligation. intros [v]. exact (f_equal Uuid128 (num_vec_num 16 v)). Qed.

(** The default member initialiser [bytes{}]: sixteen zero bytes. *)
Definition uuid128_zero : uuid128 := Uuid128 (vreplicate 16 Byte.x00).

(** [operator==]: the byte loop, with its early exit. *)
Fixpoint bytes_eq (l k : list byte) : bool :=
  match l, k with
  | a :: l', b :: k' => if byte_to_N a =? byte_to_N b then bytes_eq l' k' else false
  | _, _ => true
  end.

Definition uuid_eqb (a b : uuid128) : bool := bytes_eq (bytes a) (bytes b).

(** [operator<]: the first differing byte decides. *)
Fixpoint bytes_lt (l k : list byte) : bool :=
  match l, k with
  | a :: l', b :: k' =>
      if byte_to_N a =? byte_to_N b then bytes_lt l' k' else byte_to_N a <? byte_to_N b
  | _, _ => false
  end.

Definition uuid_ltb (a b : uuid128) : bool := bytes_lt (bytes a) (bytes b).

Definition is_zero (u : uuid128) : bool :=
  forallb (λ b, byte_to_N b =? 0) (bytes u).

(** [std::hash<uuid128>]: the multiplicative hash of the unordered maps. *)
Definition uuid_hash (u : uuid128) : N :=
  foldl (λ h b, wrap 64 (N.lxor h (byte_to_N b) * 1099511628211))
        1469598103934665603 (vec_to_list (bytes u)).

(** ** Hexadecimal form *)
Definition hex_digits : list ascii :=
  ["0"; "1"; "2"; "3"; "4"; "5"; "6"; "7"; "8"; "9"; "a"; "b"; "c"; "d"; "e"; "f"]%char.

Definition hex_digit (n : N) : ascii := default "0"%char (hex_digits !! N.to_nat n).

Definition char_between (lo c hi : ascii) : bool :=
  (N_of_ascii lo <=? N_of_ascii c) && (N_of_ascii c <=? N_of_ascii hi).

(** [detail::hex_nibble]; [None] is the [-1] of the code. *)
Definition hex_nibble (c : ascii) : option N :=
  if char_between "0" c "9" then Some (N_of_ascii c - N_of_ascii "0")
  else if char_between "a" c "f" then Some (N_of_ascii c - N_of_ascii "a" + 10)
  else if char_between "A" c "F" then Some (N_of_ascii c - N_of_ascii "A" + 10)
  else None.

Definition is_valid_hex (s : string) : bool :=
  if (String.length s =? 0)%nat || (32 <? String.length s)%nat then false
  else forallb (λ c, char_between "0" c "9" || char_between "a" c "f"
                     || char_between "A" c "F")
               (String.list_ascii_of_string s).

Definition uuid128_to_hex (u : uuid128) : string :=
  String.string_of_list_ascii
    (concat ((λ b, [hex_digit (N.shiftr (byte_to_N b) 4);
                    hex_digit (N.land (byte_to_N b) 0x0F)]) <$> vec_to_list (bytes u))).

Definition uuid128_to_display (u : uuid128) : string :=
  let h := uuid128_to_hex u in
  let piece i n := String.substring i n h in
  piece 0%nat 8%nat +:+ "-" +:+ piece 8%nat 4%nat +:+ "-" +:+ piece 12%nat 4%nat
    +:+ "-" +:+ piece 16%nat 4%nat +:+ "-" +:+ piece 20%nat 12%nat.

(** [(hi << 4) | lo] cast to a byte. The [-1] of [hex_nibble] cannot occur
    after [is_valid_hex]; it would be all ones, written here as 255. *)
Definition hex_byte (hi lo : ascii) : byte :=
  byte_of_N (N.lor (N.shiftl (default 255 (hex_nibble hi)) 4)
                   (default 255 (hex_nibble lo))).

Definition uuid128_from_hex (s : string) : uuid128 :=
  if is_valid_hex s then
    let full := replicate (32 - String.length s) "0"%char ++ String.list_ascii_of_string s in
    Uuid128 (fun_to_vec (λ i : fin 16,
      hex_byte (default "0"%char (full !! (2 * fin_to_nat i)%nat))
               (default "0"%char (full !! (2 * fin_to_nat i + 1)%nat))))
  else uuid128_zero.

(** ** Generation from a 64-bit random engine

    The engine ([std::mt19937_64] in the code) is a state with one
    operation, [rng()], that yields a word and the next state. *)
Section generate.
  Context {Rng : Type} (rng_next : Rng → N * Rng).

Fixpoint draw_bytes (n : nat) (rng : Rng) : vec byte n * Rng :=
  match n with
  | O => ([#], rng)
  | S n =>
      let '(w, rng) := rng_next rng in
      let '(v, rng) := draw_bytes n rng in
      (byte_of_N (N.land w 0xFF) ::: v, rng)
  end.

(** [u.bytes[i] = (u.bytes[i] & keep) | set]. *)
Definition mask_byte (i : fin 16) (keep set : N) (v : vec byte 16) : vec byte 16 :=
  vinsert i (byte_of_N (N.lor (N.land (byte_to_N (v !!! i)) keep) set)) v.

Definition uuid128_generate (rng : Rng) : uuid128 * Rng :=
  let '(v, rng) := draw_bytes 16 rng in
  (Uuid128 (mask_byte 8%fin 0x3F 0x80 (mask_byte 6%fin 0x0F 0x40 v)), rng).
End generate.

(** ** Strongly typed identities: the tag is a phantom parameter, so two
    identities of different tags are not interchangeable. *)
Variant IdTag :=
  FailureIdTag | RequestIdTag | WorkloadIdTag | AttemptIdTag | DispatchIdTag
| WorkerIdTag | WorkerBootIdTag | NodeIdTag | DeviceIdTag | ReplicaIdTag
| ReservationIdTag | AllocationIdTag | TransferIdTag | RecoveryIdTag
| RecoveryPlanIdTag | CompensationIdTag | OperationIdTag | DependencyIdTag.

Record Id (tag : IdTag) := MkId { raw : uuid128 }.
Arguments MkId {tag} raw.
Arguments raw {tag} i.

#[export] Instance Id_eq_dec tag : EqDecision (Id tag).
Proof. intros [a] [b]. destruct (decide (a = b)); [left; by subst | right; congruence]. Defined.

#[export] Instance Id_countable tag : Countable (Id tag).
Proof. apply (inj_countable' raw MkId). by intros []. Defined.

Definition is_null {tag} (i : Id tag) : bool := is_zero (raw i).

(** The default-constructed identity. *)
Definition null_id {tag} : Id tag := MkId uuid128_zero.

Abbreviation FailureId := (Id FailureIdTag).
Abbreviation RequestId := (Id RequestIdTag).
Abbreviation WorkloadId := (Id WorkloadIdTag).
Abbreviation AttemptId := (Id AttemptIdTag).
Abbreviation DispatchId := (Id DispatchIdTag).
Abbreviation WorkerId := (Id WorkerIdTag).
Abbreviation WorkerBootId := (Id WorkerBootIdTag).
Abbreviation NodeId := (Id NodeIdTag).
Abbreviation DeviceId := (Id DeviceIdTag).
Abbreviation RecoveryPlanId := (Id RecoveryPlanIdTag).
Abbreviation CompensationId := (Id CompensationIdTag).
Abbreviation OperationId := (Id OperationIdTag).

(** ** Generations: 64-bit counters; [next] wraps around. *)
Record Generation := MkGeneration { value : N }.

#[export] Instance Generation_eq_dec : EqDecision Generation.
Proof. solve_decision. Defined.

Abbreviation CoordinatorEpoch := Generation.
Abbreviation AttemptGeneration := Generation.
Abbreviation OperationGeneration := Generation.
Abbreviation FailureGeneration := Generation.
Abbreviation RecoveryGeneration := Generation.

Definition gen_ltb (a b : Generation) : bool := value a <? value b.
Definition gen_leb (a b : Generation) : bool := value a <=? value b.
Definition is_unset (g : Generation) : bool := value g =? 0.
Definition next (g : Generation) : Generation := MkGeneration (wrap 64 (value g + 1)).

(** The default-constructed generation. *)
Definition gen0 : Generation := MkGeneration 0.

(** ** Equality and order *)
Lemma bytes_eq_spec n (v k : vec byte n) :
  bytes_eq v k = true ↔ v = k.
Proof.
  induction v as [|b n v IH]; inv_vec k; [done|].
  intros c k. cbn [vec_to_list bytes_eq]. destruct (byte_to_N b =? byte_to_N c) eqn:E; bool_simp.
  - apply byte_to_N_inj in E as ->. rewrite IH. split; [by intros -> | ].
    intros H. by apply Vector.cons_inj in H as [_ H].
  - split; [done|]. intros H. apply Vector.cons_inj in H as [-> _]. done.
Qed.

Lemma uuid_eqb_spec a b : uuid_eqb a b = true ↔ a = b.
Proof.
  destruct a as [v], b as [k]. unfold uuid_eqb. cbn [bytes]. rewrite bytes_eq_spec.
  split; congruence.
Qed.

Lemma bytes_lt_irrefl l : bytes_lt l l = false.
Proof. induction l; [done|]. cbn. by rewrite N.eqb_refl. Qed.

Lemma bytes_lt_trans l1 l2 l3 :
  bytes_lt l1 l2 = true → bytes_lt l2 l3 = true → bytes_lt l1 l3 = true.
Proof.
  revert l2 l3. induction l1 as [|a l1 IH]; intros [|b l2] [|c l3]; try done. cbn.
  intros H1 H2.
  destruct (byte_to_N a =? byte_to_N b) eqn:E1, (byte_to_N b =? byte_to_N c) eqn:E2,
    (byte_to_N a =? byte_to_N c) eqn:E3; bool_simp;
    try (apply N.ltb_lt); try lia; eauto.
Qed.

Lemma bytes_lt_total n (v k : vec byte n) :
  bytes_lt v k = true ∨ v = k ∨ bytes_lt k v = true.
Proof.
  induction v as [|b n v IH]; inv_vec k; [auto|].
  intros c k. cbn [vec_to_list bytes_lt]. rewrite (N.eqb_sym (byte_to_N c)).
  destruct (byte_to_N b =? byte_to_N c) eqn:E; bool_simp.
  - apply byte_to_N_inj in E as ->. destruct (IH k) as [?|[->|?]]; auto.
  - rewrite !N.ltb_lt. lia.
Qed.

(** [operator<] on identities is a strict total order compatible with
    [operator==]. *)
Lemma uuid_ltb_strict_total :
  (∀ a, uuid_ltb a a = false) ∧
  (∀ a b c, uuid_ltb a b = true → uuid_ltb b c = true → uuid_ltb a c = true) ∧
  (∀ a b, uuid_ltb a b = true ∨ uuid_eqb a b = true ∨ uuid_ltb b a = true).
Proof.
  split_and!.
  - intros a. apply bytes_lt_irrefl.
  - intros a b c. apply bytes_lt_trans.
  - intros a b. rewrite uuid_eqb_spec. destruct a as [v], b as [k]. unfold uuid_ltb. cbn [bytes].
    destruct (bytes_lt_total _ v k) as [?|[->|?]]; auto.
Qed.

Lemma is_zero_spec u : is_zero u = true ↔ u = uuid128_zero.
Proof.
  destruct u as [v]. unfold is_zero, uuid128_zero. cbn [bytes].
  assert (∀ n (v : vec byte n),
    forallb (λ b, byte_to_N b =? 0) v = true ↔ v = vreplicate n Byte.x00) as H.
  { clear v. intros n v. induction v as [|b n v IH]; [done|]. cbn.
    rewrite andb_true_iff, N.eqb_eq, IH. split.
    - intros [Hb ->]. by rewrite (byte_to_N_inj b Byte.x00 Hb).
    - intros E. apply Vector.cons_inj in E as [-> ->]. done. }
  rewrite H. split; congruence.
Qed.

Lemma is_null_spec {tag} (i : Id tag) : is_null i = true ↔ i = null_id.
Proof. destruct i as [u]. unfold is_null, null_id. cbn. rewrite is_zero_spec. split; congruence. Qed.

Lemma is_null_false {tag} (i : Id tag) : is_null i = false ↔ i ≠ null_id.
Proof. rewrite <- is_null_spec. destruct (is_null i); naive_solver. Qed.

(** ** Hexadecimal round trip *)
Definition hex_pair (b : byte) : list ascii :=
  [hex_digit (N.shiftr (byte_to_N b) 4); hex_digit (N.land (byte_to_N b) 0x0F)].

Lemma hex_byte_pair b :
  hex_byte (hex_digit (N.shiftr (byte_to_N b) 4)) (hex_digit (N.land (byte_to_N b) 0x0F)) = b.
Proof. destruct b; reflexivity. Qed.

Lemma hex_pair_valid b :
  forallb (λ c, char_between "0" c "9" || char_between "a" c "f" || char_between "A" c "F")
          (hex_pair b) = true.
Proof. destruct b; reflexivity. Qed.

Lemma length_list_ascii s : length (String.list_ascii_of_string s) = String.length s.
Proof. induction s; cbn; congruence. Qed.

Lemma uuid128_to_hex_chars u :
  String.list_ascii_of_string (uuid128_to_hex u) = concat (hex_pair <$> vec_to_list (bytes u)).
Proof. apply String.list_ascii_of_string_of_list_ascii. Qed.

Lemma length_uuid128_to_hex u : String.length (uuid128_to_hex u) = 32%nat.
Proof.
  rewrite <- length_list_ascii, uuid128_to_hex_chars. destruct u as [v].
  by inv_all_vec_fin.
Qed.

Lemma is_valid_hex_to_hex u : is_valid_hex (uuid128_to_hex u) = true.
Proof.
  unfold is_valid_hex. rewrite length_uuid128_to_hex, uuid128_to_hex_chars. cbn [orb Nat.eqb Nat.ltb Nat.leb].
  induction (vec_to_list (bytes u)) as [|b l IH]; [done|].
  cbn [fmap list_fmap concat]. rewrite forallb_app, IH. by rewrite hex_pair_valid.
Qed.

Lemma hex_bytes_vec n (v : vec byte n) (i : fin n) :
  hex_byte (default "0"%char (concat (hex_pair <$> vec_to_list v) !! (2 * fin_to_nat i)%nat))
           (default "0"%char (concat (hex_pair <$> vec_to_list v) !! (2 * fin_to_nat i + 1)%nat))
  = v !!! i.
Proof.
  induction v as [|b n v IH]; inv_fin i; [apply hex_byte_pair|].
  intros i. transitivity (v !!! i); [rewrite <- IH | done]. cbn [fin_to_nat].
  by replace (2 * S i)%nat with (S (S (2 * i)))%nat by lia.
Qed.

(** Parsing the hexadecimal form of an identity gives the identity back. *)
Lemma uuid128_from_to_hex u : uuid128_from_hex (uuid128_to_hex u) = u.
Proof.
  unfold uuid128_from_hex. rewrite is_valid_hex_to_hex, length_uuid128_to_hex, uuid128_to_hex_chars.
  destruct u as [v]. f_equal. apply vec_eq. intros i.
  rewrite lookup_fun_to_vec. apply hex_bytes_vec.
Qed.

(** ** Generated identities *)
Section generate_facts.
  Context {Rng : Type} (rng_next : Rng → N * Rng).

Lemma uuid128_generate_bytes rng :
  ∃ v, bytes (uuid128_generate rng_next rng).1
       = mask_byte 8%fin 0x3F 0x80 (mask_byte 6%fin 0x0F 0x40 v).
Proof.
  unfold uuid128_generate. destruct (draw_bytes rng_next 16 rng) as [v r]. by exists v.
Qed.

Lemma mask_version b : N.land (byte_to_N (byte_of_N (N.lor (N.land (byte_to_N b) 0x0F) 0x40))) 0xF0 = 0x40.
Proof. destruct b; reflexivity. Qed.

Lemma mask_variant b : N.land (byte_to_N (byte_of_N (N.lor (N.land (byte_to_N b) 0x3F) 0x80))) 0xC0 = 0x80.
Proof. destruct b; reflexivity. Qed.

(** Version nibble 4 and variant bits 10, whatever the engine yields. *)
Lemma uuid128_generate_version rng :
  let v := bytes (uuid128_generate rng_next rng).1 in
  N.land (byte_to_N (v !!! 6%fin)) 0xF0 = 0x40 ∧ N.land (byte_to_N (v !!! 8%fin)) 0xC0 = 0x80.
Proof.
  destruct (uuid128_generate_bytes rng) as [v ->]. unfold mask_byte. split.
  - rewrite vlookup_insert_ne by done. rewrite vlookup_insert. apply mask_version.
  - rewrite vlookup_insert. apply mask_variant.
Qed.

Lemma uuid128_generate_nonzero rng : is_zero (uuid128_generate rng_next rng).1 = false.
Proof.
  destruct (is_zero _) eqn:E; [|done]. apply is_zero_spec in E.
  destruct (uuid128_generate_version rng) as [H _]. by rewrite E in H.
Qed.
End generate_facts.

(** ** Generations *)
Lemma next_value g : fits 64 (value g + 1) → value (next g) = value g + 1.
Proof. intros H. cbn. by apply wrap_small. Qed.

Lemma next_lt g : value g + 1 < 2 ^ 64 → gen_ltb g (next g) = true.
Proof. intros H. unfold gen_ltb. rewrite next_value by done. apply N.ltb_lt. lia. Qed.

(** The last generation wraps around to the unset one. *)
Lemma next_wraps : next (MkGeneration (2 ^ 64 - 1)) = gen0.
Proof. reflexivity. Qed.

#[export] Hint Resolve next_lt uuid128_generate_nonzero : ff.

(** C40: every identity survives its hexadecimal form, which has 32 valid
    digits, and a generated identity, whatever the random engine yields, is
    never null and carries version 4 and the RFC variant. *)
Theorem identity_hex_and_generation {Rng} (rng_next : Rng → N * Rng) rng :
  (∀ u, uuid128_from_hex (uuid128_to_hex u) = u ∧ is_valid_hex (uuid128_to_hex u) = true ∧
        String.length (uuid128_to_hex u) = 32%nat) ∧
  (let u := (uuid128_generate rng_next rng).1 in
   is_zero u = false ∧
   N.land (byte_to_N (bytes u !!! 6%fin)) 0xF0 = 0x40 ∧
   N.land (byte_to_N (bytes u !!! 8%fin)) 0xC0 = 0x80).
Proof.
  split.
  - intros u. auto using uuid128_from_to_hex, is_valid_hex_to_hex, length_uuid128_to_hex.
  - split; [apply uuid128_generate_nonzero|apply uuid128_generate_version].
Qed.
