(* ===== verification/Enums.v ===== *)
(** * Classification dimensions ([include/failure_fabric/enum.hpp], [src/enum.cpp])

    One module per [enum class], with the enumerators in the source's order
    (so that the underlying [uint32_t] value is the position), the
    [to_string] table, and the [from_string] table where the code has one.
    The class [CEnum] is what the binary codec relies on: the conversion to
    the underlying integer and the checked conversion back are inverse. *)
From S2P Require Import Prelude.

Local Open Scope N_scope.

(** ** Enumerations with consecutive underlying values *)
Class CEnum (E : Type) `{EqDecision E} := {
  enum_values : list E;
  enum_values_nodup : NoDup enum_values;
  enum_values_all e : e ∈ enum_values;
}.
Arguments enum_values E {_ _}.

(** [static_cast<uint32_t>(e)]. *)
Definition enum_to_u32 `{CEnum E} (e : E) : N :=
  match list_find (e =.) (enum_values E) with
  | Some (i, _) => N.of_nat i
  | None => 0
  end.

(** [static_cast<E>(n)] for an [n] that names an enumerator. *)
Definition enum_of_u32 E `{CEnum E} (n : N) : option E :=
  enum_values E !! N.to_nat n.

(** The number of enumerators. *)
Definition enum_count E `{CEnum E} : N := N.of_nat (length (enum_values E)).

Lemma enum_to_u32_lookup `{CEnum E} (e : E) :
  enum_values E !! N.to_nat (enum_to_u32 e) = Some e.
Proof.
  unfold enum_to_u32. destruct (list_find (e =.) (enum_values E)) as [[i x]|] eqn:F.
  - apply list_find_Some in F as (Hi & -> & _). by rewrite Nat2N.id.
  - rewrite list_find_None, Forall_forall in F.
    exfalso. by apply (F e (enum_values_all e)).
Qed.

Lemma enum_of_to_u32 `{CEnum E} (e : E) : enum_of_u32 E (enum_to_u32 e) = Some e.
Proof. apply enum_to_u32_lookup. Qed.

Lemma enum_to_of_u32 `{CEnum E} n (e : E) : enum_of_u32 E n = Some e → enum_to_u32 e = n.
Proof.
  intros He. pose proof (enum_to_u32_lookup e) as Hi.
  pose proof (NoDup_lookup _ _ _ _ enum_values_nodup He Hi). lia.
Qed.

Lemma enum_to_u32_lt `{CEnum E} (e : E) : enum_to_u32 e < enum_count E.
Proof.
  pose proof (enum_to_u32_lookup e) as Hi. apply lookup_lt_Some in Hi.
  unfold enum_count. lia.
Qed.

Lemma enum_of_u32_None E `{CEnum E} n : enum_of_u32 E n = None ↔ enum_count E <= n.
Proof. unfold enum_of_u32, enum_count. rewrite lookup_ge_None. lia. Qed.

Lemma enum_to_u32_inj `{CEnum E} (a b : E) : enum_to_u32 a = enum_to_u32 b → a = b.
Proof.
  intros H1. pose proof (enum_of_to_u32 a) as Ha. rewrite H1, enum_of_to_u32 in Ha. congruence.
Qed.

(** Proves the laws of an enumeration by evaluation. *)
Ltac solve_enum :=
  match goal with
  | |- NoDup _ => apply (bool_decide_unpack _); vm_compute; exact I
  | |- ∀ e, _ => intros []; apply (bool_decide_unpack _); vm_compute; exact I
  end.

(** The first entry whose key is [s]: the [if] chains of [from_string]. *)
Fixpoint assoc_string {E} (s : string) (table : list (string * E)) : option E :=
  match table with
  | [] => None
  | (name, e) :: table => if decide (s = name) then Some e else assoc_string s table
  end.

(** ** [FailureClass] *)
Module FailureClass.
Variant t :=
  | TRANSIENT | PERMANENT | RETRYABLE | NON_RETRYABLE | AMBIGUOUS | PARTIAL_SUCCESS
  | STALE_AUTHORITY | LOST_WORKER | LOST_DEVICE | TRANSPORT_FAILURE | TIMEOUT_OBSERVED
  | PROTOCOL_FAILURE | RESOURCE_EXHAUSTION | CORRUPTION | VALIDATION_FAILURE
  | INCOMPATIBILITY | CANCELLED | PREEMPTED | DEPENDENCY_FAILURE | STORAGE_FAILURE
  | EXECUTION_FAILURE | RECOVERY_FAILURE | UNKNOWN.

#[global] Instance eq_dec : EqDecision t.
Proof. solve_decision. Defined.

#[global] Program Instance enum : CEnum t := {|
  enum_values := [TRANSIENT; PERMANENT; RETRYABLE; NON_RETRYABLE; AMBIGUOUS; PARTIAL_SUCCESS;
    STALE_AUTHORITY; LOST_WORKER; LOST_DEVICE; TRANSPORT_FAILURE; TIMEOUT_OBSERVED;
    PROTOCOL_FAILURE; RESOURCE_EXHAUSTION; CORRUPTION; VALIDATION_FAILURE;
    INCOMPATIBILITY; CANCELLED; PREEMPTED; DEPENDENCY_FAILURE; STORAGE_FAILURE;
    EXECUTION_FAILURE; RECOVERY_FAILURE; UNKNOWN] |}.
Solve All Obligations with solve_enum.

Definition to_string (v : t) : string :=
  match v with
  | TRANSIENT => "TRANSIENT"
  | PERMANENT => "PERMANENT"
  | RETRYABLE => "RETRYABLE"
  | NON_RETRYABLE => "NON_RETRYABLE"
  | AMBIGUOUS => "AMBIGUOUS"
  | PARTIAL_SUCCESS => "PARTIAL_SUCCESS"
  | STALE_AUTHORITY => "STALE_AUTHORITY"
  | LOST_WORKER => "LOST_WORKER"
  | LOST_DEVICE => "LOST_DEVICE"
  | TRANSPORT_FAILURE => "TRANSPORT_FAILURE"
  | TIMEOUT_OBSERVED => "TIMEOUT_OBSERVED"
  | PROTOCOL_FAILURE => "PROTOCOL_FAILURE"
  | RESOURCE_EXHAUSTION => "RESOURCE_EXHAUSTION"
  | CORRUPTION => "CORRUPTION"
  | VALIDATION_FAILURE => "VALIDATION_FAILURE"
  | INCOMPATIBILITY => "INCOMPATIBILITY"
  | CANCELLED => "CANCELLED"
  | PREEMPTED => "PREEMPTED"
  | DEPENDENCY_FAILURE => "DEPENDENCY_FAILURE"
  | STORAGE_FAILURE => "STORAGE_FAILURE"
  | EXECUTION_FAILURE => "EXECUTION_FAILURE"
  | RECOVERY_FAILURE => "RECOVERY_FAILURE"
  | UNKNOWN => "UNKNOWN"
  end.

Definition from_string (s : string) : option t :=
  assoc_string s [
    ("TRANSIENT", TRANSIENT);
    ("PERMANENT", PERMANENT);
    ("RETRYABLE", RETRYABLE);
    ("NON_RETRYABLE", NON_RETRYABLE);
    ("AMBIGUOUS", AMBIGUOUS);
    ("PARTIAL_SUCCESS", PARTIAL_SUCCESS);
    ("STALE_AUTHORITY", STALE_AUTHORITY);
    ("LOST_WORKER", LOST_WORKER);
    ("LOST_DEVICE", LOST_DEVICE);
    ("TRANSPORT_FAILURE", TRANSPORT_FAILURE);
    ("TIMEOUT_OBSERVED", TIMEOUT_OBSERVED);
    ("PROTOCOL_FAILURE", PROTOCOL_FAILURE);
    ("RESOURCE_EXHAUSTION", RESOURCE_EXHAUSTION);
    ("CORRUPTION", CORRUPTION);
    ("VALIDATION_FAILURE", VALIDATION_FAILURE);
    ("INCOMPATIBILITY", INCOMPATIBILITY);
    ("CANCELLED", CANCELLED);
    ("PREEMPTED", PREEMPTED);
    ("DEPENDENCY_FAILURE", DEPENDENCY_FAILURE);
    ("STORAGE_FAILURE", STORAGE_FAILURE);
    ("EXECUTION_FAILURE", EXECUTION_FAILURE);
    ("RECOVERY_FAILURE", RECOVERY_FAILURE);
    ("UNKNOWN", UNKNOWN)].
End FailureClass.

(** ** [FailureOrigin] *)
Module FailureOrigin.
Variant t :=
  | COORDINATOR | WORKER | STORAGE | TRANSPORT | DEVICE | PROTOCOL | RESOURCE
  | VALIDATION | SCHEDULER | EXTERNAL | UNKNOWN.

#[global] Instance eq_dec : EqDecision t.
Proof. solve_decision. Defined.

#[global] Program Instance enum : CEnum t := {|
  enum_values := [COORDINATOR; WORKER; STORAGE; TRANSPORT; DEVICE; PROTOCOL; RESOURCE; VALIDATION;
    SCHEDULER; EXTERNAL; UNKNOWN] |}.
Solve All Obligations with solve_enum.

Definition to_string (v : t) : string :=
  match v with
  | COORDINATOR => "COORDINATOR"
  | WORKER => "WORKER"
  | STORAGE => "STORAGE"
  | TRANSPORT => "TRANSPORT"
  | DEVICE => "DEVICE"
  | PROTOCOL => "PROTOCOL"
  | RESOURCE => "RESOURCE"
  | VALIDATION => "VALIDATION"
  | SCHEDULER => "SCHEDULER"
  | EXTERNAL => "EXTERNAL"
  | UNKNOWN => "UNKNOWN"
  end.
End FailureOrigin.

(** ** [Severity] *)
Module Severity.
Variant t :=
  | INFO | WARNING | ERROR | CRITICAL.

#[global] Instance eq_dec : EqDecision t.
Proof. solve_decision. Defined.

#[global] Program Instance enum : CEnum t := {|
  enum_values := [INFO; WARNING; ERROR; CRITICAL] |}.
Solve All Obligations with solve_enum.

Definition to_string (v : t) : string :=
  match v with
  | INFO => "INFO"
  | WARNING => "WARNING"
  | ERROR => "ERROR"
  | CRITICAL => "CRITICAL"
  end.
End Severity.

(** ** [Retryability] *)
Module Retryability.
Variant t :=
  | RETRYABLE | NON_RETRYABLE | CONDITIONALLY_RETRYABLE | UNKNOWN.

#[global] Instance eq_dec : EqDecision t.
Proof. solve_decision. Defined.

#[global] Program Instance enum : CEnum t := {|
  enum_values := [RETRYABLE; NON_RETRYABLE; CONDITIONALLY_RETRYABLE; UNKNOWN] |}.
Solve All Obligations with solve_enum.

Definition to_string (v : t) : string :=
  match v with
  | RETRYABLE => "RETRYABLE"
  | NON_RETRYABLE => "NON_RETRYABLE"
  | CONDITIONALLY_RETRYABLE => "CONDITIONALLY_RETRYABLE"
  | UNKNOWN => "UNKNOWN"
  end.

Definition from_string (s : string) : option t :=
  assoc_string s [
    ("RETRYABLE", RETRYABLE);
    ("NON_RETRYABLE", NON_RETRYABLE);
    ("CONDITIONALLY_RETRYABLE", CONDITIONALLY_RETRYABLE);
    ("UNKNOWN", UNKNOWN)].
End Retryability.

(** ** [Ambiguity] *)
Module Ambiguity.
Variant t :=
  | KNOWN | PARTIAL | AMBIGUOUS | UNKNOWN_OUTCOME.

#[global] Instance eq_dec : EqDecision t.
Proof. solve_decision. Defined.

#[global] Program Instance enum : CEnum t := {|
  enum_values := [KNOWN; PARTIAL; AMBIGUOUS; UNKNOWN_OUTCOME] |}.
Solve All Obligations with solve_enum.

Definition to_string (v : t) : string :=
  match v with
  | KNOWN => "KNOWN"
  | PARTIAL => "PARTIAL"
  | AMBIGUOUS => "AMBIGUOUS"
  | UNKNOWN_OUTCOME => "UNKNOWN_OUTCOME"
  end.

Definition from_string (s : string) : option t :=
  assoc_string s [
    ("KNOWN", KNOWN);
    ("PARTIAL", PARTIAL);
    ("AMBIGUOUS", AMBIGUOUS);
    ("UNKNOWN_OUTCOME", UNKNOWN_OUTCOME)].
End Ambiguity.

(** ** [SideEffectState] *)
Module SideEffectState.
Variant t :=
  | NONE_POSSIBLE | KNOWN_NOT_OCCURRED | MAY_OCCURRED | KNOWN_OCCURRED | UNKNOWN.

#[global] Instance eq_dec : EqDecision t.
Proof. solve_decision. Defined.

#[global] Program Instance enum : CEnum t := {|
  enum_values := [NONE_POSSIBLE; KNOWN_NOT_OCCURRED; MAY_OCCURRED; KNOWN_OCCURRED; UNKNOWN] |}.
Solve All Obligations with solve_enum.

Definition to_string (v : t) : string :=
  match v with
  | NONE_POSSIBLE => "NONE_POSSIBLE"
  | KNOWN_NOT_OCCURRED => "KNOWN_NOT_OCCURRED"
  | MAY_OCCURRED => "MAY_OCCURRED"
  | KNOWN_OCCURRED => "KNOWN_OCCURRED"
  | UNKNOWN => "UNKNOWN"
  end.
End SideEffectState.

(** ** [AuthorityStatus] *)
Module AuthorityStatus.
Variant t :=
  | AUTHORITATIVE | STALE | FENCED | SUPERSEDED | UNKNOWN.

#[global] Instance eq_dec : EqDecision t.
Proof. solve_decision. Defined.

#[global] Program Instance enum : CEnum t := {|
  enum_values := [AUTHORITATIVE; STALE; FENCED; SUPERSEDED; UNKNOWN] |}.
Solve All Obligations with solve_enum.

Definition to_string (v : t) : string :=
  match v with
  | AUTHORITATIVE => "AUTHORITATIVE"
  | STALE => "STALE"
  | FENCED => "FENCED"
  | SUPERSEDED => "SUPERSEDED"
  | UNKNOWN => "UNKNOWN"
  end.
End AuthorityStatus.

(** ** [RollbackRequirement] *)
Module RollbackRequirement.
Variant t :=
  | NONE | OPTIONAL | REQUIRED | UNAVAILABLE.

#[global] Instance eq_dec : EqDecision t.
Proof. solve_decision. Defined.

#[global] Program Instance enum : CEnum t := {|
  enum_values := [NONE; OPTIONAL; REQUIRED; UNAVAILABLE] |}.
Solve All Obligations with solve_enum.

Definition to_string (v : t) : string :=
  match v with
  | NONE => "NONE"
  | OPTIONAL => "OPTIONAL"
  | REQUIRED => "REQUIRED"
  | UNAVAILABLE => "UNAVAILABLE"
  end.
End RollbackRequirement.

(** ** [CompensationRequirement] *)
Module CompensationRequirement.
Variant t :=
  | NONE | OPTIONAL | REQUIRED.

#[global] Instance eq_dec : EqDecision t.
Proof. solve_decision. Defined.

#[global] Program Instance enum : CEnum t := {|
  enum_values := [NONE; OPTIONAL; REQUIRED] |}.
Solve All Obligations with solve_enum.

Definition to_string (v : t) : string :=
  match v with
  | NONE => "NONE"
  | OPTIONAL => "OPTIONAL"
  | REQUIRED => "REQUIRED"
  end.
End CompensationRequirement.

(** ** [RecoveryOwner] *)
Module RecoveryOwner.
Variant t :=
  | COORDINATOR | ORIGINAL_WORKER | REPLACEMENT_WORKER | REPLICA_MANAGER
  | STORAGE_SUBSYSTEM | TRANSFER_SUBSYSTEM | OPERATOR | EXTERNAL_SYSTEM | NONE.

#[global] Instance eq_dec : EqDecision t.
Proof. solve_decision. Defined.

#[global] Program Instance enum : CEnum t := {|
  enum_values := [COORDINATOR; ORIGINAL_WORKER; REPLACEMENT_WORKER; REPLICA_MANAGER; STORAGE_SUBSYSTEM;
    TRANSFER_SUBSYSTEM; OPERATOR; EXTERNAL_SYSTEM; NONE] |}.
Solve All Obligations with solve_enum.

Definition to_string (v : t) : string :=
  match v with
  | COORDINATOR => "COORDINATOR"
  | ORIGINAL_WORKER => "ORIGINAL_WORKER"
  | REPLACEMENT_WORKER => "REPLACEMENT_WORKER"
  | REPLICA_MANAGER => "REPLICA_MANAGER"
  | STORAGE_SUBSYSTEM => "STORAGE_SUBSYSTEM"
  | TRANSFER_SUBSYSTEM => "TRANSFER_SUBSYSTEM"
  | OPERATOR => "OPERATOR"
  | EXTERNAL_SYSTEM => "EXTERNAL_SYSTEM"
  | NONE => "NONE"
  end.

Definition from_string (s : string) : option t :=
  assoc_string s [
    ("COORDINATOR", COORDINATOR);
    ("ORIGINAL_WORKER", ORIGINAL_WORKER);
    ("REPLACEMENT_WORKER", REPLACEMENT_WORKER);
    ("REPLICA_MANAGER", REPLICA_MANAGER);
    ("STORAGE_SUBSYSTEM", STORAGE_SUBSYSTEM);
    ("TRANSFER_SUBSYSTEM", TRANSFER_SUBSYSTEM);
    ("OPERATOR", OPERATOR);
    ("EXTERNAL_SYSTEM", EXTERNAL_SYSTEM);
    ("NONE", NONE)].
End RecoveryOwner.

(** ** [Terminality] *)
Module Terminality.
Variant t :=
  | TERMINAL | TRANSIENT | PENDING | UNKNOWN.

#[global] Instance eq_dec : EqDecision t.
Proof. solve_decision. Defined.

#[global] Program Instance enum : CEnum t := {|
  enum_values := [TERMINAL; TRANSIENT; PENDING; UNKNOWN] |}.
Solve All Obligations with solve_enum.

Definition to_string (v : t) : string :=
  match v with
  | TERMINAL => "TERMINAL"
  | TRANSIENT => "TRANSIENT"
  | PENDING => "PENDING"
  | UNKNOWN => "UNKNOWN"
  end.
End Terminality.

(** ** [Provenance] *)
Module Provenance.
Variant t :=
  | FAILURE_FABRIC | WORKER_REPORT | COORDINATOR_INFERENCE | OPERATOR | EXTERNAL_SYSTEM
  | SYSTEM_HEURISTIC | UNKNOWN.

#[global] Instance eq_dec : EqDecision t.
Proof. solve_decision. Defined.

#[global] Program Instance enum : CEnum t := {|
  enum_values := [FAILURE_FABRIC; WORKER_REPORT; COORDINATOR_INFERENCE; OPERATOR; EXTERNAL_SYSTEM;
    SYSTEM_HEURISTIC; UNKNOWN] |}.
Solve All Obligations with solve_enum.

Definition to_string (v : t) : string :=
  match v with
  | FAILURE_FABRIC => "FAILURE_FABRIC"
  | WORKER_REPORT => "WORKER_REPORT"
  | COORDINATOR_INFERENCE => "COORDINATOR_INFERENCE"
  | OPERATOR => "OPERATOR"
  | EXTERNAL_SYSTEM => "EXTERNAL_SYSTEM"
  | SYSTEM_HEURISTIC => "SYSTEM_HEURISTIC"
  | UNKNOWN => "UNKNOWN"
  end.
End Provenance.

(** ** [FailurePhase] *)
Module FailurePhase.
Variant t :=
  | SUBMIT | DISPATCH | EXECUTE | TRANSFER | STORE | COMMIT | ACK | RECOVERY
  | POST_RECOVERY | UNKNOWN.

#[global] Instance eq_dec : EqDecision t.
Proof. solve_decision. Defined.

#[global] Program Instance enum : CEnum t := {|
  enum_values := [SUBMIT; DISPATCH; EXECUTE; TRANSFER; STORE; COMMIT; ACK; RECOVERY; POST_RECOVERY;
    UNKNOWN] |}.
Solve All Obligations with solve_enum.

Definition to_string (v : t) : string :=
  match v with
  | SUBMIT => "SUBMIT"
  | DISPATCH => "DISPATCH"
  | EXECUTE => "EXECUTE"
  | TRANSFER => "TRANSFER"
  | STORE => "STORE"
  | COMMIT => "COMMIT"
  | ACK => "ACK"
  | RECOVERY => "RECOVERY"
  | POST_RECOVERY => "POST_RECOVERY"
  | UNKNOWN => "UNKNOWN"
  end.
End FailurePhase.

(** ** [OperationState] *)
Module OperationState.
(** [UNNAMED k] is the value [20 + k] of the underlying type, which names no
    enumerator; only a [static_cast] of a decoded integer produces one. *)
Variant t :=
  | CREATED | DISPATCHED | RUNNING | COMPLETION_REPORTED | COMPLETION_CONFIRMED
  | FAILED_KNOWN | FAILED_AMBIGUOUS | PARTIALLY_SUCCEEDED | RETRY_PENDING | RETRYING
  | ROLLBACK_PENDING | ROLLING_BACK | COMPENSATION_PENDING | COMPENSATING
  | RECOVERY_PENDING | RECOVERING | RECOVERED | TERMINAL_FAILED | CANCELLED | ABANDONED
  | UNNAMED (k : N).

#[global] Instance eq_dec : EqDecision t.
Proof. solve_decision. Defined.

(** The enumerators, in order. *)
Definition named : list t :=
  [CREATED; DISPATCHED; RUNNING; COMPLETION_REPORTED; COMPLETION_CONFIRMED; FAILED_KNOWN;
   FAILED_AMBIGUOUS; PARTIALLY_SUCCEEDED; RETRY_PENDING; RETRYING; ROLLBACK_PENDING;
   ROLLING_BACK; COMPENSATION_PENDING; COMPENSATING; RECOVERY_PENDING; RECOVERING;
   RECOVERED; TERMINAL_FAILED; CANCELLED; ABANDONED].

(** [static_cast<uint32_t>] and [static_cast<OperationState>]. *)
Definition to_u32 (s : t) : N :=
  match s with
  | CREATED => 0
  | DISPATCHED => 1
  | RUNNING => 2
  | COMPLETION_REPORTED => 3
  | COMPLETION_CONFIRMED => 4
  | FAILED_KNOWN => 5
  | FAILED_AMBIGUOUS => 6
  | PARTIALLY_SUCCEEDED => 7
  | RETRY_PENDING => 8
  | RETRYING => 9
  | ROLLBACK_PENDING => 10
  | ROLLING_BACK => 11
  | COMPENSATION_PENDING => 12
  | COMPENSATING => 13
  | RECOVERY_PENDING => 14
  | RECOVERING => 15
  | RECOVERED => 16
  | TERMINAL_FAILED => 17
  | CANCELLED => 18
  | ABANDONED => 19
  | UNNAMED k => 20 + k
  end.

Definition of_u32 (n : N) : t := default (UNNAMED (n - 20)) (named !! N.to_nat n).

Definition is_named (s : t) : bool :=
  match s with UNNAMED _ => false | _ => true end.

Definition to_string (v : t) : string :=
  match v with
  | CREATED => "CREATED"
  | DISPATCHED => "DISPATCHED"
  | RUNNING => "RUNNING"
  | COMPLETION_REPORTED => "COMPLETION_REPORTED"
  | COMPLETION_CONFIRMED => "COMPLETION_CONFIRMED"
  | FAILED_KNOWN => "FAILED_KNOWN"
  | FAILED_AMBIGUOUS => "FAILED_AMBIGUOUS"
  | PARTIALLY_SUCCEEDED => "PARTIALLY_SUCCEEDED"
  | RETRY_PENDING => "RETRY_PENDING"
  | RETRYING => "RETRYING"
  | ROLLBACK_PENDING => "ROLLBACK_PENDING"
  | ROLLING_BACK => "ROLLING_BACK"
  | COMPENSATION_PENDING => "COMPENSATION_PENDING"
  | COMPENSATING => "COMPENSATING"
  | RECOVERY_PENDING => "RECOVERY_PENDING"
  | RECOVERING => "RECOVERING"
  | RECOVERED => "RECOVERED"
  | TERMINAL_FAILED => "TERMINAL_FAILED"
  | CANCELLED => "CANCELLED"
  | ABANDONED => "ABANDONED"
  | UNNAMED _ => "UNKNOWN"
  end.

Definition from_string (s : string) : option t :=
  assoc_string s [
    ("CREATED", CREATED);
    ("DISPATCHED", DISPATCHED);
    ("RUNNING", RUNNING);
    ("COMPLETION_REPORTED", COMPLETION_REPORTED);
    ("COMPLETION_CONFIRMED", COMPLETION_CONFIRMED);
    ("FAILED_KNOWN", FAILED_KNOWN);
    ("FAILED_AMBIGUOUS", FAILED_AMBIGUOUS);
    ("PARTIALLY_SUCCEEDED", PARTIALLY_SUCCEEDED);
    ("RETRY_PENDING", RETRY_PENDING);
    ("RETRYING", RETRYING);
    ("ROLLBACK_PENDING", ROLLBACK_PENDING);
    ("ROLLING_BACK", ROLLING_BACK);
    ("RECOVERY_PENDING", RECOVERY_PENDING);
    ("RECOVERING", RECOVERING);
    ("RECOVERED", RECOVERED);
    ("TERMINAL_FAILED", TERMINAL_FAILED);
    ("CANCELLED", CANCELLED);
    ("ABANDONED", ABANDONED)].
End OperationState.

(** ** [RecoveryAction] *)
Module RecoveryAction.
Variant t :=
  | RETRY | RETRY_ELSEWHERE | RESTART_WORKER | RESTART_DEVICE_CONTEXT | RELOAD_STATE
  | REHYDRATE_STATE | FAILOVER_REPLICA | ROLLBACK | COMPENSATE | INVALIDATE | RECOMPUTE
  | ABANDON | ESCALATE | MANUAL_RESOLUTION.

#[global] Instance eq_dec : EqDecision t.
Proof. solve_decision. Defined.

#[global] Program Instance enum : CEnum t := {|
  enum_values := [RETRY; RETRY_ELSEWHERE; RESTART_WORKER; RESTART_DEVICE_CONTEXT; RELOAD_STATE;
    REHYDRATE_STATE; FAILOVER_REPLICA; ROLLBACK; COMPENSATE; INVALIDATE; RECOMPUTE;
    ABANDON; ESCALATE; MANUAL_RESOLUTION] |}.
Solve All Obligations with solve_enum.

Definition to_string (v : t) : string :=
  match v with
  | RETRY => "RETRY"
  | RETRY_ELSEWHERE => "RETRY_ELSEWHERE"
  | RESTART_WORKER => "RESTART_WORKER"
  | RESTART_DEVICE_CONTEXT => "RESTART_DEVICE_CONTEXT"
  | RELOAD_STATE => "RELOAD_STATE"
  | REHYDRATE_STATE => "REHYDRATE_STATE"
  | FAILOVER_REPLICA => "FAILOVER_REPLICA"
  | ROLLBACK => "ROLLBACK"
  | COMPENSATE => "COMPENSATE"
  | INVALIDATE => "INVALIDATE"
  | RECOMPUTE => "RECOMPUTE"
  | ABANDON => "ABANDON"
  | ESCALATE => "ESCALATE"
  | MANUAL_RESOLUTION => "MANUAL_RESOLUTION"
  end.

Definition from_string (s : string) : option t :=
  assoc_string s [
    ("RETRY", RETRY);
    ("RETRY_ELSEWHERE", RETRY_ELSEWHERE);
    ("RESTART_WORKER", RESTART_WORKER);
    ("RESTART_DEVICE_CONTEXT", RESTART_DEVICE_CONTEXT);
    ("RELOAD_STATE", RELOAD_STATE);
    ("REHYDRATE_STATE", REHYDRATE_STATE);
    ("FAILOVER_REPLICA", FAILOVER_REPLICA);
    ("ROLLBACK", ROLLBACK);
    ("COMPENSATE", COMPENSATE);
    ("INVALIDATE", INVALIDATE);
    ("RECOMPUTE", RECOMPUTE);
    ("ABANDON", ABANDON);
    ("ESCALATE", ESCALATE);
    ("MANUAL_RESOLUTION", MANUAL_RESOLUTION)].
End RecoveryAction.

(** ** [RollbackAction] *)
Module RollbackAction.
Variant t :=
  | RELEASE_RESERVATION | FREE_ALLOCATION | INVALIDATE_GENERATION | REVERT_METADATA
  | REMOVE_PARTIAL_STATE | RESTORE_SNAPSHOT | CANCEL_DEPENDENT
  | RELEASE_SERVING_AUTHORITY | MARK_ARTIFACT_INVALID | UNWIND_TRANSACTION.

#[global] Instance eq_dec : EqDecision t.
Proof. solve_decision. Defined.

#[global] Program Instance enum : CEnum t := {|
  enum_values := [RELEASE_RESERVATION; FREE_ALLOCATION; INVALIDATE_GENERATION; REVERT_METADATA;
    REMOVE_PARTIAL_STATE; RESTORE_SNAPSHOT; CANCEL_DEPENDENT; RELEASE_SERVING_AUTHORITY;
    MARK_ARTIFACT_INVALID; UNWIND_TRANSACTION] |}.
Solve All Obligations with solve_enum.

Definition to_string (v : t) : string :=
  match v with
  | RELEASE_RESERVATION => "RELEASE_RESERVATION"
  | FREE_ALLOCATION => "FREE_ALLOCATION"
  | INVALIDATE_GENERATION => "INVALIDATE_GENERATION"
  | REVERT_METADATA => "REVERT_METADATA"
  | REMOVE_PARTIAL_STATE => "REMOVE_PARTIAL_STATE"
  | RESTORE_SNAPSHOT => "RESTORE_SNAPSHOT"
  | CANCEL_DEPENDENT => "CANCEL_DEPENDENT"
  | RELEASE_SERVING_AUTHORITY => "RELEASE_SERVING_AUTHORITY"
  | MARK_ARTIFACT_INVALID => "MARK_ARTIFACT_INVALID"
  | UNWIND_TRANSACTION => "UNWIND_TRANSACTION"
  end.
End RollbackAction.

(** ** [ProtocolMessage] *)
Module ProtocolMessage.
Variant t :=
  | REGISTER | REGISTER_ACK | DISPATCH | RUNNING | COMPLETE | FAILURE | ACK | RETRY
  | ROLLBACK | COMPENSATE | RECOVERY_ASSIGN | RECOVERY_COMPLETE | CANCEL | FENCE
  | HEARTBEAT | SHUTDOWN.

#[global] Instance eq_dec : EqDecision t.
Proof. solve_decision. Defined.

#[global] Program Instance enum : CEnum t := {|
  enum_values := [REGISTER; REGISTER_ACK; DISPATCH; RUNNING; COMPLETE; FAILURE; ACK; RETRY; ROLLBACK;
    COMPENSATE; RECOVERY_ASSIGN; RECOVERY_COMPLETE; CANCEL; FENCE; HEARTBEAT; SHUTDOWN] |}.
Solve All Obligations with solve_enum.

Definition to_string (v : t) : string :=
  match v with
  | REGISTER => "REGISTER"
  | REGISTER_ACK => "REGISTER_ACK"
  | DISPATCH => "DISPATCH"
  | RUNNING => "RUNNING"
  | COMPLETE => "COMPLETE"
  | FAILURE => "FAILURE"
  | ACK => "ACK"
  | RETRY => "RETRY"
  | ROLLBACK => "ROLLBACK"
  | COMPENSATE => "COMPENSATE"
  | RECOVERY_ASSIGN => "RECOVERY_ASSIGN"
  | RECOVERY_COMPLETE => "RECOVERY_COMPLETE"
  | CANCEL => "CANCEL"
  | FENCE => "FENCE"
  | HEARTBEAT => "HEARTBEAT"
  | SHUTDOWN => "SHUTDOWN"
  end.
End ProtocolMessage.

(** ** [OperationSemantics]: independent bits that combine. *)
Module OperationSemantics.
Definition t := N.
Definition NONE : t := 0.
Definition IDEMPOTENT : t := N.shiftl 1 0.
Definition DEDUPLICATED : t := N.shiftl 1 1.
Definition TRANSACTIONAL : t := N.shiftl 1 2.
Definition COMPENSATABLE : t := N.shiftl 1 3.
Definition NON_REPEATABLE : t := N.shiftl 1 4.
Definition EXTERNALLY_COMMITTED : t := N.shiftl 1 5.
Definition UNKNOWN_SIDE_EFFECTS : t := N.shiftl 1 6.

Definition bor (a b : t) : t := N.lor a b.
Definition band (a b : t) : t := N.land a b.
Definition has_semantics (value flag : t) : bool := negb (N.land value flag =? 0).
End OperationSemantics.

(** ** [OperationState] as an integer *)
Lemma OperationState_of_to_u32 s : OperationState.of_u32 (OperationState.to_u32 s) = s.
Proof.
  destruct s as [| | | | | | | | | | | | | | | | | | | | k]; try reflexivity.
  unfold OperationState.of_u32. cbn [OperationState.to_u32].
  rewrite lookup_ge_None_2 by (cbn; lia). cbn. f_equal. lia.
Qed.

Lemma OperationState_to_of_u32 n : OperationState.to_u32 (OperationState.of_u32 n) = n.
Proof.
  destruct (decide (20 <= n)) as [H|H].
  - unfold OperationState.of_u32. rewrite lookup_ge_None_2 by (cbn; lia). cbn. lia.
  - rewrite <- (N2Nat.id n) in *. set (k := N.to_nat n) in *. clearbody k.
    do 20 (destruct k as [|k]; [reflexivity|]). lia.
Qed.

(** ** Names *)
Ltac names_by_cases := intros []; vm_compute; reflexivity.

(** [from_string] inverts [to_string] on five of the six enumerations that
    have it. *)
Lemma from_to_string_names :
  (∀ v, FailureClass.from_string (FailureClass.to_string v) = Some v) ∧
  (∀ v, RecoveryAction.from_string (RecoveryAction.to_string v) = Some v) ∧
  (∀ v, RecoveryOwner.from_string (RecoveryOwner.to_string v) = Some v) ∧
  (∀ v, Retryability.from_string (Retryability.to_string v) = Some v) ∧
  (∀ v, Ambiguity.from_string (Ambiguity.to_string v) = Some v).
Proof. split_and!; names_by_cases. Qed.

(** [OperationState]'s table has no entry for the two compensation states. *)
Lemma OperationState_from_to_string s :
  OperationState.from_string (OperationState.to_string s) =
  match s with
  | OperationState.COMPENSATION_PENDING | OperationState.COMPENSATING
  | OperationState.UNNAMED _ => None
  | _ => Some s
  end.
Proof. destruct s; vm_compute; reflexivity. Qed.
