(* ===== verification/Authority.v ===== *)
(** * Authority envelopes and fencing
    ([include/failure_fabric/authority.hpp], [src/authority.cpp],
    [validate_authority] of [src/persistence.cpp]) *)
From S2P Require Import Prelude Ident Enums.

Local Open Scope N_scope.

Record AuthorityEnvelope := MkAuthority {
  coordinator_epoch : CoordinatorEpoch;
  worker_boot : WorkerBootId;
  attempt : AttemptId;
  attempt_generation : AttemptGeneration;
  dispatch : DispatchId;
  operation_generation : OperationGeneration;
  failure_generation : FailureGeneration;
  recovery_generation : RecoveryGeneration;
}.

#[export] Instance AuthorityEnvelope_eq_dec : EqDecision AuthorityEnvelope.
Proof. solve_decision. Defined.

(** The default-constructed envelope. *)
Definition authority0 : AuthorityEnvelope :=
  MkAuthority gen0 null_id null_id gen0 null_id gen0 gen0 gen0.

(** [AuthorityEnvelope::is_unset]. *)
Definition envelope_is_unset (e : AuthorityEnvelope) : bool :=
  is_unset (coordinator_epoch e) && is_null (worker_boot e) &&
  is_null (attempt e) && is_unset (attempt_generation e) &&
  is_null (dispatch e) && is_unset (operation_generation e) &&
  is_unset (failure_generation e) && is_unset (recovery_generation e).

Definition next_boot (e : AuthorityEnvelope) (fresh_boot : WorkerBootId) : AuthorityEnvelope :=
  {| coordinator_epoch := coordinator_epoch e;
     worker_boot := fresh_boot;
     attempt := attempt e;
     attempt_generation := next (attempt_generation e);
     dispatch := dispatch e;
     operation_generation := next (operation_generation e);
     failure_generation := next (failure_generation e);
     recovery_generation := next (recovery_generation e) |}.

Module FenceReason.
Variant t :=
  | ACCEPTED | EPOCH_STALE | BOOT_STALE | ATTEMPT_STALE | ATTEMPT_MISMATCH
  | DISPATCH_MISMATCH | ATTEMPT_GENERATION_STALE | OPERATION_GENERATION_STALE
  | FAILURE_GENERATION_STALE | RECOVERY_GENERATION_STALE | RECOVERY_OWNER_STALE
  | TERMINAL | UNKNOWN.

#[global] Instance eq_dec : EqDecision t.
Proof. solve_decision. Defined.
End FenceReason.

Record FenceResult := MkFenceResult {
  accepted : bool;
  status : AuthorityStatus.t;
  reason : FenceReason.t;
  detail : string;
}.

Definition accepted_result (d : string) : FenceResult :=
  MkFenceResult true AuthorityStatus.AUTHORITATIVE FenceReason.ACCEPTED d.

Definition rejected (r : FenceReason.t) (d : string) : FenceResult :=
  MkFenceResult false AuthorityStatus.STALE r d.

Definition fence_completion (c cur terminal : AuthorityEnvelope) : FenceResult :=
  if envelope_is_unset c then
    rejected FenceReason.UNKNOWN "completion carries no authority envelope"
  else if negb (is_unset (coordinator_epoch cur))
          && gen_ltb (coordinator_epoch c) (coordinator_epoch cur) then
    rejected FenceReason.EPOCH_STALE "completion epoch older than authoritative epoch"
  else if negb (is_null (attempt cur)) && bool_decide (attempt c ≠ attempt cur) then
    rejected FenceReason.ATTEMPT_MISMATCH "completion references a different attempt id"
  else if negb (is_null (dispatch cur)) && bool_decide (dispatch c ≠ dispatch cur) then
    rejected FenceReason.DISPATCH_MISMATCH "completion references a different dispatch id"
  else if negb (is_null (worker_boot cur)) && bool_decide (worker_boot c ≠ worker_boot cur) then
    rejected FenceReason.BOOT_STALE "completion from a dead/stale worker boot"
  else if negb (is_unset (attempt_generation cur))
          && gen_ltb (attempt_generation c) (attempt_generation cur) then
    rejected FenceReason.ATTEMPT_GENERATION_STALE "completion attempt generation regressed"
  else if negb (is_unset (operation_generation cur))
          && gen_ltb (operation_generation c) (operation_generation cur) then
    rejected FenceReason.OPERATION_GENERATION_STALE "completion operation generation regressed"
  else if negb (envelope_is_unset terminal)
          && (gen_leb (attempt_generation c) (attempt_generation terminal)
              && gen_leb (operation_generation c) (operation_generation terminal)) then
    rejected FenceReason.ATTEMPT_GENERATION_STALE
      "terminal outcome already recorded at this/newer generation"
  else accepted_result "completion authority is current".

Definition fence_failure (c cur : AuthorityEnvelope) : FenceResult :=
  if envelope_is_unset c then
    rejected FenceReason.UNKNOWN "failure carries no authority envelope"
  else if negb (is_unset (coordinator_epoch cur))
          && gen_ltb (coordinator_epoch c) (coordinator_epoch cur) then
    rejected FenceReason.EPOCH_STALE "failure epoch older than authoritative epoch"
  else if negb (is_null (attempt cur)) && bool_decide (attempt c ≠ attempt cur) then
    rejected FenceReason.ATTEMPT_MISMATCH "failure references a different attempt id"
  else if negb (is_unset (attempt_generation cur))
          && gen_ltb (attempt_generation c) (attempt_generation cur) then
    rejected FenceReason.ATTEMPT_GENERATION_STALE "failure attempt generation regressed"
  else if (negb (is_null (worker_boot cur)) && negb (is_null (worker_boot c))
           && bool_decide (worker_boot c ≠ worker_boot cur))
          && gen_leb (attempt_generation c) (attempt_generation cur) then
    rejected FenceReason.BOOT_STALE "failure from a stale worker boot"
  else accepted_result "failure authority is current".

Definition fence_recovery (c cur : AuthorityEnvelope)
    (current_recovery_generation : RecoveryGeneration) : FenceResult :=
  if envelope_is_unset c then
    rejected FenceReason.UNKNOWN "recovery command carries no authority envelope"
  else if negb (is_unset (coordinator_epoch cur))
          && gen_ltb (coordinator_epoch c) (coordinator_epoch cur) then
    rejected FenceReason.EPOCH_STALE "recovery epoch older than authoritative epoch"
  else if gen_leb (recovery_generation c) current_recovery_generation then
    rejected FenceReason.RECOVERY_GENERATION_STALE "recovery generation did not increase"
  else if negb (is_null (attempt cur)) && bool_decide (attempt c ≠ attempt cur) then
    rejected FenceReason.ATTEMPT_MISMATCH "recovery references a different attempt id"
  else accepted_result "recovery authority is current".

(** [validate_authority] ([persistence.cpp]): the combinations the store and
    the codec refuse. *)
Definition validate_authority (e : AuthorityEnvelope) : bool :=
  if negb (is_null (attempt e)) && is_unset (attempt_generation e) then false
  else if negb (is_null (worker_boot e)) && is_unset (coordinator_epoch e) then false
  else true.

(** ** What the fences promise, dimension by dimension *)

(** A generation of the candidate has not regressed below a set current one. *)
Definition not_older (c cur : Generation) : Prop :=
  value cur = 0 ∨ value cur <= value c.

(** An identity of the candidate matches a set current one. *)
Definition same_if_set {tag} (c cur : Id tag) : Prop := cur = null_id ∨ c = cur.

(** The terminal envelope does not dominate the candidate. *)
Definition newer_than_terminal (c terminal : AuthorityEnvelope) : Prop :=
  envelope_is_unset terminal = true ∨
  value (attempt_generation terminal) < value (attempt_generation c) ∨
  value (operation_generation terminal) < value (operation_generation c).

Definition completion_current (c cur terminal : AuthorityEnvelope) : Prop :=
  envelope_is_unset c = false ∧
  not_older (coordinator_epoch c) (coordinator_epoch cur) ∧
  same_if_set (attempt c) (attempt cur) ∧
  same_if_set (dispatch c) (dispatch cur) ∧
  same_if_set (worker_boot c) (worker_boot cur) ∧
  not_older (attempt_generation c) (attempt_generation cur) ∧
  not_older (operation_generation c) (operation_generation cur) ∧
  newer_than_terminal c terminal.

Definition failure_current (c cur : AuthorityEnvelope) : Prop :=
  envelope_is_unset c = false ∧
  not_older (coordinator_epoch c) (coordinator_epoch cur) ∧
  same_if_set (attempt c) (attempt cur) ∧
  not_older (attempt_generation c) (attempt_generation cur) ∧
  (same_if_set (worker_boot c) (worker_boot cur) ∨ worker_boot c = null_id ∨
   value (attempt_generation cur) < value (attempt_generation c)).

Definition recovery_current (c cur : AuthorityEnvelope) (g : RecoveryGeneration) : Prop :=
  envelope_is_unset c = false ∧
  not_older (coordinator_epoch c) (coordinator_epoch cur) ∧
  value g < value (recovery_generation c) ∧
  same_if_set (attempt c) (attempt cur).

(** Each guard of the fences decides one dimension. *)
Lemma not_older_guard c cur :
  negb (is_unset cur) && gen_ltb c cur = false ↔ not_older c cur.
Proof.
  unfold is_unset, gen_ltb, not_older.
  rewrite andb_false_iff, negb_false_iff, N.eqb_eq, N.ltb_ge. done.
Qed.

Lemma same_if_set_guard {tag} (c cur : Id tag) :
  negb (is_null cur) && bool_decide (c ≠ cur) = false ↔ same_if_set c cur.
Proof.
  unfold same_if_set.
  rewrite andb_false_iff, negb_false_iff, is_null_spec, bool_decide_eq_false.
  destruct (decide (c = cur)); naive_solver.
Qed.

Lemma newer_guard c terminal :
  negb (envelope_is_unset terminal)
    && (gen_leb (attempt_generation c) (attempt_generation terminal)
        && gen_leb (operation_generation c) (operation_generation terminal)) = false
  ↔ newer_than_terminal c terminal.
Proof.
  unfold newer_than_terminal, gen_leb.
  by rewrite !andb_false_iff, negb_false_iff, !N.leb_gt.
Qed.

Lemma boot_guard c cur :
  (negb (is_null (worker_boot cur)) && negb (is_null (worker_boot c))
    && bool_decide (worker_boot c ≠ worker_boot cur))
    && gen_leb (attempt_generation c) (attempt_generation cur) = false
  ↔ same_if_set (worker_boot c) (worker_boot cur) ∨ worker_boot c = null_id ∨
    value (attempt_generation cur) < value (attempt_generation c).
Proof.
  unfold same_if_set, gen_leb.
  rewrite !andb_false_iff, !negb_false_iff, !is_null_spec, bool_decide_eq_false, N.leb_gt.
  destruct (decide (worker_boot c = worker_boot cur)); naive_solver.
Qed.

Lemma gen_leb_false a b : gen_leb a b = false ↔ value b < value a.
Proof. apply N.leb_gt. Qed.

(** One step of a fence: the guard rejects, or its dimension is current. *)
Lemma fence_step (b : bool) r d rest (P Q : Prop) :
  (b = false ↔ P) → (accepted rest = true ↔ Q) →
  accepted (if b then rejected r d else rest) = true ↔ P ∧ Q.
Proof. destruct b; cbn; naive_solver. Qed.

Create HintDb fence discriminated.
#[export] Hint Resolve not_older_guard same_if_set_guard newer_guard boot_guard
  gen_leb_false : fence.


(** A completion is accepted exactly when it is current in every dimension
    and newer than the recorded terminal outcome. *)
Lemma fence_completion_accepted c cur terminal :
  accepted (fence_completion c cur terminal) = true ↔ completion_current c cur terminal.
Proof.
  unfold fence_completion, completion_current.
  do 7 (eapply fence_step; [solve [eauto with fence | reflexivity]|]).
  rewrite <- newer_guard. by destruct (_ && _).
Qed.

Lemma fence_failure_accepted c cur :
  accepted (fence_failure c cur) = true ↔ failure_current c cur.
Proof.
  unfold fence_failure, failure_current.
  do 4 (eapply fence_step; [solve [eauto with fence | reflexivity]|]).
  rewrite <- boot_guard. by destruct (_ && _).
Qed.

Lemma fence_recovery_accepted c cur g :
  accepted (fence_recovery c cur g) = true ↔ recovery_current c cur g.
Proof.
  unfold fence_recovery, recovery_current.
  do 3 (eapply fence_step; [solve [eauto with fence | reflexivity]|]).
  rewrite <- same_if_set_guard. by destruct (_ && _).
Qed.

(** The two shapes of a fence result. *)
Definition shaped (r : FenceResult) : Prop :=
  if accepted r then status r = AuthorityStatus.AUTHORITATIVE ∧ reason r = FenceReason.ACCEPTED
  else status r = AuthorityStatus.STALE ∧ reason r ≠ FenceReason.ACCEPTED.

Lemma shaped_step (b : bool) r d rest :
  r ≠ FenceReason.ACCEPTED → shaped rest → shaped (if b then rejected r d else rest).
Proof. by destruct b. Qed.

Ltac solve_shaped := repeat (apply shaped_step; [done|]); done.

Lemma fence_completion_shaped c cur terminal : shaped (fence_completion c cur terminal).
Proof. unfold fence_completion. solve_shaped. Qed.

Lemma fence_failure_shaped c cur : shaped (fence_failure c cur).
Proof. unfold fence_failure. solve_shaped. Qed.

Lemma fence_recovery_shaped c cur g : shaped (fence_recovery c cur g).
Proof. unfold fence_recovery. solve_shaped. Qed.

(** C20: each fence accepts exactly the envelopes that are current in every
    dimension it checks (and, for completions, newer than the recorded terminal
    outcome); an accepted result is AUTHORITATIVE, a rejected one is STALE and
    names a reason. *)
Theorem fences_exact c cur terminal g :
  (accepted (fence_completion c cur terminal) = true ↔ completion_current c cur terminal) ∧
  (accepted (fence_failure c cur) = true ↔ failure_current c cur) ∧
  (accepted (fence_recovery c cur g) = true ↔ recovery_current c cur g) ∧
  shaped (fence_completion c cur terminal) ∧ shaped (fence_failure c cur) ∧
  shaped (fence_recovery c cur g).
Proof.
  auto 10 using fence_completion_accepted, fence_failure_accepted, fence_recovery_accepted,
    fence_completion_shaped, fence_failure_shaped, fence_recovery_shaped.
Qed.

(** A restart fences the previous boot: under the envelope of the next boot
    nothing the old boot sends as a completion is accepted, while the new boot
    is, even against a terminal outcome recorded by the old one, as long as no
    generation wraps around. *)
Lemma next_boot_fences_old_boot e fresh terminal :
  fresh ≠ null_id → fresh ≠ worker_boot e →
  fits 64 (value (attempt_generation e) + 1) →
  accepted (fence_completion e (next_boot e fresh) terminal) = false ∧
  accepted (fence_completion (next_boot e fresh) (next_boot e fresh) e) = true.
Proof.
  intros Hn Hf Hg. split.
  - apply not_true_iff_false. rewrite fence_completion_accepted.
    intros (_ & _ & _ & _ & [E|E] & _); cbn in E; congruence.
  - apply fence_completion_accepted. unfold completion_current, not_older, same_if_set.
    split_and!; try (right; reflexivity).
    + unfold envelope_is_unset. cbn. apply is_null_false in Hn. by rewrite Hn, andb_false_r.
    + right. left. cbn [next_boot attempt_generation]. rewrite next_value by done. lia.
Qed.

(** A first-generation envelope is fenced by the next boot even if that boot drew
    the same identity. *)
Lemma next_boot_always_fences e fresh terminal :
  attempt_generation e = MkGeneration 1 →
  accepted (fence_completion e (next_boot e fresh) terminal) = false.
Proof.
  intros He. unfold fence_completion. repeat case_match; try done.
  cbn [next_boot attempt_generation] in *. by rewrite He in *.
Qed.

Lemma next_boot_fences_old_boot_witness :
  let fresh : WorkerBootId := MkId (uuid128_from_hex "2") in
  accepted (fence_completion authority0 (next_boot authority0 fresh) authority0) = false.
Proof.
  apply (next_boot_fences_old_boot authority0 (MkId (uuid128_from_hex "2")) authority0);
    [intros E; apply (f_equal (λ i, is_null i)) in E; vm_compute in E; discriminate ..
    | vm_compute; reflexivity].
Defined.
