(* ===== verification/Operation.v ===== *)
(** * The guarded operation state machine
    ([include/failure_fabric/operation.hpp], [src/operation.cpp]) *)
From S2P Require Import Prelude Enums.

Local Open Scope N_scope.

Abbreviation OperationState := OperationState.t.

(** ** Transition table *)

(** [make_mask]: the OR of [1u << i] over the listed indices. *)
Definition make_mask (idx : list N) : N :=
  foldl (λ m i, N.lor m (N.shiftl 1 i)) 0 idx.

Definition table : list N := [
  (* CREATED *)              make_mask [1; 5; 6];
  (* DISPATCHED *)           make_mask [2; 5; 6; 18];
  (* RUNNING *)              make_mask [3; 5; 6; 7; 18];
  (* COMPLETION_REPORTED *)  make_mask [4; 5; 6; 7];
  (* COMPLETION_CONFIRMED *) make_mask [];
  (* FAILED_KNOWN *)         make_mask [8; 10; 12; 14; 17; 18; 19];
  (* FAILED_AMBIGUOUS *)     make_mask [8; 10; 12; 14; 17; 19];
  (* PARTIALLY_SUCCEEDED *)  make_mask [8; 10; 12; 14; 17];
  (* RETRY_PENDING *)        make_mask [9; 18; 19];
  (* RETRYING *)             make_mask [2; 5; 6; 18];
  (* ROLLBACK_PENDING *)     make_mask [11; 18; 19];
  (* ROLLING_BACK *)         make_mask [8; 12; 14; 16; 17];
  (* COMPENSATION_PENDING *) make_mask [13; 18; 19];
  (* COMPENSATING *)         make_mask [14; 16; 17];
  (* RECOVERY_PENDING *)     make_mask [15; 17; 19];
  (* RECOVERING *)           make_mask [16; 17; 18];
  (* RECOVERED *)            make_mask [];
  (* TERMINAL_FAILED *)      make_mask [];
  (* CANCELLED *)            make_mask [];
  (* ABANDONED *)            make_mask []
].

(** The code's [int f = static_cast<int>(from)] is negative exactly for the
    values from [2^31] on, so [f < 0 || f >= 20] is [20 <= f] unsigned. *)
Definition is_allowed (from to : OperationState) : bool :=
  let f := OperationState.to_u32 from in
  let t := OperationState.to_u32 to in
  if (20 <=? f) || (20 <=? t) then false
  else negb (N.land (default 0 (table !! N.to_nat f)) (N.shiftl 1 t) =? 0).

Definition is_terminal (s : OperationState) : bool :=
  bool_decide (s = OperationState.COMPLETION_CONFIRMED) ||
  bool_decide (s = OperationState.RECOVERED) ||
  bool_decide (s = OperationState.TERMINAL_FAILED) ||
  bool_decide (s = OperationState.CANCELLED) ||
  bool_decide (s = OperationState.ABANDONED).

Definition is_failed (s : OperationState) : bool :=
  bool_decide (s = OperationState.FAILED_KNOWN) ||
  bool_decide (s = OperationState.FAILED_AMBIGUOUS) ||
  bool_decide (s = OperationState.PARTIALLY_SUCCEEDED) ||
  bool_decide (s = OperationState.TERMINAL_FAILED).

Definition index_to_state (i : Z) : OperationState :=
  if ((i <? 0) || (20 <=? i))%Z then OperationState.CREATED
  else default OperationState.CREATED (OperationState.named !! Z.to_nat i).

(** ** The machine *)
Record OperationStateMachine := MkMachine { state_ : OperationState }.

Definition machine0 : OperationStateMachine := MkMachine OperationState.CREATED.

Definition can_transition (m : OperationStateMachine) (to : OperationState) : bool :=
  is_allowed (state_ m) to.

Definition machine_transition (m : OperationStateMachine) (to : OperationState)
  : bool * OperationStateMachine :=
  if negb (can_transition m to) then (false, m) else (true, MkMachine to).

(** [reset] always returns [true]; the registry ignores the result. *)
Definition machine_reset (m : OperationStateMachine) (s : OperationState)
  : OperationStateMachine := MkMachine s.

(** ** Reachability: the accepted transitions as a relation *)
Definition step (s s' : OperationState) : Prop := is_allowed s s' = true.

#[export] Instance step_dec s s' : Decision (step s s').
Proof. unfold step. apply _. Defined.

(** The successors of a state, computed from the table. *)
Definition successors (s : OperationState) : list OperationState :=
  filter (λ s', is_allowed s s' = true) OperationState.named.

Lemma is_allowed_unnamed_l k s : is_allowed (OperationState.UNNAMED k) s = false.
Proof.
  unfold is_allowed. cbn [OperationState.to_u32].
  by replace (20 <=? 20 + k) with true by (symmetry; apply N.leb_le; lia).
Qed.

Lemma is_allowed_unnamed_r s k : is_allowed s (OperationState.UNNAMED k) = false.
Proof.
  unfold is_allowed. cbn [OperationState.to_u32].
  replace (20 <=? 20 + k) with true by (symmetry; apply N.leb_le; lia).
  by rewrite orb_true_r.
Qed.

Lemma step_named s s' :
  step s s' → s ∈ OperationState.named ∧ s' ∈ OperationState.named.
Proof.
  unfold step. intros H. split.
  - destruct s; try (apply (bool_decide_unpack _); vm_compute; exact I).
    by rewrite is_allowed_unnamed_l in H.
  - destruct s'; try (apply (bool_decide_unpack _); vm_compute; exact I).
    by rewrite is_allowed_unnamed_r in H.
Qed.

(** A property of the transition relation holds when it holds on the finite
    table, where it is evaluated. *)
Lemma step_by_table (P : OperationState → OperationState → bool) :
  forallb (λ s, forallb (λ s', negb (is_allowed s s') || P s s')
                        OperationState.named) OperationState.named = true →
  ∀ s s', step s s' → P s s' = true.
Proof.
  intros Hall s s' Hs. destruct (step_named _ _ Hs) as [Hn Hn'].
  rewrite forallb_forall in Hall.
  specialize (Hall s (proj1 (list_elem_of_In _ _) Hn)). rewrite forallb_forall in Hall.
  specialize (Hall s' (proj1 (list_elem_of_In _ _) Hn')). unfold step in Hs. by rewrite Hs in Hall.
Qed.

Lemma step_from_nonterminal s s' : step s s' → is_terminal s = false.
Proof.
  intros Hs. apply negb_true_iff.
  apply (step_by_table (λ s _, negb (is_terminal s))) with s'; [by vm_compute | done].
Qed.

Lemma terminal_stuck s s' : is_terminal s = true → is_allowed s s' = false.
Proof.
  intros Ht. destruct (is_allowed s s') eqn:E; [|done].
  apply step_from_nonterminal in E. congruence.
Qed.

(** ** Progress: the phase a state has reached

    Every accepted transition that does not enter [RETRYING] strictly
    increases the rank, so a run between two retries is bounded. *)
Definition rank (s : OperationState) : nat :=
  match s with
  | OperationState.CREATED => 0
  | OperationState.DISPATCHED | OperationState.RETRYING => 1
  | OperationState.RUNNING => 2
  | OperationState.COMPLETION_REPORTED => 3
  | OperationState.FAILED_KNOWN | OperationState.FAILED_AMBIGUOUS
  | OperationState.PARTIALLY_SUCCEEDED => 4
  | OperationState.ROLLBACK_PENDING => 5
  | OperationState.ROLLING_BACK => 6
  | OperationState.COMPENSATION_PENDING => 7
  | OperationState.COMPENSATING => 8
  | OperationState.RECOVERY_PENDING => 9
  | OperationState.RECOVERING => 10
  | OperationState.RETRY_PENDING => 10
  | _ => 11
  end.

Lemma rank_bound s : (rank s ≤ 11)%nat.
Proof. destruct s; cbn; lia. Qed.

Lemma rank_increases s s' :
  step s s' → s' = OperationState.RETRYING ∨ (rank s < rank s')%nat.
Proof.
  intros Hs.
  pose proof (step_by_table (λ s s', bool_decide (s' = OperationState.RETRYING)
                                     || (rank s <? rank s')%nat) eq_refl s s' Hs) as H.
  apply orb_prop in H as [H|H]; [left; by apply bool_decide_eq_true in H|].
  right. by apply Nat.ltb_lt.
Qed.

(** A run: the list of states visited after the first. *)
Fixpoint is_run (s : OperationState) (l : list OperationState) : Prop :=
  match l with
  | [] => True
  | s' :: l => step s s' ∧ is_run s' l
  end.

(** The number of times a run enters [RETRYING]. *)
Definition retries (l : list OperationState) : nat :=
  length (filter (λ s, s = OperationState.RETRYING) l).

Lemma run_length_rank s l :
  is_run s l → (length l + rank s ≤ 11 + 11 * retries l)%nat.
Proof.
  revert s. induction l as [|s' l IH]; intros s; cbn [is_run length].
  - intros _. pose proof (rank_bound s). lia.
  - intros [Hs Hl]. specialize (IH _ Hl). unfold retries in *. rewrite filter_cons.
    destruct (rank_increases _ _ Hs) as [->|Hr]; case_decide; try done; cbn [length].
    + pose proof (rank_bound s). cbn in IH. lia.
    + subst. cbn in *. lia.
    + lia.
Qed.

(** ** Properties *)

(** Terminal states are absorbing and always within reach. No transition
    leaves a terminal state, and from every other enumerator the table offers
    a path of at most two transitions to a terminal one, so no operation can
    get stuck. *)
Lemma terminal_absorbing_and_reachable s (Hs : OperationState.is_named s = true) :
  (is_terminal s = true → ∀ s', is_allowed s s' = false) ∧
  (is_terminal s = false →
   ∃ s1 t, step s s1 ∧ (s1 = t ∨ step s1 t) ∧ is_terminal t = true).
Proof.
  split; [intros Ht s'; by apply terminal_stuck|]. intros Ht.
  assert (∃ s1 t, (is_allowed s s1 && (bool_decide (s1 = t) || is_allowed s1 t)
                   && is_terminal t) = true) as (s1 & t & H).
  { destruct s; try discriminate Hs; try discriminate Ht.
    1: by exists OperationState.DISPATCHED, OperationState.CANCELLED.
    3: by exists OperationState.COMPLETION_CONFIRMED, OperationState.COMPLETION_CONFIRMED.
    all: first [ by exists OperationState.TERMINAL_FAILED, OperationState.TERMINAL_FAILED
               | by exists OperationState.CANCELLED, OperationState.CANCELLED ]. }
  exists s1, t. bool_simp. split_and!; [done| |done].
  match goal with H : _ || _ = true |- _ => apply orb_prop in H as [H|H] end; [left|by right].
  by bool_simp.
Qed.

(** C33: an operation loops only through retries. A run of the state machine
    that enters [RETRYING] [k] times takes at most [11 * (k + 1)]
    transitions, so bounding the retries bounds the run. *)
Theorem runs_bounded_by_retries s l (Hl : is_run s l) :
  (length l ≤ 11 * (retries l + 1))%nat.
Proof. pose proof (run_length_rank s l Hl). lia. Qed.

(** [index_to_state] inverts the numbering of the states, and the table
    covers exactly the twenty enumerators: a transition from or to any other
    underlying value is refused. *)
Lemma state_index_roundtrip s :
  (OperationState.is_named s = true →
   index_to_state (Z.of_N (OperationState.to_u32 s)) = s) ∧
  (OperationState.is_named s = false →
   ∀ s', is_allowed s s' = false ∧ is_allowed s' s = false).
Proof.
  split; intros H; [by destruct s|]. intros s'. destruct s; try discriminate H.
  split; [apply is_allowed_unnamed_l | apply is_allowed_unnamed_r].
Qed.

(** ** Witnesses *)
Lemma terminal_absorbing_and_reachable_witness :
  (is_terminal OperationState.RETRYING = true →
   ∀ s', is_allowed OperationState.RETRYING s' = false) ∧
  (is_terminal OperationState.RETRYING = false →
   ∃ s1 t, step OperationState.RETRYING s1 ∧ (s1 = t ∨ step s1 t) ∧ is_terminal t = true).
Proof. apply (terminal_absorbing_and_reachable OperationState.RETRYING). reflexivity. Defined.

Definition retried_run : list OperationState :=
  [OperationState.DISPATCHED; OperationState.RUNNING; OperationState.FAILED_AMBIGUOUS;
   OperationState.RETRY_PENDING; OperationState.RETRYING; OperationState.RUNNING;
   OperationState.COMPLETION_REPORTED; OperationState.COMPLETION_CONFIRMED].

Lemma runs_bounded_by_retries_witness :
  retries retried_run = 1%nat ∧ (length retried_run ≤ 11 * (retries retried_run + 1))%nat.
Proof.
  split; [reflexivity|]. apply (runs_bounded_by_retries OperationState.CREATED).
  repeat split; vm_compute; reflexivity.
Defined.
