(* ===== verification/Idempotency.v ===== *)
(** * Idempotency and deduplication
    ([include/failure_fabric/idempotency.hpp], [src/idempotency.cpp])

    The store is a map of entries and each method one function on it. The class
    has no mutex: a sequence of calls stands for callers that take turns, and
    [concurrent_begins_both_new] shows what two callers that do not can get. *)
From stdpp Require Import gmap.
From S2P Require Import Prelude Ident Authority.

Local Open Scope N_scope.

Record IdempotencyKey := MkIdemKey { key_raw : uuid128 }.

#[export] Instance IdempotencyKey_eq_dec : EqDecision IdempotencyKey.
Proof. solve_decision. Defined.

#[export] Instance IdempotencyKey_countable : Countable IdempotencyKey.
Proof. apply (inj_countable' key_raw MkIdemKey). by intros []. Defined.

Definition idem_key0 : IdempotencyKey := MkIdemKey uuid128_zero.

Module IdempotencyVerdict.
Variant t := NEW | IN_PROGRESS_REPLAY | COMPLETED_REPLAY | CONFLICT | STALE.

#[global] Instance eq_dec : EqDecision t.
Proof. solve_decision. Defined.

Definition to_string (v : t) : string :=
  match v with
  | NEW => "NEW"
  | IN_PROGRESS_REPLAY => "IN_PROGRESS_REPLAY"
  | COMPLETED_REPLAY => "COMPLETED_REPLAY"
  | CONFLICT => "CONFLICT"
  | STALE => "STALE"
  end.
End IdempotencyVerdict.

(** [UNNAMED k] is the underlying value [4 + k], which names no enumerator:
    the store's loader casts an unchecked integer. *)
Module IdempotencyState.
Variant t := IN_PROGRESS | COMPLETED | FAILED | CONFLICT | UNNAMED (k : N).

#[global] Instance eq_dec : EqDecision t.
Proof. solve_decision. Defined.

Definition to_u32 (s : t) : N :=
  match s with
  | IN_PROGRESS => 0
  | COMPLETED => 1
  | FAILED => 2
  | CONFLICT => 3
  | UNNAMED k => 4 + k
  end.

Definition of_u32 (n : N) : t :=
  default (UNNAMED (n - 4)) ([IN_PROGRESS; COMPLETED; FAILED; CONFLICT] !! N.to_nat n).
End IdempotencyState.

Lemma IdempotencyState_of_to_u32 s : IdempotencyState.of_u32 (IdempotencyState.to_u32 s) = s.
Proof.
  destruct s as [| | | | k]; try reflexivity.
  unfold IdempotencyState.of_u32. cbn [IdempotencyState.to_u32].
  rewrite lookup_ge_None_2 by (cbn; lia). cbn. f_equal. lia.
Qed.

Record Entry := MkEntry {
  e_payload_hash : N;
  e_state : IdempotencyState.t;
  e_result_metadata : string;
  e_authority : AuthorityEnvelope;
}.

(** The default-constructed entry, which [operator[]] inserts. *)
Definition entry0 : Entry := MkEntry 0 IdempotencyState.IN_PROGRESS "" authority0.

Definition set_state (s : IdempotencyState.t) (e : Entry) : Entry :=
  MkEntry (e_payload_hash e) s (e_result_metadata e) (e_authority e).

Abbreviation PairKey := (OperationId * IdempotencyKey)%type.
Abbreviation IdempotencyStore := (gmap (OperationId * IdempotencyKey) Entry).

(** ** Operations *)
Definition idem_begin (op : OperationId) (key : IdempotencyKey) (hash : N)
    (auth : AuthorityEnvelope) (entries : IdempotencyStore)
  : IdempotencyVerdict.t * IdempotencyStore :=
  match entries !! (op, key) with
  | None =>
      (IdempotencyVerdict.NEW,
       <[(op, key) := MkEntry hash IdempotencyState.IN_PROGRESS "" auth]> entries)
  | Some e =>
      if negb (e_payload_hash e =? hash) then (IdempotencyVerdict.CONFLICT, entries)
      else if decide (e_state e = IdempotencyState.CONFLICT)
        then (IdempotencyVerdict.CONFLICT, entries)
      else if decide (e_state e = IdempotencyState.COMPLETED)
        then (IdempotencyVerdict.COMPLETED_REPLAY, entries)
      else if decide (e_state e = IdempotencyState.FAILED)
        then (IdempotencyVerdict.NEW, entries)
      else (IdempotencyVerdict.IN_PROGRESS_REPLAY, entries)
  end.

Definition idem_complete (op : OperationId) (key : IdempotencyKey) (meta : string)
    (entries : IdempotencyStore) : IdempotencyStore :=
  let e := default entry0 (entries !! (op, key)) in
  <[(op, key) := MkEntry (e_payload_hash e) IdempotencyState.COMPLETED meta (e_authority e)]>
    entries.

Definition idem_fail (op : OperationId) (key : IdempotencyKey)
    (entries : IdempotencyStore) : IdempotencyStore :=
  match entries !! (op, key) with
  | Some e => <[(op, key) := set_state IdempotencyState.FAILED e]> entries
  | None => entries
  end.

Definition idem_mark_conflict (op : OperationId) (key : IdempotencyKey)
    (entries : IdempotencyStore) : IdempotencyStore :=
  let e := default entry0 (entries !! (op, key)) in
  <[(op, key) := set_state IdempotencyState.CONFLICT e]> entries.

(** [prior_result]: [Some] is [true] with the out-parameter set. *)
Definition prior_result (op : OperationId) (key : IdempotencyKey)
    (entries : IdempotencyStore) : option string :=
  match entries !! (op, key) with
  | Some e => if decide (e_state e = IdempotencyState.COMPLETED)
              then Some (e_result_metadata e) else None
  | None => None
  end.

Definition idem_has (op : OperationId) (key : IdempotencyKey) (entries : IdempotencyStore) : bool :=
  bool_decide (is_Some (entries !! (op, key))).

Definition idem_state (op : OperationId) (key : IdempotencyKey) (entries : IdempotencyStore)
  : IdempotencyState.t :=
  match entries !! (op, key) with
  | None => IdempotencyState.IN_PROGRESS
  | Some e => e_state e
  end.

Definition payload_hash (op : OperationId) (key : IdempotencyKey) (entries : IdempotencyStore) : N :=
  match entries !! (op, key) with None => 0 | Some e => e_payload_hash e end.

Record EntryView := MkEntryView {
  ev_op : OperationId;
  ev_key : IdempotencyKey;
  ev_payload_hash : N;
  ev_state : IdempotencyState.t;
  ev_result_metadata : string;
}.

(** [restore]: the persisted view carries no authority, so the entry gets the
    default one. *)
Definition idem_restore (ev : EntryView) (entries : IdempotencyStore) : IdempotencyStore :=
  <[(ev_op ev, ev_key ev) :=
      MkEntry (ev_payload_hash ev) (ev_state ev) (ev_result_metadata ev) authority0]> entries.

(** [clear]. *)
Definition idem_clear : IdempotencyStore := ∅.

(** The view [collect] makes of one entry. *)
Definition entry_view (p : PairKey * Entry) : EntryView :=
  MkEntryView p.1.1 p.1.2 (e_payload_hash p.2) (e_state p.2) (e_result_metadata p.2).

(** ** Calls and traces: every method that changes the store *)
Variant idem_call :=
  | Begin (op : OperationId) (key : IdempotencyKey) (hash : N) (auth : AuthorityEnvelope)
  | Complete (op : OperationId) (key : IdempotencyKey) (meta : string)
  | FailCall (op : OperationId) (key : IdempotencyKey)
  | MarkConflict (op : OperationId) (key : IdempotencyKey)
  | RestoreCall (ev : EntryView)
  | ClearCall.

(** The entry a call is about; [clear] is about all. *)
Definition call_pair (c : idem_call) : option PairKey :=
  match c with
  | Begin op key _ _ | Complete op key _ | FailCall op key | MarkConflict op key => Some (op, key)
  | RestoreCall ev => Some (ev_op ev, ev_key ev)
  | ClearCall => None
  end.

Definition idem_apply (c : idem_call) (st : IdempotencyStore)
  : option IdempotencyVerdict.t * IdempotencyStore :=
  match c with
  | Begin op key hash auth =>
      let '(v, st') := idem_begin op key hash auth st in (Some v, st')
  | Complete op key meta => (None, idem_complete op key meta st)
  | FailCall op key => (None, idem_fail op key st)
  | MarkConflict op key => (None, idem_mark_conflict op key st)
  | RestoreCall ev => (None, idem_restore ev st)
  | ClearCall => (None, idem_clear)
  end.

(** The calls after which a key can be told to execute again: its failure, its
    restoration as failed, and the removal of everything. *)
Definition reopens (pk : PairKey) (c : idem_call) : bool :=
  match c with
  | FailCall op key => bool_decide ((op, key) = pk)
  | RestoreCall ev =>
      bool_decide ((ev_op ev, ev_key ev) = pk ∧ ev_state ev = IdempotencyState.FAILED)
  | ClearCall => true
  | _ => false
  end.

(** The calls that can change the payload hash of an entry. *)
Definition resets (pk : PairKey) (c : idem_call) : bool :=
  match c with
  | RestoreCall ev => bool_decide ((ev_op ev, ev_key ev) = pk)
  | ClearCall => true
  | _ => false
  end.

(** How many calls on [pk] were answered [NEW], that is, told to execute. *)
Fixpoint executions (pk : PairKey) (cs : list idem_call) (st : IdempotencyStore) : nat :=
  match cs with
  | [] => 0
  | c :: cs =>
      let '(v, st') := idem_apply c st in
      (if bool_decide (call_pair c = Some pk ∧ v = Some IdempotencyVerdict.NEW) then 1 else 0)
      + executions pk cs st'
  end%nat.

(** ** Lemmas *)

(** A call on one pair leaves every other pair alone. *)
Lemma idem_apply_frame c st pk :
  c ≠ ClearCall → call_pair c ≠ Some pk → (idem_apply c st).2 !! pk = st !! pk.
Proof.
  intros Hc Hne. destruct c; cbn in *;
    unfold idem_begin, idem_complete, idem_fail, idem_mark_conflict, idem_restore;
    repeat case_match; simplify_eq/=; rewrite ?lookup_insert_ne; congruence.
Qed.

(** [begin] on a present entry reads the store and changes nothing. *)
Lemma idem_begin_present op key hash auth st e :
  st !! (op, key) = Some e → (idem_begin op key hash auth st).2 = st.
Proof. intros H. unfold idem_begin. rewrite H. by repeat case_match. Qed.

(** An entry that has not failed stays present and does not fail, unless a call
    reopens it. *)
Definition reserved (pk : PairKey) (st : IdempotencyStore) : Prop :=
  ∃ e, st !! pk = Some e ∧ e_state e ≠ IdempotencyState.FAILED.

Lemma idem_apply_reserved c st pk :
  reserved pk st → reopens pk c = false → reserved pk (idem_apply c st).2.
Proof.
  intros (e & He & Hf) Hc. destruct (decide (call_pair c = Some pk)) as [Hp|Hne].
  - destruct c; cbn [idem_apply call_pair reopens] in *; simplify_eq.
    + pose proof (idem_begin_present _ _ hash auth _ _ He) as Hb.
      destruct (idem_begin op key hash auth st) as [v st']. cbn in *. subst. by exists e.
    + unfold reserved, idem_complete. cbn. rewrite lookup_insert_eq. eauto.
    + by rewrite bool_decide_true in Hc.
    + unfold reserved, idem_mark_conflict. cbn. rewrite lookup_insert_eq. eauto.
    + apply bool_decide_eq_false in Hc. unfold reserved, idem_restore. cbn.
      rewrite lookup_insert_eq. eexists. split; [done|]. cbn. tauto.
  - exists e. rewrite idem_apply_frame; [done| |done]. by intros ->.
Qed.

Lemma idem_apply_reserved_verdict c st pk :
  reserved pk st → call_pair c = Some pk → (idem_apply c st).1 ≠ Some IdempotencyVerdict.NEW.
Proof.
  intros (e & He & Hf) Hc. destruct c; cbn in *; simplify_eq/=; try done.
  unfold idem_begin. rewrite He. by repeat case_match; simplify_eq/=.
Qed.

Lemma executions_reserved pk cs st :
  reserved pk st → Forall (λ c, reopens pk c = false) cs → executions pk cs st = 0%nat.
Proof.
  revert st. induction cs as [|c cs IH]; intros st Hr Hcs; [done|].
  apply Forall_cons in Hcs as [Hc Hcs]. cbn [executions].
  pose proof (idem_apply_reserved c st pk Hr Hc) as Hr'.
  pose proof (idem_apply_reserved_verdict c st pk Hr) as Hv.
  destruct (idem_apply c st) as [v st']; cbn in *.
  rewrite bool_decide_false by naive_solver. by rewrite IH.
Qed.

Lemma begin_new_reserves op key hash auth st :
  st !! (op, key) = None → reserved (op, key) (idem_begin op key hash auth st).2.
Proof. intros H. unfold reserved, idem_begin. rewrite H. cbn. rewrite lookup_insert_eq. eauto. Qed.

Lemma idem_apply_absent c st pk :
  st !! pk = None → reopens pk c = false →
  (idem_apply c st).2 !! pk = None ∨ reserved pk (idem_apply c st).2.
Proof.
  intros Hn Hc. destruct (decide (call_pair c = Some pk)) as [Hp|Hne].
  - destruct c; cbn [idem_apply call_pair reopens] in *; simplify_eq.
    + right. pose proof (begin_new_reserves _ _ hash auth _ Hn) as Hr.
      by destruct (idem_begin op key hash auth st).
    + right. unfold reserved, idem_complete. cbn. rewrite lookup_insert_eq. eauto.
    + left. unfold idem_fail. by rewrite Hn.
    + right. unfold reserved, idem_mark_conflict. cbn. rewrite lookup_insert_eq. eauto.
    + right. apply bool_decide_eq_false in Hc. unfold reserved, idem_restore. cbn.
      rewrite lookup_insert_eq. eexists. split; [done|]. cbn. tauto.
  - left. rewrite idem_apply_frame; [done| |done]. by intros ->.
Qed.

(** The payload hash of an entry changes only by a restoration or a clear. *)
Fixpoint idem_run (cs : list idem_call) (st : IdempotencyStore) : IdempotencyStore :=
  match cs with [] => st | c :: cs => idem_run cs (idem_apply c st).2 end.

Lemma idem_apply_hash c st pk e :
  st !! pk = Some e → resets pk c = false →
  ∃ e', (idem_apply c st).2 !! pk = Some e' ∧ e_payload_hash e' = e_payload_hash e.
Proof.
  intros He Hr. destruct (decide (call_pair c = Some pk)) as [Hp|Hne].
  2: { exists e. rewrite idem_apply_frame; [done| |done]. by intros ->. }
  destruct c; cbn [idem_apply call_pair resets] in *; simplify_eq.
  - pose proof (idem_begin_present _ _ hash auth _ _ He) as Hb.
    destruct (idem_begin op key hash auth st) as [v st']. cbn in *. subst. by exists e.
  - unfold idem_complete. rewrite He. cbn. rewrite lookup_insert_eq. eauto.
  - unfold idem_fail. rewrite He. cbn. rewrite lookup_insert_eq. eauto.
  - unfold idem_mark_conflict. rewrite He. cbn. rewrite lookup_insert_eq. eauto.
  - by rewrite bool_decide_true in Hr.
Qed.

Lemma idem_run_hash cs st pk e :
  st !! pk = Some e → Forall (λ c, resets pk c = false) cs →
  ∃ e', idem_run cs st !! pk = Some e' ∧ e_payload_hash e' = e_payload_hash e.
Proof.
  revert st e. induction cs as [|c cs IH]; intros st e He Hcs; [by exists e|].
  apply Forall_cons in Hcs as [Hc Hcs].
  destruct (idem_apply_hash c st pk e He Hc) as (e1 & He1 & Hh1).
  destruct (IH _ _ He1 Hcs) as (e2 & He2 & Hh2). exists e2. split; [done | congruence].
Qed.

(** ** Properties *)

(** C11: at-most-once execution. In any sequence of calls of the methods that
    change the store, each complete before the next begins (the class has no
    mutex of its own), in which the key is not failed, not restored as failed and
    not cleared away, at most one [begin] on that key is answered [NEW]; none is
    when the key is already reserved. *)
Theorem idempotency_at_most_once pk st cs
  (Hst : st !! pk = None ∨ reserved pk st)
  (Hcs : Forall (λ c, reopens pk c = false) cs) :
  (executions pk cs st ≤ 1)%nat ∧ (reserved pk st → executions pk cs st = 0%nat).
Proof.
  split; [|intros Hr; by apply executions_reserved].
  destruct Hst as [Hn|Hr]; [|rewrite executions_reserved by done; lia].
  revert st Hn. induction cs as [|c cs IH]; intros st Hn; [cbn; lia|].
  apply Forall_cons in Hcs as [Hc Hcs]. cbn [executions].
  pose proof (idem_apply_absent c st pk Hn Hc) as Hor.
  destruct (idem_apply c st) as [v st'] eqn:Ea. cbn in Hor. destruct Hor as [Hn'|Hr'].
  - rewrite bool_decide_false; [cbn; by apply IH|].
    intros [Hp Hv]. destruct c; cbn in *; simplify_eq/=.
    unfold idem_begin in Ea. rewrite Hn in Ea. simplify_eq/=. by rewrite lookup_insert_eq in Hn'.
  - rewrite (executions_reserved pk cs st') by done. case_bool_decide; lia.
Qed.

(** Replay and conflict. Completing a key makes its result available, and
    from then on a duplicate submission with the recorded payload hash is
    answered [COMPLETED_REPLAY], one with another hash [CONFLICT]; neither
    changes the store, and no other key is touched. *)
Lemma completed_replay op key meta st :
  let st' := idem_complete op key meta st in
  prior_result op key st' = Some meta ∧
  (∀ hash auth, idem_begin op key hash auth st' =
     (if hash =? payload_hash op key st then IdempotencyVerdict.COMPLETED_REPLAY
      else IdempotencyVerdict.CONFLICT, st')) ∧
  (∀ pk, pk ≠ (op, key) → st' !! pk = st !! pk).
Proof.
  intros st'. unfold st', idem_complete, prior_result, idem_begin, payload_hash.
  split_and!.
  - by rewrite lookup_insert_eq.
  - intros hash auth. rewrite lookup_insert_eq. cbn [e_payload_hash e_state].
    assert (e_payload_hash (default entry0 (st !! (op, key)))
            = match st !! (op, key) with None => 0 | Some e => e_payload_hash e end) as ->
      by (by destruct (st !! (op, key))).
    rewrite (N.eqb_sym hash). by destruct (_ =? _).
  - intros pk Hne. by rewrite lookup_insert_ne.
Qed.

(** One key from its first submission on: new, then a replay while it runs; once
    completed its result is there and another payload is a conflict. *)
Lemma resubmission op key hash hash' auth meta :
  hash ≠ hash' →
  ∃ st, idem_begin op key hash auth ∅ = (IdempotencyVerdict.NEW, st) ∧
    idem_begin op key hash auth st = (IdempotencyVerdict.IN_PROGRESS_REPLAY, st) ∧
    prior_result op key (idem_complete op key meta st) = Some meta ∧
    idem_begin op key hash' auth (idem_complete op key meta st)
    = (IdempotencyVerdict.CONFLICT, idem_complete op key meta st).
Proof.
  intros Hne. eexists. split; [unfold idem_begin; by rewrite lookup_empty|].
  destruct (completed_replay op key meta
    (<[(op, key) := MkEntry hash IdempotencyState.IN_PROGRESS "" auth]> ∅)) as (Hp & Hb & _).
  split; [unfold idem_begin; rewrite lookup_insert_eq; cbn; by rewrite N.eqb_refl|].
  split; [exact Hp|]. rewrite Hb. unfold payload_hash. rewrite lookup_insert_eq. cbn [e_payload_hash].
  by rewrite (proj2 (N.eqb_neq hash' hash)).
Qed.

(** A conflicting payload is rejected for ever. Once a key holds a payload
    hash, after any sequence of calls (failures included) that neither restores
    the key nor clears the store, a [begin] with another hash is answered
    [CONFLICT] and changes nothing. *)
Lemma conflicting_payload_rejected pk e st cs hash auth
  (He : st !! pk = Some e) (Hh : hash ≠ e_payload_hash e)
  (Hcs : Forall (λ c, resets pk c = false) cs) :
  idem_begin pk.1 pk.2 hash auth (idem_run cs st)
  = (IdempotencyVerdict.CONFLICT, idem_run cs st).
Proof.
  destruct (idem_run_hash cs st pk e He Hcs) as (e' & He' & Hh').
  destruct pk as [op key]. unfold idem_begin. cbn [fst snd]. rewrite He'.
  by replace (e_payload_hash e' =? hash) with false by (symmetry; apply N.eqb_neq; congruence).
Qed.

(** [begin] does not consult the submitted authority. Its verdict and
    every entry's hash, state and result are the same for any two envelopes,
    and [STALE] is never answered. *)
Lemma begin_ignores_authority op key hash auth auth' st :
  (idem_begin op key hash auth st).1 = (idem_begin op key hash auth' st).1 ∧
  option_map (λ e, entry_view ((op, key), e)) ((idem_begin op key hash auth st).2 !! (op, key))
  = option_map (λ e, entry_view ((op, key), e)) ((idem_begin op key hash auth' st).2 !! (op, key)) ∧
  (idem_begin op key hash auth st).1 ≠ IdempotencyVerdict.STALE.
Proof.
  unfold idem_begin. destruct (st !! (op, key)) eqn:E.
  - repeat case_match; simplify_eq/=; by rewrite ?E.
  - cbn. by rewrite !lookup_insert_eq.
Qed.

(** A failed key is not reserved by its retry. [begin] on a [FAILED] entry
    answers [NEW] and leaves it [FAILED], so every one of [n] submissions of
    the same payload is told to execute. *)
Lemma failed_key_executes_every_time op key st e auth n
  (He : st !! (op, key) = Some e) (Hf : e_state e = IdempotencyState.FAILED) :
  executions (op, key) (replicate n (Begin op key (e_payload_hash e) auth)) st = n.
Proof.
  assert (idem_apply (Begin op key (e_payload_hash e) auth) st
          = (Some IdempotencyVerdict.NEW, st)) as Hb.
  { cbn. unfold idem_begin. by rewrite He, N.eqb_refl, Hf. }
  induction n as [|n IH]; [done|]. cbn [replicate executions].
  rewrite Hb, IH. by rewrite bool_decide_true.
Qed.

(** ** Two callers at once

    [begin] in two halves: the lookup, and what follows it on a store that may
    have changed since. [emplace] keeps an entry that is already there. *)
Definition begin_rest (found : option Entry) (op : OperationId) (key : IdempotencyKey) (hash : N)
    (auth : AuthorityEnvelope) (entries : IdempotencyStore)
  : IdempotencyVerdict.t * IdempotencyStore :=
  match found with
  | None =>
      (IdempotencyVerdict.NEW,
       match entries !! (op, key) with
       | Some _ => entries
       | None => <[(op, key) := MkEntry hash IdempotencyState.IN_PROGRESS "" auth]> entries
       end)
  | Some e => idem_begin op key hash auth (<[(op, key) := e]> entries)
  end.

Lemma begin_halves op key hash auth st :
  begin_rest (st !! (op, key)) op key hash auth st = idem_begin op key hash auth st.
Proof.
  unfold begin_rest. destruct (st !! (op, key)) eqn:E.
  - by rewrite insert_id.
  - unfold idem_begin. by rewrite E.
Qed.

(** Two [begin]s of a new key that both look before either inserts are both
    told to execute, even with different payloads. *)
Lemma concurrent_begins_both_new op key h1 h2 a1 a2 st :
  st !! (op, key) = None →
  let found := st !! (op, key) in
  let st1 := (begin_rest found op key h1 a1 st).2 in
  (begin_rest found op key h1 a1 st).1 = IdempotencyVerdict.NEW ∧
  (begin_rest found op key h2 a2 st1).1 = IdempotencyVerdict.NEW ∧
  (begin_rest found op key h2 a2 st1).2 = st1.
Proof.
  intros Hn found st1. unfold st1, found, begin_rest. rewrite Hn. cbn. by rewrite lookup_insert_eq.
Qed.

(** ** Witnesses *)
Definition op1 : OperationId := MkId (uuid128_from_hex "cafe0001").
Definition key1 : IdempotencyKey := MkIdemKey (uuid128_from_hex "77").

Lemma idempotency_at_most_once_witness :
  executions (op1, key1)
    [Begin op1 key1 7 authority0; Begin op1 key1 7 authority0;
     Complete op1 key1 "done"; Begin op1 key1 7 authority0] ∅ = 1%nat ∧
  (executions (op1, key1)
    [Begin op1 key1 7 authority0; Begin op1 key1 7 authority0;
     Complete op1 key1 "done"; Begin op1 key1 7 authority0] ∅ ≤ 1)%nat.
Proof.
  split; [vm_compute; reflexivity|].
  apply (idempotency_at_most_once (op1, key1) ∅); [left; reflexivity | repeat constructor].
Defined.

Lemma conflicting_payload_rejected_witness :
  let st := (idem_begin op1 key1 7 authority0 ∅).2 in
  idem_begin op1 key1 8 authority0 (idem_run [FailCall op1 key1] st)
  = (IdempotencyVerdict.CONFLICT, idem_run [FailCall op1 key1] st).
Proof.
  exact (conflicting_payload_rejected (op1, key1)
           (MkEntry 7 IdempotencyState.IN_PROGRESS "" authority0)
           (idem_begin op1 key1 7 authority0 ∅).2 [FailCall op1 key1] 8 authority0
           eq_refl ltac:(discriminate) ltac:(repeat constructor)).
Defined.
