(* ===== verification/Registry.v ===== *)
(** * Operation registry
    ([include/failure_fabric/operation_registry.hpp], [src/operation_registry.cpp])

    Every method takes the registry's mutex for its whole body, so a method is
    one atomic step; a concurrent execution is a sequence of calls. *)
From stdpp Require Import gmap.
From S2P Require Import Prelude Ident Enums Authority Operation Idempotency.

Local Open Scope N_scope.

Module ApplyResult.
Variant t :=
  | OK | STALE_REJECTED | ILLEGAL_TRANSITION | ALREADY_TERMINAL
  | CONFLICT | UNKNOWN_OPERATION | FENCED | ALREADY_REPORTED.

#[global] Instance eq_dec : EqDecision t.
Proof. solve_decision. Defined.

Definition to_string (v : t) : string :=
  match v with
  | OK => "OK"
  | STALE_REJECTED => "STALE_REJECTED"
  | ILLEGAL_TRANSITION => "ILLEGAL_TRANSITION"
  | ALREADY_TERMINAL => "ALREADY_TERMINAL"
  | CONFLICT => "CONFLICT"
  | UNKNOWN_OPERATION => "UNKNOWN_OPERATION"
  | FENCED => "FENCED"
  | ALREADY_REPORTED => "ALREADY_REPORTED"
  end.
End ApplyResult.
Abbreviation ApplyResult := ApplyResult.t.

Record OperationRuntime := MkRuntime {
  machine : OperationStateMachine;
  authority : AuthorityEnvelope;
  terminal : AuthorityEnvelope;
  terminal_recorded : bool;
  attempt_count : N;
  terminal_outcome : string;
  idempotent : bool;
  idem_key : IdempotencyKey;
}.

(** The default-constructed runtime. *)
Definition runtime0 : OperationRuntime :=
  MkRuntime machine0 authority0 authority0 false 0 "" false idem_key0.

(** Field updates. *)
Definition set_machine (m : OperationStateMachine) (r : OperationRuntime) : OperationRuntime :=
  MkRuntime m (authority r) (terminal r) (terminal_recorded r) (attempt_count r)
    (terminal_outcome r) (idempotent r) (idem_key r).
Definition set_authority (a : AuthorityEnvelope) (r : OperationRuntime) : OperationRuntime :=
  MkRuntime (machine r) a (terminal r) (terminal_recorded r) (attempt_count r)
    (terminal_outcome r) (idempotent r) (idem_key r).
Definition incr_attempts (r : OperationRuntime) : OperationRuntime :=
  MkRuntime (machine r) (authority r) (terminal r) (terminal_recorded r)
    (wrap 32 (attempt_count r + 1)) (terminal_outcome r) (idempotent r) (idem_key r).
Definition set_terminal (a : AuthorityEnvelope) (outcome : string) (r : OperationRuntime)
  : OperationRuntime :=
  MkRuntime (machine r) (authority r) a true (attempt_count r) outcome
    (idempotent r) (idem_key r).

Abbreviation OperationRegistry := (gmap OperationId OperationRuntime).

(** ** Operations *)
Definition create (op : OperationId) (initial : AuthorityEnvelope) (ops : OperationRegistry)
  : ApplyResult * OperationRegistry :=
  match ops !! op with
  | Some _ => (ApplyResult.ALREADY_TERMINAL, ops)
  | None =>
      let r := set_authority initial runtime0 in
      let r := set_machine (machine_reset (machine r) OperationState.CREATED) r in
      (ApplyResult.OK, <[op := r]> ops)
  end.

(** The body of the methods after the lookup: a partial update of the found
    runtime, written back in place. *)
Definition with_op (op : OperationId) (ops : OperationRegistry)
    (body : OperationRuntime → ApplyResult * OperationRuntime) : ApplyResult * OperationRegistry :=
  match ops !! op with
  | None => (ApplyResult.UNKNOWN_OPERATION, ops)
  | Some r => let '(res, r') := body r in (res, <[op := r']> ops)
  end.

(** [dispatch] on a runtime: the authority is assigned before the terminal
    state check. *)
Definition dispatch_body (attempt : AuthorityEnvelope) (r : OperationRuntime)
  : ApplyResult * OperationRuntime :=
  if terminal_recorded r then (ApplyResult.ALREADY_TERMINAL, r)
  else
    let r := set_authority attempt r in
    let s := state_ (machine r) in
    if is_terminal s then (ApplyResult.ILLEGAL_TRANSITION, r)
    else
      let r := if decide (s ≠ OperationState.DISPATCHED)
               then set_machine (machine_reset (machine r) OperationState.DISPATCHED) r
               else r in
      (ApplyResult.OK, incr_attempts r).

Definition dispatch_op (op : OperationId) (attempt : AuthorityEnvelope) (ops : OperationRegistry)
  : ApplyResult * OperationRegistry := with_op op ops (dispatch_body attempt).

Definition transition_body (to : OperationState) (attempt : AuthorityEnvelope)
    (r : OperationRuntime) : ApplyResult * OperationRuntime :=
  if terminal_recorded r then (ApplyResult.ALREADY_TERMINAL, r)
  else if negb (accepted (fence_failure attempt (authority r)))
    then (ApplyResult.STALE_REJECTED, r)
  else
    let '(ok, m) := machine_transition (machine r) to in
    if negb ok then (ApplyResult.ILLEGAL_TRANSITION, set_machine m r)
    else (ApplyResult.OK, set_machine m r).

Definition run (op : OperationId) (attempt : AuthorityEnvelope) (ops : OperationRegistry)
  : ApplyResult * OperationRegistry :=
  with_op op ops (transition_body OperationState.RUNNING attempt).

Definition report_completion_body (attempt : AuthorityEnvelope) (partial : bool)
    (r : OperationRuntime) : ApplyResult * OperationRuntime :=
  if terminal_recorded r then (ApplyResult.ALREADY_TERMINAL, r)
  else if negb (accepted (fence_completion attempt (authority r) (terminal r)))
    then (ApplyResult.STALE_REJECTED, r)
  else if bool_decide (state_ (machine r) = OperationState.COMPLETION_REPORTED)
          || bool_decide (state_ (machine r) = OperationState.COMPLETION_CONFIRMED)
    then (ApplyResult.ALREADY_REPORTED, r)
  else
    let '(ok, m) := machine_transition (machine r)
      (if partial then OperationState.PARTIALLY_SUCCEEDED
       else OperationState.COMPLETION_REPORTED) in
    if negb ok then (ApplyResult.ILLEGAL_TRANSITION, set_machine m r)
    else (ApplyResult.OK, set_machine m r).

Definition report_completion (op : OperationId) (attempt : AuthorityEnvelope) (partial : bool)
    (ops : OperationRegistry) : ApplyResult * OperationRegistry :=
  with_op op ops (report_completion_body attempt partial).

Definition confirm_completion_body (attempt : AuthorityEnvelope) (r : OperationRuntime)
  : ApplyResult * OperationRuntime :=
  if terminal_recorded r then (ApplyResult.ALREADY_TERMINAL, r)
  else if negb (accepted (fence_completion attempt (authority r) (terminal r)))
    then (ApplyResult.STALE_REJECTED, r)
  else
    let '(ok, m) := machine_transition (machine r) OperationState.COMPLETION_CONFIRMED in
    if negb ok then (ApplyResult.ILLEGAL_TRANSITION, set_machine m r)
    else (ApplyResult.OK, set_terminal attempt "COMPLETED" (set_machine m r)).

Definition confirm_completion (op : OperationId) (attempt : AuthorityEnvelope)
    (ops : OperationRegistry) : ApplyResult * OperationRegistry :=
  with_op op ops (confirm_completion_body attempt).

Definition report_failure (op : OperationId) (attempt : AuthorityEnvelope) (ambiguous : bool)
    (ops : OperationRegistry) : ApplyResult * OperationRegistry :=
  with_op op ops (transition_body
    (if ambiguous then OperationState.FAILED_AMBIGUOUS else OperationState.FAILED_KNOWN) attempt).

Definition transition (op : OperationId) (to : OperationState) (attempt : AuthorityEnvelope)
    (ops : OperationRegistry) : ApplyResult * OperationRegistry :=
  with_op op ops (transition_body to attempt).

(** [m.transition(a) || m.transition(b) || ...]: the first accepted one. *)
Fixpoint try_transitions (m : OperationStateMachine) (tos : list OperationState)
  : bool * OperationStateMachine :=
  match tos with
  | [] => (false, m)
  | to :: tos =>
      let '(ok, m') := machine_transition m to in
      if ok then (true, m') else try_transitions m' tos
  end.

Definition record_terminal_body (attempt : AuthorityEnvelope) (outcome : string)
    (r : OperationRuntime) : ApplyResult * OperationRuntime :=
  if terminal_recorded r then
    if decide (terminal_outcome r = outcome) then (ApplyResult.OK, r)
    else (ApplyResult.ALREADY_TERMINAL, r)
  else if negb (accepted (fence_failure attempt (authority r)))
    then (ApplyResult.STALE_REJECTED, r)
  else
    let '(ok, m) := try_transitions (machine r)
      [OperationState.TERMINAL_FAILED; OperationState.CANCELLED; OperationState.RECOVERED;
       OperationState.ABANDONED; OperationState.COMPLETION_CONFIRMED] in
    if negb ok then (ApplyResult.ILLEGAL_TRANSITION, set_machine m r)
    else (ApplyResult.OK, set_terminal attempt outcome (set_machine m r)).

Definition record_terminal (op : OperationId) (attempt : AuthorityEnvelope) (outcome : string)
    (ops : OperationRegistry) : ApplyResult * OperationRegistry :=
  with_op op ops (record_terminal_body attempt outcome).

Definition restore (op : OperationId) (rt : OperationRuntime) (ops : OperationRegistry)
  : bool * OperationRegistry :=
  match ops !! op with
  | Some _ => (false, ops)
  | None => (true, <[op := rt]> ops)
  end.

(** ** Observers *)
Definition has (op : OperationId) (ops : OperationRegistry) : bool :=
  bool_decide (is_Some (ops !! op)).

Definition state (op : OperationId) (ops : OperationRegistry) : OperationState :=
  match ops !! op with
  | None => OperationState.CREATED
  | Some r => state_ (machine r)
  end.

Definition current_authority (op : OperationId) (ops : OperationRegistry) : AuthorityEnvelope :=
  match ops !! op with None => authority0 | Some r => authority r end.

(** [clear]: every operation is forgotten, and with it every outcome. The calls
    below are those about one operation; their sequences run between two
    [clear]s. *)
Definition registry_clear : OperationRegistry := ∅.

(** ** Calls and traces *)
Variant reg_call :=
  | Create (op : OperationId) (initial : AuthorityEnvelope)
  | Dispatch (op : OperationId) (attempt : AuthorityEnvelope)
  | Run (op : OperationId) (attempt : AuthorityEnvelope)
  | ReportCompletion (op : OperationId) (attempt : AuthorityEnvelope) (partial : bool)
  | ConfirmCompletion (op : OperationId) (attempt : AuthorityEnvelope)
  | ReportFailure (op : OperationId) (attempt : AuthorityEnvelope) (ambiguous : bool)
  | Transition (op : OperationId) (to : OperationState) (attempt : AuthorityEnvelope)
  | RecordTerminal (op : OperationId) (attempt : AuthorityEnvelope) (outcome : string)
  | Restore (op : OperationId) (rt : OperationRuntime).

Variant call_result := Applied (r : ApplyResult) | Restored (b : bool).

Definition reg_apply (c : reg_call) (ops : OperationRegistry) : call_result * OperationRegistry :=
  match c with
  | Create op a => let '(r, ops') := create op a ops in (Applied r, ops')
  | Dispatch op a => let '(r, ops') := dispatch_op op a ops in (Applied r, ops')
  | Run op a => let '(r, ops') := run op a ops in (Applied r, ops')
  | ReportCompletion op a p => let '(r, ops') := report_completion op a p ops in (Applied r, ops')
  | ConfirmCompletion op a => let '(r, ops') := confirm_completion op a ops in (Applied r, ops')
  | ReportFailure op a b => let '(r, ops') := report_failure op a b ops in (Applied r, ops')
  | Transition op to a => let '(r, ops') := transition op to a ops in (Applied r, ops')
  | RecordTerminal op a o => let '(r, ops') := record_terminal op a o ops in (Applied r, ops')
  | Restore op rt => let '(b, ops') := restore op rt ops in (Restored b, ops')
  end.

Definition call_op (c : reg_call) : OperationId :=
  match c with
  | Create op _ | Dispatch op _ | Run op _ | ReportCompletion op _ _ | ConfirmCompletion op _
  | ReportFailure op _ _ | Transition op _ _ | RecordTerminal op _ _ | Restore op _ => op
  end.

Fixpoint reg_run (cs : list reg_call) (ops : OperationRegistry) : OperationRegistry :=
  match cs with [] => ops | c :: cs => reg_run cs (reg_apply c ops).2 end.

Lemma reg_run_app cs1 cs2 ops : reg_run (cs1 ++ cs2) ops = reg_run cs2 (reg_run cs1 ops).
Proof. revert ops. induction cs1 as [|c cs1 IH]; intros ops; [done|]. apply IH. Qed.

(** What a call does to the runtime of its own operation. *)
Definition call_body (c : reg_call) : OperationRuntime → ApplyResult * OperationRuntime :=
  match c with
  | Create _ _ | Restore _ _ => λ r, (ApplyResult.ALREADY_TERMINAL, r)
  | Dispatch _ a => dispatch_body a
  | Run _ a => transition_body OperationState.RUNNING a
  | ReportCompletion _ a p => report_completion_body a p
  | ConfirmCompletion _ a => confirm_completion_body a
  | ReportFailure _ a b => transition_body
      (if b then OperationState.FAILED_AMBIGUOUS else OperationState.FAILED_KNOWN) a
  | Transition _ to a => transition_body to a
  | RecordTerminal _ a o => record_terminal_body a o
  end.

(** What a call inserts for an absent operation. *)
Definition call_insert (c : reg_call) : option OperationRuntime :=
  match c with
  | Create _ a => Some (set_authority a runtime0)
  | Restore _ rt => Some rt
  | _ => None
  end.

(** ** Lemmas *)

(** The three facts that describe every call: the frame, the effect on a
    present operation, and the effect on an absent one. *)
Lemma reg_apply_frame c ops op :
  call_op c ≠ op → (reg_apply c ops).2 !! op = ops !! op.
Proof.
  intros Hne. destruct c; cbn in *;
    unfold create, dispatch_op, run, report_completion, confirm_completion, report_failure,
      transition, record_terminal, restore, with_op;
    repeat case_match; simplify_eq/=; by rewrite ?lookup_insert_ne.
Qed.

Lemma reg_apply_present c ops r :
  ops !! call_op c = Some r → (reg_apply c ops).2 !! call_op c = Some (call_body c r).2.
Proof.
  intros H. destruct c; cbn in *;
    unfold create, dispatch_op, run, report_completion, confirm_completion, report_failure,
      transition, record_terminal, restore, with_op; rewrite H;
    repeat case_match; simplify_eq/=; by rewrite ?lookup_insert_eq.
Qed.

Lemma reg_apply_absent c ops :
  ops !! call_op c = None → (reg_apply c ops).2 !! call_op c = call_insert c.
Proof.
  intros H. destruct c; cbn in *;
    unfold create, dispatch_op, run, report_completion, confirm_completion, report_failure,
      transition, record_terminal, restore, with_op; rewrite H; cbn;
    by rewrite ?lookup_insert_eq.
Qed.

(** The registry after one call, without its answer. *)
Lemma reg_apply_next c o :
  (reg_apply c o).2 =
  match c with
  | Create op a => (create op a o).2
  | Dispatch op a => (dispatch_op op a o).2
  | Run op a => (run op a o).2
  | ReportCompletion op a p => (report_completion op a p o).2
  | ConfirmCompletion op a => (confirm_completion op a o).2
  | ReportFailure op a b => (report_failure op a b o).2
  | Transition op to a => (transition op to a o).2
  | RecordTerminal op a out => (record_terminal op a out o).2
  | Restore op rt => (restore op rt o).2
  end.
Proof.
  destruct c; unfold reg_apply;
    match goal with |- context [let '(_, _) := ?x in _] => by destruct x end.
Qed.

(** Calls on other operations. *)
Lemma reg_run_frame cs op : ∀ ops,
  Forall (λ c, call_op c ≠ op) cs → reg_run cs ops !! op = ops !! op.
Proof.
  induction cs as [|c cs IH]; intros ops H; [done|]. apply Forall_cons in H as [Hc H].
  cbn [reg_run]. by rewrite IH, reg_apply_frame.
Qed.

(** *** The machine's answers *)
Lemma machine_transition_eq m to :
  machine_transition m to = (is_allowed (state_ m) to,
                             if is_allowed (state_ m) to then MkMachine to else m).
Proof. unfold machine_transition, can_transition. by destruct (is_allowed (state_ m) to). Qed.

Lemma try_transitions_spec m tos b m' :
  try_transitions m tos = (b, m') →
  (b = true ∧ ∃ to, to ∈ tos ∧ step (state_ m) to ∧ m' = MkMachine to) ∨ (b = false ∧ m' = m).
Proof.
  revert m. induction tos as [|to tos IH]; intros m; cbn [try_transitions].
  - intros [= <- <-]. auto.
  - rewrite machine_transition_eq. destruct (is_allowed (state_ m) to) eqn:E.
    + intros [= <- <-]. left. split; [done|]. exists to. split_and!; try done. apply elem_of_cons. auto.
    + intros H. destruct (IH _ H) as [(? & x & ? & ?)|?]; [left|by right].
      split; [done|]. exists x. split; [|done]. apply elem_of_cons. auto.
Qed.

Lemma set_machine_id r : set_machine (machine r) r = r.
Proof. by destruct r. Qed.

Lemma record_targets_terminal s :
  s ∈ [OperationState.TERMINAL_FAILED; OperationState.CANCELLED; OperationState.RECOVERED;
       OperationState.ABANDONED; OperationState.COMPLETION_CONFIRMED] → is_terminal s = true.
Proof. rewrite !elem_of_cons. intros H. destruct_or! H; subst; try done. by apply elem_of_nil in H. Qed.

Lemma fence_failure_set c cur :
  accepted (fence_failure c cur) = true → envelope_is_unset c = false.
Proof. rewrite fence_failure_accepted. by intros [? _]. Qed.

Lemma fence_completion_set c cur t :
  accepted (fence_completion c cur t) = true → envelope_is_unset c = false.
Proof. rewrite fence_completion_accepted. by intros [? _]. Qed.

#[export] Hint Resolve fence_failure_set fence_completion_set wrap_fits : ff.

(** *** The five effects a call can have on a runtime

    Every method body is one of these; the invariants below are proved on the
    effects, not on the bodies. *)
Variant effect (r : OperationRuntime) : OperationRuntime → Prop :=
  | eff_none : effect r r
  | eff_authority a : terminal_recorded r = false →
      is_terminal (state_ (machine r)) = true → effect r (set_authority a r)
  | eff_redispatch a : terminal_recorded r = false →
      is_terminal (state_ (machine r)) = false →
      effect r (incr_attempts (set_machine (MkMachine OperationState.DISPATCHED)
                                           (set_authority a r)))
  | eff_step to : terminal_recorded r = false → step (state_ (machine r)) to →
      effect r (set_machine (MkMachine to) r)
  | eff_terminal a to outcome : terminal_recorded r = false →
      step (state_ (machine r)) to → is_terminal to = true → envelope_is_unset a = false →
      effect r (set_terminal a outcome (set_machine (MkMachine to) r)).
#[export] Hint Constructors effect : ff.

Lemma dispatch_body_effect a r : effect r (dispatch_body a r).2.
Proof.
  unfold dispatch_body. destruct (terminal_recorded r) eqn:Et; [constructor|].
  cbn [machine set_authority]. destruct (is_terminal (state_ (machine r))) eqn:Es; [by constructor|].
  case_decide as Hd; [by apply (eff_redispatch r a)|].
  replace (set_authority a r)
    with (set_machine (MkMachine OperationState.DISPATCHED) (set_authority a r));
    [by apply (eff_redispatch r a)|].
  destruct r as [[s] ? ? ? ? ? ? ?]; cbn in *; by subst.
Qed.

(** The common tail of the guarded methods. *)
Lemma transition_effect to r :
  terminal_recorded r = false →
  effect r (set_machine (if is_allowed (state_ (machine r)) to then MkMachine to else machine r) r).
Proof.
  intros Ht. destruct (is_allowed (state_ (machine r)) to) eqn:E; [by constructor|].
  rewrite set_machine_id. constructor.
Qed.

Lemma transition_body_effect to a r : effect r (transition_body to a r).2.
Proof.
  unfold transition_body. destruct (terminal_recorded r) eqn:Et; [constructor|].
  destruct (accepted _); [|constructor]. rewrite machine_transition_eq. cbn [negb].
  pose proof (transition_effect to r Et). by destruct (is_allowed _ _).
Qed.

Lemma report_completion_body_effect a p r : effect r (report_completion_body a p r).2.
Proof.
  unfold report_completion_body. destruct (terminal_recorded r) eqn:Et; [constructor|].
  destruct (accepted _); [|constructor]. cbn [negb]. destruct (_ || _); [constructor|].
  rewrite machine_transition_eq. set (to := if p then _ else _). clearbody to.
  pose proof (transition_effect to r Et). by destruct (is_allowed _ _).
Qed.

Lemma confirm_completion_body_effect a r : effect r (confirm_completion_body a r).2.
Proof.
  unfold confirm_completion_body. destruct (terminal_recorded r) eqn:Et; [constructor|].
  destruct (accepted _) eqn:Ea; [|constructor]. rewrite machine_transition_eq. cbn [negb].
  destruct (is_allowed _ _) eqn:E; cbn [negb snd].
  - apply eff_terminal; eauto with ff.
  - rewrite set_machine_id. constructor.
Qed.

Lemma record_terminal_body_effect a o r : effect r (record_terminal_body a o r).2.
Proof.
  unfold record_terminal_body. destruct (terminal_recorded r) eqn:Et.
  - case_decide; constructor.
  - destruct (accepted _) eqn:Ea; [|constructor]. cbn [negb].
    destruct (try_transitions _ _) as [ok m] eqn:E.
    apply try_transitions_spec in E as [(-> & to & Hto & Hs & ->)|[-> ->]]; cbn [negb snd].
    + apply eff_terminal; eauto using record_targets_terminal with ff.
    + rewrite set_machine_id. constructor.
Qed.

#[export] Hint Resolve dispatch_body_effect transition_body_effect report_completion_body_effect
  confirm_completion_body_effect record_terminal_body_effect : ff.

Lemma call_body_effect c r : effect r (call_body c r).2.
Proof. destruct c; cbn [call_body]; auto with ff. Qed.

(** A state change is one of: nothing, an accepted transition, or the reset
    of a non-terminal state by [dispatch]. *)
Variant evolves : OperationState → OperationState → Prop :=
  | evolves_same s : evolves s s
  | evolves_step s s' : step s s' → evolves s s'
  | evolves_redispatch s : is_terminal s = false → evolves s OperationState.DISPATCHED.
#[export] Hint Constructors evolves : ff.

Lemma effect_evolves r r' : effect r r' → evolves (state_ (machine r)) (state_ (machine r')).
Proof. intros []; cbn; auto with ff. Qed.

(** A recorded terminal outcome freezes the runtime. *)
Lemma effect_frozen r r' : effect r r' → terminal_recorded r = true → r' = r.
Proof. intros []; congruence. Qed.

Lemma reg_apply_frozen c ops op r :
  ops !! op = Some r → terminal_recorded r = true → (reg_apply c ops).2 !! op = Some r.
Proof.
  intros Hr Ht. destruct (decide (call_op c = op)) as [<-|Hne].
  - rewrite (reg_apply_present c ops r Hr). f_equal. eauto using effect_frozen, call_body_effect.
  - by rewrite reg_apply_frame.
Qed.

Lemma reg_run_frozen cs ops op r :
  ops !! op = Some r → terminal_recorded r = true → reg_run cs ops !! op = Some r.
Proof.
  revert ops. induction cs as [|c cs IH]; intros ops Hr Ht; [done|].
  cbn [reg_run]. apply IH; [|done]. by apply reg_apply_frozen.
Qed.

(** ** Well-formed runtimes *)
Record runtime_wf (r : OperationRuntime) : Prop := {
  wf_recorded : terminal_recorded r = true →
    is_terminal (state_ (machine r)) = true ∧ envelope_is_unset (terminal r) = false;
  wf_open : terminal_recorded r = false → terminal r = authority0 ∧ terminal_outcome r = "";
  wf_attempts : fits 32 (attempt_count r);
}.

Definition registry_wf (ops : OperationRegistry) : Prop := map_Forall (λ _, runtime_wf) ops.

(** A restored runtime must itself be well formed. *)
Definition call_wf (c : reg_call) : Prop :=
  match c with Restore _ rt => runtime_wf rt | _ => True end.

Lemma effect_wf r r' : effect r r' → runtime_wf r → runtime_wf r'.
Proof.
  intros He [Hrec Hopen Hatt]. destruct He; constructor; cbn in *; auto with ff; congruence.
Qed.

Lemma call_insert_wf c r : call_wf c → call_insert c = Some r → runtime_wf r.
Proof. destruct c; cbn; intros Hw [= <-]; [|done]. by constructor. Qed.

Lemma reg_apply_wf c ops : registry_wf ops → call_wf c → registry_wf (reg_apply c ops).2.
Proof.
  intros Hw Hc op r Hr. destruct (decide (call_op c = op)) as [<-|Hne].
  - destruct (ops !! call_op c) as [r0|] eqn:E.
    + rewrite (reg_apply_present c ops r0 E) in Hr. injection Hr as <-.
      eapply effect_wf; [apply call_body_effect | exact (Hw _ _ E)].
    + rewrite (reg_apply_absent c ops E) in Hr. eauto using call_insert_wf.
  - rewrite reg_apply_frame in Hr by done. exact (Hw _ _ Hr).
Qed.

Lemma reg_run_wf cs ops : registry_wf ops → Forall call_wf cs → registry_wf (reg_run cs ops).
Proof.
  revert ops. induction cs as [|c cs IH]; intros ops Hw Hcs; [done|].
  apply Forall_cons in Hcs as [Hc Hcs]. cbn [reg_run]. apply IH; [|done]. by apply reg_apply_wf.
Qed.

(** ** Fencing *)

(** Whether a call is rejected before it touches a runtime with an open
    outcome: its fence rejects it, or it only ever inserts. *)
Definition fenced_out (c : reg_call) (r : OperationRuntime) : bool :=
  match c with
  | Create _ _ | Restore _ _ => true
  | Dispatch _ _ => false
  | ReportCompletion _ a _ | ConfirmCompletion _ a =>
      negb (accepted (fence_completion a (authority r) (terminal r)))
  | Run _ a | ReportFailure _ a _ | Transition _ _ a | RecordTerminal _ a _ =>
      negb (accepted (fence_failure a (authority r)))
  end.

Lemma call_body_fenced c r :
  terminal_recorded r = false → fenced_out c r = true → (call_body c r).2 = r.
Proof.
  intros Ht Hf. destruct c; cbn [call_body fenced_out] in *; try done;
    unfold transition_body, report_completion_body, confirm_completion_body,
      record_terminal_body; by rewrite Ht, Hf.
Qed.

Lemma reg_run_fenced cs ops op r :
  ops !! op = Some r → terminal_recorded r = false →
  Forall (λ c, call_op c = op → fenced_out c r = true) cs →
  reg_run cs ops !! op = Some r.
Proof.
  intros Hr Ht. revert ops Hr. induction cs as [|c cs IH]; intros ops Hr Hcs; [done|].
  apply Forall_cons in Hcs as [Hc Hcs]. cbn [reg_run]. apply IH; [|done].
  destruct (decide (call_op c = op)) as [<-|Hne].
  - rewrite (reg_apply_present c ops r Hr). by rewrite call_body_fenced by auto.
  - by rewrite reg_apply_frame.
Qed.

(** The envelope a call presents, for the calls that are fenced. *)
Definition presented (c : reg_call) : option AuthorityEnvelope :=
  match c with
  | Create _ _ | Restore _ _ | Dispatch _ _ => None
  | ReportCompletion _ a _ | ConfirmCompletion _ a | Run _ a | ReportFailure _ a _
  | Transition _ _ a | RecordTerminal _ a _ => Some a
  end.

Definition is_dispatch (c : reg_call) : bool :=
  match c with Dispatch _ _ => true | _ => false end.

Lemma other_attempt_rejected c cur t :
  attempt cur ≠ null_id → attempt c ≠ attempt cur →
  accepted (fence_failure c cur) = false ∧ accepted (fence_completion c cur t) = false.
Proof.
  intros Hn Hne. split; apply not_true_is_false.
  - rewrite fence_failure_accepted. intros (_ & _ & [H|H] & _); done.
  - rewrite fence_completion_accepted. intros (_ & _ & [H|H] & _); done.
Qed.

Lemma other_attempt_fenced_out c r a :
  presented c = Some a → attempt (authority r) ≠ null_id →
  attempt a ≠ attempt (authority r) → fenced_out c r = true.
Proof.
  intros Hp Hn Hne. pose proof (other_attempt_rejected a (authority r) (terminal r) Hn Hne) as [H1 H2].
  destruct c; cbn in *; simplify_eq/=; by rewrite ?H1, ?H2.
Qed.

Lemma fence_failure_self a :
  envelope_is_unset a = false → accepted (fence_failure a a) = true.
Proof.
  intros H. apply fence_failure_accepted. unfold failure_current, not_older, same_if_set.
  split_and!; try done; auto; lia.
Qed.

Lemma fence_completion_self a :
  envelope_is_unset a = false → accepted (fence_completion a a authority0) = true.
Proof.
  intros H. apply fence_completion_accepted.
  unfold completion_current, not_older, same_if_set, newer_than_terminal.
  split_and!; try done; auto; lia.
Qed.

Lemma dispatch_open ops op r a :
  ops !! op = Some r → terminal_recorded r = false → is_terminal (state_ (machine r)) = false →
  ∃ r', (dispatch_op op a ops) = (ApplyResult.OK, <[op := r']> ops) ∧ authority r' = a ∧
    state_ (machine r') = OperationState.DISPATCHED ∧ terminal_recorded r' = false ∧
    terminal r' = terminal r ∧ attempt_count r' = wrap 32 (attempt_count r + 1).
Proof.
  intros Hr Ht Hs. unfold dispatch_op, with_op. rewrite Hr. unfold dispatch_body.
  rewrite Ht. cbn [machine set_authority]. rewrite Hs.
  destruct (decide (state_ (machine r) ≠ OperationState.DISPATCHED)) as [Hd|Hd];
    (eexists; split; [reflexivity|]); split_and!; try done.
  by apply dec_stable in Hd.
Qed.

(** ** Terminal outcomes *)

(** The write-once outcome of an operation. *)
Definition outcome_of (ops : OperationRegistry) (op : OperationId) : option string :=
  match ops !! op with
  | Some r => if terminal_recorded r then Some (terminal_outcome r) else None
  | None => None
  end.

(** The calls of a trace at which an outcome of [op] appears. *)
Fixpoint terminal_events (op : OperationId) (cs : list reg_call) (ops : OperationRegistry) : nat :=
  match cs with
  | [] => 0
  | c :: cs =>
      let ops' := (reg_apply c ops).2 in
      (if bool_decide (outcome_of ops op = None ∧ outcome_of ops' op ≠ None) then 1 else 0)
      + terminal_events op cs ops'
  end%nat.

(** The [confirm_completion] calls on [op] that were answered [OK]. *)
Fixpoint confirmations (op : OperationId) (cs : list reg_call) (ops : OperationRegistry) : nat :=
  match cs with
  | [] => 0
  | c :: cs =>
      let '(res, ops') := reg_apply c ops in
      (match c, res with
       | ConfirmCompletion op' _, Applied ApplyResult.OK =>
           if bool_decide (op' = op) then 1 else 0
       | _, _ => 0
       end)
      + confirmations op cs ops'
  end%nat.

Lemma outcome_of_Some ops op o :
  outcome_of ops op = Some o ↔
  ∃ r, ops !! op = Some r ∧ terminal_recorded r = true ∧ terminal_outcome r = o.
Proof.
  unfold outcome_of. split.
  - destruct (ops !! op) as [r|]; [|done]. destruct (terminal_recorded r) eqn:E; [|done].
    intros [= <-]. by exists r.
  - intros (r & -> & -> & ->). done.
Qed.

Lemma reg_apply_outcome c ops op o :
  outcome_of ops op = Some o → outcome_of (reg_apply c ops).2 op = Some o.
Proof.
  rewrite !outcome_of_Some. intros (r & Hr & Ht & Ho). exists r. eauto using reg_apply_frozen.
Qed.

Lemma terminal_events_closed op cs ops o :
  outcome_of ops op = Some o → terminal_events op cs ops = 0%nat.
Proof.
  revert ops. induction cs as [|c cs IH]; intros ops Ho; [done|]. cbn [terminal_events].
  rewrite Ho, (IH _ (reg_apply_outcome _ _ _ _ Ho)). by rewrite bool_decide_false by naive_solver.
Qed.

Lemma terminal_events_le_1 op cs ops : (terminal_events op cs ops ≤ 1)%nat.
Proof.
  revert ops. induction cs as [|c cs IH]; intros ops; cbn [terminal_events]; [lia|].
  case_bool_decide as Hd; [|apply IH]. destruct Hd as [_ Hd].
  destruct (outcome_of (reg_apply c ops).2 op) as [o|] eqn:Eo; [|done].
  rewrite (terminal_events_closed op cs _ _ Eo). lia.
Qed.

Lemma confirm_answer op a ops ops' :
  confirm_completion op a ops = (ApplyResult.OK, ops') →
  outcome_of ops op = None ∧ outcome_of ops' op = Some "COMPLETED".
Proof.
  unfold confirm_completion, with_op, outcome_of. destruct (ops !! op) as [r|]; [|done].
  unfold confirm_completion_body. destruct (terminal_recorded r); [done|].
  destruct (accepted _); [|done]. rewrite machine_transition_eq. cbn [negb].
  destruct (is_allowed _ _); [|done]. cbn [negb]. intros [= <-]. by rewrite lookup_insert_eq.
Qed.

Lemma confirmations_closed op cs ops o :
  outcome_of ops op = Some o → confirmations op cs ops = 0%nat.
Proof.
  revert ops. induction cs as [|c cs IH]; intros ops Ho; [done|]. cbn [confirmations].
  pose proof (reg_apply_outcome c ops op o Ho) as Ho'.
  destruct (reg_apply c ops) as [res ops'] eqn:E. cbn in Ho'. rewrite (IH _ Ho').
  destruct c as [| | | |op' a| | | |]; try done. cbn in E.
  destruct (confirm_completion op' a ops) as [[] ops1] eqn:Ec; simplify_eq/=; try done.
  case_bool_decide as Hd; [subst|done].
  apply confirm_answer in Ec as [Hn _]. congruence.
Qed.

Lemma with_op_insert op r ops body :
  with_op op (<[op := r]> ops) body = let '(res, r') := body r in (res, <[op := r']> ops).
Proof.
  unfold with_op. rewrite lookup_insert_eq. destruct (body r) as [res r'].
  by rewrite insert_insert_eq.
Qed.

(** ** Properties *)

(** C1: one authoritative terminal outcome per operation. Along any sequence
    of registry calls (from any threads, on any operations) a recorded
    outcome never changes and the whole runtime that carries it is frozen; an
    outcome appears at most once; and at most one [confirm_completion] on an
    operation is answered [OK]. *)
Theorem one_terminal_outcome op cs ops :
  (∀ r, ops !! op = Some r → terminal_recorded r = true → reg_run cs ops !! op = Some r) ∧
  (∀ o, outcome_of ops op = Some o → outcome_of (reg_run cs ops) op = Some o) ∧
  (terminal_events op cs ops ≤ 1)%nat ∧ (confirmations op cs ops ≤ 1)%nat.
Proof.
  split_and!.
  - intros r. apply reg_run_frozen.
  - intros o. rewrite !outcome_of_Some. intros (r & Hr & Ht & Ho). exists r.
    eauto using reg_run_frozen.
  - apply terminal_events_le_1.
  - revert ops. induction cs as [|c cs IH]; intros ops; cbn [confirmations]; [lia|].
    destruct (reg_apply c ops) as [res ops'] eqn:E.
    destruct c as [| | | |op' a| | | |]; try apply IH. cbn in E.
    destruct (confirm_completion op' a ops) as [[] ops1] eqn:Ec; simplify_eq/=; try apply IH.
    case_bool_decide as Hd; [subst|apply IH].
    apply confirm_answer in Ec as [_ Ho]. rewrite (confirmations_closed op cs _ _ Ho). lia.
Qed.

(** C27: the registry's invariant. Every registry reached from the empty one by
    well-formed calls holds only well-formed runtimes: a recorded outcome is
    on a terminal state and carries a set envelope, an open runtime carries
    no outcome, and the attempt counter fits 32 bits. *)
Theorem registry_invariant cs (Hcs : Forall call_wf cs) : registry_wf (reg_run cs ∅).
Proof. apply reg_run_wf; [apply map_Forall_empty | done]. Qed.

(** C4: dead authority stays dead. After an operation is dispatched onto a
    fresh attempt, no sequence of calls that present another attempt (and do
    not dispatch it again) changes its runtime: late completions, failures,
    transitions and terminal records of the old attempt are all without
    effect. *)
Theorem redispatch_fences_old_attempts ops op r a cs
  (Hr : ops !! op = Some r) (Ht : terminal_recorded r = false)
  (Hs : is_terminal (state_ (machine r)) = false) (Ha : attempt a ≠ null_id)
  (Hcs : Forall (λ c, call_op c = op → is_dispatch c = false ∧
                      ∀ b, presented c = Some b → attempt b ≠ attempt a) cs) :
  let ops' := (dispatch_op op a ops).2 in
  reg_run cs ops' !! op = ops' !! op ∧
  state op (reg_run cs ops') = OperationState.DISPATCHED ∧
  current_authority op (reg_run cs ops') = a.
Proof.
  intros ops'. destruct (dispatch_open ops op r a Hr Ht Hs) as (r' & Hd & Hauth & Hst & Ht' & _).
  assert (ops' !! op = Some r') as Hr'.
  { unfold ops'. rewrite Hd. cbn. apply lookup_insert_eq. }
  assert (reg_run cs ops' !! op = Some r') as Hrun.
  { apply reg_run_fenced; [done..|]. eapply Forall_impl; [exact Hcs|]. cbn.
    intros c Hc Hop. destruct (Hc Hop) as [Hnd Hp].
    destruct (presented c) as [b|] eqn:Ep.
    - eapply other_attempt_fenced_out; [done | by rewrite Hauth|].
      rewrite Hauth. by apply Hp.
    - by destruct c. }
  unfold state, current_authority. rewrite Hrun, Hr'. by rewrite Hst.
Qed.

(** C29: how an operation's state can change. Along any sequence of calls a
    present operation stays present, each change of its state is an accepted
    transition of the state machine or a re-dispatch of a non-terminal state,
    and a terminal state is never left, recorded or not. *)
Theorem state_evolution cs ops op r (Hr : ops !! op = Some r) :
  ∃ r', reg_run cs ops !! op = Some r' ∧
        rtc evolves (state_ (machine r)) (state_ (machine r')) ∧
        (is_terminal (state_ (machine r)) = true →
         state_ (machine r') = state_ (machine r)).
Proof.
  revert ops r Hr. induction cs as [|c cs IH]; intros ops r Hr.
  { by exists r. }
  cbn [reg_run].
  assert (∃ r1, (reg_apply c ops).2 !! op = Some r1 ∧ effect r r1) as (r1 & Hr1 & He).
  { destruct (decide (call_op c = op)) as [<-|Hne].
    - exists (call_body c r).2. auto using reg_apply_present, call_body_effect.
    - exists r. rewrite reg_apply_frame by done. auto using eff_none. }
  destruct (IH _ _ Hr1) as (r' & Hr' & Hrtc & Hterm). exists r'. split_and!; [done| |].
  - eapply rtc_l; [by apply effect_evolves | done].
  - intros Ht. assert (state_ (machine r1) = state_ (machine r)) as Heq.
    { destruct He; cbn; try done; [congruence|..];
        match goal with H : step _ _ |- _ => apply step_from_nonterminal in H end; congruence. }
    rewrite <- Heq. apply Hterm. by rewrite Heq.
Qed.

(** The normal life cycle succeeds. For a new operation and any set
    envelope, creating, dispatching, running, reporting and confirming are all
    answered [OK], and the operation ends confirmed, with its outcome and its
    authority recorded and one attempt counted. *)
Lemma lifecycle_completes op a ops
  (Hnew : ops !! op = None) (Ha : envelope_is_unset a = false) :
  let '(r1, ops1) := create op a ops in
  let '(r2, ops2) := dispatch_op op a ops1 in
  let '(r3, ops3) := run op a ops2 in
  let '(r4, ops4) := report_completion op a false ops3 in
  let '(r5, ops5) := confirm_completion op a ops4 in
  [r1; r2; r3; r4; r5] = replicate 5 ApplyResult.OK ∧
  ops5 = <[op := MkRuntime (MkMachine OperationState.COMPLETION_CONFIRMED) a a true 1
                   "COMPLETED" false idem_key0]> ops.
Proof.
  pose proof (fence_failure_self a Ha) as Hf. pose proof (fence_completion_self a Ha) as Hc.
  unfold create. rewrite Hnew. unfold dispatch_op, run, report_completion, confirm_completion.
  rewrite with_op_insert.
  change (dispatch_body a _) with (ApplyResult.OK,
    MkRuntime (MkMachine OperationState.DISPATCHED) a authority0 false 1 "" false idem_key0).
  cbn beta iota. rewrite with_op_insert. unfold transition_body.
  cbn -[with_op fence_failure fence_completion insert]. rewrite Hf.
  change (machine_transition _ OperationState.RUNNING)
    with (true, MkMachine OperationState.RUNNING).
  cbn -[with_op fence_completion insert]. rewrite with_op_insert.
  unfold report_completion_body. cbn -[with_op fence_completion insert].
  rewrite Hc, !bool_decide_false by done.
  change (machine_transition _ OperationState.COMPLETION_REPORTED)
    with (true, MkMachine OperationState.COMPLETION_REPORTED).
  cbn -[with_op fence_completion insert]. rewrite with_op_insert.
  unfold confirm_completion_body. cbn -[with_op fence_completion insert]. by rewrite Hc.
Qed.

(** [dispatch] is not fenced. As long as no outcome is recorded it
    replaces the authority by whatever envelope it is given: an older one too,
    and also when it then answers [ILLEGAL_TRANSITION] because the state is
    terminal. *)
Lemma dispatch_overwrites_authority ops op r a
  (Hr : ops !! op = Some r) (Ht : terminal_recorded r = false) :
  let '(res, ops') := dispatch_op op a ops in
  current_authority op ops' = a ∧
  res = (if is_terminal (state_ (machine r)) then ApplyResult.ILLEGAL_TRANSITION
         else ApplyResult.OK).
Proof.
  destruct (is_terminal (state_ (machine r))) eqn:Es.
  - unfold dispatch_op, with_op, current_authority. rewrite Hr. unfold dispatch_body. rewrite Ht.
    cbn [machine set_authority]. rewrite Es. by rewrite lookup_insert_eq.
  - destruct (dispatch_open ops op r a Hr Ht Es) as (r' & -> & Ha & _).
    unfold current_authority. by rewrite lookup_insert_eq.
Qed.

(** The state [record_terminal] moves to: the first of its candidates that
    the table allows. *)
Definition record_target (s : OperationState) : option OperationState :=
  if is_allowed s OperationState.TERMINAL_FAILED then Some OperationState.TERMINAL_FAILED
  else if is_allowed s OperationState.CANCELLED then Some OperationState.CANCELLED
  else if is_allowed s OperationState.COMPLETION_CONFIRMED
    then Some OperationState.COMPLETION_CONFIRMED
  else None.

Lemma recovered_or_abandoned_shadowed s :
  is_allowed s OperationState.TERMINAL_FAILED = false →
  is_allowed s OperationState.CANCELLED = false →
  is_allowed s OperationState.RECOVERED = false ∧ is_allowed s OperationState.ABANDONED = false.
Proof.
  intros H1 H2.
  pose proof (step_by_table (λ s s',
    implb (bool_decide (s' = OperationState.RECOVERED) || bool_decide (s' = OperationState.ABANDONED))
          (is_allowed s OperationState.TERMINAL_FAILED || is_allowed s OperationState.CANCELLED))
    eq_refl) as H.
  split; (destruct (is_allowed s _) eqn:E at 1; [|done]);
    specialize (H _ _ E); cbn beta in H; by rewrite H1, H2 in H.
Qed.

(** Which terminal state [record_terminal] reaches. It ignores the outcome
    text: an accepted first recording moves to [TERMINAL_FAILED] where the
    table allows it, else to [CANCELLED], else to [COMPLETION_CONFIRMED]; its
    [RECOVERED] and [ABANDONED] candidates are never reached, so an operation
    recorded as recovered ends in [TERMINAL_FAILED]. *)
Lemma record_terminal_target ops op r a outcome
  (Hr : ops !! op = Some r) (Ht : terminal_recorded r = false)
  (Ha : accepted (fence_failure a (authority r)) = true) :
  let '(res, ops') := record_terminal op a outcome ops in
  match record_target (state_ (machine r)) with
  | Some s' => res = ApplyResult.OK ∧ state op ops' = s' ∧ outcome_of ops' op = Some outcome
  | None => res = ApplyResult.ILLEGAL_TRANSITION ∧ ops' = ops
  end.
Proof.
  unfold record_terminal, with_op. rewrite Hr. unfold record_terminal_body. rewrite Ht, Ha.
  cbn [negb]. unfold record_target. cbn [try_transitions]. rewrite !machine_transition_eq.
  pose proof (recovered_or_abandoned_shadowed (state_ (machine r))) as Hsh.
  destruct (is_allowed (state_ (machine r)) OperationState.TERMINAL_FAILED).
  { cbn. unfold state, outcome_of. by rewrite lookup_insert_eq. }
  destruct (is_allowed (state_ (machine r)) OperationState.CANCELLED).
  { cbn. unfold state, outcome_of. by rewrite lookup_insert_eq. }
  destruct (Hsh eq_refl eq_refl) as [-> ->].
  destruct (is_allowed (state_ (machine r)) OperationState.COMPLETION_CONFIRMED); cbn.
  - unfold state, outcome_of. by rewrite lookup_insert_eq.
  - rewrite set_machine_id. split; [done|]. by apply insert_id.
Qed.

(** ** Witnesses *)
Definition auth1 : AuthorityEnvelope :=
  {| coordinator_epoch := MkGeneration 1;
     worker_boot := MkId (uuid128_from_hex "1111");
     attempt := MkId (uuid128_from_hex "aabb");
     attempt_generation := MkGeneration 1;
     dispatch := MkId (uuid128_from_hex "ccdd");
     operation_generation := MkGeneration 1;
     failure_generation := gen0;
     recovery_generation := gen0 |}.

(** The envelope of the attempt that replaces [auth1]. *)
Definition auth2 : AuthorityEnvelope :=
  {| coordinator_epoch := MkGeneration 1;
     worker_boot := MkId (uuid128_from_hex "2222");
     attempt := MkId (uuid128_from_hex "eeff");
     attempt_generation := MkGeneration 2;
     dispatch := MkId (uuid128_from_hex "ccdd");
     operation_generation := MkGeneration 2;
     failure_generation := MkGeneration 1;
     recovery_generation := MkGeneration 1 |}.

(** An operation running its first attempt. *)
Definition running_ops : OperationRegistry :=
  reg_run [Create op1 auth1; Dispatch op1 auth1; Run op1 auth1] ∅.

Definition running_rt : OperationRuntime :=
  MkRuntime (MkMachine OperationState.RUNNING) auth1 authority0 false 1 "" false idem_key0.

(** An operation moved to a terminal state by [transition]. *)
Definition cancelled_ops : OperationRegistry :=
  reg_run [Transition op1 OperationState.CANCELLED auth1] running_ops.

Lemma registry_invariant_witness :
  registry_wf (reg_run [Create op1 auth1; Restore op1 runtime0] ∅).
Proof.
  apply (registry_invariant [Create op1 auth1; Restore op1 runtime0]); repeat constructor; done.
Defined.

Lemma redispatch_fences_old_attempts_witness :
  let cs := [ReportCompletion op1 auth1 false; ConfirmCompletion op1 auth1;
             ReportFailure op1 auth1 true] in
  let ops' := (dispatch_op op1 auth2 running_ops).2 in
  reg_run cs ops' !! op1 = ops' !! op1 ∧
  state op1 (reg_run cs ops') = OperationState.DISPATCHED ∧
  current_authority op1 (reg_run cs ops') = auth2.
Proof.
  apply (redispatch_fences_old_attempts running_ops op1 running_rt auth2).
  - vm_compute; reflexivity.
  - reflexivity.
  - reflexivity.
  - discriminate.
  - repeat constructor; intros b [= <-]; discriminate.
Defined.

Lemma state_evolution_witness :
  ∃ r', reg_run [Transition op1 OperationState.CANCELLED auth1] running_ops !! op1 = Some r' ∧
        rtc evolves (state_ (machine running_rt)) (state_ (machine r')) ∧
        (is_terminal (state_ (machine running_rt)) = true →
         state_ (machine r') = state_ (machine running_rt)).
Proof. apply state_evolution. vm_compute; reflexivity. Defined.

Lemma lifecycle_completes_witness :
  let '(r1, ops1) := create op1 auth1 ∅ in
  let '(r2, ops2) := dispatch_op op1 auth1 ops1 in
  let '(r3, ops3) := run op1 auth1 ops2 in
  let '(r4, ops4) := report_completion op1 auth1 false ops3 in
  let '(r5, ops5) := confirm_completion op1 auth1 ops4 in
  [r1; r2; r3; r4; r5] = replicate 5 ApplyResult.OK ∧
  ops5 = <[op1 := MkRuntime (MkMachine OperationState.COMPLETION_CONFIRMED) auth1 auth1 true 1
                   "COMPLETED" false idem_key0]> ∅.
Proof. exact (lifecycle_completes op1 auth1 ∅ eq_refl eq_refl). Defined.

Lemma dispatch_overwrites_authority_witness :
  let '(res, ops') := dispatch_op op1 auth2 cancelled_ops in
  current_authority op1 ops' = auth2 ∧
  res = (if is_terminal OperationState.CANCELLED then ApplyResult.ILLEGAL_TRANSITION
         else ApplyResult.OK).
Proof.
  apply (dispatch_overwrites_authority cancelled_ops op1
           (set_machine (MkMachine OperationState.CANCELLED) running_rt));
    [vm_compute; reflexivity | reflexivity].
Defined.

Lemma record_terminal_target_witness :
  let ops := reg_run [ReportFailure op1 auth1 false;
                      Transition op1 OperationState.RECOVERY_PENDING auth1;
                      Transition op1 OperationState.RECOVERING auth1] running_ops in
  let '(res, ops') := record_terminal op1 auth1 "RECOVERED" ops in
  match record_target OperationState.RECOVERING with
  | Some s' => res = ApplyResult.OK ∧ state op1 ops' = s' ∧ outcome_of ops' op1 = Some "RECOVERED"
  | None => res = ApplyResult.ILLEGAL_TRANSITION ∧ ops' = ops
  end.
Proof.
  apply (record_terminal_target _ op1
           (set_machine (MkMachine OperationState.RECOVERING) running_rt) auth1 "RECOVERED");
    [vm_compute; reflexivity | reflexivity | vm_compute; reflexivity].
Defined.
