(* ===== verification/FailureRecord.v ===== *)
(** * Failure records ([include/failure_fabric/failure_record.hpp],
    [src/failure_record.cpp])

    The immutable canonical record, the builder that derives the orthogonal
    dimensions from the failure class, and the JSON printer. *)
From S2P Require Import Prelude Ident Enums Authority.

Local Open Scope N_scope.

(** ** The record *)
Record FailureRecord := MkFailureRecord {
  fr_failure_id : FailureId;
  fr_operation : OperationId;
  fr_request : RequestId;
  fr_workload : WorkloadId;
  fr_attempt : AttemptId;
  fr_dispatch : DispatchId;
  fr_worker : WorkerId;
  fr_node : NodeId;
  fr_device : DeviceId;
  fr_failure_class : FailureClass.t;
  fr_origin : FailureOrigin.t;
  fr_failure_code : N;
  fr_summary : string;
  fr_reason : string;
  fr_phase : FailurePhase.t;
  fr_timestamp_ms : N;
  fr_completion : Ambiguity.t;
  fr_side_effect_state : SideEffectState.t;
  fr_unknown_side_effects : N;
  fr_authority : AuthorityEnvelope;
  fr_retryability : Retryability.t;
  fr_rollback : RollbackRequirement.t;
  fr_compensation : CompensationRequirement.t;
  fr_terminality : Terminality.t;
  fr_recovery_owner : RecoveryOwner.t;
  fr_provenance : Provenance.t;
  fr_causal_parent : FailureId;
  fr_dependencies : list FailureId;
}.

#[export] Instance FailureRecord_eq_dec : EqDecision FailureRecord.
Proof. solve_decision. Defined.

#[export] Instance FailureRecord_settable : Settable FailureRecord := λ r,
  MkFailureRecord (fr_failure_id r) (fr_operation r) (fr_request r) (fr_workload r)
    (fr_attempt r) (fr_dispatch r) (fr_worker r) (fr_node r) (fr_device r)
    (fr_failure_class r) (fr_origin r) (fr_failure_code r) (fr_summary r) (fr_reason r)
    (fr_phase r) (fr_timestamp_ms r) (fr_completion r) (fr_side_effect_state r)
    (fr_unknown_side_effects r) (fr_authority r) (fr_retryability r) (fr_rollback r)
    (fr_compensation r) (fr_terminality r) (fr_recovery_owner r) (fr_provenance r)
    (fr_causal_parent r) (fr_dependencies r).

(** The default-constructed record. *)
Definition failure_record0 : FailureRecord := {|
  fr_failure_id := null_id; fr_operation := null_id; fr_request := null_id;
  fr_workload := null_id; fr_attempt := null_id; fr_dispatch := null_id;
  fr_worker := null_id; fr_node := null_id; fr_device := null_id;
  fr_failure_class := FailureClass.UNKNOWN;
  fr_origin := FailureOrigin.UNKNOWN;
  fr_failure_code := 0; fr_summary := EmptyString; fr_reason := EmptyString;
  fr_phase := FailurePhase.UNKNOWN;
  fr_timestamp_ms := 0;
  fr_completion := Ambiguity.UNKNOWN_OUTCOME;
  fr_side_effect_state := SideEffectState.UNKNOWN;
  fr_unknown_side_effects := 0;
  fr_authority := authority0;
  fr_retryability := Retryability.UNKNOWN;
  fr_rollback := RollbackRequirement.NONE;
  fr_compensation := CompensationRequirement.NONE;
  fr_terminality := Terminality.UNKNOWN;
  fr_recovery_owner := RecoveryOwner.NONE;
  fr_provenance := Provenance.UNKNOWN;
  fr_causal_parent := null_id;
  fr_dependencies := [] |}.

(** ** Derived dimensions *)
Record Dims := MkDims {
  d_retry : Retryability.t;
  d_rollback : RollbackRequirement.t;
  d_comp : CompensationRequirement.t;
  d_term : Terminality.t;
}.

Definition dims_for (c : FailureClass.t) : Dims :=
  match c with
  | FailureClass.TRANSIENT => MkDims Retryability.RETRYABLE RollbackRequirement.NONE CompensationRequirement.NONE Terminality.TRANSIENT
  | FailureClass.PERMANENT => MkDims Retryability.NON_RETRYABLE RollbackRequirement.OPTIONAL CompensationRequirement.OPTIONAL Terminality.TERMINAL
  | FailureClass.RETRYABLE => MkDims Retryability.RETRYABLE RollbackRequirement.NONE CompensationRequirement.NONE Terminality.TRANSIENT
  | FailureClass.NON_RETRYABLE => MkDims Retryability.NON_RETRYABLE RollbackRequirement.OPTIONAL CompensationRequirement.OPTIONAL Terminality.TERMINAL
  | FailureClass.AMBIGUOUS => MkDims Retryability.CONDITIONALLY_RETRYABLE RollbackRequirement.OPTIONAL CompensationRequirement.OPTIONAL Terminality.PENDING
  | FailureClass.PARTIAL_SUCCESS => MkDims Retryability.CONDITIONALLY_RETRYABLE RollbackRequirement.REQUIRED CompensationRequirement.REQUIRED Terminality.PENDING
  | FailureClass.STALE_AUTHORITY => MkDims Retryability.NON_RETRYABLE RollbackRequirement.NONE CompensationRequirement.NONE Terminality.TERMINAL
  | FailureClass.LOST_WORKER => MkDims Retryability.CONDITIONALLY_RETRYABLE RollbackRequirement.OPTIONAL CompensationRequirement.OPTIONAL Terminality.PENDING
  | FailureClass.LOST_DEVICE => MkDims Retryability.CONDITIONALLY_RETRYABLE RollbackRequirement.OPTIONAL CompensationRequirement.OPTIONAL Terminality.PENDING
  | FailureClass.TRANSPORT_FAILURE => MkDims Retryability.CONDITIONALLY_RETRYABLE RollbackRequirement.NONE CompensationRequirement.NONE Terminality.TRANSIENT
  | FailureClass.TIMEOUT_OBSERVED => MkDims Retryability.CONDITIONALLY_RETRYABLE RollbackRequirement.NONE CompensationRequirement.NONE Terminality.TRANSIENT
  | FailureClass.PROTOCOL_FAILURE => MkDims Retryability.NON_RETRYABLE RollbackRequirement.NONE CompensationRequirement.NONE Terminality.TRANSIENT
  | FailureClass.RESOURCE_EXHAUSTION => MkDims Retryability.RETRYABLE RollbackRequirement.NONE CompensationRequirement.NONE Terminality.TRANSIENT
  | FailureClass.CORRUPTION => MkDims Retryability.NON_RETRYABLE RollbackRequirement.REQUIRED CompensationRequirement.REQUIRED Terminality.TERMINAL
  | FailureClass.VALIDATION_FAILURE => MkDims Retryability.NON_RETRYABLE RollbackRequirement.NONE CompensationRequirement.NONE Terminality.TERMINAL
  | FailureClass.INCOMPATIBILITY => MkDims Retryability.NON_RETRYABLE RollbackRequirement.OPTIONAL CompensationRequirement.OPTIONAL Terminality.TERMINAL
  | FailureClass.CANCELLED => MkDims Retryability.NON_RETRYABLE RollbackRequirement.OPTIONAL CompensationRequirement.OPTIONAL Terminality.TERMINAL
  | FailureClass.PREEMPTED => MkDims Retryability.RETRYABLE RollbackRequirement.NONE CompensationRequirement.NONE Terminality.TRANSIENT
  | FailureClass.DEPENDENCY_FAILURE => MkDims Retryability.CONDITIONALLY_RETRYABLE RollbackRequirement.NONE CompensationRequirement.NONE Terminality.TRANSIENT
  | FailureClass.STORAGE_FAILURE => MkDims Retryability.CONDITIONALLY_RETRYABLE RollbackRequirement.NONE CompensationRequirement.NONE Terminality.TRANSIENT
  | FailureClass.EXECUTION_FAILURE => MkDims Retryability.RETRYABLE RollbackRequirement.NONE CompensationRequirement.NONE Terminality.TRANSIENT
  | FailureClass.RECOVERY_FAILURE => MkDims Retryability.NON_RETRYABLE RollbackRequirement.OPTIONAL CompensationRequirement.OPTIONAL Terminality.PENDING
  | FailureClass.UNKNOWN => MkDims Retryability.UNKNOWN RollbackRequirement.NONE CompensationRequirement.NONE Terminality.UNKNOWN
  end.

Definition derive_dimensions (rec : FailureRecord) : FailureRecord :=
  let d := dims_for (fr_failure_class rec) in
  let rec := if bool_decide (fr_retryability rec = Retryability.UNKNOWN)
             then rec <| fr_retryability := d_retry d |> else rec in
  let rec := if bool_decide (fr_rollback rec = RollbackRequirement.NONE)
             then rec <| fr_rollback := d_rollback d |> else rec in
  let rec := if bool_decide (fr_compensation rec = CompensationRequirement.NONE)
             then rec <| fr_compensation := d_comp d |> else rec in
  if bool_decide (fr_terminality rec = Terminality.UNKNOWN)
  then rec <| fr_terminality := d_term d |> else rec.

(** ** The builder *)
Module FailureRecordBuilder.
Record t := MkBuilder {
  r : FailureRecord;
  retry_set_ : bool;
  rollback_set_ : bool;
  comp_set_ : bool;
  term_set_ : bool;
}.

#[export] Instance Builder_settable : Settable t := λ b,
  MkBuilder (r b) (retry_set_ b) (rollback_set_ b) (comp_set_ b) (term_set_ b).

Definition builder0 : t := MkBuilder failure_record0 false false false false.

(** The builder's fluent setters, one constructor each, and
    [derive_defaults]. *)
Variant call :=
  | Operation (v : OperationId)
  | Request (v : RequestId)
  | Workload (v : WorkloadId)
  | Attempt (v : AttemptId)
  | Dispatch (v : DispatchId)
  | Worker (v : WorkerId)
  | Node (v : NodeId)
  | Device (v : DeviceId)
  | SetId (v : FailureId)
  | Failure_class (v : FailureClass.t)
  | Origin (v : FailureOrigin.t)
  | Code (v : N)
  | Summary (v : string)
  | Reason (v : string)
  | Phase (v : FailurePhase.t)
  | Timestamp (v : N)
  | Completion (v : Ambiguity.t)
  | Side_effect_state (v : SideEffectState.t)
  | Unknown_side_effects (v : N)
  | Authority (v : AuthorityEnvelope)
  | Set_retryability (v : Retryability.t)
  | Set_rollback (v : RollbackRequirement.t)
  | Set_compensation (v : CompensationRequirement.t)
  | Set_terminality (v : Terminality.t)
  | Recovery_owner (v : RecoveryOwner.t)
  | Set_provenance (v : Provenance.t)
  | Causal_parent (v : FailureId)
  | Dependency (v : FailureId)
  | Derive_defaults.

Definition builder_call (b : t) (c : call) : t :=
  match c with
  | Operation v => b <| r := r b <| fr_operation := v |> |>
  | Request v => b <| r := r b <| fr_request := v |> |>
  | Workload v => b <| r := r b <| fr_workload := v |> |>
  | Attempt v => b <| r := r b <| fr_attempt := v |> |>
  | Dispatch v => b <| r := r b <| fr_dispatch := v |> |>
  | Worker v => b <| r := r b <| fr_worker := v |> |>
  | Node v => b <| r := r b <| fr_node := v |> |>
  | Device v => b <| r := r b <| fr_device := v |> |>
  | SetId v => b <| r := r b <| fr_failure_id := v |> |>
  | Failure_class v => b <| r := r b <| fr_failure_class := v |> |>
  | Origin v => b <| r := r b <| fr_origin := v |> |>
  | Code v => b <| r := r b <| fr_failure_code := v |> |>
  | Summary v => b <| r := r b <| fr_summary := v |> |>
  | Reason v => b <| r := r b <| fr_reason := v |> |>
  | Phase v => b <| r := r b <| fr_phase := v |> |>
  | Timestamp v => b <| r := r b <| fr_timestamp_ms := v |> |>
  | Completion v => b <| r := r b <| fr_completion := v |> |>
  | Side_effect_state v => b <| r := r b <| fr_side_effect_state := v |> |>
  | Unknown_side_effects v => b <| r := r b <| fr_unknown_side_effects := v |> |>
  | Authority v => b <| r := r b <| fr_authority := v |> |>
  | Set_retryability v => b <| r := r b <| fr_retryability := v |> |> <| retry_set_ := true |>
  | Set_rollback v => b <| r := r b <| fr_rollback := v |> |> <| rollback_set_ := true |>
  | Set_compensation v => b <| r := r b <| fr_compensation := v |> |> <| comp_set_ := true |>
  | Set_terminality v => b <| r := r b <| fr_terminality := v |> |> <| term_set_ := true |>
  | Recovery_owner v => b <| r := r b <| fr_recovery_owner := v |> |>
  | Set_provenance v => b <| r := r b <| fr_provenance := v |> |>
  | Causal_parent v => b <| r := r b <| fr_causal_parent := v |> |>
  | Dependency v => b <| r := r b <| fr_dependencies := fr_dependencies (r b) ++ [v] |> |>
  | Derive_defaults => b <| r := derive_dimensions (r b) |>
  end.

Section build.
  Context {Rng : Type} (rng_next : Rng → N * Rng).

Definition build (b : t) (rng : Rng) : FailureRecord * Rng :=
  let out := r b in
  let d := dims_for (fr_failure_class out) in
  let out := if negb (retry_set_ b) && bool_decide (fr_retryability out = Retryability.UNKNOWN)
             then out <| fr_retryability := d_retry d |> else out in
  let out := if negb (rollback_set_ b) && bool_decide (fr_rollback out = RollbackRequirement.NONE)
             then out <| fr_rollback := d_rollback d |> else out in
  let out := if negb (comp_set_ b) && bool_decide (fr_compensation out = CompensationRequirement.NONE)
             then out <| fr_compensation := d_comp d |> else out in
  let out := if negb (term_set_ b) && bool_decide (fr_terminality out = Terminality.UNKNOWN)
             then out <| fr_terminality := d_term d |> else out in
  if is_null (fr_failure_id out) then
    let '(u, rng) := uuid128_generate rng_next rng in
    (out <| fr_failure_id := MkId u |>, rng)
  else (out, rng).
End build.

End FailureRecordBuilder.

(** ** [to_json] *)
Definition json_text (key v : string) : string :=
  put [dquote; key; dquote; ":"; dquote; v; dquote].

Definition json_number (key v : string) : string :=
  put [dquote; key; dquote; ":"; v].

Definition to_json (rec : FailureRecord) : string :=
  put [ "{"; newline;
    json_text "failure_id" (uuid128_to_hex (raw (fr_failure_id rec))); ","; newline;
    json_text "operation" (uuid128_to_hex (raw (fr_operation rec))); ","; newline;
    json_text "request" (uuid128_to_hex (raw (fr_request rec))); ","; newline;
    json_text "workload" (uuid128_to_hex (raw (fr_workload rec))); ","; newline;
    json_text "attempt" (uuid128_to_hex (raw (fr_attempt rec))); ","; newline;
    json_text "dispatch" (uuid128_to_hex (raw (fr_dispatch rec))); ","; newline;
    json_text "worker" (uuid128_to_hex (raw (fr_worker rec))); ","; newline;
    json_text "node" (uuid128_to_hex (raw (fr_node rec))); ","; newline;
    json_text "device" (uuid128_to_hex (raw (fr_device rec))); ","; newline;
    json_text "failure_class" (FailureClass.to_string (fr_failure_class rec)); ","; newline;
    json_text "origin" (FailureOrigin.to_string (fr_origin rec)); ","; newline;
    json_number "failure_code" (dec (fr_failure_code rec)); ","; newline;
    json_text "phase" (FailurePhase.to_string (fr_phase rec)); ","; newline;
    json_number "timestamp_ms" (dec (fr_timestamp_ms rec)); ","; newline;
    json_text "completion" (Ambiguity.to_string (fr_completion rec)); ","; newline;
    json_text "side_effect_state" (SideEffectState.to_string (fr_side_effect_state rec)); ","; newline;
    json_number "unknown_side_effects" (dec (fr_unknown_side_effects rec)); ","; newline;
    json_text "retryability" (Retryability.to_string (fr_retryability rec)); ","; newline;
    json_text "rollback" (RollbackRequirement.to_string (fr_rollback rec)); ","; newline;
    json_text "compensation" (CompensationRequirement.to_string (fr_compensation rec)); ","; newline;
    json_text "terminality" (Terminality.to_string (fr_terminality rec)); ","; newline;
    json_text "recovery_owner" (RecoveryOwner.to_string (fr_recovery_owner rec)); ","; newline;
    json_text "provenance" (Provenance.to_string (fr_provenance rec)); newline;
    "}"; newline ].

(** ** What derivation promises *)

(** A dimension that was left at its unset value takes the class default. *)
Definition fill {A} `{EqDecision A} (unset dflt v : A) : A :=
  if bool_decide (v = unset) then dflt else v.

Definition filled (rec : FailureRecord) : FailureRecord :=
  let d := dims_for (fr_failure_class rec) in
  rec <| fr_retryability := fill Retryability.UNKNOWN (d_retry d) (fr_retryability rec) |>
      <| fr_rollback := fill RollbackRequirement.NONE (d_rollback d) (fr_rollback rec) |>
      <| fr_compensation := fill CompensationRequirement.NONE (d_comp d) (fr_compensation rec) |>
      <| fr_terminality := fill Terminality.UNKNOWN (d_term d) (fr_terminality rec) |>.

(** A guarded assignment to a field is an assignment of a guarded value. *)
Ltac solve_set_if := intros c rec v; by destruct rec, c.

Lemma set_retryability_if : ∀ (c : bool) rec v,
  (if c then rec <| fr_retryability := v |> else rec)
  = rec <| fr_retryability := if c then v else fr_retryability rec |>.
Proof. solve_set_if. Qed.

Lemma set_rollback_if : ∀ (c : bool) rec v,
  (if c then rec <| fr_rollback := v |> else rec)
  = rec <| fr_rollback := if c then v else fr_rollback rec |>.
Proof. solve_set_if. Qed.

Lemma set_compensation_if : ∀ (c : bool) rec v,
  (if c then rec <| fr_compensation := v |> else rec)
  = rec <| fr_compensation := if c then v else fr_compensation rec |>.
Proof. solve_set_if. Qed.

Lemma set_terminality_if : ∀ (c : bool) rec v,
  (if c then rec <| fr_terminality := v |> else rec)
  = rec <| fr_terminality := if c then v else fr_terminality rec |>.
Proof. solve_set_if. Qed.

Lemma derive_dimensions_filled rec : derive_dimensions rec = filled rec.
Proof.
  unfold derive_dimensions, filled, fill. cbv zeta.
  rewrite set_retryability_if, set_rollback_if, set_compensation_if, set_terminality_if.
  reflexivity.
Qed.

Lemma fill_idem {A} `{EqDecision A} (unset dflt v : A) :
  fill unset dflt (fill unset dflt v) = fill unset dflt v.
Proof. unfold fill. repeat case_bool_decide; congruence. Qed.

Lemma fill_explicit {A} `{EqDecision A} (unset dflt v : A) :
  v ≠ unset → fill unset dflt v = v.
Proof. intros. unfold fill. by rewrite bool_decide_eq_false_2. Qed.

Lemma fill_least {E} `{CEnum E} (unset dflt v : E) :
  enum_to_u32 unset = 0 → enum_to_u32 v <= enum_to_u32 (fill unset dflt v).
Proof. intros Hz. unfold fill. case_bool_decide; [subst; rewrite Hz|]; lia. Qed.

(** The four dimensions of [filled], and the records it leaves alone. *)
Lemma filled_dims rec :
  let d := dims_for (fr_failure_class rec) in
  fr_retryability (filled rec) = fill Retryability.UNKNOWN (d_retry d) (fr_retryability rec) ∧
  fr_rollback (filled rec) = fill RollbackRequirement.NONE (d_rollback d) (fr_rollback rec) ∧
  fr_compensation (filled rec) = fill CompensationRequirement.NONE (d_comp d) (fr_compensation rec) ∧
  fr_terminality (filled rec) = fill Terminality.UNKNOWN (d_term d) (fr_terminality rec) ∧
  fr_failure_class (filled rec) = fr_failure_class rec.
Proof. by destruct rec. Qed.

Lemma filled_fix rec :
  let d := dims_for (fr_failure_class rec) in
  fill Retryability.UNKNOWN (d_retry d) (fr_retryability rec) = fr_retryability rec →
  fill RollbackRequirement.NONE (d_rollback d) (fr_rollback rec) = fr_rollback rec →
  fill CompensationRequirement.NONE (d_comp d) (fr_compensation rec) = fr_compensation rec →
  fill Terminality.UNKNOWN (d_term d) (fr_terminality rec) = fr_terminality rec →
  filled rec = rec.
Proof. cbv zeta. intros H1 H2 H3 H4. unfold filled. rewrite H1, H2, H3, H4. by destruct rec. Qed.

Lemma filled_frame rec :
  filled rec = rec <| fr_retryability := fr_retryability (filled rec) |>
                   <| fr_rollback := fr_rollback (filled rec) |>
                   <| fr_compensation := fr_compensation (filled rec) |>
                   <| fr_terminality := fr_terminality (filled rec) |>.
Proof. by destruct rec. Qed.

Lemma derive_idem rec : derive_dimensions (filled rec) = filled rec.
Proof.
  rewrite derive_dimensions_filled.
  destruct (filled_dims rec) as (E1 & E2 & E3 & E4 & E5).
  apply filled_fix; rewrite E5, ?E1, ?E2, ?E3, ?E4; apply fill_idem.
Qed.

(** Deriving the dimensions of a record keeps every dimension the caller
    set explicitly, never lowers the rollback or compensation requirement,
    changes no other field, and deriving a second time changes nothing. *)
Lemma derive_dimensions_keeps_explicit rec :
  let out := derive_dimensions rec in
  (fr_retryability rec ≠ Retryability.UNKNOWN → fr_retryability out = fr_retryability rec) ∧
  (fr_terminality rec ≠ Terminality.UNKNOWN → fr_terminality out = fr_terminality rec) ∧
  enum_to_u32 (fr_rollback rec) <= enum_to_u32 (fr_rollback out) ∧
  (fr_rollback rec ≠ RollbackRequirement.NONE → fr_rollback out = fr_rollback rec) ∧
  enum_to_u32 (fr_compensation rec) <= enum_to_u32 (fr_compensation out) ∧
  (fr_compensation rec ≠ CompensationRequirement.NONE → fr_compensation out = fr_compensation rec) ∧
  out = rec <| fr_retryability := fr_retryability out |> <| fr_rollback := fr_rollback out |>
            <| fr_compensation := fr_compensation out |>
            <| fr_terminality := fr_terminality out |> ∧
  derive_dimensions out = out.
Proof.
  cbv zeta. rewrite derive_dimensions_filled.
  destruct (filled_dims rec) as (E1 & E2 & E3 & E4 & _). rewrite E1, E2, E3, E4.
  split_and!; try apply fill_explicit; try (apply fill_least; reflexivity); [|apply derive_idem].
  rewrite <- E1, <- E2, <- E3, <- E4. apply filled_frame.
Qed.

(** ** What the builder promises *)
Module B := FailureRecordBuilder.

(** The last explicit value of a dimension among the setter calls. *)
Definition explicit {A} (pick : B.call → option A) (calls : list B.call) : option A :=
  last (omap pick calls).

Definition pick_retryability (c : B.call) :=
  match c with B.Set_retryability v => Some v | _ => None end.
Definition pick_rollback (c : B.call) :=
  match c with B.Set_rollback v => Some v | _ => None end.
Definition pick_compensation (c : B.call) :=
  match c with B.Set_compensation v => Some v | _ => None end.
Definition pick_terminality (c : B.call) :=
  match c with B.Set_terminality v => Some v | _ => None end.

Definition run_calls (calls : list B.call) : B.t := foldl B.builder_call B.builder0 calls.

Lemma explicit_snoc {A} (pick : B.call → option A) calls c :
  explicit pick (calls ++ [c])
  = match pick c with Some v => Some v | None => explicit pick calls end.
Proof.
  unfold explicit. rewrite omap_app. cbn. destruct (pick c); cbn.
  - apply last_snoc.
  - by rewrite app_nil_r.
Qed.

(** What the calls make of one dimension: the class so far, the value so far,
    and whether a setter has been called. A setter stores its value, and
    [derive_defaults] fills an unset value, explicit or not, with the default of
    the class of that moment. *)
Section dimension.
  Context {A : Type} `{EqDecision A}.
  Context (unset : A) (dflt : Dims → A) (pick : B.call → option A).

Definition dim_step (st : FailureClass.t * A * bool) (c : B.call) : FailureClass.t * A * bool :=
  let '(k, v, is_set) := st in
  match c with
  | B.Failure_class k' => (k', v, is_set)
  | B.Derive_defaults => (k, fill unset (dflt (dims_for k)) v, is_set)
  | _ => match pick c with Some v' => (k, v', true) | None => st end
  end.

Definition dim_run (calls : list B.call) : FailureClass.t * A * bool :=
  foldl dim_step (fr_failure_class failure_record0, unset, false) calls.

(** What [build] makes of it. *)
Definition dim_final (calls : list B.call) : A :=
  let '(k, v, is_set) := dim_run calls in
  if is_set then v else fill unset (dflt (dims_for k)) v.

(** The calls that set the dimension are neither of the other two. *)
Hypothesis pick_setter : ∀ c, match c with
  | B.Failure_class _ | B.Derive_defaults => pick c = None | _ => True end.

Lemma dim_run_explicit calls :
  (dim_run calls).2 = bool_decide (is_Some (explicit pick calls)) ∧
  (∀ v, explicit pick calls = Some v → v ≠ unset → (dim_run calls).1.2 = v).
Proof.
  unfold dim_run. induction calls as [|c calls [IH1 IH2]] using rev_ind; [done|].
  rewrite foldl_snoc, explicit_snoc. revert IH1 IH2. generalize (pick_setter c).
  destruct (foldl dim_step _ calls) as [[k v] is_set]. cbn [fst snd]. intros Hp IH1 IH2.
  destruct c; cbn in *; try rewrite Hp; try (destruct (pick _)); cbn;
    (split; [first [done | by rewrite bool_decide_eq_true_2 by eauto]
            | first [done | by intros ? [= <-] | idtac]]).
  intros w Hw Hne. rewrite (IH2 w Hw Hne). by apply fill_explicit.
Qed.

Lemma dim_run_plain calls :
  B.Derive_defaults ∉ calls → (dim_run calls).1.2 = default unset (explicit pick calls).
Proof.
  unfold dim_run. induction calls as [|c calls IH] using rev_ind; [done|].
  rewrite not_elem_of_app, foldl_snoc, explicit_snoc. intros [Hn Hc]. specialize (IH Hn).
  revert IH. generalize (pick_setter c).
  destruct (foldl dim_step _ calls) as [[k v] is_set]. cbn [fst snd]. intros Hp IH.
  destruct c; cbn in *; try rewrite Hp; try (destruct (pick _)); cbn; try done.
  exfalso. apply Hc. by constructor.
Qed.

(** An explicit value other than the unset one is final; without
    [derive_defaults] every explicit value is, and otherwise the default of the
    final class is. *)
Lemma dim_final_explicit calls v :
  explicit pick calls = Some v → v ≠ unset ∨ B.Derive_defaults ∉ calls → dim_final calls = v.
Proof.
  intros He Hv. unfold dim_final. destruct (dim_run_explicit calls) as [H1 H2].
  pose proof (dim_run_plain calls) as H3. rewrite He in *.
  destruct (dim_run calls) as [[k w] is_set]. cbn in *. rewrite H1.
  destruct Hv as [Hv|Hn]; [by apply H2|by apply H3].
Qed.

Lemma dim_final_default calls :
  explicit pick calls = None → B.Derive_defaults ∉ calls →
  dim_final calls = dflt (dims_for (dim_run calls).1.1).
Proof.
  intros He Hn. unfold dim_final. destruct (dim_run_explicit calls) as [H1 _].
  pose proof (dim_run_plain calls Hn) as H3. rewrite He in *.
  destruct (dim_run calls) as [[k w] is_set]. cbn in *. rewrite H1, H3. unfold fill. cbn.
  by rewrite bool_decide_eq_true_2.
Qed.
End dimension.

Abbreviation final_retryability := (dim_final Retryability.UNKNOWN d_retry pick_retryability).
Abbreviation final_rollback := (dim_final RollbackRequirement.NONE d_rollback pick_rollback).
Abbreviation final_compensation := (dim_final CompensationRequirement.NONE d_comp pick_compensation).
Abbreviation final_terminality := (dim_final Terminality.UNKNOWN d_term pick_terminality).

(** The builder tracks the four dimensions and their flags. *)
Lemma builder_tracks calls :
  let b := run_calls calls in
  let k := fr_failure_class (B.r b) in
  dim_run Retryability.UNKNOWN d_retry pick_retryability calls
  = (k, fr_retryability (B.r b), B.retry_set_ b) ∧
  dim_run RollbackRequirement.NONE d_rollback pick_rollback calls
  = (k, fr_rollback (B.r b), B.rollback_set_ b) ∧
  dim_run CompensationRequirement.NONE d_comp pick_compensation calls
  = (k, fr_compensation (B.r b), B.comp_set_ b) ∧
  dim_run Terminality.UNKNOWN d_term pick_terminality calls
  = (k, fr_terminality (B.r b), B.term_set_ b).
Proof.
  cbv zeta. unfold dim_run, run_calls.
  induction calls as [|c calls IH] using rev_ind; [done|].
  rewrite !foldl_snoc. destruct IH as (-> & -> & -> & ->).
  generalize (foldl B.builder_call B.builder0 calls). intros [rec f1 f2 f3 f4].
  destruct c; try done. cbn. rewrite derive_dimensions_filled.
  destruct (filled_dims rec) as (-> & -> & -> & -> & ->). done.
Qed.

Lemma final_value {A} `{EqDecision A} (unset dflt v : A) (flag : bool) :
  (if negb flag && bool_decide (v = unset) then dflt else v) = if flag then v else fill unset dflt v.
Proof. unfold fill. by destruct flag. Qed.

Section build_facts.
  Context {Rng : Type} (rng_next : Rng → N * Rng).

(** The record of [build], field by field. *)
Definition built (b : B.t) (id : FailureId) : FailureRecord :=
  let out := B.r b in
  let d := dims_for (fr_failure_class out) in
  out <| fr_retryability := if negb (B.retry_set_ b) && bool_decide (fr_retryability out = Retryability.UNKNOWN)
                            then d_retry d else fr_retryability out |>
      <| fr_rollback := if negb (B.rollback_set_ b) && bool_decide (fr_rollback out = RollbackRequirement.NONE)
                        then d_rollback d else fr_rollback out |>
      <| fr_compensation := if negb (B.comp_set_ b) && bool_decide (fr_compensation out = CompensationRequirement.NONE)
                            then d_comp d else fr_compensation out |>
      <| fr_terminality := if negb (B.term_set_ b) && bool_decide (fr_terminality out = Terminality.UNKNOWN)
                           then d_term d else fr_terminality out |>
      <| fr_failure_id := id |>.

Lemma build_built b rng :
  ∃ id, (B.build rng_next b rng).1 = built b id ∧ is_null id = false ∧
        (is_null (fr_failure_id (B.r b)) = false → id = fr_failure_id (B.r b)).
Proof.
  pose proof (uuid128_generate_nonzero rng_next rng) as Hg.
  exists (if is_null (fr_failure_id (B.r b)) then MkId (uuid128_generate rng_next rng).1
     else fr_failure_id (B.r b)).
  unfold B.build, built. cbv zeta.
  rewrite set_retryability_if, set_rollback_if, set_compensation_if, set_terminality_if.
  cbn [fr_failure_id fr_retryability fr_rollback fr_compensation fr_terminality set_field].
  destruct (is_null (fr_failure_id (B.r b))) eqn:E; [destruct (uuid128_generate rng_next rng)|];
    by destruct (B.r b).
Qed.

(** C32: what the builder makes of any sequence of its calls. The record has a
    non-null failure identity, and each of its four derived dimensions is the
    one [dim_final] computes from the calls: the last value set, where
    [derive_defaults] replaces an unset value by the default of the class of
    that moment even if it was set explicitly, and where [build] fills what no
    setter touched. So an explicit value other than the unset one always
    survives; and when [derive_defaults] is not called, each dimension is the
    last explicit value, the unset one included, or else the default of the
    record's failure class. *)
Theorem build_explicit_or_default calls rng :
  let out := (B.build rng_next (run_calls calls) rng).1 in
  let d := dims_for (fr_failure_class out) in
  is_null (fr_failure_id out) = false ∧
  (fr_retryability out = final_retryability calls ∧ fr_rollback out = final_rollback calls ∧
   fr_compensation out = final_compensation calls ∧ fr_terminality out = final_terminality calls) ∧
  (∀ v, v ≠ Retryability.UNKNOWN → explicit pick_retryability calls = Some v →
     fr_retryability out = v) ∧
  (∀ v, v ≠ RollbackRequirement.NONE → explicit pick_rollback calls = Some v → fr_rollback out = v) ∧
  (∀ v, v ≠ CompensationRequirement.NONE → explicit pick_compensation calls = Some v →
     fr_compensation out = v) ∧
  (∀ v, v ≠ Terminality.UNKNOWN → explicit pick_terminality calls = Some v →
     fr_terminality out = v) ∧
  (B.Derive_defaults ∉ calls →
   fr_retryability out = default (d_retry d) (explicit pick_retryability calls) ∧
   fr_rollback out = default (d_rollback d) (explicit pick_rollback calls) ∧
   fr_compensation out = default (d_comp d) (explicit pick_compensation calls) ∧
   fr_terminality out = default (d_term d) (explicit pick_terminality calls)).
Proof.
  intros out d. destruct (builder_tracks calls) as (T1 & T2 & T3 & T4).
  destruct (build_built (run_calls calls) rng) as (id & Hout & Hid & _). fold out in Hout.
  assert (fr_retryability out = final_retryability calls ∧ fr_rollback out = final_rollback calls ∧
   fr_compensation out = final_compensation calls ∧ fr_terminality out = final_terminality calls ∧
   fr_failure_class out = fr_failure_class (B.r (run_calls calls))) as (E1 & E2 & E3 & E4 & Ek).
  { rewrite Hout. unfold dim_final. rewrite T1, T2, T3, T4. cbn. by rewrite !final_value. }
  unfold d. clearbody out. rewrite E1, E2, E3, E4, Ek. split_and!; try done; [by rewrite Hout| | | | |].
  1-4: intros v Hv He; apply dim_final_explicit; [by intros []|done|by left].
  intros Hn. split_and!.
  all: match goal with |- _ = default _ ?e => destruct e eqn:He end; cbn.
  all: try (apply dim_final_explicit; [by intros []|done|by right]).
  all: rewrite dim_final_default; [|by intros []|done|done]; by rewrite ?T1, ?T2, ?T3, ?T4.
Qed.
End build_facts.

Lemma build_explicit_or_default_witness :
  let calls := [B.Failure_class FailureClass.CORRUPTION; B.Set_rollback RollbackRequirement.NONE] in
  let out := (B.build (λ n : N, (n, n + 1)) (run_calls calls) 7).1 in
  fr_rollback out = RollbackRequirement.NONE ∧
  fr_compensation out = CompensationRequirement.REQUIRED.
Proof.
  destruct (build_explicit_or_default (λ n : N, (n, n + 1))
    [B.Failure_class FailureClass.CORRUPTION; B.Set_rollback RollbackRequirement.NONE] 7)
    as (_ & _ & _ & _ & _ & _ & H).
  destruct H as (_ & H2 & H3 & _).
  - rewrite !not_elem_of_cons. split_and!; [done | done | apply not_elem_of_nil].
  - split; [exact H2 | exact H3].
Defined.

(** [derive_defaults] overwrites an explicit [NONE]: the header says it derives
    only what the caller did not set. *)
Lemma derive_overwrites_explicit_none :
  let calls := [B.Failure_class FailureClass.CORRUPTION; B.Set_rollback RollbackRequirement.NONE;
                B.Derive_defaults] in
  explicit pick_rollback calls = Some RollbackRequirement.NONE ∧
  fr_rollback (B.build (λ n : N, (n, n + 1)) (run_calls calls) 7).1 ≠ RollbackRequirement.NONE.
Proof. split; [reflexivity|]. by vm_compute. Qed.
