(* ===== verification/Retry.v ===== *)
(** * Retry classification ([include/failure_fabric/retry.hpp], [src/retry.cpp]) *)
From S2P Require Import Prelude Ident Enums Authority FailureRecord.

Local Open Scope N_scope.

Module RetryVerdict.
Variant t := RETRY | DO_NOT_RETRY | RETRY_ELSEWHERE | ROLLBACK_FIRST.

#[global] Instance eq_dec : EqDecision t.
Proof. solve_decision. Defined.

Definition to_string (v : t) : string :=
  match v with
  | RETRY => "RETRY"
  | DO_NOT_RETRY => "DO_NOT_RETRY"
  | RETRY_ELSEWHERE => "RETRY_ELSEWHERE"
  | ROLLBACK_FIRST => "ROLLBACK_FIRST"
  end.
End RetryVerdict.

Record RetryDecision := MkDecision {
  verdict : RetryVerdict.t;
  requires_fresh_attempt : bool;
  same_idempotency_key : bool;
  rollback_first : bool;
  compensation_required : bool;
  fenced_permanently : bool;
  rd_reason : string;
  factors : list string;
}.

#[export] Instance RetryDecision_settable : Settable RetryDecision := λ d,
  MkDecision (verdict d) (requires_fresh_attempt d) (same_idempotency_key d)
    (rollback_first d) (compensation_required d) (fenced_permanently d) (rd_reason d) (factors d).

(** The default-constructed decision. *)
Definition decision0 : RetryDecision :=
  MkDecision RetryVerdict.DO_NOT_RETRY true true false false false EmptyString [].

Record RetryPolicy := MkPolicy {
  max_attempts : N;
  allow_retry_unknown_side_effects : bool;
  require_same_key : bool;
  allow_retry_elsewhere : bool;
  allow_retry_after_ambiguous : bool;
  backoff_ms_base : N;
  backoff_ms_max : N;
}.

(** The default policy. *)
Definition policy0 : RetryPolicy := MkPolicy 3 false true true true 10 5000.

Record RetryInput := MkRetryInput {
  attempt_count : N;
  worker_healthy : bool;
  device_healthy : bool;
  dependency_ready : bool;
  reservation_active : bool;
  deadline_exceeded : bool;
  idempotent_retry_possible : bool;
}.

Definition retry_input0 : RetryInput := MkRetryInput 0 true true true true false false.

Definition eff_retryability (fail : FailureRecord) : Retryability.t :=
  if bool_decide (fr_retryability fail ≠ Retryability.UNKNOWN) then fr_retryability fail
  else match fr_failure_class fail with
  | FailureClass.TRANSIENT | FailureClass.RETRYABLE | FailureClass.PREEMPTED
  | FailureClass.RESOURCE_EXHAUSTION | FailureClass.EXECUTION_FAILURE =>
      Retryability.RETRYABLE
  | FailureClass.AMBIGUOUS | FailureClass.PARTIAL_SUCCESS | FailureClass.LOST_WORKER
  | FailureClass.LOST_DEVICE | FailureClass.TRANSPORT_FAILURE | FailureClass.TIMEOUT_OBSERVED
  | FailureClass.DEPENDENCY_FAILURE | FailureClass.STORAGE_FAILURE =>
      Retryability.CONDITIONALLY_RETRYABLE
  | _ => Retryability.NON_RETRYABLE
  end.

(** The [switch] of [classify]: classes that are never retried. *)
Definition never_retried (c : FailureClass.t) : bool :=
  match c with
  | FailureClass.PERMANENT | FailureClass.NON_RETRYABLE | FailureClass.VALIDATION_FAILURE
  | FailureClass.INCOMPATIBILITY | FailureClass.CANCELLED | FailureClass.RECOVERY_FAILURE
  | FailureClass.STALE_AUTHORITY => true
  | _ => false
  end.

(** The local [ambiguous] of [classify] (and of the planner). *)
Definition is_ambiguous (fail : FailureRecord) : bool :=
  bool_decide (fr_completion fail = Ambiguity.AMBIGUOUS)
  || bool_decide (fr_completion fail = Ambiguity.UNKNOWN_OUTCOME).

(** The local [may_effect] of [classify]. *)
Definition may_effect (fail : FailureRecord) : bool :=
  bool_decide (fr_side_effect_state fail = SideEffectState.MAY_OCCURRED)
  || bool_decide (fr_side_effect_state fail = SideEffectState.UNKNOWN).

Definition classify (fail : FailureRecord) (inp : RetryInput) (policy : RetryPolicy) : RetryDecision :=
  let d := decision0 <| rd_reason := "DO_NOT_RETRY by default" |>
    <| factors :=
      [ "failure_class=" +:+ FailureClass.to_string (fr_failure_class fail);
        "completion=" +:+ Ambiguity.to_string (fr_completion fail);
        "side_effects=" +:+ SideEffectState.to_string (fr_side_effect_state fail);
        put ["attempts="; dec (attempt_count inp); "/"; dec (max_attempts policy)] ] |> in
  if max_attempts policy <=? attempt_count inp then
    d <| verdict := RetryVerdict.DO_NOT_RETRY |> <| requires_fresh_attempt := false |>
      <| rd_reason := "attempt limit reached; bounded retries exhausted" |>
  else if never_retried (fr_failure_class fail) then
    d <| verdict := RetryVerdict.DO_NOT_RETRY |> <| requires_fresh_attempt := false |>
      <| fenced_permanently := true |>
      <| rd_reason := "non-retryable failure class: "
                        +:+ FailureClass.to_string (fr_failure_class fail) |>
  else if is_ambiguous fail then
    if negb (idempotent_retry_possible inp) then
      if bool_decide (fr_rollback fail = RollbackRequirement.REQUIRED) || may_effect fail then
        d <| verdict := RetryVerdict.ROLLBACK_FIRST |> <| rollback_first := true |>
          <| requires_fresh_attempt := true |>
          <| rd_reason := "ambiguous completion with possible side effects; rollback before retry" |>
      else
        d <| verdict := RetryVerdict.DO_NOT_RETRY |>
          <| rd_reason := "ambiguous completion and not idempotent-safe; manual resolution" |>
    else
      d <| verdict := RetryVerdict.RETRY |> <| same_idempotency_key := require_same_key policy |>
        <| requires_fresh_attempt := true |>
        <| rd_reason := "ambiguous but idempotent; retry same key with fresh attempt" |>
  else if bool_decide (fr_side_effect_state fail = SideEffectState.KNOWN_OCCURRED)
          && negb (idempotent_retry_possible inp) then
    d <| verdict := RetryVerdict.ROLLBACK_FIRST |> <| rollback_first := true |>
      <| requires_fresh_attempt := false |>
      <| rd_reason := "known side effect occurred; rollback required before any retry" |>
  else if may_effect fail && negb (allow_retry_unknown_side_effects policy) then
    d <| verdict := RetryVerdict.ROLLBACK_FIRST |> <| rollback_first := true |>
      <| requires_fresh_attempt := true |>
      <| rd_reason := "unknown side effects; policy requires rollback before retry" |>
  else if bool_decide (eff_retryability fail = Retryability.RETRYABLE)
          || bool_decide (eff_retryability fail = Retryability.CONDITIONALLY_RETRYABLE) then
    if deadline_exceeded inp then
      d <| verdict := RetryVerdict.DO_NOT_RETRY |> <| rd_reason := "deadline/SLO exceeded" |>
    else if negb (worker_healthy inp) && allow_retry_elsewhere policy then
      d <| verdict := RetryVerdict.RETRY_ELSEWHERE |> <| requires_fresh_attempt := true |>
        <| rd_reason := "worker unhealthy; retry elsewhere" |>
    else if negb (dependency_ready inp) then
      d <| verdict := RetryVerdict.DO_NOT_RETRY |> <| rd_reason := "dependency not ready" |>
    else
      d <| verdict := RetryVerdict.RETRY |> <| requires_fresh_attempt := true |>
        <| rd_reason := "transient/retryable; retry with fresh attempt" |>
  else
    d <| verdict := RetryVerdict.DO_NOT_RETRY |> <| rd_reason := "unclassified; not retryable" |>.

(** [10ULL << min(attempt, 12)], capped, cast to 32 bits. *)
Definition backoff_ms (attempt : N) : N :=
  let v := wrap 64 (N.shiftl 10 (if attempt <? 12 then attempt else 12)) in
  let v := if 5000 <? v then 5000 else v in
  wrap 32 v.

(** ** The decision, rule by rule *)

(** The verdicts that run the operation again. *)
Definition runs_again (d : RetryDecision) : Prop :=
  verdict d = RetryVerdict.RETRY ∨ verdict d = RetryVerdict.RETRY_ELSEWHERE.

(** Re-execution is safe: the operation is idempotent, or nothing of the
    failed attempt can have taken effect, as far as the policy asks. *)
Definition safe_to_repeat (fail : FailureRecord) (inp : RetryInput) (policy : RetryPolicy) : Prop :=
  idempotent_retry_possible inp = true ∨
  (is_ambiguous fail = false ∧
   fr_side_effect_state fail ≠ SideEffectState.KNOWN_OCCURRED ∧
   (may_effect fail = true → allow_retry_unknown_side_effects policy = true)).

Definition retryable (fail : FailureRecord) : Prop :=
  eff_retryability fail = Retryability.RETRYABLE ∨
  eff_retryability fail = Retryability.CONDITIONALLY_RETRYABLE.

(** Somewhere to run it, in time. *)
Definition can_run (inp : RetryInput) (policy : RetryPolicy) : Prop :=
  deadline_exceeded inp = false ∧
  (dependency_ready inp = true ∨
   (worker_healthy inp = false ∧ allow_retry_elsewhere policy = true)).

Lemma is_ambiguous_spec fail :
  is_ambiguous fail = true ↔
  fr_completion fail = Ambiguity.AMBIGUOUS ∨ fr_completion fail = Ambiguity.UNKNOWN_OUTCOME.
Proof. unfold is_ambiguous. by rewrite orb_true_iff, !bool_decide_eq_true. Qed.


(** The verdict alone, as nested tests on the guards. *)
Definition verdict_of (exhausted never amb idem rb may known allow retr late well elsewhere ready : bool)
    : RetryVerdict.t :=
  if exhausted then RetryVerdict.DO_NOT_RETRY
  else if never then RetryVerdict.DO_NOT_RETRY
  else if amb then
    if negb idem then
      if rb || may then RetryVerdict.ROLLBACK_FIRST else RetryVerdict.DO_NOT_RETRY
    else RetryVerdict.RETRY
  else if known && negb idem then RetryVerdict.ROLLBACK_FIRST
  else if may && negb allow then RetryVerdict.ROLLBACK_FIRST
  else if retr then
    if late then RetryVerdict.DO_NOT_RETRY
    else if negb well && elsewhere then RetryVerdict.RETRY_ELSEWHERE
    else if negb ready then RetryVerdict.DO_NOT_RETRY else RetryVerdict.RETRY
  else RetryVerdict.DO_NOT_RETRY.

Definition known_effect (fail : FailureRecord) : bool :=
  bool_decide (fr_side_effect_state fail = SideEffectState.KNOWN_OCCURRED).

Definition rollback_required (fail : FailureRecord) : bool :=
  bool_decide (fr_rollback fail = RollbackRequirement.REQUIRED).

Definition retryable_class (fail : FailureRecord) : bool :=
  bool_decide (eff_retryability fail = Retryability.RETRYABLE)
  || bool_decide (eff_retryability fail = Retryability.CONDITIONALLY_RETRYABLE).

Lemma retryable_guard fail : retryable_class fail = true ↔ retryable fail.
Proof. unfold retryable, retryable_class. by rewrite orb_true_iff, !bool_decide_eq_true. Qed.

Lemma known_effect_true fail :
  known_effect fail = true ↔ fr_side_effect_state fail = SideEffectState.KNOWN_OCCURRED.
Proof. apply bool_decide_eq_true. Qed.

(** Evaluates [classify] guard by guard. *)
Ltac classify_cases :=
  unfold classify, verdict_of, known_effect, rollback_required, retryable_class; cbv zeta;
  repeat match goal with |- context [if ?b then _ else _] => destruct b end;
  try reflexivity.

Lemma classify_verdict fail inp policy :
  verdict (classify fail inp policy)
  = verdict_of (max_attempts policy <=? attempt_count inp) (never_retried (fr_failure_class fail))
      (is_ambiguous fail) (idempotent_retry_possible inp) (rollback_required fail)
      (may_effect fail) (known_effect fail) (allow_retry_unknown_side_effects policy)
      (retryable_class fail) (deadline_exceeded inp) (worker_healthy inp)
      (allow_retry_elsewhere policy) (dependency_ready inp).
Proof. classify_cases. Qed.

(** The flags follow the verdict. *)
Lemma classify_rollback_first fail inp policy :
  rollback_first (classify fail inp policy) = true ↔
  verdict (classify fail inp policy) = RetryVerdict.ROLLBACK_FIRST.
Proof. classify_cases; cbn; done. Qed.

Lemma classify_fresh fail inp policy :
  runs_again (classify fail inp policy) → requires_fresh_attempt (classify fail inp policy) = true.
Proof. unfold runs_again. classify_cases; cbn; intuition congruence. Qed.

Lemma classify_fenced fail inp policy :
  fenced_permanently (classify fail inp policy) = true →
  never_retried (fr_failure_class fail) = true.
Proof. unfold classify. cbv zeta. destruct (never_retried _); classify_cases; done. Qed.

(** C31: the classifier answers to run the operation again exactly when the
    attempts are not used up, the class is not one that is never retried, and
    either the outcome is ambiguous and the operation idempotent, or the
    outcome is known, a repeat is safe under the policy, the failure is
    retryable and there is somewhere to run it in time. *)
Theorem classify_runs_again_iff fail inp policy :
  runs_again (classify fail inp policy) ↔
  attempt_count inp < max_attempts policy ∧
  never_retried (fr_failure_class fail) = false ∧
  ((is_ambiguous fail = true ∧ idempotent_retry_possible inp = true) ∨
   (is_ambiguous fail = false ∧
    (fr_side_effect_state fail = SideEffectState.KNOWN_OCCURRED → idempotent_retry_possible inp = true) ∧
    (may_effect fail = true → allow_retry_unknown_side_effects policy = true) ∧
    retryable fail ∧ can_run inp policy)).
Proof.
  rewrite <- retryable_guard, <- known_effect_true, <- N.leb_gt. unfold runs_again, can_run.
  rewrite classify_verdict. fold (retryable_class fail).
  unfold verdict_of.
  repeat match goal with
  | |- context [if ?b then _ else _] => split_atom b; cbn; try solve [intuition congruence]
  end.
Qed.

(** A failure that may be retried: below, a transient failure of a healthy
    worker, whose side effects are known not to have occurred. *)
Definition transient_failure : FailureRecord :=
  failure_record0 <| fr_failure_class := FailureClass.TRANSIENT |>
    <| fr_completion := Ambiguity.KNOWN |>
    <| fr_side_effect_state := SideEffectState.KNOWN_NOT_OCCURRED |>.

(** C12: no verdict re-executes an operation unsafely: when the classifier
    answers RETRY or RETRY_ELSEWHERE, the attempt limit is not reached, the
    retry is a fresh attempt, the operation is not fenced permanently, and
    either it is idempotent or the outcome is known, no side effect is known
    to have occurred, and a possible one is allowed by the policy. *)
Theorem classify_never_unsafe fail inp policy :
  runs_again (classify fail inp policy) →
  attempt_count inp < max_attempts policy ∧
  requires_fresh_attempt (classify fail inp policy) = true ∧
  fenced_permanently (classify fail inp policy) = false ∧
  safe_to_repeat fail inp policy.
Proof.
  intros Hr. split_and!.
  - destruct Hr as [Hr|Hr]; rewrite classify_verdict in Hr; unfold verdict_of in Hr;
      apply N.leb_gt; by destruct (_ <=? _).
  - by apply classify_fresh.
  - destruct (fenced_permanently _) eqn:E; [|done]. apply classify_fenced in E.
    unfold runs_again in Hr. rewrite classify_verdict, E in Hr. unfold verdict_of in Hr.
    destruct (_ <=? _); naive_solver.
  - unfold safe_to_repeat. rewrite <- known_effect_true.
    unfold runs_again in Hr. rewrite classify_verdict in Hr. unfold verdict_of in Hr.
    repeat match type of Hr with
    | context [if ?b then _ else _] => split_atom b; cbn in Hr; try solve [intuition congruence]
    end.
Qed.

Lemma classify_never_unsafe_witness :
  attempt_count retry_input0 < max_attempts policy0 ∧
  requires_fresh_attempt (classify transient_failure retry_input0 policy0) = true.
Proof.
  destruct (classify_never_unsafe transient_failure retry_input0 policy0) as (H1 & H2 & _).
  - left. vm_compute. reflexivity.
  - split; [exact H1 | exact H2].
Defined.

(** The class table of the classifier is the one the builder derives from. *)
Lemma eff_retryability_dims fail :
  eff_retryability fail
  = if bool_decide (fr_retryability fail ≠ Retryability.UNKNOWN) then fr_retryability fail
    else match d_retry (dims_for (fr_failure_class fail)) with
         | Retryability.UNKNOWN => Retryability.NON_RETRYABLE
         | r => r
         end.
Proof. unfold eff_retryability. destruct (bool_decide _); [done|]. by destruct (fr_failure_class fail). Qed.

Lemma eff_retryability_derived fail :
  eff_retryability (derive_dimensions fail) = eff_retryability fail.
Proof.
  rewrite derive_dimensions_filled, !eff_retryability_dims.
  destruct (filled_dims fail) as (-> & _ & _ & _ & ->). unfold fill.
  destruct (fr_retryability fail); try reflexivity.
  by destruct (fr_failure_class fail).
Qed.

(** The fields the classifier reads besides the derived dimensions. *)
Lemma derive_frame fail :
  fr_failure_class (derive_dimensions fail) = fr_failure_class fail ∧
  is_ambiguous (derive_dimensions fail) = is_ambiguous fail ∧
  may_effect (derive_dimensions fail) = may_effect fail ∧
  known_effect (derive_dimensions fail) = known_effect fail ∧
  retryable_class (derive_dimensions fail) = retryable_class fail.
Proof.
  unfold retryable_class. rewrite eff_retryability_derived, derive_dimensions_filled.
  by destruct fail.
Qed.

(** Filling in the derived dimensions of a record (what the builder does
    before a failure is committed) does not change whether the classifier
    runs the operation again: its own table of effective retryability agrees
    with the derived one. *)
Lemma classify_derived fail inp policy :
  eff_retryability (derive_dimensions fail) = eff_retryability fail ∧
  (runs_again (classify (derive_dimensions fail) inp policy)
   ↔ runs_again (classify fail inp policy)).
Proof.
  split; [apply eff_retryability_derived|].
  unfold runs_again. rewrite !classify_verdict.
  destruct (derive_frame fail) as (-> & -> & -> & -> & ->).
  generalize (rollback_required (derive_dimensions fail)) (rollback_required fail).
  intros b1 b2. unfold verdict_of.
  repeat match goal with
  | |- context [if ?b then _ else _] => split_atom b; cbn; try solve [intuition congruence]
  end.
Qed.

(** ** Backoff *)
Definition backoff_reference (attempt : N) : N := N.min 5000 (10 * 2 ^ attempt).

Lemma backoff_shift attempt :
  wrap 64 (N.shiftl 10 (if attempt <? 12 then attempt else 12)) = 10 * 2 ^ N.min attempt 12.
Proof.
  replace (if attempt <? 12 then attempt else 12) with (N.min attempt 12)
    by (destruct (N.ltb_spec attempt 12); lia).
  rewrite N.shiftl_mul_pow2. apply wrap_small. unfold fits.
  assert (2 ^ N.min attempt 12 <= 2 ^ 12) by (apply N.pow_le_mono_r; lia).
  change (2 ^ 12) with 4096 in *. change (2 ^ 64) with 18446744073709551616. lia.
Qed.

Lemma backoff_is_reference attempt : backoff_ms attempt = backoff_reference attempt.
Proof.
  unfold backoff_ms, backoff_reference. rewrite backoff_shift. cbv zeta.
  destruct (N.le_gt_cases attempt 12) as [H|H].
  - rewrite (N.min_l attempt 12) by done.
    destruct (N.ltb_spec 5000 (10 * 2 ^ attempt)).
    + rewrite N.min_l by lia. reflexivity.
    + rewrite N.min_r by lia. apply wrap_small. unfold fits.
      change (2 ^ 32) with 4294967296. lia.
  - rewrite (N.min_r attempt 12) by lia.
    assert (2 ^ 12 <= 2 ^ attempt) by (apply N.pow_le_mono_r; lia).
    change (2 ^ 12) with 4096 in *. rewrite N.min_l by lia. reflexivity.
Qed.

(** The backoff computed with a clamped 64-bit shift and a 32-bit cast is
    the capped exponential min(5000, 10 * 2^attempt) for every attempt, so it
    never overflows, never decreases, and stays between 10 and 5000 ms. *)
Lemma backoff_capped_exponential :
  ∀ n m, backoff_ms n = backoff_reference n ∧
         (n <= m → backoff_ms n <= backoff_ms m) ∧
         10 <= backoff_ms n <= 5000.
Proof.
  intros n m. rewrite !backoff_is_reference. unfold backoff_reference. split_and!; [done| | |].
  - intros H. assert (2 ^ n <= 2 ^ m) by (apply N.pow_le_mono_r; lia). lia.
  - assert (2 ^ n ≠ 0) by (apply N.pow_nonzero; lia). lia.
  - lia.
Qed.

Lemma backoff_capped_exponential_witness : backoff_ms 3 = 80 ∧ backoff_ms 3 <= backoff_ms 40.
Proof.
  destruct (backoff_capped_exponential 3 40) as (_ & H & _).
  split; [reflexivity | apply H; lia].
Defined.
