(* ===== verification/Recovery.v ===== *)
(** * Recovery ownership and planning ([include/failure_fabric/recovery.hpp],
    [src/recovery.cpp]) *)
From S2P Require Import Prelude Ident Enums Authority FailureRecord Retry.

Local Open Scope N_scope.

(** ** [RecoveryOwnership] *)
Record RecoveryOwnership := MkOwnership {
  owner_ : RecoveryOwner.t;
  generation_ : RecoveryGeneration;
  boot_ : WorkerBootId;
}.

#[export] Instance RecoveryOwnership_eq_dec : EqDecision RecoveryOwnership.
Proof. solve_decision. Defined.

Definition ownership0 : RecoveryOwnership := MkOwnership RecoveryOwner.NONE gen0 null_id.

Definition is_unassigned (s : RecoveryOwnership) : bool :=
  bool_decide (owner_ s = RecoveryOwner.NONE).

(** The [if] on the coordinator epoch has an empty body, so [authority] is
    not consulted. *)
Definition adopt (s : RecoveryOwnership) (owner : RecoveryOwner.t) (gen : RecoveryGeneration)
    (boot : WorkerBootId) (authority : AuthorityEnvelope) : bool * RecoveryOwnership :=
  if bool_decide (owner = RecoveryOwner.NONE) then (false, s)
  else if is_unset gen then (false, s)
  else if bool_decide (owner_ s ≠ RecoveryOwner.NONE) then (false, s)
  else (true, MkOwnership owner gen boot).

Definition transfer (s : RecoveryOwnership) (owner : RecoveryOwner.t) (gen : RecoveryGeneration)
    (boot : WorkerBootId) (authority : AuthorityEnvelope) : bool * RecoveryOwnership :=
  if bool_decide (owner = RecoveryOwner.NONE) then (false, s)
  else if is_unset gen then (false, s)
  else if bool_decide (owner_ s = RecoveryOwner.NONE) then adopt s owner gen boot authority
  else if negb (gen_ltb (generation_ s) gen) then (false, s)
  else (true, MkOwnership owner gen boot).

Definition is_current (s : RecoveryOwnership) (boot : WorkerBootId) (gen : RecoveryGeneration) : bool :=
  bool_decide (boot = boot_ s) && bool_decide (gen = generation_ s).

(** ** Recovery plans *)
Record RecoveryPlan := MkPlan {
  rp_plan_id : RecoveryPlanId;
  rp_operation : OperationId;
  rp_generation : RecoveryGeneration;
  rp_owner : RecoveryOwner.t;
  rp_authority : AuthorityEnvelope;
  rp_action : RecoveryAction.t;
  rp_preconditions : list string;
  rp_rejected_alternatives : list RecoveryAction.t;
  rp_rejection_reasons : list string;
  rp_reason_factors : list string;
  rp_expected_preserved : string;
  rp_expected_discarded : string;
}.

#[export] Instance RecoveryPlan_settable : Settable RecoveryPlan := λ p,
  MkPlan (rp_plan_id p) (rp_operation p) (rp_generation p) (rp_owner p) (rp_authority p)
    (rp_action p) (rp_preconditions p) (rp_rejected_alternatives p) (rp_rejection_reasons p)
    (rp_reason_factors p) (rp_expected_preserved p) (rp_expected_discarded p).

Definition plan0 : RecoveryPlan :=
  MkPlan null_id null_id gen0 RecoveryOwner.COORDINATOR authority0 RecoveryAction.RETRY
    [] [] [] [] EmptyString EmptyString.

Record PlanInput := MkPlanInput {
  pi_attempt_count : N;
  pi_max_attempts : N;
  pi_worker_healthy : bool;
  pi_device_healthy : bool;
  pi_idempotent_retry_possible : bool;
  pi_rollback_possible : bool;
  pi_compensation_possible : bool;
  pi_deadline_exceeded : bool;
  pi_externally_committed : bool;
  pi_dependency_ready : bool;
}.

Definition plan_input0 : PlanInput :=
  MkPlanInput 0 3 true true false false false false false true.

(** [reject], [factor] and the [push_back]s on the preconditions. *)
Definition reject (p : RecoveryPlan) (a : RecoveryAction.t) (why : string) : RecoveryPlan :=
  p <| rp_rejected_alternatives := rp_rejected_alternatives p ++ [a] |>
    <| rp_rejection_reasons := rp_rejection_reasons p ++ [why] |>.

Definition factor (p : RecoveryPlan) (f : string) : RecoveryPlan :=
  p <| rp_reason_factors := rp_reason_factors p ++ [f] |>.

Definition require (p : RecoveryPlan) (c : string) : RecoveryPlan :=
  p <| rp_preconditions := rp_preconditions p ++ [c] |>.

(** The plan before the action is selected. *)
Definition plan_start (fresh : RecoveryPlanId) (fail : FailureRecord) (inp : PlanInput) : RecoveryPlan :=
  let p := plan0 <| rp_operation := fr_operation fail |>
    <| rp_authority := fr_authority fail |>
    <| rp_generation := next (recovery_generation (fr_authority fail)) |>
    <| rp_plan_id := fresh |>
    <| rp_owner := if bool_decide (fr_recovery_owner fail = RecoveryOwner.NONE)
                   then RecoveryOwner.COORDINATOR else fr_recovery_owner fail |> in
  let p := factor p ("failure_class=" +:+ FailureClass.to_string (fr_failure_class fail)) in
  let p := factor p ("completion=" +:+ Ambiguity.to_string (fr_completion fail)) in
  let p := factor p ("side_effects=" +:+ SideEffectState.to_string (fr_side_effect_state fail)) in
  let p := factor p (put ["attempts="; dec (pi_attempt_count inp); "/"; dec (pi_max_attempts inp)]) in
  factor p ("idempotent=" +:+ (if pi_idempotent_retry_possible inp then "true" else "false")).

Definition exhausted (inp : PlanInput) : bool := pi_max_attempts inp <=? pi_attempt_count inp.

(** The planner's own [may_effect] also counts known side effects. *)
Definition plan_may_effect (fail : FailureRecord) : bool :=
  bool_decide (fr_side_effect_state fail = SideEffectState.MAY_OCCURRED)
  || bool_decide (fr_side_effect_state fail = SideEffectState.UNKNOWN)
  || bool_decide (fr_side_effect_state fail = SideEffectState.KNOWN_OCCURRED).

(** The planner's [retryable_class] reads the record's dimension only. *)
Definition plan_retryable (fail : FailureRecord) : bool :=
  bool_decide (fr_retryability fail = Retryability.RETRYABLE)
  || bool_decide (fr_retryability fail = Retryability.CONDITIONALLY_RETRYABLE).

Definition is_class (fail : FailureRecord) (c : FailureClass.t) : bool :=
  bool_decide (fr_failure_class fail = c).

(** 1. Device and worker losses. *)
Definition plan_lost (fail : FailureRecord) (inp : PlanInput) (p : RecoveryPlan) : RecoveryPlan :=
  let p :=
    if is_class fail FailureClass.LOST_DEVICE && pi_device_healthy inp then
      let p := p <| rp_action := RecoveryAction.RESTART_DEVICE_CONTEXT |> in
      let p := require p "device healthy; reinit context" in
      reject p RecoveryAction.RETRY "device identity lost, retry in-place unsafe"
    else if pi_worker_healthy inp then
      let p := p <| rp_action := RecoveryAction.RESTART_WORKER |> in
      let p := require p "worker restart with fresh WorkerBootId" in
      reject p RecoveryAction.COMPENSATE "restart recovers state without compensation"
    else
      let p := p <| rp_action := RecoveryAction.FAILOVER_REPLICA |> in
      require p "replica available" in
  p <| rp_expected_preserved := "authority fenced to fresh boot; original worker state discarded" |>
    <| rp_expected_discarded := "stale worker boot authority" |>.

(** 2. Ambiguous completion. *)
Definition plan_ambiguous (fail : FailureRecord) (inp : PlanInput) (p : RecoveryPlan) : RecoveryPlan :=
  if pi_idempotent_retry_possible inp && negb (exhausted inp) then
    let p := p <| rp_action := RecoveryAction.RETRY |> in
    let p := require p "idempotency key valid; retry same key is deduplicated" in
    let p := reject p RecoveryAction.ROLLBACK "idempotent retry cannot double-apply; rollback unnecessary" in
    let p := reject p RecoveryAction.COMPENSATE "idempotent retry restores correctness directly" in
    p <| rp_expected_preserved := "prior result metadata preserved; no duplicate side effect" |>
      <| rp_expected_discarded := "unknown-side-effect uncertainty" |>
  else if pi_rollback_possible inp then
    let p := p <| rp_action := RecoveryAction.ROLLBACK |> in
    let p := require p "side effects may have occurred; rollback first" in
    let p := reject p RecoveryAction.RETRY "not idempotent-safe; retry would double-apply" in
    p <| rp_expected_preserved := "state reverted to pre-operation" |>
  else if pi_compensation_possible inp then
    let p := p <| rp_action := RecoveryAction.COMPENSATE |> in
    let p := require p "side effect escaped; compensate logically" in
    p <| rp_expected_preserved := "logical equilibrium restored" |>
  else
    let p := p <| rp_action := RecoveryAction.MANUAL_RESOLUTION |> in
    let p := require p "operator/external resolution required" in
    p <| rp_expected_discarded := "uncertain" |>.

(** 3. Known side effects, not idempotent. *)
Definition plan_known_effect (fail : FailureRecord) (inp : PlanInput) (p : RecoveryPlan) : RecoveryPlan :=
  if pi_rollback_possible inp then
    let p := p <| rp_action := RecoveryAction.ROLLBACK |> in
    let p := require p "known side effect; rollback then recover" in
    reject p RecoveryAction.RETRY "would re-apply side effect"
  else if pi_compensation_possible inp then
    p <| rp_action := RecoveryAction.COMPENSATE |>
  else p <| rp_action := RecoveryAction.ESCALATE |>.

(** 4. Retryable, within the bound, idempotent. *)
Definition plan_retry (fail : FailureRecord) (inp : PlanInput) (p : RecoveryPlan) : RecoveryPlan :=
  let p :=
    if negb (pi_dependency_ready inp) then
      require (p <| rp_action := RecoveryAction.RETRY |>) "dependency not ready; retry after dependency"
    else if negb (pi_worker_healthy inp) then
      require (p <| rp_action := RecoveryAction.RETRY_ELSEWHERE |>) "worker unhealthy; retry on another worker"
    else if pi_deadline_exceeded inp then
      require (p <| rp_action := RecoveryAction.ESCALATE |>) "deadline exceeded; escalate"
    else
      require (p <| rp_action := RecoveryAction.RETRY |>) "transient; retry under fresh attempt" in
  p <| rp_expected_preserved := "previous partial state if any" |>
    <| rp_expected_discarded := "failed attempt authority" |>.

(** 5. Not retryable, or out of attempts. *)
Definition plan_terminal (fail : FailureRecord) (inp : PlanInput) (p : RecoveryPlan) : RecoveryPlan :=
  if bool_decide (fr_side_effect_state fail ≠ SideEffectState.NONE_POSSIBLE)
     && bool_decide (fr_side_effect_state fail ≠ SideEffectState.KNOWN_NOT_OCCURRED)
     && pi_rollback_possible inp then
    require (p <| rp_action := RecoveryAction.ROLLBACK |>)
      "terminal failure with side effects; rollback required"
  else
    let p :=
      if pi_externally_committed inp then
        require (p <| rp_action := RecoveryAction.RECOMPUTE |>)
          "externally committed; recompute canonical result"
      else if is_class fail FailureClass.RESOURCE_EXHAUSTION && negb (pi_worker_healthy inp) then
        p <| rp_action := RecoveryAction.FAILOVER_REPLICA |>
      else if is_class fail FailureClass.RESOURCE_EXHAUSTION && pi_worker_healthy inp then
        require (p <| rp_action := RecoveryAction.RETRY_ELSEWHERE |>)
          "resource exhaustion; retry on healthy worker"
      else
        let p := p <| rp_action := RecoveryAction.ABANDON |> in
        let p := require p "terminal/non-retryable; abandon after cleanup" in
        reject p RecoveryAction.RETRY "policy exhausted or non-retryable" in
    p <| rp_expected_discarded := "operation marked terminal" |>.

(** The planner; [fresh] is the identity [RecoveryPlanId::generate()] draws. *)
Definition plan (fresh : RecoveryPlanId) (fail : FailureRecord) (inp : PlanInput) : RecoveryPlan :=
  let p := plan_start fresh fail inp in
  if is_class fail FailureClass.LOST_DEVICE || is_class fail FailureClass.LOST_WORKER then
    plan_lost fail inp p
  else if is_ambiguous fail then plan_ambiguous fail inp p
  else if plan_may_effect fail
          && (bool_decide (fr_side_effect_state fail = SideEffectState.KNOWN_OCCURRED)
              && negb (pi_idempotent_retry_possible inp)) then
    plan_known_effect fail inp p
  else if plan_retryable fail && negb (exhausted inp) && pi_idempotent_retry_possible inp then
    plan_retry fail inp p
  else if negb (plan_retryable fail) || exhausted inp then plan_terminal fail inp p
  else require (p <| rp_action := RecoveryAction.ESCALATE |>) "unclassified failure; escalate".

(** ** Ownership along a sequence of calls *)
Variant ownership_call :=
  | Adopt (owner : RecoveryOwner.t) (gen : RecoveryGeneration) (boot : WorkerBootId)
      (authority : AuthorityEnvelope)
  | Transfer (owner : RecoveryOwner.t) (gen : RecoveryGeneration) (boot : WorkerBootId)
      (authority : AuthorityEnvelope).

Definition ownership_step (s : RecoveryOwnership) (c : ownership_call) : bool * RecoveryOwnership :=
  match c with
  | Adopt o g b a => adopt s o g b a
  | Transfer o g b a => transfer s o g b a
  end.

Definition ownership_run (s : RecoveryOwnership) (calls : list ownership_call) : RecoveryOwnership :=
  foldl (λ s c, (ownership_step s c).2) s calls.

(** An unassigned ownership is the initial one; an assigned one has a set
    generation. *)
Definition ownership_wf (s : RecoveryOwnership) : Prop :=
  if is_unassigned s then s = ownership0 else is_unset (generation_ s) = false.

(** What one call can do: nothing, or install a holder under a larger
    generation. *)
Variant ownership_change (s : RecoveryOwnership) : bool * RecoveryOwnership → Prop :=
  | change_refused : ownership_change s (false, s)
  | change_taken s' :
      owner_ s' ≠ RecoveryOwner.NONE → gen_ltb (generation_ s) (generation_ s') = true →
      ownership_change s (true, s').

Lemma is_unset_false g : is_unset g = false ↔ 0 < value g.
Proof. unfold is_unset. rewrite N.eqb_neq. lia. Qed.

Lemma unassigned_gen s :
  ownership_wf s → owner_ s = RecoveryOwner.NONE → value (generation_ s) = 0.
Proof.
  unfold ownership_wf, is_unassigned. intros H E. rewrite bool_decide_eq_true_2 in H by done.
  by subst.
Qed.

Lemma adopt_change s o g b a : ownership_wf s → ownership_change s (adopt s o g b a).
Proof.
  intros Hw. unfold adopt. case_bool_decide; [constructor|].
  destruct (is_unset g) eqn:Eg; [constructor|]. case_bool_decide as Ho; [constructor|].
  constructor; [done|]. unfold gen_ltb. cbn.
  rewrite unassigned_gen by done. apply N.ltb_lt. by apply is_unset_false.
Qed.

Lemma ownership_step_change s c : ownership_wf s → ownership_change s (ownership_step s c).
Proof.
  intros Hw. destruct c as [o g b a|o g b a]; cbn; [by apply adopt_change|].
  unfold transfer. case_bool_decide; [constructor|].
  destruct (is_unset g) eqn:Eg; [constructor|]. case_bool_decide as Ho; [by apply adopt_change|].
  destruct (gen_ltb (generation_ s) g) eqn:E; by constructor.
Qed.

Lemma ownership_step_wf s c : ownership_wf s → ownership_wf (ownership_step s c).2.
Proof.
  intros Hw. destruct (ownership_step_change s c Hw) as [|s' Ho Hg]; [done|]. cbn.
  unfold ownership_wf, is_unassigned. rewrite bool_decide_eq_false_2 by done.
  apply is_unset_false. unfold gen_ltb in Hg. apply N.ltb_lt in Hg. lia.
Qed.

Lemma ownership_run_wf s calls : ownership_wf s → ownership_wf (ownership_run s calls).
Proof. revert s. induction calls; intros s Hw; cbn; [done|]. by apply IHcalls, ownership_step_wf. Qed.

Lemma ownership_run_mono s calls :
  ownership_wf s → value (generation_ s) <= value (generation_ (ownership_run s calls)).
Proof.
  revert s. induction calls as [|c calls IH]; intros s Hw; [reflexivity|].
  change (ownership_run s (c :: calls)) with (ownership_run (ownership_step s c).2 calls).
  specialize (IH _ (ownership_step_wf s c Hw)).
  destruct (ownership_step_change s c Hw) as [|s' _ Hg]; cbn in *; [done|].
  unfold gen_ltb in Hg. apply N.ltb_lt in Hg. lia.
Qed.

Lemma ownership0_wf : ownership_wf ownership0.
Proof. reflexivity. Qed.

(** C15: ownership is fenced: once a call on the recovery ownership succeeds,
    whoever was current before it is never current again, whatever calls
    follow, the assigned owner never becomes unassigned, and the generation
    has strictly increased. *)
Theorem superseded_owner_never_current before c after boot gen :
  let s := ownership_run ownership0 before in
  let t := ownership_run ownership0 (before ++ c :: after) in
  is_current s boot gen = true →
  (ownership_step s c).1 = true →
  is_current t boot gen = false ∧ is_unassigned t = false ∧
  value (generation_ s) < value (generation_ t).
Proof.
  intros s t Hcur Hok. pose proof (ownership_run_wf ownership0 before ownership0_wf) as Hw.
  unfold t, ownership_run in *. rewrite foldl_app. cbn. fold s in Hw.
  change (foldl _ ownership0 before) with s.
  pose proof (ownership_run_mono (ownership_step s c).2 after (ownership_step_wf s c Hw)) as Hm.
  pose proof (ownership_run_wf _ after (ownership_step_wf s c Hw)) as Ht.
  unfold ownership_run in Hm, Ht.
  destruct (ownership_step_change s c Hw) as [|s' Ho Hg]; [done|]. cbn in *.
  unfold gen_ltb in Hg. apply N.ltb_lt in Hg.
  set (u := foldl _ s' after) in *. split_and!; [| |lia].
  - unfold is_current in *. bool_simp. apply andb_false_iff. right.
    apply bool_decide_eq_false. intros E.
    assert (value (generation_ s) = value (generation_ u)) by congruence. lia.
  - unfold ownership_wf, is_unassigned in *. case_bool_decide; [|done].
    subst u. rewrite Ht in Hm. cbn in Hm. lia.
Qed.

(** Two holders, for the concrete runs below. *)
Definition boot_a : WorkerBootId := MkId (Uuid128 (vreplicate 16 Byte.x0a)).
Definition boot_b : WorkerBootId := MkId (Uuid128 (vreplicate 16 Byte.x0b)).

Lemma superseded_owner_never_current_witness :
  is_current
    (ownership_run ownership0
       [Adopt RecoveryOwner.COORDINATOR (MkGeneration 1) boot_a authority0;
        Transfer RecoveryOwner.REPLACEMENT_WORKER (MkGeneration 2) boot_b authority0;
        Transfer RecoveryOwner.COORDINATOR (MkGeneration 1) boot_a authority0])
    boot_a (MkGeneration 1) = false.
Proof.
  apply (superseded_owner_never_current
    [Adopt RecoveryOwner.COORDINATOR (MkGeneration 1) boot_a authority0]
    (Transfer RecoveryOwner.REPLACEMENT_WORKER (MkGeneration 2) boot_b authority0)
    [Transfer RecoveryOwner.COORDINATOR (MkGeneration 1) boot_a authority0]);
    vm_compute; reflexivity.
Defined.

(** ** The planner, action by action *)

(** The situations that decide: a loss of hardware, an outcome in doubt that
    cannot simply be retried, a known outcome whose known effects must not be
    repeated, one that may be repeated, one that has come to its end, and one
    that fits nothing else. *)
Definition is_lost (fail : FailureRecord) : bool :=
  is_class fail FailureClass.LOST_DEVICE || is_class fail FailureClass.LOST_WORKER.

Definition can_repeat (inp : PlanInput) : bool :=
  pi_idempotent_retry_possible inp && negb (exhausted inp).

Definition in_doubt (fail : FailureRecord) (inp : PlanInput) : bool :=
  negb (is_lost fail) && is_ambiguous fail && negb (can_repeat inp).

Definition settled (fail : FailureRecord) : bool := negb (is_lost fail) && negb (is_ambiguous fail).

Definition effect_known (fail : FailureRecord) : bool :=
  bool_decide (fr_side_effect_state fail = SideEffectState.KNOWN_OCCURRED).

Definition effect_excluded (fail : FailureRecord) : bool :=
  bool_decide (fr_side_effect_state fail = SideEffectState.NONE_POSSIBLE)
  || bool_decide (fr_side_effect_state fail = SideEffectState.KNOWN_NOT_OCCURRED).

Definition unrepeatable_effect (fail : FailureRecord) (inp : PlanInput) : bool :=
  settled fail && (effect_known fail && negb (pi_idempotent_retry_possible inp)).

Definition repeatable (fail : FailureRecord) (inp : PlanInput) : bool :=
  settled fail && plan_retryable fail && can_repeat inp.

Definition ended (fail : FailureRecord) (inp : PlanInput) : bool :=
  settled fail && negb (effect_known fail && negb (pi_idempotent_retry_possible inp))
  && (negb (plan_retryable fail) || exhausted inp).

Definition unclassified (fail : FailureRecord) (inp : PlanInput) : bool :=
  settled fail && negb (effect_known fail) && plan_retryable fail && negb (exhausted inp)
  && negb (pi_idempotent_retry_possible inp).

(** At the end, with nothing to roll back or no way to. *)
Definition ended_clean (fail : FailureRecord) (inp : PlanInput) : bool :=
  ended fail inp && negb (negb (effect_excluded fail) && pi_rollback_possible inp).

(** When each action is the selected one. *)
Definition selected (fail : FailureRecord) (inp : PlanInput) (a : RecoveryAction.t) : bool :=
  let device := is_class fail FailureClass.LOST_DEVICE && pi_device_healthy inp in
  let exhausted_resources := is_class fail FailureClass.RESOURCE_EXHAUSTION in
  match a with
  | RecoveryAction.RESTART_DEVICE_CONTEXT => device
  | RecoveryAction.RESTART_WORKER => is_lost fail && negb device && pi_worker_healthy inp
  | RecoveryAction.FAILOVER_REPLICA =>
      is_lost fail && negb device && negb (pi_worker_healthy inp)
      || ended_clean fail inp && negb (pi_externally_committed inp) && exhausted_resources
         && negb (pi_worker_healthy inp)
  | RecoveryAction.RETRY =>
      negb (is_lost fail) && is_ambiguous fail && can_repeat inp
      || repeatable fail inp && (negb (pi_dependency_ready inp)
           || pi_worker_healthy inp && negb (pi_deadline_exceeded inp))
  | RecoveryAction.RETRY_ELSEWHERE =>
      repeatable fail inp && pi_dependency_ready inp && negb (pi_worker_healthy inp)
      || ended_clean fail inp && negb (pi_externally_committed inp) && exhausted_resources
         && pi_worker_healthy inp
  | RecoveryAction.ROLLBACK =>
      pi_rollback_possible inp
      && (in_doubt fail inp || unrepeatable_effect fail inp
          || ended fail inp && negb (effect_excluded fail))
  | RecoveryAction.COMPENSATE =>
      negb (pi_rollback_possible inp) && pi_compensation_possible inp
      && (in_doubt fail inp || unrepeatable_effect fail inp)
  | RecoveryAction.MANUAL_RESOLUTION =>
      negb (pi_rollback_possible inp) && negb (pi_compensation_possible inp) && in_doubt fail inp
  | RecoveryAction.ESCALATE =>
      negb (pi_rollback_possible inp) && negb (pi_compensation_possible inp)
        && unrepeatable_effect fail inp
      || repeatable fail inp && pi_dependency_ready inp && pi_worker_healthy inp
         && pi_deadline_exceeded inp
      || unclassified fail inp
  | RecoveryAction.RECOMPUTE => ended_clean fail inp && pi_externally_committed inp
  | RecoveryAction.ABANDON =>
      ended_clean fail inp && negb (pi_externally_committed inp) && negb exhausted_resources
  | RecoveryAction.RELOAD_STATE | RecoveryAction.REHYDRATE_STATE | RecoveryAction.INVALIDATE => false
  end.

(** A leaf of the planner: the action is concrete and so are the guards. *)
Ltac decide_leaf :=
  let a := fresh "a" in
  intros a; destruct a; cbn;
  rewrite ?andb_false_r, ?andb_true_r, ?orb_false_r, ?orb_true_r;
  split; intros; solve [reflexivity | discriminate].

(** A plan whose rejected alternatives are explained one by one and do not
    include the selected action. *)
Definition well_explained (p : RecoveryPlan) : Prop :=
  length (rp_rejected_alternatives p) = length (rp_rejection_reasons p) ∧
  rp_action p ∉ rp_rejected_alternatives p.

(** What the branches leave as [plan_start] set it. *)
Definition same_frame (p q : RecoveryPlan) : Prop :=
  rp_plan_id p = rp_plan_id q ∧ rp_operation p = rp_operation q ∧
  rp_generation p = rp_generation q ∧ rp_owner p = rp_owner q ∧
  rp_authority p = rp_authority q ∧ rp_reason_factors p = rp_reason_factors q.

Definition good_plan (start p : RecoveryPlan) : Prop :=
  well_explained p ∧ same_frame p start.

Lemma plan_start_rejected fresh fail inp :
  rp_rejected_alternatives (plan_start fresh fail inp) = [] ∧
  rp_rejection_reasons (plan_start fresh fail inp) = [].
Proof. done. Qed.

(** Evaluates one branch of the planner, guard by guard, on a plan with no
    rejected alternative yet. *)
Ltac finish_plan :=
  unfold good_plan, well_explained, same_frame; cbn; (split; [split|]);
  [ reflexivity | apply (bool_decide_unpack _); reflexivity | split_and!; reflexivity ].

Ltac plan_branch :=
  split_guards fail; finish_plan.

Ltac open_plan :=
  match goal with
  | H : rp_rejected_alternatives ?p = [] |- _ =>
    destruct p as [? ? ? ? ? ? ? ra rr ? ? ?]; cbn in *; subst ra rr
  end.

Section branches.
  Context (fail : FailureRecord) (inp : PlanInput) (p : RecoveryPlan).
  Hypothesis no_rejected : rp_rejected_alternatives p = [].
  Hypothesis no_reasons : rp_rejection_reasons p = [].

Lemma plan_lost_good : good_plan p (plan_lost fail inp p).
Proof. open_plan. unfold plan_lost. cbv zeta. plan_branch. Qed.

Lemma plan_ambiguous_good : good_plan p (plan_ambiguous fail inp p).
Proof. open_plan. unfold plan_ambiguous. cbv zeta. plan_branch. Qed.

Lemma plan_known_effect_good : good_plan p (plan_known_effect fail inp p).
Proof. open_plan. unfold plan_known_effect. cbv zeta. plan_branch. Qed.

Lemma plan_retry_good : good_plan p (plan_retry fail inp p).
Proof. open_plan. unfold plan_retry. cbv zeta. plan_branch. Qed.

Lemma plan_terminal_good : good_plan p (plan_terminal fail inp p).
Proof. open_plan. unfold plan_terminal. cbv zeta. plan_branch. Qed.

Lemma plan_escalate_good :
  good_plan p
    (require (p <| rp_action := RecoveryAction.ESCALATE |>) "unclassified failure; escalate").
Proof. open_plan. plan_branch. Qed.
End branches.

(** Whatever branch is taken, the plan is a good one for the start. *)
Lemma plan_good fresh fail inp :
  good_plan (plan_start fresh fail inp) (plan fresh fail inp).
Proof.
  destruct (plan_start_rejected fresh fail inp) as [H1 H2]. unfold plan. cbv zeta.
  repeat case_match;
    auto using plan_lost_good, plan_ambiguous_good, plan_known_effect_good, plan_retry_good,
      plan_terminal_good, plan_escalate_good.
Qed.

(** The actions alone, branch by branch. *)
Section actions.
  Context (fail : FailureRecord) (inp : PlanInput) (p : RecoveryPlan).

Lemma plan_lost_action :
  rp_action (plan_lost fail inp p)
  = if is_class fail FailureClass.LOST_DEVICE && pi_device_healthy inp
    then RecoveryAction.RESTART_DEVICE_CONTEXT
    else if pi_worker_healthy inp then RecoveryAction.RESTART_WORKER
    else RecoveryAction.FAILOVER_REPLICA.
Proof. unfold plan_lost. cbv zeta. by destruct (_ && _), (pi_worker_healthy inp). Qed.

Lemma plan_ambiguous_action :
  rp_action (plan_ambiguous fail inp p)
  = if can_repeat inp then RecoveryAction.RETRY
    else if pi_rollback_possible inp then RecoveryAction.ROLLBACK
    else if pi_compensation_possible inp then RecoveryAction.COMPENSATE
    else RecoveryAction.MANUAL_RESOLUTION.
Proof.
  unfold plan_ambiguous, can_repeat. cbv zeta.
  by destruct (_ && _), (pi_rollback_possible inp), (pi_compensation_possible inp).
Qed.

Lemma plan_known_effect_action :
  rp_action (plan_known_effect fail inp p)
  = if pi_rollback_possible inp then RecoveryAction.ROLLBACK
    else if pi_compensation_possible inp then RecoveryAction.COMPENSATE
    else RecoveryAction.ESCALATE.
Proof.
  unfold plan_known_effect. by destruct (pi_rollback_possible inp), (pi_compensation_possible inp).
Qed.

Lemma plan_retry_action :
  rp_action (plan_retry fail inp p)
  = if negb (pi_dependency_ready inp) then RecoveryAction.RETRY
    else if negb (pi_worker_healthy inp) then RecoveryAction.RETRY_ELSEWHERE
    else if pi_deadline_exceeded inp then RecoveryAction.ESCALATE else RecoveryAction.RETRY.
Proof.
  unfold plan_retry. cbv zeta.
  by destruct (pi_dependency_ready inp), (pi_worker_healthy inp), (pi_deadline_exceeded inp).
Qed.

Lemma plan_terminal_action :
  rp_action (plan_terminal fail inp p)
  = if negb (effect_excluded fail) && pi_rollback_possible inp then RecoveryAction.ROLLBACK
    else if pi_externally_committed inp then RecoveryAction.RECOMPUTE
    else if is_class fail FailureClass.RESOURCE_EXHAUSTION
      then if pi_worker_healthy inp then RecoveryAction.RETRY_ELSEWHERE
           else RecoveryAction.FAILOVER_REPLICA
    else RecoveryAction.ABANDON.
Proof.
  unfold plan_terminal, effect_excluded. cbv zeta. rewrite !bool_decide_not, negb_orb.
  destruct (_ && _ && _); [done|].
  by destruct (pi_externally_committed inp), (is_class fail FailureClass.RESOURCE_EXHAUSTION),
    (pi_worker_healthy inp).
Qed.
End actions.

Lemma rp_action_if (b : bool) p q :
  rp_action (if b then p else q) = if b then rp_action p else rp_action q.
Proof. by destruct b. Qed.

(** The guard of the third branch counts known effects only. *)
Lemma plan_effect_guard fail b :
  plan_may_effect fail
  && (bool_decide (fr_side_effect_state fail = SideEffectState.KNOWN_OCCURRED) && b)
  = effect_known fail && b.
Proof.
  unfold plan_may_effect. fold (effect_known fail).
  destruct (effect_known fail); cbn; [by rewrite orb_true_r|by rewrite andb_false_r].
Qed.

(** The action of a plan is the one its inputs select. *)
Lemma plan_action fresh fail inp a :
  rp_action (plan fresh fail inp) = a ↔ selected fail inp a = true.
Proof.
  revert a. unfold plan. cbv zeta. rewrite plan_effect_guard.
  generalize (plan_start fresh fail inp). intros p.
  rewrite !rp_action_if, plan_lost_action, plan_ambiguous_action, plan_known_effect_action,
    plan_retry_action, plan_terminal_action.
  change (rp_action (require _ _)) with RecoveryAction.ESCALATE.
  unfold selected, in_doubt, ended_clean, unrepeatable_effect, repeatable, ended,
    unclassified, settled, is_lost, can_repeat. cbv zeta.
  split_guards decide_leaf; decide_leaf.
Qed.

(** C30: the planner as a decision table. An action is selected if and only if
    the inputs are in the situation listed for it in [selected]: restarts and
    failovers for lost hardware; for an outcome in doubt, a retry when the
    operation is idempotent and has attempts left, otherwise rollback,
    compensation or manual resolution, in this order of possibility; for known
    effects of an operation that is not idempotent, rollback, compensation or
    escalation; a retry, here or elsewhere, or an escalation, for a retryable
    failure that may be repeated; and at the end, rollback if effects are not
    excluded and it is possible, recomputation, failover or abandonment
    otherwise. In particular, where no hardware is lost, effects are not excluded
    and rollback is possible, nothing is abandoned or recomputed, and without
    attempts left it is rolled back. *)
Theorem plan_action_exact fresh fail inp :
  (∀ a, (rp_action (plan fresh fail inp) = a) ↔ (selected fail inp a = true)) ∧
  (is_lost fail = false → effect_excluded fail = false → pi_rollback_possible inp = true →
   rp_action (plan fresh fail inp) ≠ RecoveryAction.ABANDON ∧
   rp_action (plan fresh fail inp) ≠ RecoveryAction.RECOMPUTE ∧
   (exhausted inp = true → rp_action (plan fresh fail inp) = RecoveryAction.ROLLBACK)).
Proof.
  split; [apply plan_action|]. intros Hl He Hr. rewrite !plan_action.
  unfold selected, ended_clean, in_doubt, ended, unrepeatable_effect, settled, can_repeat.
  rewrite Hl, He, Hr. cbn. rewrite !andb_false_r. split_and!; [done..|]. intros ->.
  by destruct (is_ambiguous fail), (effect_known fail), (pi_idempotent_retry_possible inp),
    (plan_retryable fail).
Qed.

Lemma plan_action_exact_witness :
  rp_action (plan null_id
    (failure_record0 <| fr_completion := Ambiguity.KNOWN |>
       <| fr_side_effect_state := SideEffectState.KNOWN_OCCURRED |>)
    (MkPlanInput 3 3 true true false true true false false true)) = RecoveryAction.ROLLBACK.
Proof.
  destruct (plan_action_exact null_id
    (failure_record0 <| fr_completion := Ambiguity.KNOWN |>
       <| fr_side_effect_state := SideEffectState.KNOWN_OCCURRED |>)
    (MkPlanInput 3 3 true true false true true false false true)) as [_ H].
  apply H; vm_compute; reflexivity.
Defined.

(** A plan explains itself: every rejected alternative has its reason, the
    selected action is not among them, five reason factors are recorded, and
    the operation, the authority and the owner (the coordinator when the
    record names none) come from the failure record. *)
Lemma plan_explained fresh fail inp :
  let p := plan fresh fail inp in
  length (rp_rejected_alternatives p) = length (rp_rejection_reasons p) ∧
  rp_action p ∉ rp_rejected_alternatives p ∧
  length (rp_reason_factors p) = 5%nat ∧
  rp_plan_id p = fresh ∧ rp_operation p = fr_operation fail ∧
  rp_authority p = fr_authority fail ∧ rp_owner p ≠ RecoveryOwner.NONE ∧
  (fr_recovery_owner fail ≠ RecoveryOwner.NONE → rp_owner p = fr_recovery_owner fail).
Proof.
  destruct (plan_good fresh fail inp) as ([Hl Ha] & (Hi & Ho & _ & Hw & Hu & Hf)).
  cbv zeta. rewrite Hf, Hi, Ho, Hu, Hw. split_and!; try done.
  - cbn. case_bool_decide; done.
  - intros Hn. cbn. by rewrite bool_decide_eq_false_2.
Qed.

(** A plan carries an authority newer than the failure it recovers: as long
    as the recovery generation does not wrap around, a recovery command under
    the plan's generation passes the recovery fence, and it is fenced off once
    that generation has been adopted as the current one. *)
Lemma plan_generation_fences fresh fail inp cur :
  let p := plan fresh fail inp in
  let g := recovery_generation (fr_authority fail) in
  let command := MkAuthority (coordinator_epoch cur) (worker_boot cur) (attempt cur)
    (attempt_generation cur) (dispatch cur) (operation_generation cur) (failure_generation cur)
    (rp_generation p) in
  fits 64 (value g + 1) →
  accepted (fence_recovery command cur g) = true ∧
  accepted (fence_recovery command cur (rp_generation p)) = false.
Proof.
  intros p g command Hg.
  assert (rp_generation p = next g) as Hp
    by (destruct (plan_good fresh fail inp) as (_ & (_ & _ & E & _)); exact E).
  split.
  - apply fence_recovery_accepted. unfold recovery_current, command. cbn. split_and!.
    + rewrite Hp. unfold envelope_is_unset. cbn. rewrite !andb_false_iff. right.
      apply is_unset_false. rewrite next_value by done. lia.
    + right. reflexivity.
    + rewrite Hp, next_value by done. lia.
    + by right.
  - apply not_true_iff_false. rewrite fence_recovery_accepted.
    intros (_ & _ & H & _). unfold command in H. cbn in H. lia.
Qed.

Lemma plan_generation_fences_witness :
  accepted (fence_recovery
    (MkAuthority gen0 null_id null_id gen0 null_id gen0 gen0
       (rp_generation (plan null_id transient_failure plan_input0)))
    authority0 gen0) = true.
Proof.
  apply (plan_generation_fences null_id transient_failure plan_input0 authority0).
  vm_compute. reflexivity.
Defined.

(** The planner and the classifier can disagree: for a failure class that
    is never retried, an ambiguous outcome of an idempotent operation with
    attempts left makes the planner select RETRY while the classifier refuses
    to retry and fences the operation permanently. *)
Lemma planner_retries_what_classifier_refuses fresh fail inp rinp policy :
  never_retried (fr_failure_class fail) = true →
  is_ambiguous fail = true →
  pi_idempotent_retry_possible inp = true → exhausted inp = false →
  attempt_count rinp < max_attempts policy →
  rp_action (plan fresh fail inp) = RecoveryAction.RETRY ∧
  verdict (classify fail rinp policy) = RetryVerdict.DO_NOT_RETRY ∧
  fenced_permanently (classify fail rinp policy) = true.
Proof.
  intros Hn Ha Hi He Hm. split_and!.
  - unfold plan, is_class. cbv zeta. rewrite !bool_decide_eq_false_2, Ha by (intros E; by rewrite E in Hn).
    cbn [orb]. unfold plan_ambiguous. by rewrite Hi, He.
  - rewrite classify_verdict, Hn. unfold verdict_of. by destruct (_ <=? _).
  - unfold classify. cbv zeta. apply N.leb_gt in Hm. by rewrite Hm, Hn.
Qed.

Lemma planner_retries_what_classifier_refuses_witness :
  let fail := failure_record0 <| fr_failure_class := FailureClass.CANCELLED |> in
  let inp := MkPlanInput 0 3 true true true false false false false true in
  rp_action (plan null_id fail inp) = RecoveryAction.RETRY ∧
  verdict (classify fail retry_input0 policy0) = RetryVerdict.DO_NOT_RETRY.
Proof.
  destruct (planner_retries_what_classifier_refuses null_id
    (failure_record0 <| fr_failure_class := FailureClass.CANCELLED |>)
    (MkPlanInput 0 3 true true true false false false false true) retry_input0 policy0)
    as (H1 & H2 & _); [vm_compute; reflexivity .. | ].
  split; [exact H1 | exact H2].
Defined.
