(* ===== verification/Rollback.v ===== *)
(** * Rollback and compensation ([include/failure_fabric/rollback.hpp],
    [src/rollback.cpp], [include/failure_fabric/compensation.hpp],
    [src/compensation.cpp]) *)
From S2P Require Import Prelude Ident Enums Authority.

Local Open Scope N_scope.

(** ** Rollback *)
Record RollbackStep := MkStep {
  rs_action : RollbackAction.t;
  target : string;
  rs_idempotent : bool;
  executed : bool;
  failed : bool;
  rs_detail : string;
}.

#[export] Instance RollbackStep_settable : Settable RollbackStep := λ s,
  MkStep (rs_action s) (target s) (rs_idempotent s) (executed s) (failed s) (rs_detail s).

Definition describe (s : RollbackStep) : string :=
  let d := RollbackAction.to_string (rs_action s) in
  if bool_decide (target s ≠ EmptyString) then put [d; ":"; target s] else d.

Record RollbackPlan := MkRollbackPlan {
  rb_operation : OperationId;
  rb_generation : RecoveryGeneration;
  rb_owner : RecoveryOwner.t;
  rb_authority : AuthorityEnvelope;
  steps : list RollbackStep;
}.

#[export] Instance RollbackPlan_settable : Settable RollbackPlan := λ p,
  MkRollbackPlan (rb_operation p) (rb_generation p) (rb_owner p) (rb_authority p) (steps p).

Record RollbackExecutor := MkExecutor {
  plan_ : RollbackPlan;
  completed_ : nat;
  failed_ : bool;
  failure_reason_ : string;
}.

#[export] Instance RollbackExecutor_settable : Settable RollbackExecutor := λ e,
  MkExecutor (plan_ e) (completed_ e) (failed_ e) (failure_reason_ e).

(** The constructor [RollbackExecutor(RollbackPlan)]. *)
Definition executor (plan : RollbackPlan) : RollbackExecutor :=
  MkExecutor plan 0 false EmptyString.

Definition is_complete (e : RollbackExecutor) : bool :=
  (length (steps (plan_ e)) <=? completed_ e)%nat.

(** [completed_] is below the size where the step is written, so the index
    of [plan_.steps\[completed_\]] is in range. *)
Definition run_next (e : RollbackExecutor) (authority_current : bool) : bool * RollbackExecutor :=
  if is_complete e then (true, e)
  else if negb authority_current then
    (false, e <| failed_ := true |>
              <| failure_reason_ := "rollback blocked: recovery authority no longer current" |>)
  else
    let steps' := alter (λ step, step <| executed := true |>) (completed_ e) (steps (plan_ e)) in
    (true, e <| plan_ := plan_ e <| steps := steps' |> |>
             <| completed_ := S (completed_ e) |>).

Definition resume_from (e : RollbackExecutor) (completed : nat) : RollbackExecutor :=
  e <| completed_ := completed |>.

(** ** Compensation *)
Module CompletionState.
Variant t := PENDING | COMPLETE | FAILURE.

#[global] Instance eq_dec : EqDecision t.
Proof. solve_decision. Defined.
End CompletionState.

Record CompensationRecord := MkCompensation {
  compensation_id : CompensationId;
  target_operation : OperationId;
  cr_reason : string;
  preconditions : string;
  cr_authority : AuthorityEnvelope;
  side_effects : SideEffectState.t;
  completion : CompletionState.t;
  cr_failed : bool;
  failure_reason : string;
  attempts : N;
}.

#[export] Instance CompensationRecord_settable : Settable CompensationRecord := λ c,
  MkCompensation (compensation_id c) (target_operation c) (cr_reason c) (preconditions c)
    (cr_authority c) (side_effects c) (completion c) (cr_failed c) (failure_reason c) (attempts c).

Definition compensation0 : CompensationRecord :=
  MkCompensation null_id null_id EmptyString EmptyString authority0 SideEffectState.UNKNOWN
    CompletionState.PENDING false EmptyString 0.

(** [Compensator::run]; the compensator holds nothing but its record. *)
Definition compensator_run (rec : CompensationRecord) (authority_current : bool) : CompensationRecord :=
  if bool_decide (completion rec = CompletionState.COMPLETE) then rec
  else if bool_decide (completion rec = CompletionState.FAILURE) then rec
  else if negb authority_current then
    rec <| completion := CompletionState.FAILURE |> <| cr_failed := true |>
        <| failure_reason := "compensation blocked: authority no longer current" |>
  else
    rec <| completion := CompletionState.COMPLETE |> <| cr_failed := false |>
        <| side_effects := SideEffectState.KNOWN_NOT_OCCURRED |>
        <| attempts := wrap 32 (attempts rec + 1) |>.

Definition resume_failure (rec : CompensationRecord) (reason : string) : CompensationRecord :=
  rec <| completion := CompletionState.FAILURE |> <| cr_failed := true |>
      <| failure_reason := reason |>.

(** ** The executor along a sequence of authority checks *)
Definition rollback_run (e : RollbackExecutor) (checks : list bool) : RollbackExecutor :=
  foldl (λ e a, (run_next e a).2) e checks.

(** The steps with the first [n] of them marked executed. *)
Definition mark (n : nat) (l : list RollbackStep) : list RollbackStep :=
  ((λ s, s <| executed := true |>) <$> take n l) ++ drop n l.

Definition granted (checks : list bool) : nat := length (filter (λ b : bool, b) checks).

Lemma length_mark n l : length (mark n l) = length l.
Proof. unfold mark. rewrite length_app, length_fmap, length_take, length_drop. lia. Qed.

Lemma mark_lookup n l i :
  mark n l !! i = (λ s, if decide (i < n)%nat then s <| executed := true |> else s) <$> l !! i.
Proof.
  unfold mark. revert n i. induction l as [|x l IH]; intros [|n] [|i]; try done; cbn.
  - by destruct (l !! i).
  - etransitivity; [exact (IH n i)|].
    destruct (l !! i); cbn; [|done]. repeat case_decide; done || lia.
Qed.

Lemma alter_mark n l :
  alter (λ s, s <| executed := true |>) n (mark n l) = mark (S n) l.
Proof.
  apply list_eq. intros i. rewrite list_lookup_alter, !mark_lookup.
  destruct (decide (n = i)) as [->|Hi]; destruct (l !! i); cbn; repeat case_decide; done || lia.
Qed.

Lemma granted_cons (a : bool) checks :
  granted (a :: checks) = ((if a then 1 else 0) + granted checks)%nat.
Proof. by destruct a. Qed.

Lemma rollback_run_app e checks1 checks2 :
  rollback_run e (checks1 ++ checks2) = rollback_run (rollback_run e checks1) checks2.
Proof. apply foldl_app. Qed.

Lemma mark_0 l : mark 0 l = l.
Proof. by destruct l. Qed.

(** An executor whose first [completed_] steps, and no others, are marked. *)
Definition at_step (plan : RollbackPlan) (n : nat) (e : RollbackExecutor) : Prop :=
  completed_ e = n ∧ plan_ e = plan <| steps := mark n (steps plan) |>.

Lemma at_step_complete plan n e :
  at_step plan n e → is_complete e = (length (steps plan) <=? n)%nat.
Proof. intros [Hc Hp]. unfold is_complete. rewrite Hp, Hc. cbn. by rewrite length_mark. Qed.

Lemma run_next_at plan n e a :
  at_step plan n e →
  at_step plan (if a && negb (is_complete e) then S n else n) (run_next e a).2.
Proof.
  intros [Hc Hp]. unfold run_next. destruct (is_complete e), a; cbn; try done.
  split; cbn; [by rewrite Hc|]. rewrite Hp, Hc. cbn. by rewrite alter_mark.
Qed.

Lemma rollback_run_at plan checks n e :
  at_step plan n e → (n <= length (steps plan))%nat →
  at_step plan (min (n + granted checks) (length (steps plan))) (rollback_run e checks).
Proof.
  revert n e. induction checks as [|a checks IH]; intros n e He Hn.
  { by rewrite Nat.add_0_r, Nat.min_l. }
  pose proof (run_next_at plan n e a He) as Hs. rewrite (at_step_complete plan n e He) in Hs.
  change (rollback_run e (a :: checks)) with (rollback_run (run_next e a).2 checks).
  destruct (Nat.leb_spec (length (steps plan)) n), a; cbn in Hs;
    (eapply IH in Hs; [|lia]);
    (match goal with H : at_step plan ?x _ |- at_step plan ?y _ =>
       replace y with x; [exact H|] end);
    rewrite granted_cons; lia.
Qed.

Lemma executor_at plan : at_step plan 0 (executor plan).
Proof. split; [done|]. cbn. rewrite mark_0. by destruct plan. Qed.

(** C28: an executor runs the steps of its plan in order and each at most once:
    after any sequence of authority checks exactly the first k steps are
    marked executed, where k is the number of granted checks capped by the
    length of the plan, nothing else in the plan has changed, and the rollback
    is complete as soon as as many checks were granted as there are steps. *)
Theorem rollback_executes_prefix plan checks :
  let e := rollback_run (executor plan) checks in
  let k := min (granted checks) (length (steps plan)) in
  completed_ e = k ∧
  plan_ e = plan <| steps := mark k (steps plan) |> ∧
  (∀ i, steps (plan_ e) !! i
        = (λ s, if decide (i < k)%nat then s <| executed := true |> else s) <$> steps plan !! i) ∧
  (is_complete e = true ↔ length (steps plan) <= granted checks)%nat.
Proof.
  pose proof (rollback_run_at plan checks 0 _ (executor_at plan) (Nat.le_0_l _)) as H.
  cbn [Nat.add] in H. cbv zeta. rewrite (at_step_complete _ _ _ H).
  destruct H as [Hc Hp]. split_and!; [done | done | |].
  - intros i. rewrite Hp. apply mark_lookup.
  - rewrite Nat.leb_le. lia.
Qed.

(** A rollback can be resumed: a new executor on the plan of an interrupted
    one, resumed from its count, ends with the same plan and the same count as
    if the first executor had gone on with the same authority checks. *)
Lemma rollback_resume plan checks1 checks2 :
  let e := rollback_run (executor plan) checks1 in
  let resumed := rollback_run (resume_from (executor (plan_ e)) (completed_ e)) checks2 in
  let direct := rollback_run (executor plan) (checks1 ++ checks2) in
  plan_ resumed = plan_ direct ∧ completed_ resumed = completed_ direct ∧
  is_complete resumed = is_complete direct.
Proof.
  pose proof (rollback_run_at plan checks1 0 _ (executor_at plan) (Nat.le_0_l _)) as H.
  cbv zeta. rewrite rollback_run_app.
  set (e := rollback_run (executor plan) checks1) in *.
  assert (at_step plan (min (0 + granted checks1) (length (steps plan)))
            (resume_from (executor (plan_ e)) (completed_ e))) as H' by done.
  pose proof (rollback_run_at plan checks2 _ _ H ltac:(lia)) as H1.
  pose proof (rollback_run_at plan checks2 _ _ H' ltac:(lia)) as H2.
  rewrite (at_step_complete _ _ _ H1), (at_step_complete _ _ _ H2).
  destruct H1 as [-> ->], H2 as [-> ->]. done.
Qed.

(** A step is run only under current authority: a call without it on an
    unfinished rollback is refused, records the failure and leaves the plan
    and the count alone; a call on a complete rollback answers true and
    changes nothing. *)
Lemma rollback_step_fenced e :
  (is_complete e = false →
   (run_next e false).1 = false ∧ failed_ (run_next e false).2 = true ∧
   plan_ (run_next e false).2 = plan_ e ∧ completed_ (run_next e false).2 = completed_ e) ∧
  (is_complete e = true → ∀ a, run_next e a = (true, e)).
Proof. unfold run_next. destruct (is_complete e); split; intros; done. Qed.

(** ** The compensator along a sequence of runs *)
Definition compensation_runs (rec : CompensationRecord) (checks : list bool) : CompensationRecord :=
  foldl compensator_run rec checks.

Lemma compensator_run_final rec a :
  completion rec ≠ CompletionState.PENDING → compensator_run rec a = rec.
Proof. unfold compensator_run. by destruct (completion rec). Qed.

Lemma compensation_runs_final rec checks :
  completion rec ≠ CompletionState.PENDING → compensation_runs rec checks = rec.
Proof.
  intros Hp. induction checks as [|a checks IH]; [done|].
  unfold compensation_runs in *. cbn. by rewrite compensator_run_final.
Qed.

Lemma compensator_run_decides rec a : completion (compensator_run rec a) ≠ CompletionState.PENDING.
Proof.
  unfold compensator_run.
  repeat case_bool_decide; destruct a; cbn; congruence.
Qed.

(** Compensation is decided once: the first run fixes the record for every
    later sequence of runs; from a pending record it completes, with one
    attempt counted and the side effects undone, exactly when the authority
    was current at that first run, and otherwise fails without an attempt. *)
Lemma compensation_decided_once rec a checks :
  completion rec = CompletionState.PENDING →
  let out := compensation_runs rec (a :: checks) in
  out = compensator_run rec a ∧
  (completion out = CompletionState.COMPLETE ↔ a = true) ∧
  (a = true → side_effects out = SideEffectState.KNOWN_NOT_OCCURRED ∧
              attempts out = wrap 32 (attempts rec + 1) ∧ cr_failed out = false) ∧
  (a = false → completion out = CompletionState.FAILURE ∧ cr_failed out = true ∧
               attempts out = attempts rec ∧ side_effects out = side_effects rec).
Proof.
  intros Hp. cbv zeta.
  change (compensation_runs rec (a :: checks))
    with (compensation_runs (compensator_run rec a) checks).
  rewrite compensation_runs_final by apply compensator_run_decides.
  unfold compensator_run. rewrite Hp, !bool_decide_eq_false_2 by done.
  by destruct a; cbn; split_and!.
Qed.

Lemma compensation_decided_once_witness :
  completion (compensation_runs compensation0 [false; true; true]) = CompletionState.FAILURE.
Proof.
  destruct (compensation_decided_once compensation0 false [true; true] eq_refl) as (_ & _ & _ & H).
  by apply H.
Defined.
