(* ===== verification/Codec.v ===== *)
(** * Binary codec ([include/failure_fabric/persistence.hpp],
    [src/persistence.cpp]): checksum, big-endian integers, the writer and the
    reader, and the checksummed frames.

    A writer call is the list of bytes it appends to the buffer. A reader is
    its buffer, its position and its sticky [ok] flag; reads past the end clear
    the flag and return a default, and a decoder ([D]) can also give up, which
    is the [return false] of the code. *)
From S2P Require Import Prelude Ident Enums.


Local Open Scope N_scope.

Definition kFFMagic : N := 0x46464600.
Definition kFFVersion : N := 1.

(** ** Checksum: 64-bit FNV-1a with the source's offset basis *)
Definition fnv_step (h : N) (b : byte) : N :=
  wrap 64 (N.lxor h (byte_to_N b) * 1099511628211).

Definition fnv1a64 (data : list byte) : N := foldl fnv_step 1469598103934665603 data.

(** ** Big-endian integers: the loops of [put_be64/32/16], [get_be64/32/16] *)
Fixpoint put_be (n : nat) (x : N) : list byte :=
  match n with
  | O => []
  | S i => byte_of_N (N.land (N.shiftr x (N.of_nat i * 8)) 0xFF) :: put_be i x
  end.

Definition get_be (w : N) (l : list byte) : N :=
  foldl (λ x b, wrap w (N.lor (N.shiftl x 8) (byte_to_N b))) 0 l.

(** ** [BinaryWriter] *)
Definition w_u8 (v : N) : list byte := [byte_of_N v].
Definition w_u16 (v : N) : list byte := put_be 2 v.
Definition w_u32 (v : N) : list byte := put_be 4 v.
Definition w_u64 (v : N) : list byte := put_be 8 v.
Definition w_bytes (l : list byte) : list byte := l.

Definition w_str16 (s : string) : list byte :=
  if 0xFFFF <? N.of_nat (String.length s) then w_u16 0
  else w_u16 (wrap 16 (N.of_nat (String.length s))) ++ w_bytes (String.list_byte_of_string s).

Definition w_uuid (u : uuid128) : list byte := w_bytes (vec_to_list (bytes u)).
Definition w_generation (g : Generation) : list byte := w_u64 (value g).
Definition w_enumv (v : N) : list byte := w_u32 v.
Definition w_bool (b : bool) : list byte := w_u8 (if b then 1 else 0).

(** ** [BinaryReader] *)
Record BinaryReader := MkReader {
  p_ : list byte;
  pos_ : nat;
  ok_ : bool;
}.

Definition reader (data : list byte) : BinaryReader := MkReader data 0 true.

Definition remaining (r : BinaryReader) : nat := length (p_ r) - pos_ r.

(** Decoders: [None] is a [return false]. *)
Definition D (A : Type) : Type := BinaryReader → option (A * BinaryReader).

#[export] Instance D_ret : MRet D := λ A a r, Some (a, r).
#[export] Instance D_bind : MBind D := λ A B k d r,
  match d r with Some (a, r') => k a r' | None => None end.

(** [if (!r.ok()) return false;] *)
Definition check_ok : D unit := λ r, if ok_ r then Some (tt, r) else None.

(** [if (b) return false;] *)
Definition reject_if (b : bool) : D unit := λ r, if b then None else Some (tt, r).

(** [need(n)] and the read it guards: [v] of the next [n] bytes, or [dflt]. *)
Definition read_n {A} (n : nat) (dflt : A) (v : list byte → A) : D A := λ r,
  if (length (p_ r) <? pos_ r + n)%nat then Some (dflt, MkReader (p_ r) (pos_ r) false)
  else Some (v (take n (drop (pos_ r) (p_ r))), MkReader (p_ r) (pos_ r + n) (ok_ r)).

Definition r_u8 : D N := read_n 1 0 (λ l, byte_to_N (default Byte.x00 (head l))).
Definition r_u16 : D N := read_n 2 0 (get_be 16).
Definition r_u32 : D N := read_n 4 0 (get_be 32).
Definition r_u64 : D N := read_n 8 0 (get_be 64).

(** [bytes(u.bytes.data(), 16)] into a zero-initialised identity. *)
Definition bytes_uuid (l : list byte) : uuid128 :=
  Uuid128 (fun_to_vec (λ i : fin 16, default Byte.x00 (l !! fin_to_nat i))).

Definition r_uuid : D uuid128 := read_n 16 uuid128_zero bytes_uuid.

Definition r_str16 : D string := λ r,
  match r_u16 r with
  | None => None
  | Some (len, r) =>
      let len := N.to_nat len in
      if negb (ok_ r) || (length (p_ r) <? pos_ r + len)%nat then
        Some (EmptyString, MkReader (p_ r) (pos_ r) false)
      else Some (String.string_of_list_byte (take len (drop (pos_ r) (p_ r))),
                 MkReader (p_ r) (pos_ r + len) (ok_ r))
  end.

Definition r_generation : D Generation := v ← r_u64; mret (MkGeneration v).
Definition r_enumv : D N := r_u32.
Definition r_id {tag} : D (Id tag) := u ← r_uuid; mret (MkId u).
Definition r_bool : D bool := v ← r_u8; mret (negb (v =? 0)).

(** [uint32_t v = r.enumv(); if (!r.ok() || v >= bound) return false;] and the
    cast of [v]. The bounds of the code are the numbers of enumerators, so the
    cast always names one. *)
Definition cast_enum E `{CEnum E} (v : N) : D E := λ r,
  match enum_of_u32 E v with Some e => Some (e, r) | None => None end.

Definition r_enum E `{CEnum E} (bound : N) : D E :=
  v ← r_enumv; _ ← check_ok; _ ← reject_if (bound <=? v); cast_enum E v.

(** ** Frames *)
Record FrameHeader := MkFrame {
  kind : N;
  payload : list byte;
  checksum : N;
}.

Definition frame_body (kind : N) (payload : list byte) : list byte :=
  w_u32 kFFMagic ++ w_u16 kFFVersion ++ w_u8 kind
    ++ w_u32 (wrap 32 (N.of_nat (length payload))) ++ w_bytes payload.

Definition encode_frame (kind : N) (payload : list byte) : list byte :=
  let body := frame_body kind payload in
  w_bytes body ++ w_u64 (fnv1a64 body).

(** The header part of [decode_frame]: the kind and the payload length. *)
Definition frame_head : D (N * N) :=
  magic ← r_u32; _ ← check_ok; _ ← reject_if (negb (magic =? kFFMagic));
  ver ← r_u16; _ ← check_ok; _ ← reject_if (negb (ver =? kFFVersion));
  kind ← r_u8; len ← r_u32; _ ← check_ok;
  mret (kind, len).

(** [decode_frame(data, n, offset, out, next_offset)]. The number of bytes under
    the checksum, [11 + len], is computed in the 32 bits of [len]. *)
Definition decode_frame (data : list byte) (offset : nat) : option (FrameHeader * nat) :=
  if (length data <? offset + 11)%nat then None
  else match frame_head (reader (drop offset data)) with
  | None => None
  | Some ((k, len), r) =>
      let len := N.to_nat len in
      let payloadStart := (offset + 11)%nat in
      if (remaining r <? len)%nat then None
      else if (length data <? payloadStart + len + 8)%nat then None
      else
        let stored := get_be 64 (take 8 (drop (payloadStart + len) data)) in
        if fnv1a64 (take (N.to_nat (wrap 32 (11 + N.of_nat len))) (drop offset data)) =? stored
        then Some (MkFrame k (take len (drop payloadStart data)) stored,
                   (payloadStart + len + 8)%nat)
        else None
  end.

(** ** Big-endian integers are inverse *)
Definition be_num (l : list byte) : N := foldl (λ x b, x * 256 + byte_to_N b) 0 l.

Lemma be_num_snoc l b : be_num (l ++ [b]) = be_num l * 256 + byte_to_N b.
Proof. unfold be_num. by rewrite foldl_snoc. Qed.

Lemma be_num_bound l : be_num l < 256 ^ N.of_nat (length l).
Proof.
  induction l as [|b l IH] using rev_ind; [reflexivity|].
  rewrite be_num_snoc, length_app. cbn [length]. pose proof (byte_to_N_bound b).
  replace (N.of_nat (length l + 1)) with (N.succ (N.of_nat (length l))) by lia.
  rewrite N.pow_succ_r'. lia.
Qed.

Lemma pow256 n : 256 ^ N.of_nat n = 2 ^ (8 * N.of_nat n).
Proof. by rewrite N.pow_mul_r. Qed.

Lemma land_shift8 x b : N.land (x * 256) (byte_to_N b) = 0.
Proof.
  pose proof (byte_to_N_bound b) as Hb. apply N.bits_inj_0. intros i.
  rewrite N.land_spec. change 256 with (2 ^ 8).
  destruct (N.lt_ge_cases i 8) as [Hi|Hi].
  - by rewrite N.mul_pow2_bits_low.
  - destruct (decide (byte_to_N b = 0)) as [->|Hz]; [by rewrite N.bits_0, andb_false_r|].
    rewrite (N.bits_above_log2 (byte_to_N b)), ?andb_false_r; [done|].
    apply (N.lt_le_trans _ 8); [|done]. apply N.log2_lt_pow2; [lia|done].
Qed.

Lemma lor_shift8 x b : N.lor (N.shiftl x 8) (byte_to_N b) = x * 256 + byte_to_N b.
Proof.
  rewrite N.shiftl_mul_pow2. change (2 ^ 8) with 256.
  pose proof (land_shift8 x b) as H. by rewrite N.add_nocarry_lxor, N.lxor_lor.
Qed.

Lemma get_be_num w l : 8 * N.of_nat (length l) <= w → get_be w l = be_num l.
Proof.
  induction l as [|b l IH] using rev_ind; [done|].
  rewrite length_app. cbn [length]. intros Hw. rewrite be_num_snoc. unfold get_be in *.
  rewrite foldl_snoc, IH by lia. rewrite lor_shift8. apply wrap_small. unfold fits.
  rewrite <- be_num_snoc. eapply N.lt_le_trans; [apply be_num_bound|].
  rewrite pow256. apply N.pow_le_mono_r; [done|]. rewrite length_app. cbn [length]. lia.
Qed.

Lemma put_be_byte i x : N.land (N.shiftr x (N.of_nat i * 8)) 0xFF = (x / 256 ^ N.of_nat i) mod 256.
Proof.
  change 0xFF with (N.ones 8). rewrite N.land_ones, N.shiftr_div_pow2.
  by rewrite (N.mul_comm (N.of_nat i)), <- pow256.
Qed.

Lemma put_be_S i x : put_be (S i) x = byte_of_N (x / 256 ^ N.of_nat i) :: put_be i x.
Proof.
  cbn [put_be]. rewrite put_be_byte. f_equal. apply byte_to_N_inj.
  rewrite !byte_to_of_N. apply N.Div0.mod_mod.
Qed.

Lemma length_put_be n x : length (put_be n x) = n.
Proof. induction n; cbn; congruence. Qed.

Lemma put_be_snoc n x : put_be (S n) x = put_be n (x / 256) ++ [byte_of_N x].
Proof.
  induction n as [|n IH]; [rewrite put_be_S; cbn; by rewrite N.div_1_r|].
  rewrite put_be_S, IH, put_be_S. cbn [app]. f_equal. f_equal.
  rewrite N.Div0.div_div, Nat2N.inj_succ, N.pow_succ_r'. done.
Qed.

Lemma be_num_put n x : be_num (put_be n x) = x mod 256 ^ N.of_nat n.
Proof.
  revert x. induction n as [|n IH]; intros x; [by rewrite N.mod_1_r|].
  rewrite put_be_snoc, be_num_snoc, IH, byte_to_of_N.
  rewrite Nat2N.inj_succ, N.pow_succ_r', N.Div0.mod_mul_r. lia.
Qed.

Lemma put_be_num l : put_be (length l) (be_num l) = l.
Proof.
  induction l as [|b l IH] using rev_ind; [done|].
  rewrite length_app, Nat.add_comm. cbn [Nat.add length]. rewrite put_be_snoc, be_num_snoc.
  pose proof (byte_to_N_bound b).
  rewrite N.div_add_l, (N.div_small (byte_to_N b)), N.add_0_r, IH by lia.
  f_equal. f_equal. apply byte_to_N_inj. rewrite byte_to_of_N.
  rewrite N.add_comm, N.Div0.mod_add. by apply N.mod_small.
Qed.

(** Reading what was written, and writing what was read, at [n] bytes. *)
Lemma get_put_be n w x : 8 * N.of_nat n = w → fits w x → get_be w (put_be n x) = x.
Proof.
  intros <- Hx. rewrite get_be_num by (rewrite length_put_be; lia).
  rewrite be_num_put, pow256. by apply N.mod_small.
Qed.

Lemma put_get_be n w l : 8 * N.of_nat n = w → length l = n → put_be n (get_be w l) = l.
Proof. intros Hw <-. rewrite get_be_num by lia. apply put_be_num. Qed.

Lemma get_be_fits n w l : 8 * N.of_nat n = w → length l = n → fits w (get_be w l).
Proof.
  intros <- <-. rewrite get_be_num by lia. unfold fits. rewrite <- pow256. apply be_num_bound.
Qed.

(** ** What a reader promises

    [reads d bs a]: at any position where [bs] follows, [d] yields [a] and
    stands right after [bs]. [stable d]: [d] never touches the buffer and never
    leaves it. [sound d W]: when the flag is still set after [d], it was set
    before and [W] relates the consumed bytes to the value. *)
Definition in_range (r : BinaryReader) : Prop := (pos_ r <= length (p_ r))%nat.

Definition reads {A} (d : D A) (bs : list byte) (a : A) : Prop :=
  ∀ data pos post, (pos <= length data)%nat → drop pos data = bs ++ post →
    d (MkReader data pos true) = Some (a, MkReader data (pos + length bs) true).

Definition stable {A} (d : D A) : Prop :=
  ∀ r a r', d r = Some (a, r') → in_range r →
    p_ r' = p_ r ∧ in_range r' ∧ (ok_ r' = true → ok_ r = true).

Definition consumed (r r' : BinaryReader) (bs : list byte) : Prop :=
  drop (pos_ r) (p_ r) = bs ++ drop (pos_ r') (p_ r) ∧ pos_ r' = (pos_ r + length bs)%nat.

Definition sound {A} (d : D A) (W : list byte → A → Prop) : Prop :=
  ∀ r a r', d r = Some (a, r') → in_range r → ok_ r' = true →
    ∃ bs, consumed r r' bs ∧ W bs a.

(** A writer and a reader of the same wire format, on the valid values. *)
Class Codec {A} (put : A → list byte) (d : D A) (valid : A → Prop) : Prop := {
  codec_reads a : valid a → reads d (put a) a;
  codec_stable : stable d;
  codec_sound : sound d (λ bs a, bs = put a ∧ valid a);
}.

Lemma reads_bind {A B} (d : D A) (k : A → D B) b1 b2 a c :
  reads d b1 a → reads (k a) b2 c → reads (d ≫= k) (b1 ++ b2) c.
Proof.
  intros H1 H2 data pos post Hp Hd. rewrite <- app_assoc in Hd.
  unfold mbind, D_bind. rewrite (H1 data pos (b2 ++ post) Hp Hd).
  assert (length (drop pos data) = length (b1 ++ b2 ++ post)) as Hl by congruence.
  rewrite length_drop, !length_app in Hl.
  destruct (decide (length b1 = 0%nat)) as [E|E].
  - apply nil_length_inv in E as ->. cbn [app length] in *. rewrite Nat.add_0_r in *.
    by apply (H2 data pos post).
  - rewrite (H2 data _ post); [by rewrite length_app, Nat.add_assoc | lia |].
    rewrite <- drop_drop, Hd. apply drop_app_length.
Qed.

Lemma reads_ret {A} (a : A) : reads (mret a) [] a.
Proof. intros data pos post _ _. cbn. by rewrite Nat.add_0_r. Qed.

Lemma reads_check_ok : reads check_ok [] tt.
Proof. intros data pos post _ _. cbn. by rewrite Nat.add_0_r. Qed.

Lemma reads_reject b : b = false → reads (reject_if b) [] tt.
Proof. intros -> data pos post _ _. cbn. by rewrite Nat.add_0_r. Qed.

Lemma stable_bind {A B} (d : D A) (k : A → D B) :
  stable d → (∀ a, stable (k a)) → stable (d ≫= k).
Proof.
  intros H1 H2 r c r' H Hr. unfold mbind, D_bind in H.
  destruct (d r) as [[a r1]|] eqn:E; [|done].
  destruct (H1 r a r1 E Hr) as (Hp1 & Hr1 & Ho1), (H2 a r1 c r' H Hr1) as (Hp2 & Hr2 & Ho2).
  split_and!; [congruence|done|auto].
Qed.

Lemma stable_ret {A} (a : A) : stable (mret a).
Proof. by intros r x r' [= <- <-]. Qed.

Lemma stable_check_ok : stable check_ok.
Proof. intros r a r' H. unfold check_ok in H. destruct (ok_ r) eqn:?; by simplify_eq. Qed.

Lemma stable_reject b : stable (reject_if b).
Proof. intros r a r' H. unfold reject_if in H. destruct b; by simplify_eq. Qed.

Lemma consumed_nil r : consumed r r [].
Proof. split; [done|]. cbn. lia. Qed.

Lemma consumed_app r r1 r2 b1 b2 :
  p_ r1 = p_ r → consumed r r1 b1 → consumed r1 r2 b2 → consumed r r2 (b1 ++ b2).
Proof.
  unfold consumed. intros -> [E1 P1] [E2 P2]. rewrite E1, E2, app_assoc, length_app.
  split; [done|lia].
Qed.

Lemma sound_bind {A B} (d : D A) (k : A → D B) W1 W :
  sound d W1 → stable d → (∀ a, stable (k a)) →
  (∀ a b1, W1 b1 a → sound (k a) (λ b2 c, W (b1 ++ b2) c)) →
  sound (d ≫= k) W.
Proof.
  intros H1 Hs Hk H2 r c r' H Hr Ho. unfold mbind, D_bind in H.
  destruct (d r) as [[a r1]|] eqn:E; [|done]. destruct (Hs r a r1 E Hr) as (Hp1 & Hr1 & _).
  destruct (Hk a r1 c r' H Hr1) as (_ & _ & Ho1).
  destruct (H1 r a r1 E Hr (Ho1 Ho)) as (b1 & C1 & HW1).
  destruct (H2 a b1 HW1 r1 c r' H Hr1 Ho) as (b2 & C2 & HW2).
  exists (b1 ++ b2). split; [by eapply consumed_app|done].
Qed.

Lemma sound_ret {A} (a : A) (W : list byte → A → Prop) : W [] a → sound (mret a) W.
Proof. intros HW r x r' [= <- <-] _ _. exists []. split; [apply consumed_nil|done]. Qed.

Lemma sound_check_ok : sound check_ok (λ bs _, bs = []).
Proof.
  intros r a r' H _ _. unfold check_ok in H. destruct (ok_ r); simplify_eq.
  exists []. split; [apply consumed_nil|done].
Qed.

Lemma sound_reject b : sound (reject_if b) (λ bs _, bs = [] ∧ b = false).
Proof.
  intros r a r' H _ _. unfold reject_if in H. destruct b; simplify_eq.
  exists []. split; [apply consumed_nil|done].
Qed.

Lemma sound_weaken {A} (d : D A) (W W' : list byte → A → Prop) :
  sound d W → (∀ bs a, W bs a → W' bs a) → sound d W'.
Proof. intros H HW r a r' E Hr Ho. destruct (H r a r' E Hr Ho) as (bs & ? & ?). eauto. Qed.

(** ** Fixed-width reads *)
Lemma reads_read_n {A} n dflt (v : list byte → A) bs :
  length bs = n → reads (read_n n dflt v) bs (v bs).
Proof.
  intros Hn data pos post Hp Hd. unfold read_n. cbn [p_ pos_ ok_].
  assert (length (drop pos data) = length (bs ++ post)) as Hl by congruence.
  rewrite length_drop, length_app in Hl.
  destruct (Nat.ltb_spec (length data) (pos + n)); [lia|].
  by rewrite Hd, <- Hn, take_app_length.
Qed.

Lemma stable_read_n {A} n dflt (v : list byte → A) : stable (read_n n dflt v).
Proof.
  intros [data pos ok] a r' H Hr. unfold read_n, in_range in *.
  cbn [p_ pos_ ok_] in *.
  destruct (Nat.ltb_spec (length data) (pos + n)); simplify_eq; cbn; split_and!; done || lia.
Qed.

Lemma sound_read_n {A} n dflt (v : list byte → A) :
  sound (read_n n dflt v) (λ bs a, length bs = n ∧ a = v bs).
Proof.
  intros [data pos ok] a r' H Hr Ho. unfold read_n, in_range in *.
  cbn [p_ pos_ ok_] in *.
  destruct (Nat.ltb_spec (length data) (pos + n)); simplify_eq/=.
  assert (length (take n (drop pos data)) = n) as Hl
    by (rewrite length_take, length_drop; lia).
  exists (take n (drop pos data)). unfold consumed. cbn [p_ pos_]. rewrite Hl.
  split_and!; try done. rewrite <- drop_drop. symmetry. apply take_drop.
Qed.

(** A fixed-width codec: a writer of [n] bytes and its inverse. *)
Lemma fixed_codec {A} n dflt (v : list byte → A) (put : A → list byte) (valid : A → Prop) :
  (∀ a, valid a → length (put a) = n ∧ v (put a) = a) →
  (∀ bs, length bs = n → put (v bs) = bs ∧ valid (v bs)) →
  Codec put (read_n n dflt v) valid.
Proof.
  intros H1 H2. split.
  - intros a Ha. destruct (H1 a Ha) as [Hl Hv]. rewrite <- Hv at 2. by apply reads_read_n.
  - apply stable_read_n.
  - eapply sound_weaken; [apply sound_read_n|]. intros bs a [Hl ->].
    destruct (H2 bs Hl). split; [congruence|done].
Qed.

Lemma be_codec n w : 8 * N.of_nat n = w → Codec (put_be n) (read_n n 0 (get_be w)) (fits w).
Proof.
  intros Hw. apply fixed_codec.
  - intros a Ha. split; [apply length_put_be|by apply get_put_be].
  - intros bs Hl. split; [by apply put_get_be|by eapply get_be_fits].
Qed.

#[export] Instance u16_codec : Codec w_u16 r_u16 (fits 16).
Proof. by apply (be_codec 2). Qed.

#[export] Instance u32_codec : Codec w_u32 r_u32 (fits 32).
Proof. by apply (be_codec 4). Qed.

#[export] Instance u64_codec : Codec w_u64 r_u64 (fits 64).
Proof. by apply (be_codec 8). Qed.

#[export] Instance u8_codec : Codec w_u8 r_u8 (fits 8).
Proof.
  apply fixed_codec.
  - intros a Ha. split; [done|]. cbn. rewrite byte_to_of_N. by apply N.mod_small.
  - intros [|b [|? ?]] Hl; try done. cbn. unfold w_u8. rewrite byte_of_to_N.
    split; [done|]. apply byte_to_N_bound.
Qed.

Lemma bytes_uuid_put u : bytes_uuid (vec_to_list (bytes u)) = u.
Proof.
  destruct u as [v]. unfold bytes_uuid. f_equal. apply vec_eq. intros i.
  rewrite lookup_fun_to_vec. cbn.
  by rewrite (proj1 (vlookup_lookup v i (v !!! i)) eq_refl).
Qed.

Lemma bytes_uuid_get l : length l = 16%nat → w_uuid (bytes_uuid l) = l.
Proof.
  intros Hl. unfold w_uuid, w_bytes, bytes_uuid. cbn [bytes].
  do 16 (destruct l as [|? l]; [done|]). destruct l; [|done]. reflexivity.
Qed.

#[export] Instance uuid_codec : Codec w_uuid r_uuid (λ _, True).
Proof.
  apply fixed_codec.
  - intros u _. split; [apply length_vec_to_list|apply bytes_uuid_put].
  - intros l Hl. split; [by apply bytes_uuid_get|done].
Qed.

(** ** Derived fields *)

(** A field read by [d] and wrapped by an injection [f]. *)
Lemma wrapped_codec {A B} (put : A → list byte) (d : D A) (valid : A → Prop)
    (f : A → B) (g : B → A) :
  Codec put d valid → (∀ a, g (f a) = a) → (∀ b, f (g b) = b) →
  Codec (λ b, put (g b)) (a ← d; mret (f a)) (λ b, valid (g b)).
Proof.
  intros [Hr Hst Hso] Hgf Hfg. split.
  - intros b Hb. rewrite <- (app_nil_r (put _)). eapply reads_bind; [by apply Hr|].
    rewrite Hfg. apply reads_ret.
  - apply stable_bind; [done|]. intros. apply stable_ret.
  - eapply sound_bind; [done|done|intros; apply stable_ret|]. intros a b1 [-> Ha].
    apply sound_ret. by rewrite Hgf, app_nil_r.
Qed.

#[export] Instance generation_codec : Codec w_generation r_generation (λ g, fits 64 (value g)).
Proof. by apply (wrapped_codec w_u64 r_u64 (fits 64) MkGeneration value); [apply _|..|intros []]. Qed.

#[export] Instance id_codec tag : Codec (λ i : Id tag, w_uuid (raw i)) r_id (λ _, True).
Proof. by apply (wrapped_codec w_uuid r_uuid (λ _, True) MkId raw); [apply _|..|intros []]. Qed.

Lemma reads_bind_nil {A B} (d : D A) (k : A → D B) bs a c :
  reads d [] a → reads (k a) bs c → reads (d ≫= k) bs c.
Proof. intros. rewrite <- (app_nil_l bs). by eapply reads_bind. Qed.

Lemma sound_bind_nil {A B} (d : D A) (k : A → D B) W1 W :
  sound d (λ bs a, bs = [] ∧ W1 a) → stable d → (∀ a, stable (k a)) →
  (∀ a, W1 a → sound (k a) W) → sound (d ≫= k) W.
Proof.
  intros H1 Hs Hk H2. eapply sound_bind; [done..|]. intros a b1 [-> Ha].
  eapply sound_weaken; [by apply H2|]. done.
Qed.

(** The checked enumerations: the bound of the code must be the number of
    enumerators, and this number must fit the 32-bit field. *)
Lemma enum_codec E `{CEnum E} :
  enum_count E <= 2 ^ 32 →
  Codec (λ e, w_enumv (enum_to_u32 e)) (r_enum E (enum_count E)) (λ _ : E, True).
Proof.
  intros Hc. destruct u32_codec as [Hr Hst Hso]. split.
  - intros e _. unfold r_enum. rewrite <- (app_nil_r (w_enumv _)).
    eapply reads_bind; [apply Hr; eapply N.lt_le_trans; [apply enum_to_u32_lt|done]|].
    eapply reads_bind_nil; [apply reads_check_ok|].
    eapply reads_bind_nil; [apply reads_reject, N.leb_gt, enum_to_u32_lt|].
    intros data pos post _ _. unfold cast_enum. rewrite enum_of_to_u32.
    by rewrite Nat.add_0_r.
  - unfold r_enum. apply stable_bind; [done|]. intros v.
    apply stable_bind; [apply stable_check_ok|]. intros _.
    apply stable_bind; [apply stable_reject|]. intros _.
    intros r e r' E1. unfold cast_enum in E1. destruct (enum_of_u32 E v); by simplify_eq.
  - intros r e r' E1 Hi Ho. unfold r_enum in E1.
    destruct (r_enumv r) as [[v r1]|] eqn:Ev; unfold mbind, D_bind in E1; rewrite Ev in E1; [|done].
    unfold check_ok, reject_if, cast_enum in E1. destruct (ok_ r1) eqn:Ho1; [|done].
    destruct (enum_count E <=? v); [done|].
    destruct (enum_of_u32 E v) as [e'|] eqn:Ee; simplify_eq.
    destruct (Hso r v r' Ev Hi Ho) as (bs & C & -> & _). exists (w_u32 v). split; [done|].
    split; [|done]. apply enum_to_of_u32 in Ee. by rewrite Ee.
Qed.

(** [r.u8() != 0]: any nonzero byte reads as true; the writer emits 0 or 1. *)
Lemma reads_bool b : reads r_bool (w_bool b) b.
Proof.
  unfold r_bool, w_bool. rewrite <- (app_nil_r (w_u8 _)).
  eapply reads_bind; [apply codec_reads; by destruct b|].
  replace b with (negb ((if b then 1 else 0) =? 0)) at 2 by by destruct b. apply reads_ret.
Qed.

Lemma stable_bool : stable r_bool.
Proof. apply stable_bind; [apply codec_stable|]. intros. apply stable_ret. Qed.

(** ** Length-prefixed strings *)
Definition str16_ok (s : string) : Prop := N.of_nat (String.length s) <= 0xFFFF.

Lemma length_list_byte s : length (String.list_byte_of_string s) = String.length s.
Proof.
  unfold String.list_byte_of_string. rewrite length_map. induction s; cbn; congruence.
Qed.

Lemma length_w_u16 n : length (w_u16 n) = 2%nat.
Proof. apply length_put_be. Qed.

Lemma w_str16_ok s : str16_ok s →
  w_str16 s = w_u16 (N.of_nat (String.length s)) ++ String.list_byte_of_string s.
Proof.
  unfold str16_ok, w_str16. intros Hs.
  destruct (N.ltb_spec 0xFFFF (N.of_nat (String.length s))); [lia|].
  rewrite wrap_small; [done|]. unfold fits. change (2 ^ 16) with 65536. lia.
Qed.

Lemma str16_reads s : str16_ok s → reads r_str16 (w_str16 s) s.
Proof.
  intros Hs data pos post Hp Hd. rewrite w_str16_ok in * by done.
  assert (fits 16 (N.of_nat (String.length s))) as Hf
    by (unfold fits, str16_ok in *; change (2 ^ 16) with 65536; lia).
  rewrite <- app_assoc in Hd. unfold r_str16.
  rewrite (codec_reads _ Hf data pos _ Hp Hd), length_app, length_w_u16, length_list_byte.
  cbn [ok_ negb orb p_ pos_]. rewrite Nat2N.id.
  assert (drop (pos + 2) data = String.list_byte_of_string s ++ post) as Hd'.
  { rewrite <- drop_drop, Hd, <- (length_w_u16 (N.of_nat (String.length s))).
    apply drop_app_length. }
  pose proof (f_equal length Hd) as Hl. rewrite length_drop, !length_app, length_w_u16,
    length_list_byte in Hl.
  destruct (Nat.ltb_spec (length data) (pos + 2 + String.length s)); [lia|].
  rewrite Hd', <- (length_list_byte s), take_app_length, String.string_of_list_byte_of_string.
  by rewrite Nat.add_assoc.
Qed.

Lemma stable_str16 : stable r_str16.
Proof.
  intros r s r' H Hr. unfold r_str16 in H. destruct (r_u16 r) as [[len r1]|] eqn:E; [|done].
  destruct (codec_stable _ _ _ E Hr) as (Hp & Hr1 & Ho). unfold in_range in *.
  destruct (negb (ok_ r1) || _) eqn:Eb; simplify_eq; cbn [p_ pos_ ok_].
  - split_and!; [done|congruence|done].
  - apply orb_false_iff in Eb as [_ Eb]. apply Nat.ltb_ge in Eb. split_and!; done || lia.
Qed.

Lemma sound_str16 : sound r_str16 (λ bs s, bs = w_str16 s ∧ str16_ok s).
Proof.
  intros r s r' H Hr Ho. unfold r_str16 in H. destruct (r_u16 r) as [[len r1]|] eqn:E; [|done].
  destruct (codec_stable _ _ _ E Hr) as (Hp & Hr1 & Ho1).
  destruct (negb (ok_ r1) || _) eqn:Eb; simplify_eq/=.
  apply orb_false_iff in Eb as [_ Eb]. apply Nat.ltb_ge in Eb.
  destruct (codec_sound _ _ _ E Hr Ho) as (bs & [C1 C2] & -> & Hf).
  set (body := take (N.to_nat len) (drop (pos_ r1) (p_ r1))).
  assert (length body = N.to_nat len) as Hlen
    by (unfold body; rewrite length_take, length_drop; lia).
  assert (str16_ok (String.string_of_list_byte body) ∧
          w_str16 (String.string_of_list_byte body) = w_u16 len ++ body) as [Hok Hw].
  { assert (N.of_nat (String.length (String.string_of_list_byte body)) = len) as El.
    { rewrite <- length_list_byte, String.list_byte_of_string_of_list_byte, Hlen. lia. }
    assert (str16_ok (String.string_of_list_byte body)) as Hok
      by (unfold str16_ok, fits in *; rewrite El; change (2 ^ 16) with 65536 in Hf; lia).
    split; [done|]. rewrite w_str16_ok, El by done.
    by rewrite String.list_byte_of_string_of_list_byte. }
  exists (w_u16 len ++ body). split; [|done]. unfold consumed. cbn [p_ pos_].
  rewrite length_app, Hlen. split; [|lia]. rewrite C1, <- app_assoc. f_equal.
  unfold body. rewrite Hp, <- drop_drop. symmetry. apply take_drop.
Qed.

#[export] Instance str16_codec : Codec w_str16 r_str16 str16_ok.
Proof. split; [apply str16_reads|apply stable_str16|apply sound_str16]. Qed.

(** ** Composition of codecs, field by field *)
Lemma stable_enum E `{CEnum E} bound : stable (r_enum E bound).
Proof.
  apply stable_bind; [apply codec_stable|]. intros v.
  apply stable_bind; [apply stable_check_ok|]. intros _.
  apply stable_bind; [apply stable_reject|]. intros _.
  intros r e r' E1. unfold cast_enum in E1. destruct (enum_of_u32 E v); by simplify_eq.
Qed.

Lemma enum_codec_bound E `{CEnum E} bound :
  bound = enum_count E → enum_count E <= 2 ^ 32 →
  Codec (λ e, w_enumv (enum_to_u32 e)) (r_enum E bound) (λ _ : E, True).
Proof. intros ->. apply enum_codec. Qed.

#[export] Hint Extern 1 (Codec _ (r_enum _ _) _) =>
  apply enum_codec_bound; vm_compute; congruence : typeclass_instances.

Create HintDb codec discriminated.
#[export] Hint Resolve stable_ret stable_check_ok stable_reject stable_enum stable_bool
  stable_str16 : codec.
#[export] Hint Extern 5 (stable (mbind _ _)) => apply stable_bind; [|intros] : codec.
#[export] Hint Extern 10 (stable _) => eapply codec_stable : codec.

Ltac solve_stable := solve [auto 200 with codec].

Lemma sound_check_bind {A} (k : unit → D A) W :
  (∀ a, stable (k a)) → sound (k tt) W → sound (check_ok ≫= k) W.
Proof.
  intros Hk H. apply (sound_bind_nil _ _ (λ _, True)); [|apply stable_check_ok|done|by intros []].
  eapply sound_weaken; [apply sound_check_ok|]. done.
Qed.

Lemma sound_reject_bind {A} b (k : unit → D A) W :
  (∀ a, stable (k a)) → (b = false → sound (k tt) W) → sound (reject_if b ≫= k) W.
Proof.
  intros Hk H. apply (sound_bind_nil _ _ (λ _, b = false));
    [apply sound_reject|apply stable_reject|done|by intros []].
Qed.

Lemma reads_id {tag} (i : Id tag) : reads r_id (w_uuid (raw i)) i.
Proof. by apply (codec_reads (put := λ i : Id tag, w_uuid (raw i))). Qed.

Lemma reads_enum E `{CEnum E} bound (e : E) :
  bound = enum_count E → enum_count E <= 2 ^ 32 →
  reads (r_enum E bound) (w_enumv (enum_to_u32 e)) e.
Proof. intros -> Hc. by apply (codec_reads (Codec := enum_codec E Hc)). Qed.

(** One bind of a decoder read against the bytes of its writer. *)
Ltac read_field :=
  lazymatch goal with
  | |- reads (mbind _ check_ok) _ _ => eapply reads_bind_nil; [apply reads_check_ok|]
  | |- reads (mbind _ r_id) _ _ => eapply reads_bind; [apply reads_id|]
  | |- reads (mbind _ r_bool) _ _ => eapply reads_bind; [apply reads_bool|]
  | |- reads (mbind _ (r_enum _ _)) _ _ =>
      eapply reads_bind; [apply reads_enum; vm_compute; congruence|]
  | |- reads (mbind _ _) _ _ => eapply reads_bind; [eapply codec_reads; try done|]
  end.

(** One bind of a decoder: the consumed bytes are those of the writer. *)
Ltac sound_field :=
  first
  [ eapply sound_check_bind; [intros; solve_stable|]
  | eapply sound_reject_bind; [intros; solve_stable | intros ?]
  | eapply sound_bind;
    [ eapply codec_sound | solve_stable | intros; solve_stable | intros ? ? [-> ?] ] ].

(** ** The checksum detects a changed byte

    Every step of FNV-1a is injective in the running hash, because the 64-bit
    multiplier is odd, and in the byte. *)
Definition fnv_inverse : N := 14886173955864302971.

Lemma fnv_mul_inj x y :
  fits 64 x → fits 64 y →
  wrap 64 (x * 1099511628211) = wrap 64 (y * 1099511628211) → x = y.
Proof.
  intros Hx Hy H. unfold wrap, fits in *.
  assert (∀ z, z < 2 ^ 64 → ((z * 1099511628211) mod 2 ^ 64 * fnv_inverse) mod 2 ^ 64 = z) as Hi.
  { intros z Hz. rewrite N.Div0.mul_mod_idemp_l, <- N.mul_assoc.
    rewrite <- N.Div0.mul_mod_idemp_r.
    change ((1099511628211 * fnv_inverse) mod 2 ^ 64) with 1. rewrite N.mul_1_r.
    by apply N.mod_small. }
  rewrite <- (Hi x Hx), <- (Hi y Hy). by rewrite H.
Qed.

Lemma fits_testbit w x : fits w x ↔ ∀ i, w <= i → N.testbit x i = false.
Proof.
  unfold fits. split.
  - intros H i Hi. destruct (decide (x = 0)) as [->|]; [apply N.bits_0|].
    apply N.bits_above_log2. eapply N.lt_le_trans; [|done]. apply N.log2_lt_pow2; lia.
  - intros H. destruct (decide (x = 0)) as [->|Hx]; [apply N.neq_0_lt_0, N.pow_nonzero; lia|].
    apply N.log2_lt_pow2; [lia|]. destruct (N.lt_ge_cases (N.log2 x) w) as [|Hw]; [done|].
    pose proof (N.bit_log2 x Hx) as Hb. by rewrite H in Hb.
Qed.

Lemma fits_lxor w x y : fits w x → fits w y → fits w (N.lxor x y).
Proof.
  rewrite !fits_testbit. intros Hx Hy i Hi. by rewrite N.lxor_spec, Hx, Hy by done.
Qed.

Lemma byte_fits w b : 8 <= w → fits w (byte_to_N b).
Proof.
  intros Hw. unfold fits. eapply N.lt_le_trans; [apply byte_to_N_bound|].
  change 256 with (2 ^ 8). by apply N.pow_le_mono_r.
Qed.

Lemma fnv_fits l : fits 64 (fnv1a64 l).
Proof.
  unfold fnv1a64. induction l as [|b l IH] using rev_ind; [reflexivity|].
  rewrite foldl_snoc. apply wrap_fits.
Qed.

Lemma fnv_step_inj h1 h2 b1 b2 :
  fits 64 h1 → fits 64 h2 → fnv_step h1 b1 = fnv_step h2 b2 →
  N.lxor h1 (byte_to_N b1) = N.lxor h2 (byte_to_N b2).
Proof.
  intros H1 H2 H. apply fnv_mul_inj in H; [done|..]; apply fits_lxor; try done; by apply byte_fits.
Qed.

Lemma fnv_fold_fits h l : fits 64 h → fits 64 (foldl fnv_step h l).
Proof. revert h. induction l; intros h Hh; [done|]. cbn. apply IHl, wrap_fits. Qed.

Lemma fnv_fold_inj h1 h2 l :
  fits 64 h1 → fits 64 h2 → foldl fnv_step h1 l = foldl fnv_step h2 l → h1 = h2.
Proof.
  revert h1 h2. induction l as [|b l IH]; intros h1 h2 H1 H2 H; [done|].
  apply IH, fnv_step_inj in H; [|done|done|apply wrap_fits|apply wrap_fits].
  apply (f_equal (λ x, N.lxor x (byte_to_N b))) in H.
  by rewrite !N.lxor_assoc, N.lxor_nilpotent, !N.lxor_0_r in H.
Qed.

(** Two buffers that differ in exactly one byte have different checksums. *)
Lemma fnv1a64_one_byte l1 l2 b c :
  fnv1a64 (l1 ++ b :: l2) = fnv1a64 (l1 ++ c :: l2) → b = c.
Proof.
  unfold fnv1a64. rewrite !foldl_app. cbn [foldl]. intros H.
  apply fnv_fold_inj, fnv_step_inj in H; try apply wrap_fits; try by apply fnv_fold_fits.
  apply byte_to_N_inj. set (h := foldl _ _ l1) in *.
  apply (f_equal (N.lxor h)) in H.
  by rewrite <- !N.lxor_assoc, N.lxor_nilpotent, !N.lxor_0_l in H.
Qed.

(** ** Frames *)
Definition frame_prefix (k len : N) : list byte :=
  w_u32 kFFMagic ++ w_u16 kFFVersion ++ w_u8 k ++ w_u32 len.

Lemma length_frame_prefix k len : length (frame_prefix k len) = 11%nat.
Proof. unfold frame_prefix. rewrite !length_app. done. Qed.

Lemma frame_head_reads k len :
  fits 8 k → fits 32 len → reads frame_head (frame_prefix k len) (k, len).
Proof.
  intros Hk Hl. unfold frame_head, frame_prefix.
  read_field. read_field. eapply reads_bind_nil; [by apply reads_reject|].
  read_field. read_field. eapply reads_bind_nil; [by apply reads_reject|].
  read_field. rewrite <- (app_nil_r (w_u32 len)). read_field. read_field. apply reads_ret.
Qed.

Lemma frame_head_sound :
  sound frame_head (λ bs kl, bs = frame_prefix kl.1 kl.2 ∧ fits 8 kl.1 ∧ fits 32 kl.2).
Proof.
  unfold frame_head. do 9 sound_field. apply sound_ret. unfold frame_prefix.
  repeat match goal with H : negb _ = false |- _ => apply negb_false_iff, N.eqb_eq in H end.
  subst. by rewrite app_nil_r.
Qed.

Lemma frame_head_stable : stable frame_head.
Proof. unfold frame_head. solve_stable. Qed.

(** A decoder that ends in a check leaves the flag set. *)
Definition certifies {A} (d : D A) : Prop := ∀ r a r', d r = Some (a, r') → ok_ r' = true.

Lemma certifies_bind {A B} (d : D A) (k : A → D B) :
  (∀ a, certifies (k a)) → certifies (d ≫= k).
Proof.
  intros Hk r c r' H. unfold mbind, D_bind in H. destruct (d r) as [[a r1]|]; [|done]. by eapply Hk.
Qed.

Lemma certifies_check {A} (a : A) : certifies (_ ← check_ok; mret a).
Proof.
  intros r x r' H. unfold mbind, D_bind, check_ok in H. destruct (ok_ r) eqn:E; [|done].
  by inversion H; subst.
Qed.

Lemma frame_head_certifies : certifies frame_head.
Proof. unfold frame_head. repeat first [apply certifies_check | apply certifies_bind; intros]. Qed.

(** What an accepted frame is: the window between the two offsets is the
    encoding of the decoded kind and payload. *)
Lemma frame_body_prefix k pl :
  frame_body k pl = frame_prefix k (wrap 32 (N.of_nat (length pl))) ++ pl.
Proof. unfold frame_body, frame_prefix, w_bytes. by rewrite <- !app_assoc. Qed.

Lemma length_encode_frame k pl : length (encode_frame k pl) = (19 + length pl)%nat.
Proof.
  unfold encode_frame, w_bytes, w_u64. rewrite frame_body_prefix, !length_app,
    length_frame_prefix, length_put_be. lia.
Qed.

(** The frames the decoder accepts carry the checksum of their first
    [11 + len] bytes, modulo 2^32; for payloads [payload_ok] that is the whole
    body, and the frame is the one the encoder writes. *)
Definition frame_check (k : N) (pl : list byte) : N :=
  fnv1a64 (take (N.to_nat (wrap 32 (11 + N.of_nat (length pl)))) (frame_body k pl)).

Definition stored_frame (k : N) (pl : list byte) : list byte :=
  frame_body k pl ++ w_u64 (frame_check k pl).

Definition fits_length (pl : list byte) : Prop := fits 32 (N.of_nat (length pl)).

Definition payload_ok (pl : list byte) : Prop := fits 32 (11 + N.of_nat (length pl)).

Lemma payload_ok_fits pl : payload_ok pl → fits_length pl.
Proof. unfold payload_ok, fits_length, fits. lia. Qed.

Lemma length_frame_body k pl : length (frame_body k pl) = (11 + length pl)%nat.
Proof. by rewrite frame_body_prefix, length_app, length_frame_prefix. Qed.

Lemma length_stored_frame k pl : length (stored_frame k pl) = (19 + length pl)%nat.
Proof.
  unfold stored_frame, w_u64. rewrite length_app, length_frame_body, length_put_be. lia.
Qed.

Lemma frame_check_ok k pl : payload_ok pl → frame_check k pl = fnv1a64 (frame_body k pl).
Proof.
  intros H. unfold frame_check. rewrite (wrap_small 32) by done. f_equal.
  apply take_ge. rewrite length_frame_body. lia.
Qed.

Lemma stored_encode k pl : payload_ok pl → stored_frame k pl = encode_frame k pl.
Proof. intros H. unfold stored_frame, encode_frame, w_bytes. by rewrite frame_check_ok. Qed.

Lemma decode_frame_sound data off h next :
  decode_frame data off = Some (h, next) →
  drop off data = stored_frame (kind h) (payload h) ++ drop next data ∧
  next = (off + 19 + length (payload h))%nat ∧ (next <= length data)%nat ∧
  fits 8 (kind h) ∧ fits_length (payload h) ∧ checksum h = frame_check (kind h) (payload h).
Proof.
  unfold decode_frame. destruct (Nat.ltb_spec (length data) (off + 11)) as [|H11]; [done|].
  destruct (frame_head (reader (drop off data))) as [[[k len] r]|] eqn:Eh; [|done].
  destruct (remaining r <? N.to_nat len)%nat eqn:Erem; [done|].
  destruct (Nat.ltb_spec (length data) (off + 11 + N.to_nat len + 8)) as [|Hend]; [done|].
  destruct (_ =? _) eqn:Eck; [|done]. intros [= <- <-]. cbn [kind payload checksum].
  apply N.eqb_eq in Eck.
  destruct (frame_head_sound _ _ _ Eh) as (bs & [C1 C2] & -> & Hk & Hl);
    [unfold in_range; cbn; lia | by eapply frame_head_certifies |].
  cbn [fst snd pos_ p_ reader] in *. rewrite drop_0 in C1. rewrite length_frame_prefix in C2.
  rewrite C2 in C1. cbn [Nat.add] in C1.
  set (pl := take (N.to_nat len) (drop (off + 11) data)) in *.
  assert (length pl = N.to_nat len) as Hpl by (unfold pl; rewrite length_take, length_drop; lia).
  assert (frame_prefix k len ++ pl = frame_body k pl) as Hbody.
  { by rewrite frame_body_prefix, Hpl, N2Nat.id, wrap_small. }
  assert (length (frame_body k pl) = (11 + N.to_nat len)%nat) as Hlb
    by (by rewrite length_frame_body, Hpl).
  assert (take (11 + N.to_nat len) (drop off data) = frame_body k pl) as Htake.
  { rewrite C1, drop_drop, <- Hbody. rewrite take_app, length_frame_prefix.
    rewrite take_ge by (rewrite length_frame_prefix; lia). f_equal. unfold pl. f_equal; lia. }
  assert (fnv1a64 (take (N.to_nat (wrap 32 (11 + N.of_nat (N.to_nat len)))) (drop off data))
          = frame_check k pl) as Hfc.
  { unfold frame_check. rewrite Hpl, <- Htake, take_take. f_equal. f_equal.
    pose proof (wrap_le 32 (11 + N.of_nat (N.to_nat len))). lia. }
  set (ck := take 8 (drop (off + 11 + N.to_nat len) data)) in *.
  assert (length ck = 8%nat) as Hck by (unfold ck; rewrite length_take, length_drop; lia).
  split_and!; [|lia|lia|done|unfold fits_length; rewrite Hpl, N2Nat.id; done|congruence].
  unfold stored_frame. rewrite <- Htake, <- Hfc, Eck.
  unfold w_u64. rewrite (put_get_be 8 64 ck) by done. rewrite <- app_assoc.
  rewrite <- (take_drop (11 + N.to_nat len) (drop off data)) at 1. f_equal.
  rewrite drop_drop. unfold ck.
  replace (off + 11 + N.to_nat len)%nat with (off + (11 + N.to_nat len))%nat by lia.
  rewrite <- (take_drop 8 (drop (off + (11 + N.to_nat len)) data)) at 1. f_equal.
  rewrite drop_drop. f_equal; lia.
Qed.

Lemma decode_stored_reads data off k pl post :
  drop off data = stored_frame k pl ++ post → fits 8 k → fits_length pl →
  decode_frame data off
  = Some (MkFrame k pl (frame_check k pl), (off + 19 + length pl)%nat).
Proof.
  intros Hd Hk Hpl. pose proof (f_equal length Hd) as Hlen.
  rewrite length_drop, length_app, length_stored_frame in Hlen.
  assert (wrap 32 (N.of_nat (length pl)) = N.of_nat (length pl)) as Hw by by apply wrap_small.
  assert (drop off data = frame_prefix k (N.of_nat (length pl)) ++ pl
            ++ w_u64 (frame_check k pl) ++ post) as Hd'.
  { rewrite Hd. unfold stored_frame. by rewrite frame_body_prefix, Hw, <- !app_assoc. }
  unfold decode_frame. destruct (Nat.ltb_spec (length data) (off + 11)); [lia|].
  unfold reader.
  rewrite (frame_head_reads k _ Hk Hpl (drop off data) 0%nat _ (Nat.le_0_l _) Hd').
  rewrite Nat2N.id, length_frame_prefix. unfold remaining. cbn [p_ pos_].
  destruct (Nat.ltb_spec (length (drop off data) - (0 + 11))%nat (length pl)) as [Hx|_];
    [rewrite length_drop in Hx; lia|].
  destruct (Nat.ltb_spec (length data) (off + 11 + length pl + 8)); [lia|].
  assert (drop (off + 11) data = pl ++ w_u64 (frame_check k pl) ++ post) as Hd2.
  { rewrite <- drop_drop, Hd', <- (length_frame_prefix k (N.of_nat (length pl))).
    apply drop_app_length. }
  rewrite <- (drop_drop data (length pl) (off + 11)), Hd2, drop_app_length.
  assert (length (w_u64 (frame_check k pl)) = 8%nat) as Hck by apply length_put_be.
  rewrite (take_app_length' (w_u64 _) post 8) by done. rewrite take_app_length.
  unfold w_u64. rewrite get_put_be; [|done|apply fnv_fits].
  replace (fnv1a64 (take (N.to_nat _) (drop off data))) with (frame_check k pl).
  - rewrite N.eqb_refl. f_equal. f_equal. lia.
  - rewrite Hd. unfold stored_frame. rewrite <- app_assoc, take_app_le; [done|].
    rewrite length_frame_body. pose proof (wrap_le 32 (11 + N.of_nat (length pl))). lia.
Qed.

Lemma decode_frame_reads data off k pl post :
  drop off data = encode_frame k pl ++ post → fits 8 k → payload_ok pl →
  decode_frame data off
  = Some (MkFrame k pl (fnv1a64 (frame_body k pl)), (off + 19 + length pl)%nat).
Proof.
  intros Hd Hk Hpl. rewrite <- (frame_check_ok k pl) by done.
  apply (decode_stored_reads _ _ _ _ post); [|done|by apply payload_ok_fits].
  by rewrite stored_encode.
Qed.

(** ** Frame integrity *)
Lemma put_be_inj n w x y :
  8 * N.of_nat n = w → fits w x → fits w y → put_be n x = put_be n y → x = y.
Proof.
  intros Hw Hx Hy H. rewrite <- (get_put_be n w x), <- (get_put_be n w y) by done. by rewrite H.
Qed.

(** Frames are prefix-free: a frame at the start of a frame is that frame. *)
Lemma stored_frame_prefix k1 pl1 k2 pl2 post1 post2 :
  fits 8 k1 → fits_length pl1 → fits 8 k2 → fits_length pl2 →
  stored_frame k1 pl1 ++ post1 = stored_frame k2 pl2 ++ post2 → k1 = k2 ∧ pl1 = pl2.
Proof.
  intros H1 H2 H3 H4 E.
  pose proof (decode_stored_reads (stored_frame k1 pl1 ++ post1) 0 k1 pl1 post1 eq_refl H1 H2) as D1.
  pose proof (decode_stored_reads (stored_frame k2 pl2 ++ post2) 0 k2 pl2 post2 eq_refl H3 H4) as D2.
  rewrite E, D2 in D1. by inversion D1.
Qed.

(** The four bytes of the length field, at offset 7. *)
Lemma stored_frame_length_field k pl i :
  fits_length pl → (i < 4)%nat →
  stored_frame k pl !! (7 + i)%nat = w_u32 (N.of_nat (length pl)) !! i.
Proof.
  intros Hpl Hi.
  assert (stored_frame k pl = (w_u32 kFFMagic ++ w_u16 kFFVersion ++ w_u8 k)
            ++ w_u32 (N.of_nat (length pl)) ++ pl ++ w_u64 (frame_check k pl)) as ->.
  { unfold stored_frame at 1. rewrite frame_body_prefix, (wrap_small 32) by done.
    unfold frame_prefix. by rewrite <- !app_assoc. }
  rewrite lookup_app_r by (cbn; lia).
  replace (7 + i - _)%nat with i by (cbn; lia).
  apply lookup_app_l. unfold w_u32. by rewrite length_put_be.
Qed.

Lemma lookup_one_byte (l1 l2 : list byte) b c i :
  i ≠ length l1 → (l1 ++ b :: l2) !! i = (l1 ++ c :: l2) !! i.
Proof.
  intros Hi. destruct (decide (i < length l1)%nat).
  - by rewrite !lookup_app_l.
  - rewrite !lookup_app_r by lia. by destruct (i - length l1)%nat eqn:E; [lia|].
Qed.

(** Equal length fields mean equal payload lengths. *)
Lemma stored_frame_same_length k pl k' pl' l1 l2 b c post post' :
  fits_length pl → fits_length pl' → (length l1 < 7 ∨ 11 <= length l1)%nat →
  stored_frame k pl ++ post = l1 ++ b :: l2 →
  stored_frame k' pl' ++ post' = l1 ++ c :: l2 →
  length pl = length pl'.
Proof.
  intros Hpl Hpl' Hi E E'.
  assert (w_u32 (N.of_nat (length pl)) = w_u32 (N.of_nat (length pl'))) as Hw.
  { apply list_eq. intros i. destruct (decide (i < 4)%nat) as [Hi4|Hi4].
    - rewrite <- (stored_frame_length_field k pl), <- (stored_frame_length_field k' pl') by done.
      rewrite <- (lookup_app_l (stored_frame k pl) post), <- (lookup_app_l (stored_frame k' pl') post')
        by (rewrite length_stored_frame; lia).
      rewrite E, (lookup_one_byte _ _ b c), <- E' by lia. done.
    - rewrite !lookup_ge_None_2; [done|..]; unfold w_u32; rewrite length_put_be; lia. }
  apply (put_be_inj 4 32) in Hw; [lia|done..].
Qed.

(** Two frames of equal length never differ in exactly one byte. *)
Lemma encode_frame_one_byte k pl k' pl' l1 l2 b c :
  length pl = length pl' →
  encode_frame k pl = l1 ++ b :: l2 → encode_frame k' pl' = l1 ++ c :: l2 → b = c.
Proof.
  intros Hl. assert (length (frame_body k pl) = length (frame_body k' pl')) as Hb
    by (rewrite !length_frame_body; lia).
  revert Hb. unfold encode_frame, w_bytes.
  generalize (frame_body k pl) (frame_body k' pl'). intros body body' Hb E E'.
  destruct (app_eq_inv _ _ _ _ E) as [(m & -> & Em)|(m & -> & Em)].
  - destruct m as [|b' m]; cbn [app] in Em.
    + rewrite app_nil_r in Em, Hb. apply app_inj_1 in E' as [-> E2]; [|done]. congruence.
    + injection Em as <- ->. rewrite app_comm_cons, app_assoc in E'.
      apply app_inj_1 in E' as [-> E2]; [|by rewrite <- Hb, !length_app].
      apply (put_be_inj 8 64) in E2; [|done|apply fnv_fits..].
      symmetry. by eapply fnv1a64_one_byte.
  - rewrite <- app_assoc in E'. apply app_inj_1 in E' as [-> E2]; [|done].
    rewrite Em in E2. apply app_inv_head in E2. congruence.
Qed.

(** C17: what the frame decoder accepts, at any offset of any buffer: it
    answers a frame and a next offset if and only if the bytes between the two
    offsets are the header and the payload of that frame, its kind in 8 bits and
    its payload length in 32, followed by the checksum of the first
    [11 + length] bytes, that sum taken modulo 2^32 as the code computes it.
    When [11 + length] does not wrap these bytes are exactly what
    [encode_frame] writes for that kind and payload. *)
Theorem decode_frame_exact data off h next :
  (off <= length data)%nat →
  (decode_frame data off = Some (h, next) ↔
   drop off data = stored_frame (kind h) (payload h) ++ drop next data ∧
   next = (off + 19 + length (payload h))%nat ∧
   fits 8 (kind h) ∧ fits_length (payload h) ∧
   checksum h = frame_check (kind h) (payload h)) ∧
  (payload_ok (payload h) →
   stored_frame (kind h) (payload h) = encode_frame (kind h) (payload h) ∧
   frame_check (kind h) (payload h) = fnv1a64 (frame_body (kind h) (payload h))).
Proof.
  intros Hoff. split.
  - split.
    + intros H. apply decode_frame_sound in H. naive_solver.
    + intros (Hd & -> & Hk & Hpl & Hc). destruct h as [k pl ck]. cbn in *.
      by rewrite (decode_stored_reads data off k pl _ Hd Hk Hpl), Hc.
  - intros H. by rewrite stored_encode, frame_check_ok.
Qed.

Lemma decode_frame_exact_witness :
  decode_frame (encode_frame 3 [Byte.x2a] ++ [Byte.xff]) 0
  = Some (MkFrame 3 [Byte.x2a] (fnv1a64 (frame_body 3 [Byte.x2a])), 20%nat) ∧
  stored_frame 3 [Byte.x2a] = encode_frame 3 [Byte.x2a].
Proof.
  destruct (decode_frame_exact (encode_frame 3 [Byte.x2a] ++ [Byte.xff]) 0
    (MkFrame 3 [Byte.x2a] (fnv1a64 (frame_body 3 [Byte.x2a]))) 20) as [H1 H2]; [cbn; lia|].
  split; [|by apply H2].
  apply H1. split_and!; vm_compute; reflexivity.
Defined.

(** A frame whose length is within 11 of 2^32 is written with the checksum of
    its whole body and read back with the checksum of its first few bytes: it
    is accepted only if the two sums agree. *)
Lemma oversized_frame_rejected k pl post :
  fits 8 k → fits_length pl → ¬ payload_ok pl →
  fnv1a64 (frame_body k pl) ≠ fnv1a64 (take (N.to_nat (11 + N.of_nat (length pl) - 2 ^ 32)) (frame_body k pl)) →
  decode_frame (encode_frame k pl ++ post) 0 = None.
Proof.
  intros Hk Hf Hno Hne. destruct (decode_frame _ _) as [[h next]|] eqn:E; [exfalso|done].
  apply decode_frame_sound in E as (E & _ & _ & Hk' & Hf' & _). rewrite drop_0 in E.
  assert (fnv1a64 (frame_body k pl) ≠ frame_check k pl) as Hck.
  { unfold frame_check. intros Hc. apply Hne. rewrite Hc. f_equal. f_equal.
    revert Hno Hf. unfold payload_ok, fits_length, fits, wrap. change (2 ^ 32) with 4294967296.
    intros Hno Hf. f_equal. symmetry. apply (N.mod_unique _ _ 1); lia. }
  assert (length pl = length (payload h)) as Hl.
  { assert (w_u32 (N.of_nat (length pl)) = w_u32 (N.of_nat (length (payload h)))) as Hw.
    { apply (f_equal (λ l, take 4 (drop 7 l))) in E. revert E.
      unfold encode_frame, stored_frame, frame_body, w_bytes.
      rewrite (wrap_small 32 (N.of_nat (length pl))), (wrap_small 32 (N.of_nat (length (payload h)))) by done.
      exact id. }
    apply (put_be_inj 4 32) in Hw; [lia|done..]. }
  unfold encode_frame, stored_frame, w_bytes in E. rewrite <- !app_assoc in E.
  apply app_inj_1 in E as [Eb E]; [|by rewrite !length_frame_body, Hl].
  apply app_inj_1 in E as [Ec _]; [|unfold w_u64; by rewrite !length_put_be].
  apply (put_be_inj 8 64) in Ec; [|done|apply fnv_fits..].
  apply Hck. rewrite Ec. unfold frame_check. by rewrite Eb, Hl.
Qed.

Lemma truncated_frame_rejected pre k pl n :
  fits 8 k → payload_ok pl → (n < length (encode_frame k pl))%nat →
  decode_frame (pre ++ take n (encode_frame k pl)) (length pre) = None.
Proof.
  intros Hk Hpl Hn. destruct (decode_frame _ _) as [[h next]|] eqn:E; [exfalso|done].
  apply decode_frame_sound in E as (E & _ & _ & Hk' & Hpl' & _). rewrite drop_app_length in E.
  rewrite <- (stored_encode k pl) in * by done.
  pose proof (take_drop n (stored_frame k pl)) as Ht. rewrite E, <- app_assoc in Ht.
  rewrite <- (app_nil_r (stored_frame k pl)) in Ht.
  apply stored_frame_prefix in Ht as [E1 E2]; [|done || by apply payload_ok_fits..].
  rewrite E1, E2 in E.
  pose proof (f_equal length E) as Hl. rewrite length_take, length_app in Hl. lia.
Qed.

Lemma corrupted_frame_rejected pre k pl l1 b c l2 post :
  payload_ok pl → encode_frame k pl = l1 ++ b :: l2 → b ≠ c →
  (length l1 < 7 ∨ 11 <= length l1)%nat →
  decode_frame (pre ++ l1 ++ c :: l2 ++ post) (length pre) = None.
Proof.
  intros Hpl Ef Hbc Hi.
  destruct (decode_frame _ _) as [[h next]|] eqn:E; [exfalso|done].
  apply decode_frame_sound in E as (E & _ & _ & Hk' & Hpl' & _). rewrite drop_app_length in E.
  assert (length (l1 ++ c :: l2) = length (encode_frame k pl)) as Hlen
    by (rewrite Ef, !length_app; done).
  assert (length pl = length (payload h)) as Hl.
  { apply (stored_frame_same_length k pl (kind h) (payload h) l1 (l2 ++ post) b c post
      (drop next (pre ++ l1 ++ c :: l2 ++ post))); try done; [by apply payload_ok_fits|].
    by rewrite stored_encode, Ef, <- app_assoc. }
  rewrite stored_encode in E by (unfold payload_ok; by rewrite <- Hl).
  rewrite app_comm_cons, app_assoc in E. apply app_inj_1 in E as [E _].
  - by apply (encode_frame_one_byte k pl (kind h) (payload h) l1 l2 b c) in Ef.
  - rewrite Hlen, !length_encode_frame. lia.
Qed.

(** Damaged frames are rejected: a frame cut short at any byte, and a frame
    with any one byte outside its length field replaced by another value,
    whatever bytes follow it. *)
Lemma damaged_frames_rejected pre k pl :
  fits 8 k → payload_ok pl →
  (∀ n, (n < length (encode_frame k pl))%nat →
    decode_frame (pre ++ take n (encode_frame k pl)) (length pre) = None) ∧
  (∀ l1 b c l2 post, encode_frame k pl = l1 ++ b :: l2 → b ≠ c →
    (length l1 < 7 ∨ 11 <= length l1)%nat →
    decode_frame (pre ++ l1 ++ c :: l2 ++ post) (length pre) = None).
Proof.
  intros Hk Hpl. split.
  - intros n. by apply truncated_frame_rejected.
  - intros l1 b c l2 post. by apply corrupted_frame_rejected.
Qed.

Lemma damaged_frames_rejected_witness :
  decode_frame (take 19 (encode_frame 3 [Byte.x2a])) 0 = None.
Proof.
  destruct (damaged_frames_rejected [] 3 [Byte.x2a]) as [H _]; [vm_compute; reflexivity ..|].
  apply (H 19%nat). rewrite length_encode_frame. cbn. lia.
Defined.
