(* ===== verification/RecordCodec.v ===== *)
(** * Wire formats of the authority envelope and the failure record
    ([encode_failure_record], [decode_failure_record] of [src/persistence.cpp];
    [enc_auth], [dec_auth] of [src/store.cpp]) *)
From S2P Require Import Prelude Ident Enums Authority FailureRecord Codec.

Local Open Scope N_scope.

(** ** Authority envelopes: the field order of [enc_auth], which
    [encode_failure_record] and [encode_wire] repeat in line *)
Definition enc_auth (e : AuthorityEnvelope) : list byte :=
  w_generation (coordinator_epoch e) ++ w_uuid (raw (worker_boot e)) ++ w_uuid (raw (attempt e))
  ++ w_uuid (raw (dispatch e)) ++ w_generation (attempt_generation e)
  ++ w_generation (operation_generation e) ++ w_generation (failure_generation e)
  ++ w_generation (recovery_generation e).

Definition auth_fields : D AuthorityEnvelope :=
  epoch ← r_generation; boot ← r_id; att ← r_id; disp ← r_id;
  ag ← r_generation; og ← r_generation; fg ← r_generation; rg ← r_generation;
  mret (MkAuthority epoch boot att ag disp og fg rg).

(** [return r.ok() && validate_authority(e)]. *)
Definition dec_auth : D AuthorityEnvelope :=
  e ← auth_fields; _ ← check_ok; _ ← reject_if (negb (validate_authority e)); mret e.

(** ** Failure records *)
Fixpoint w_ids {tag} (l : list (Id tag)) : list byte :=
  match l with
  | [] => []
  | i :: l => w_uuid (raw i) ++ w_ids l
  end.

Fixpoint r_ids {tag} (n : nat) : D (list (Id tag)) :=
  match n with
  | O => mret []
  | S n => i ← r_id; l ← r_ids n; mret (i :: l)
  end.

Definition encode_failure_record (r : FailureRecord) : list byte :=
  w_uuid (raw (fr_failure_id r)) ++ w_uuid (raw (fr_operation r)) ++ w_uuid (raw (fr_request r))
  ++ w_uuid (raw (fr_workload r)) ++ w_uuid (raw (fr_attempt r)) ++ w_uuid (raw (fr_dispatch r))
  ++ w_uuid (raw (fr_worker r)) ++ w_uuid (raw (fr_node r)) ++ w_uuid (raw (fr_device r))
  ++ w_enumv (enum_to_u32 (fr_failure_class r)) ++ w_enumv (enum_to_u32 (fr_origin r))
  ++ w_u32 (fr_failure_code r) ++ w_str16 (fr_summary r) ++ w_str16 (fr_reason r)
  ++ w_enumv (enum_to_u32 (fr_phase r)) ++ w_u64 (fr_timestamp_ms r)
  ++ w_enumv (enum_to_u32 (fr_completion r)) ++ w_enumv (enum_to_u32 (fr_side_effect_state r))
  ++ w_u32 (fr_unknown_side_effects r) ++ enc_auth (fr_authority r)
  ++ w_enumv (enum_to_u32 (fr_retryability r)) ++ w_enumv (enum_to_u32 (fr_rollback r))
  ++ w_enumv (enum_to_u32 (fr_compensation r)) ++ w_enumv (enum_to_u32 (fr_terminality r))
  ++ w_enumv (enum_to_u32 (fr_recovery_owner r)) ++ w_enumv (enum_to_u32 (fr_provenance r))
  ++ w_uuid (raw (fr_causal_parent r))
  ++ w_u32 (wrap 32 (N.of_nat (length (fr_dependencies r)))) ++ w_ids (fr_dependencies r).

(** [rec] is default-constructed by the callers and every field is assigned. *)
Definition decode_failure_record : D FailureRecord :=
  _ ← check_ok;
  fid ← r_id; op ← r_id; req ← r_id; wl ← r_id; att ← r_id; disp ← r_id;
  wk ← r_id; nd ← r_id; dev ← r_id;
  fc ← r_enumv; fo ← r_enumv;
  _ ← check_ok; _ ← reject_if ((23 <=? fc) || (11 <=? fo));
  cls ← cast_enum FailureClass.t fc; org ← cast_enum FailureOrigin.t fo;
  code ← r_u32; summ ← r_str16; reas ← r_str16;
  ph ← r_enum FailurePhase.t 10; ts ← r_u64;
  comp ← r_enum Ambiguity.t 4; ses ← r_enum SideEffectState.t 5;
  unk ← r_u32; auth ← auth_fields;
  ret ← r_enum Retryability.t 4; rb ← r_enum RollbackRequirement.t 4;
  cp ← r_enum CompensationRequirement.t 3; tm ← r_enum Terminality.t 4;
  ro ← r_enum RecoveryOwner.t 9; pr ← r_enum Provenance.t 7;
  parent ← r_id; ndeps ← r_u32;
  _ ← check_ok; _ ← reject_if (4096 <? ndeps);
  deps ← r_ids (N.to_nat ndeps);
  _ ← check_ok; _ ← reject_if (negb (validate_authority auth));
  mret (MkFailureRecord fid op req wl att disp wk nd dev cls org code summ reas ph ts comp ses
          unk auth ret rb cp tm ro pr parent deps).

(** ** The values the formats can represent *)
Definition auth_fits (e : AuthorityEnvelope) : Prop :=
  fits 64 (value (coordinator_epoch e)) ∧ fits 64 (value (attempt_generation e)) ∧
  fits 64 (value (operation_generation e)) ∧ fits 64 (value (failure_generation e)) ∧
  fits 64 (value (recovery_generation e)).

#[export] Instance auth_codec : Codec enc_auth auth_fields auth_fits.
Proof.
  split.
  - intros [ep bo at_ ag di og fg rg] (H1 & H2 & H3 & H4 & H5).
    unfold enc_auth, auth_fields. cbn [coordinator_epoch worker_boot attempt attempt_generation
      dispatch operation_generation failure_generation recovery_generation] in *.
    do 7 read_field. rewrite <- (app_nil_r (w_generation rg)). read_field. apply reads_ret.
  - unfold auth_fields. solve_stable.
  - unfold auth_fields. do 8 sound_field. apply sound_ret.
    rewrite app_nil_r. by split.
Qed.

(** Casting a checked enumeration value. *)
Lemma reads_cast E `{CEnum E} (e : E) : reads (cast_enum E (enum_to_u32 e)) [] e.
Proof.
  intros data pos post _ _. unfold cast_enum. by rewrite enum_of_to_u32, Nat.add_0_r.
Qed.

Lemma stable_cast E `{CEnum E} v : stable (cast_enum E v).
Proof. intros r e r' H1. unfold cast_enum in H1. destruct (enum_of_u32 E v); by simplify_eq. Qed.

Lemma sound_cast E `{CEnum E} v : sound (cast_enum E v) (λ bs e, bs = [] ∧ enum_to_u32 e = v).
Proof.
  intros r e r' H1 _ _. unfold cast_enum in H1. destruct (enum_of_u32 E v) eqn:Ev; simplify_eq.
  exists []. split; [apply consumed_nil|]. split; [done|]. by apply enum_to_of_u32.
Qed.
#[export] Hint Resolve stable_cast : codec.

(** Lists of identities of a known length. *)
Lemma reads_ids {tag} (l : list (Id tag)) : reads (r_ids (length l)) (w_ids l) l.
Proof.
  induction l as [|i l IH]; [apply reads_ret|]. cbn [r_ids w_ids length].
  read_field. rewrite <- (app_nil_r (w_ids l)). eapply reads_bind; [exact IH|]. apply reads_ret.
Qed.

Lemma stable_ids {tag} n : stable (r_ids (tag:=tag) n).
Proof. induction n; cbn [r_ids]; solve_stable. Qed.
#[export] Hint Resolve stable_ids : codec.

Lemma sound_ids {tag} n :
  sound (r_ids (tag:=tag) n) (λ bs l, bs = w_ids l ∧ length l = n).
Proof.
  induction n as [|n IH]; cbn [r_ids]; [by apply sound_ret|].
  sound_field. eapply sound_bind; [exact IH|solve_stable|intros; solve_stable|].
  intros l b [-> <-]. apply sound_ret. by rewrite app_nil_r.
Qed.

(** ** Failure records round trip *)
Definition record_ok (r : FailureRecord) : Prop :=
  fits 32 (fr_failure_code r) ∧ str16_ok (fr_summary r) ∧ str16_ok (fr_reason r) ∧
  fits 64 (fr_timestamp_ms r) ∧ fits 32 (fr_unknown_side_effects r) ∧
  auth_fits (fr_authority r) ∧ (length (fr_dependencies r) <= 4096)%nat ∧
  validate_authority (fr_authority r) = true.

Lemma enum_guard23 (c : FailureClass.t) (o : FailureOrigin.t) :
  (23 <=? enum_to_u32 c) || (11 <=? enum_to_u32 o) = false.
Proof.
  apply orb_false_iff. split; apply N.leb_gt.
  - exact (enum_to_u32_lt c).
  - exact (enum_to_u32_lt o).
Qed.

Lemma fits_enum E `{CEnum E} (e : E) : enum_count E <= 2 ^ 32 → fits 32 (enum_to_u32 e).
Proof. intros Hc. eapply N.lt_le_trans; [apply enum_to_u32_lt|done]. Qed.

Lemma failure_record_reads r :
  record_ok r → reads decode_failure_record (encode_failure_record r) r.
Proof.
  intros (Hcode & Hsum & Hrea & Hts & Hun & Hau & Hdl & Hva).
  destruct r as [fid op req wl att disp wk nd dev cls org code summ reas ph ts comp ses
    unk auth ret rb cp tm ro pr parent deps].
  unfold encode_failure_record, decode_failure_record.
  cbn [fr_failure_id fr_operation fr_request fr_workload fr_attempt fr_dispatch fr_worker fr_node
    fr_device fr_failure_class fr_origin fr_failure_code fr_summary fr_reason fr_phase
    fr_timestamp_ms fr_completion fr_side_effect_state fr_unknown_side_effects fr_authority
    fr_retryability fr_rollback fr_compensation fr_terminality fr_recovery_owner fr_provenance
    fr_causal_parent fr_dependencies] in *.
  assert (fits 32 (N.of_nat (length deps))) as Hd32
    by (unfold fits; change (2 ^ 32) with 4294967296; lia).
  rewrite wrap_small by done.
  do 10 read_field.
  do 2 (eapply reads_bind; [apply (codec_reads (put := w_u32)), fits_enum; vm_compute; congruence|]).
  read_field. eapply reads_bind_nil; [apply reads_reject, enum_guard23|].
  do 2 (eapply reads_bind_nil; [apply reads_cast|]).
  do 18 read_field.
  eapply reads_bind_nil; [apply reads_reject, N.ltb_ge; lia|].
  rewrite <- (app_nil_r (w_ids deps)). rewrite Nat2N.id.
  eapply reads_bind; [apply reads_ids|].
  read_field. eapply reads_bind_nil; [by apply reads_reject, negb_false_iff|].
  apply reads_ret.
Qed.

(** Unwinds the consumed bytes of a decoder into the writer's calls. *)
Lemma failure_record_stable : stable decode_failure_record.
Proof. unfold decode_failure_record. solve_stable. Qed.

Lemma failure_record_sound :
  sound decode_failure_record (λ bs r, bs = encode_failure_record r ∧ record_ok r).
Proof.
  unfold decode_failure_record. do 14 sound_field.
  do 2 (eapply sound_bind; [apply sound_cast|solve_stable|intros; solve_stable|intros ? ? [-> <-]]).
  do 19 sound_field.
  eapply sound_bind; [apply sound_ids|solve_stable|intros; solve_stable|intros ? ? [-> Hdl]].
  do 2 sound_field. apply sound_ret.
  repeat match goal with
  | H : (_ <? _) = false |- _ => apply N.ltb_ge in H
  | H : negb _ = false |- _ => apply negb_false_iff in H
  end.
  split.
  - unfold encode_failure_record. cbn [fr_failure_id fr_operation fr_request fr_workload fr_attempt
      fr_dispatch fr_worker fr_node fr_device fr_failure_class fr_origin fr_failure_code fr_summary
      fr_reason fr_phase fr_timestamp_ms fr_completion fr_side_effect_state
      fr_unknown_side_effects fr_authority fr_retryability fr_rollback fr_compensation
      fr_terminality fr_recovery_owner fr_provenance fr_causal_parent fr_dependencies].
    by rewrite Hdl, N2Nat.id, wrap_small, app_nil_r.
  - unfold record_ok. cbn [fr_failure_code fr_summary fr_reason fr_timestamp_ms
      fr_unknown_side_effects fr_authority fr_dependencies]. split_and!; done || lia.
Qed.

Lemma certifies_check_then {A} (k : unit → D A) :
  (∀ r a r', k tt r = Some (a, r') → ok_ r' = ok_ r) → certifies (check_ok ≫= k).
Proof.
  intros Hk r x r' H. unfold mbind, D_bind, check_ok in H. destruct (ok_ r) eqn:E; [|done].
  by rewrite (Hk _ _ _ H).
Qed.

Lemma reject_ret_keeps {A} b (a : A) r x r' :
  (_ ← reject_if b; mret a) r = Some (x, r') → ok_ r' = ok_ r.
Proof. unfold mbind, D_bind, reject_if. destruct b; [done|]. by intros [= <- <-]. Qed.

Lemma failure_record_certifies : certifies decode_failure_record.
Proof.
  unfold decode_failure_record.
  repeat first [ apply certifies_check_then; intros ? ? ?; apply reject_ret_keeps
               | apply certifies_bind; intros ].
Qed.

(** The two directions as one equation on whole buffers. *)
Lemma decode_failure_record_iff data r r' :
  decode_failure_record (reader data) = Some (r, r') ↔
  ∃ post, data = encode_failure_record r ++ post ∧ record_ok r ∧
          r' = MkReader data (length (encode_failure_record r)) true.
Proof.
  split.
  - intros H. pose proof (failure_record_certifies _ _ _ H) as Hok.
    assert (in_range (reader data)) as Hr by apply Nat.le_0_l.
    destruct (failure_record_stable _ _ _ H Hr) as (Hp & _ & _).
    destruct (failure_record_sound _ _ _ H Hr Hok) as (bs & [C1 C2] & -> & Hv).
    cbn [p_ pos_ reader] in *. rewrite drop_0 in C1. eexists. split; [exact C1|].
    split; [done|]. destruct r' as [d p o]. cbn in *. by subst.
  - intros (post & Hd & Hv & ->).
    unfold reader. by rewrite (failure_record_reads r Hv data 0%nat post (Nat.le_0_l _)).
Qed.

(** C16: the failure-record codec is exact: the decoder accepts a buffer if and
    only if it starts with the encoding of the decoded record and that record
    is well formed (strings of at most 65535 bytes, at most 4096 dependencies,
    machine-width integers, a valid authority); it then consumes exactly the
    encoding. In particular decoding an encoded well-formed record gives the
    record back, and every accepted encoding is the canonical one. *)
Theorem failure_record_codec_exact data r :
  (∃ r', decode_failure_record (reader data) = Some (r, r') ∧
         pos_ r' = length (encode_failure_record r)) ↔
  record_ok r ∧ ∃ post, data = encode_failure_record r ++ post.
Proof.
  split.
  - intros (r' & H & _). apply decode_failure_record_iff in H as (post & Hd & Hv & _). eauto.
  - intros (Hv & post & Hd).
    exists (MkReader data (length (encode_failure_record r)) true).
    split; [|done]. apply decode_failure_record_iff. eauto.
Qed.
