(* ===== verification/Store.v ===== *)
(** * The failure store and its snapshots ([include/failure_fabric/store.hpp],
    [src/store.cpp])

    The state is the failure log, the operation registry, the idempotency
    entries and the recovery ownership. [save] and [load] are modelled on the
    bytes of the file. The unordered maps enumerate their entries in an
    unspecified order, so an image is written for given enumerations of them. *)
From stdpp Require Import gmap.
From S2P Require Import Prelude Ident Enums Authority Operation Idempotency Registry.
From S2P Require Import FailureRecord Recovery Codec RecordCodec.

Local Open Scope N_scope.

Definition K_FAIL : N := 1.
Definition K_OP : N := 2.
Definition K_ID : N := 3.
Definition K_OWN : N := 4.

Record FailureStore := MkStore {
  failures_ : gmap FailureId FailureRecord;
  ops_ : gmap OperationId OperationRuntime;
  idem_ : gmap (OperationId * IdempotencyKey) Entry;
  ownership_ : RecoveryOwnership;
}.

Definition store0 : FailureStore := MkStore ∅ ∅ ∅ ownership0.

(** ** The failure log *)
Definition append_failure (rec : FailureRecord) (s : FailureStore) : bool * FailureStore :=
  if is_null (fr_failure_id rec) then (false, s)
  else if bool_decide (is_Some (failures_ s !! fr_failure_id rec)) then (false, s)
  else if is_null (fr_operation rec) || is_null (fr_attempt rec) then (false, s)
  else if negb (validate_authority (fr_authority rec)) then (false, s)
  else (true, MkStore (<[fr_failure_id rec := rec]> (failures_ s)) (ops_ s) (idem_ s) (ownership_ s)).

Definition has_failure (id : FailureId) (s : FailureStore) : bool :=
  bool_decide (is_Some (failures_ s !! id)).

Definition find_failure (id : FailureId) (s : FailureStore) : option FailureRecord :=
  failures_ s !! id.

Definition failure_count (s : FailureStore) : nat := size (failures_ s).

Definition clear (s : FailureStore) : FailureStore :=
  MkStore ∅ registry_clear idem_clear ownership0.

(** ** [save] *)
Definition header_payload (nfail nop nid : N) : list byte :=
  w_u32 kFFMagic ++ w_u16 kFFVersion ++ w_u32 (wrap 32 nfail) ++ w_u32 (wrap 32 nop)
    ++ w_u32 (wrap 32 nid).

Definition op_payload (p : OperationId * OperationRuntime) : list byte :=
  let '(op, rt) := p in
  w_uuid (raw op) ++ w_enumv (OperationState.to_u32 (state_ (machine rt)))
  ++ w_u32 (attempt_count rt) ++ w_bool (terminal_recorded rt) ++ w_str16 (terminal_outcome rt)
  ++ w_bool (idempotent rt) ++ w_uuid (key_raw (idem_key rt))
  ++ enc_auth (authority rt) ++ enc_auth (terminal rt).

Definition idem_payload (e : EntryView) : list byte :=
  w_uuid (raw (ev_op e)) ++ w_uuid (key_raw (ev_key e)) ++ w_u64 (ev_payload_hash e)
  ++ w_enumv (IdempotencyState.to_u32 (ev_state e)) ++ w_str16 (ev_result_metadata e).

Definition own_payload (o : RecoveryOwnership) : list byte :=
  w_enumv (enum_to_u32 (owner_ o)) ++ w_generation (generation_ o) ++ w_uuid (raw (boot_ o)).

(** The frames of an image, for the enumerations [fl], [ol] and [il]. *)
Definition save_frames (fl : list FailureRecord) (ol : list (OperationId * OperationRuntime))
    (il : list EntryView) (own : RecoveryOwnership) : list (N * list byte) :=
  [(0, header_payload (N.of_nat (length fl)) (N.of_nat (length ol)) (N.of_nat (length il)))]
  ++ ((λ r, (K_FAIL, encode_failure_record r)) <$> fl)
  ++ ((λ p, (K_OP, op_payload p)) <$> ol)
  ++ ((λ e, (K_ID, idem_payload e)) <$> il)
  ++ [(K_OWN, own_payload own)].

Definition image (frames : list (N * list byte)) : list byte :=
  concat ((λ f, encode_frame f.1 f.2) <$> frames).

(** The frames [save] can write, for some enumerations of the three maps, and
    the bytes it writes. *)
Definition frames_of (s : FailureStore) (frames : list (N * list byte)) : Prop :=
  ∃ fl ol il,
    fl ≡ₚ (map_to_list (failures_ s)).*2 ∧ ol ≡ₚ map_to_list (ops_ s) ∧
    il ≡ₚ entry_view <$> map_to_list (idem_ s) ∧
    frames = save_frames fl ol il (ownership_ s).

Definition saves (s : FailureStore) (data : list byte) : Prop :=
  ∃ frames, frames_of s frames ∧ data = image frames.

(** What a call of [save] does to the file at its path, which the stream opens
    with [trunc] and then writes in place: nothing if the file cannot be opened,
    the whole image, or a strict prefix of it when the process is killed on the
    way or the disk refuses the rest. *)
Variant Fate := Refused | Written | Torn.

#[export] Instance Fate_eq_dec : EqDecision Fate.
Proof. solve_decision. Defined.

Inductive save_effect (s : FailureStore) (file : option (list byte)) : Fate → option (list byte) → Prop :=
  | save_refused : save_effect s file Refused file
  | save_written data : saves s data → save_effect s file Written (Some data)
  | save_torn data n :
      saves s data → (n < length data)%nat → save_effect s file Torn (Some (take n data)).

(** ** [load] *)

(** The locals of [load], and the ownership it updates in place. *)
Record Pending := MkPending {
  frs : list FailureRecord;
  orts : list (OperationId * OperationRuntime);
  idents : list EntryView;
  counts : N * N * N;
  first : bool;
  own : RecoveryOwnership;
}.

#[export] Instance Pending_settable : Settable Pending := λ p,
  MkPending (frs p) (orts p) (idents p) (counts p) (first p) (own p).

Definition pending0 (o : RecoveryOwnership) : Pending := MkPending [] [] [] (0, 0, 0) true o.

Definition dec_header : D (N * N * N) :=
  magic ← r_u32; _ ← reject_if (negb (magic =? kFFMagic));
  ver ← r_u16; _ ← reject_if (negb (ver =? kFFVersion));
  nfail ← r_u32; nop ← r_u32; nid ← r_u32; _ ← check_ok;
  mret (nfail, nop, nid).

Definition dec_op : D (OperationId * OperationRuntime) :=
  _ ← check_ok;
  op ← r_id; st ← r_enumv; attempts ← r_u32; recorded ← r_bool; outcome ← r_str16;
  idem ← r_bool; key ← r_uuid; auth ← dec_auth; term ← dec_auth; _ ← check_ok;
  mret (op, MkRuntime (machine_reset machine0 (OperationState.of_u32 st)) auth term recorded
              attempts outcome idem (MkIdemKey key)).

Definition dec_idem : D EntryView :=
  op ← r_id; key ← r_uuid; hash ← r_u64; st ← r_enumv; meta ← r_str16; _ ← check_ok;
  mret (MkEntryView op (MkIdemKey key) hash (IdempotencyState.of_u32 st) meta).

Definition dec_own : D (RecoveryOwner.t * RecoveryGeneration * WorkerBootId) :=
  owner ← r_enum RecoveryOwner.t 9; g ← r_generation; boot ← r_id; _ ← check_ok;
  mret (owner, g, boot).

(** The body of the frame loop; [None] is [return false]. *)
Definition load_frame (p : Pending) (h : FrameHeader) : option Pending :=
  let r := reader (payload h) in
  if first p then
    match dec_header r with
    | Some (c, _) => Some (p <| counts := c |> <| first := false |>)
    | None => None
    end
  else if kind h =? K_FAIL then
    match decode_failure_record r with
    | Some (rec, _) => Some (p <| frs := frs p ++ [rec] |>)
    | None => None
    end
  else if kind h =? K_OP then
    match dec_op r with
    | Some (o, _) => Some (p <| orts := orts p ++ [o] |>)
    | None => None
    end
  else if kind h =? K_ID then
    match dec_idem r with
    | Some (e, _) => Some (p <| idents := idents p ++ [e] |>)
    | None => None
    end
  else if kind h =? K_OWN then
    match dec_own r with
    | Some ((owner, g, boot), _) => Some (p <| own := (adopt (own p) owner g boot authority0).2 |>)
    | None => None
    end
  else None.

(** The frame loop: [fuel] bounds the number of frames. *)
Fixpoint load_loop (fuel : nat) (data : list byte) (off : nat) (p : Pending) : bool * Pending :=
  if (length data <=? off)%nat then (true, p)
  else match fuel with
  | O => (false, p)
  | S fuel =>
      match decode_frame data off with
      | None => (false, p)
      | Some (h, next) =>
          match load_frame p h with
          | None => (false, p)
          | Some p => load_loop fuel data next p
          end
      end
  end.

(** [newfails.emplace] for every record: [None] on a duplicate identity. *)
Fixpoint emplace_all (l : list FailureRecord) (m : gmap FailureId FailureRecord)
    : option (gmap FailureId FailureRecord) :=
  match l with
  | [] => Some m
  | rec :: l =>
      match m !! fr_failure_id rec with
      | Some _ => None
      | None => emplace_all l (<[fr_failure_id rec := rec]> m)
      end
  end.

Definition counts_match (p : Pending) : bool :=
  let '(nfail, nop, nid) := counts p in
  (N.of_nat (length (frs p)) =? nfail) && (N.of_nat (length (orts p)) =? nop)
  && (N.of_nat (length (idents p)) =? nid).

(** [file] is the contents of the file, [None] if it cannot be opened. *)
Definition load (file : option (list byte)) (s : FailureStore) : bool * FailureStore :=
  match file with
  | None => (false, s)
  | Some [] => (false, s)
  | Some data =>
      let '(ok, p) := load_loop (length data) data 0 (pending0 (ownership_ s)) in
      let s := MkStore (failures_ s) (ops_ s) (idem_ s) (own p) in
      if negb ok then (false, s)
      else if negb (counts_match p) then (false, s)
      else match emplace_all (frs p) ∅ with
      | None => (false, s)
      | Some newfails =>
          if negb (bool_decide (NoDup (orts p).*1)) then (false, s)
          else (true, MkStore newfails
                        (foldl (λ m o, (restore o.1 o.2 m).2) ∅ (orts p))
                        (foldl (λ m e, idem_restore e m) ∅ (idents p))
                        ownership0)
      end
  end.

(** ** The payload formats *)
Definition auth_ok (e : AuthorityEnvelope) : Prop :=
  auth_fits e ∧ validate_authority e = true.

Definition op_ok (rt : OperationRuntime) : Prop :=
  fits 32 (OperationState.to_u32 (state_ (machine rt))) ∧ fits 32 (attempt_count rt) ∧
  str16_ok (terminal_outcome rt) ∧ auth_ok (authority rt) ∧ auth_ok (terminal rt).

Definition entry_ok (e : EntryView) : Prop :=
  fits 64 (ev_payload_hash e) ∧ fits 32 (IdempotencyState.to_u32 (ev_state e)) ∧
  str16_ok (ev_result_metadata e).

Lemma dec_auth_reads e : auth_ok e → reads dec_auth (enc_auth e) e.
Proof.
  intros [Hf Hv]. unfold dec_auth. rewrite <- (app_nil_r (enc_auth e)).
  do 2 read_field. eapply reads_bind_nil; [by apply reads_reject, negb_false_iff|]. apply reads_ret.
Qed.

Lemma reads_enumv n : fits 32 n → reads r_enumv (w_enumv n) n.
Proof. apply (codec_reads (put := w_u32)). Qed.

Lemma dec_op_reads op rt : op_ok rt → reads dec_op (op_payload (op, rt)) (op, rt).
Proof.
  intros (Hs & Hc & Ho & Ha & Ht). destruct rt as [[st] auth term recd cnt outc idm [key]].
  unfold dec_op, op_payload.
  cbn [machine state_ authority terminal terminal_recorded attempt_count terminal_outcome
    idempotent idem_key key_raw] in *.
  do 2 read_field. eapply reads_bind; [by apply reads_enumv|]. do 5 read_field.
  eapply reads_bind; [by apply dec_auth_reads|]. rewrite <- (app_nil_r (enc_auth term)).
  eapply reads_bind; [by apply dec_auth_reads|]. read_field.
  rewrite OperationState_of_to_u32. apply reads_ret.
Qed.

Lemma dec_idem_reads e : entry_ok e → reads dec_idem (idem_payload e) e.
Proof.
  intros (Hh & Hs & Hm). destruct e as [op [key] hash st meta].
  unfold dec_idem, idem_payload.
  cbn [ev_op ev_key key_raw ev_payload_hash ev_state ev_result_metadata] in *.
  do 3 read_field. eapply reads_bind; [by apply reads_enumv|].
  rewrite <- (app_nil_r (w_str16 meta)). do 2 read_field.
  rewrite IdempotencyState_of_to_u32. apply reads_ret.
Qed.

Lemma dec_own_reads o :
  fits 64 (value (generation_ o)) →
  reads dec_own (own_payload o) (owner_ o, generation_ o, boot_ o).
Proof.
  intros Hg. destruct o as [ow g b]. unfold dec_own, own_payload. cbn [owner_ generation_ boot_] in *.
  do 2 read_field. rewrite <- (app_nil_r (w_uuid _)). do 2 read_field. apply reads_ret.
Qed.

Lemma dec_header_reads nfail nop nid :
  fits 32 nfail → fits 32 nop → fits 32 nid →
  reads dec_header (header_payload nfail nop nid) (nfail, nop, nid).
Proof.
  intros H1 H2 H3. unfold dec_header, header_payload. rewrite !wrap_small by done.
  read_field. eapply reads_bind_nil; [by apply reads_reject|].
  read_field. eapply reads_bind_nil; [by apply reads_reject|].
  do 2 read_field. rewrite <- (app_nil_r (w_u32 nid)). do 2 read_field. apply reads_ret.
Qed.

(** A decoder run on exactly the bytes of its value. *)
Lemma reads_reader {A} (d : D A) bs (a : A) :
  reads d bs a → ∃ r', d (reader bs) = Some (a, r').
Proof. intros H. eexists. apply (H bs 0%nat []); [lia|by rewrite app_nil_r]. Qed.

(** ** The frame loop over an image *)
Fixpoint load_frames (p : Pending) (frames : list (N * list byte)) : option Pending :=
  match frames with
  | [] => Some p
  | f :: frames =>
      match load_frame p (MkFrame f.1 f.2 (fnv1a64 (frame_body f.1 f.2))) with
      | Some p => load_frames p frames
      | None => None
      end
  end.

Lemma load_frames_app p l1 l2 :
  load_frames p (l1 ++ l2)
  = match load_frames p l1 with Some p => load_frames p l2 | None => None end.
Proof. revert p. induction l1 as [|f l1 IH]; intros p; [done|]. cbn. by destruct (load_frame _ _). Qed.

Definition frame_ok (f : N * list byte) : Prop := fits 8 f.1 ∧ payload_ok f.2.

Lemma image_cons f frames : image (f :: frames) = encode_frame f.1 f.2 ++ image frames.
Proof. done. Qed.

Lemma image_app l1 l2 : image (l1 ++ l2) = image l1 ++ image l2.
Proof. unfold image. by rewrite fmap_app, concat_app. Qed.

Lemma length_image frames : (19 * length frames <= length (image frames))%nat.
Proof.
  induction frames as [|f frames IH]; [done|].
  rewrite image_cons, length_app, length_encode_frame. cbn [length]. lia.
Qed.

Lemma load_loop_frames frames fuel data off p p' :
  Forall frame_ok frames → (off <= length data)%nat → drop off data = image frames →
  load_frames p frames = Some p' → (length frames <= fuel)%nat →
  load_loop fuel data off p = (true, p').
Proof.
  intros Hok. revert fuel off p. induction Hok as [|[k pl] frames [Hk Hpl] Hok IH];
    intros fuel off p Hoff Hd Hl Hf.
  - assert (length data <= off)%nat
      by (pose proof (f_equal length Hd) as E; rewrite length_drop in E; cbn in E; lia).
    cbn in Hl. destruct fuel; cbn [load_loop]; rewrite (proj2 (Nat.leb_le _ _)) by done; congruence.
  - rewrite image_cons in Hd. cbn [fst snd] in *.
    pose proof (f_equal length Hd) as E. rewrite length_drop, length_app, length_encode_frame in E.
    destruct fuel as [|fuel]; [cbn in Hf; lia|]. cbn [load_loop].
    destruct (Nat.leb_spec (length data) off); [lia|].
    rewrite (decode_frame_reads data off k pl _ Hd Hk Hpl).
    cbn [load_frames fst snd] in Hl. destruct (load_frame p _) as [p1|]; [|done].
    apply IH; [lia| |done|cbn in Hf; lia].
    replace (off + 19 + length pl)%nat with (off + length (encode_frame k pl))%nat
      by (rewrite length_encode_frame; lia).
    by rewrite <- drop_drop, Hd, drop_app_length.
Qed.

(** Each section of an image appends to its list. *)
Lemma load_failures p fl :
  first p = false → Forall record_ok fl →
  load_frames p ((λ r, (K_FAIL, encode_failure_record r)) <$> fl)
  = Some (p <| frs := frs p ++ fl |>).
Proof.
  intros Hf Hok. revert p Hf. induction Hok as [|r fl Hr Hok IH]; intros p Hf.
  { cbn. rewrite app_nil_r. by destruct p. }
  cbn [fmap list_fmap load_frames fst snd]. unfold load_frame. cbn [kind payload]. rewrite Hf.
  destruct (reads_reader _ _ _ (failure_record_reads r Hr)) as [r' ->]. cbn [N.eqb K_FAIL Pos.eqb].
  etransitivity; [apply IH; done|]. cbn. by rewrite <- app_assoc.
Qed.

Lemma load_ops p ol :
  first p = false → Forall (λ o, op_ok o.2) ol →
  load_frames p ((λ o, (K_OP, op_payload o)) <$> ol) = Some (p <| orts := orts p ++ ol |>).
Proof.
  intros Hf Hok. revert p Hf. induction Hok as [|[op rt] ol Hr Hok IH]; intros p Hf.
  { cbn. rewrite app_nil_r. by destruct p. }
  cbn [fmap list_fmap load_frames fst snd]. unfold load_frame. cbn [kind payload]. rewrite Hf.
  destruct (reads_reader _ _ _ (dec_op_reads op rt Hr)) as [r' ->]. cbn [N.eqb K_FAIL K_OP Pos.eqb].
  etransitivity; [apply IH; done|]. cbn. by rewrite <- app_assoc.
Qed.

Lemma load_idents p il :
  first p = false → Forall entry_ok il →
  load_frames p ((λ e, (K_ID, idem_payload e)) <$> il) = Some (p <| idents := idents p ++ il |>).
Proof.
  intros Hf Hok. revert p Hf. induction Hok as [|e il Hr Hok IH]; intros p Hf.
  { cbn. rewrite app_nil_r. by destruct p. }
  cbn [fmap list_fmap load_frames fst snd]. unfold load_frame. cbn [kind payload]. rewrite Hf.
  destruct (reads_reader _ _ _ (dec_idem_reads e Hr)) as [r' ->].
  cbn [N.eqb K_FAIL K_OP K_ID Pos.eqb].
  etransitivity; [apply IH; done|]. cbn. by rewrite <- app_assoc.
Qed.

(** ** From the lists back to the maps *)
Section rebuild.
  Context {K A : Type} `{Countable K}.

Lemma foldl_insert_union (l : list (K * A)) (m : gmap K A) :
  NoDup l.*1 → Forall (λ p, m !! p.1 = None) l →
  foldl (λ m p, <[p.1 := p.2]> m) m l = list_to_map l ∪ m.
Proof.
  revert m. induction l as [|[k x] l IH]; intros m Hnd Hf; cbn.
  { by rewrite (left_id_L ∅ (∪)). }
  cbn in Hnd. apply NoDup_cons in Hnd as [Hk Hnd]. apply Forall_cons in Hf as [Hkm Hf].
  rewrite IH; [|done|].
  - rewrite <- insert_union_r by by apply not_elem_of_list_to_map_1.
    by rewrite insert_union_l.
  - apply Forall_forall. intros [k' x'] Hin. cbn. rewrite lookup_insert_ne.
    + by apply (proj1 (Forall_forall _ _) Hf (k', x')).
    + intros ->. apply Hk. apply list_elem_of_fmap. by exists (k', x').
Qed.

(** Inserting an enumeration of a map, in any order, gives the map. *)
Lemma foldl_insert_perm (l : list (K * A)) (m : gmap K A) :
  l ≡ₚ map_to_list m → foldl (λ m p, <[p.1 := p.2]> m) ∅ l = m.
Proof.
  intros Hl. assert (NoDup l.*1) as Hnd by (rewrite Hl; apply NoDup_fst_map_to_list).
  rewrite foldl_insert_union by (done || by apply Forall_true; intros; apply lookup_empty).
  rewrite (right_id_L ∅ (∪)), (list_to_map_proper _ _ Hnd Hl). apply list_to_map_to_list.
Qed.
End rebuild.

Lemma foldl_restore_insert ol (m : OperationRegistry) :
  NoDup ol.*1 → Forall (λ o, m !! o.1 = None) ol →
  foldl (λ m o, (restore o.1 o.2 m).2) m ol = foldl (λ m o, <[o.1 := o.2]> m) m ol.
Proof.
  revert m. induction ol as [|[op rt] ol IH]; intros m Hnd Hf; [done|]. cbn [foldl].
  cbn in Hnd. apply NoDup_cons in Hnd as [Hk Hnd]. apply Forall_cons in Hf as [Hm Hf].
  cbn [fst snd] in *.
  assert ((restore op rt m).2 = <[op:=rt]> m) as -> by (unfold restore; by rewrite Hm).
  apply IH; [done|].
  apply Forall_forall. intros [op' rt'] Hin. cbn. rewrite lookup_insert_ne.
  - by apply (proj1 (Forall_forall _ _) Hf (op', rt')).
  - intros ->. apply Hk. apply list_elem_of_fmap. by exists (op', rt').
Qed.

Lemma emplace_all_insert l (m : gmap FailureId FailureRecord) :
  NoDup (fr_failure_id <$> l) → Forall (λ r, m !! fr_failure_id r = None) l →
  emplace_all l m = Some (foldl (λ m r, <[fr_failure_id r := r]> m) m l).
Proof.
  revert m. induction l as [|r l IH]; intros m Hnd Hf; [done|]. cbn [emplace_all foldl].
  apply NoDup_cons in Hnd as [Hk Hnd]. apply Forall_cons in Hf as [Hm Hf]. rewrite Hm.
  apply IH; [done|]. apply Forall_forall. intros r' Hin. rewrite lookup_insert_ne.
  - by apply (proj1 (Forall_forall _ _) Hf r').
  - intros E. apply Hk. apply list_elem_of_fmap. eauto.
Qed.

Lemma foldl_fmap {A B C} (f : A → B → A) (g : C → B) l a :
  foldl f a (g <$> l) = foldl (λ a c, f a (g c)) a l.
Proof. revert a. by induction l; intros; cbn. Qed.

(** What a reload forgets: the authority of the idempotency entries. *)
Definition forget_authority (e : Entry) : Entry :=
  MkEntry (e_payload_hash e) (e_state e) (e_result_metadata e) authority0.

Lemma foldl_idem_restore (il : list EntryView) (m : gmap (OperationId * IdempotencyKey) Entry) :
  il ≡ₚ entry_view <$> map_to_list m →
  foldl (λ m e, idem_restore e m) ∅ il = forget_authority <$> m.
Proof.
  intros Hl.
  rewrite <- (foldl_insert_perm
    ((λ e, ((ev_op e, ev_key e), MkEntry (ev_payload_hash e) (ev_state e) (ev_result_metadata e) authority0)) <$> il)
    (forget_authority <$> m)).
  - by rewrite foldl_fmap.
  - rewrite Hl, map_to_list_fmap, <- list_fmap_compose. apply Permutation_refl'.
    apply list_fmap_ext. by intros _ [[op key] e] _.
Qed.

(** ** Well-formed stores *)
Record store_ok (s : FailureStore) : Prop := {
  ok_failures : map_Forall (λ id r, fr_failure_id r = id ∧ record_ok r) (failures_ s);
  ok_ops : map_Forall (λ _, op_ok) (ops_ s);
  ok_idem : map_Forall (λ k e, entry_ok (entry_view (k, e))) (idem_ s);
  ok_generation : fits 64 (value (generation_ (ownership_ s)));
  ok_sizes : (N.of_nat (size (failures_ s)) < 2 ^ 32) ∧ (N.of_nat (size (ops_ s)) < 2 ^ 32) ∧
             (N.of_nat (size (idem_ s)) < 2 ^ 32);
}.

Lemma length_w_uuid u : length (w_uuid u) = 16%nat.
Proof. apply length_vec_to_list. Qed.

Lemma length_w_ids {tag} (l : list (Id tag)) : length (w_ids l) = (16 * length l)%nat.
Proof. induction l; cbn [w_ids length]; rewrite ?length_app, ?length_w_uuid; lia. Qed.

Lemma length_w_str16 s : N.of_nat (length (w_str16 s)) <= 65537.
Proof.
  unfold w_str16. destruct (N.ltb_spec 0xFFFF (N.of_nat (String.length s))).
  - rewrite length_w_u16. lia.
  - unfold w_bytes. rewrite length_app, length_w_u16, length_list_byte. lia.
Qed.

Lemma length_enc_auth e : length (enc_auth e) = 88%nat.
Proof.
  unfold enc_auth, w_generation, w_u64. by rewrite !length_app, !length_put_be, !length_w_uuid.
Qed.

(** Payloads are far below the 32-bit length field. *)
Lemma payload_ok_le pl : (N.of_nat (length pl) <= 1000000) → payload_ok pl.
Proof. unfold payload_ok, fits. change (2 ^ 32) with 4294967296. lia. Qed.

Lemma record_payload_ok r : record_ok r → payload_ok (encode_failure_record r).
Proof.
  intros (_ & _ & _ & _ & _ & _ & Hd & _). apply payload_ok_le.
  pose proof (length_w_str16 (fr_summary r)). pose proof (length_w_str16 (fr_reason r)).
  unfold encode_failure_record, w_enumv, w_u32, w_u64.
  rewrite !length_app, !length_w_uuid, !length_put_be, length_enc_auth, length_w_ids. lia.
Qed.

Lemma op_payload_ok o : payload_ok (op_payload o).
Proof.
  apply payload_ok_le. destruct o as [op rt]. pose proof (length_w_str16 (terminal_outcome rt)).
  unfold op_payload, w_enumv, w_u32, w_bool, w_u8.
  rewrite !length_app, !length_w_uuid, !length_put_be, !length_enc_auth. cbn [length]. lia.
Qed.

Lemma idem_payload_ok e : payload_ok (idem_payload e).
Proof.
  apply payload_ok_le. pose proof (length_w_str16 (ev_result_metadata e)).
  unfold idem_payload, w_enumv, w_u32, w_u64.
  rewrite !length_app, !length_w_uuid, !length_put_be. lia.
Qed.

Lemma own_payload_ok o : payload_ok (own_payload o).
Proof.
  apply payload_ok_le. unfold own_payload, w_enumv, w_u32, w_generation, w_u64.
  rewrite !length_app, !length_w_uuid, !length_put_be. lia.
Qed.

Lemma header_payload_ok a b c : payload_ok (header_payload a b c).
Proof.
  apply payload_ok_le. unfold header_payload, w_u32, w_u16. rewrite !length_app, !length_put_be. lia.
Qed.

Lemma save_frames_ok fl ol il o : Forall record_ok fl → Forall frame_ok (save_frames fl ol il o).
Proof.
  intros Hf. unfold save_frames.
  repeat (apply Forall_app; split); rewrite ?Forall_fmap, ?Forall_singleton.
  - split; [done|apply header_payload_ok].
  - eapply Forall_impl; [exact Hf|]. intros r Hr. split; [done|by apply record_payload_ok].
  - apply Forall_true. intros x. split; [done|apply op_payload_ok].
  - apply Forall_true. intros x. split; [done|apply idem_payload_ok].
  - split; [done|apply own_payload_ok].
Qed.

(** The locals of [load] after the frames of an image. *)
Lemma load_save_frames fl ol il o own0 :
  Forall record_ok fl → Forall (λ o, op_ok o.2) ol → Forall entry_ok il →
  fits 64 (value (generation_ o)) →
  fits 32 (N.of_nat (length fl)) → fits 32 (N.of_nat (length ol)) → fits 32 (N.of_nat (length il)) →
  load_frames (pending0 own0) (save_frames fl ol il o)
  = Some (MkPending fl ol il (N.of_nat (length fl), N.of_nat (length ol), N.of_nat (length il))
            false (adopt own0 (owner_ o) (generation_ o) (boot_ o) authority0).2).
Proof.
  intros Hf Ho Hi Hg H1 H2 H3. unfold save_frames. cbn [app load_frames fst snd].
  unfold load_frame at 1. cbn [pending0 first payload kind].
  destruct (reads_reader _ _ _ (dec_header_reads _ _ _ H1 H2 H3)) as [r1 ->].
  rewrite load_frames_app, load_failures by done.
  rewrite load_frames_app, load_ops by done. rewrite load_frames_app, load_idents by done.
  cbn [load_frames fst snd]. unfold load_frame. cbn [payload kind].
  destruct (reads_reader _ _ _ (dec_own_reads o Hg)) as [r2 ->]. reflexivity.
Qed.

(** ** Saving and loading *)
Lemma Forall_values {K A} `{Countable K} (P : K → A → Prop) (m : gmap K A) :
  map_Forall P m → Forall (λ p, P p.1 p.2) (map_to_list m).
Proof.
  intros Hm. apply Forall_forall. intros [k x] Hin. by apply Hm, elem_of_map_to_list.
Qed.

Lemma pairs_values (l : list (FailureId * FailureRecord)) :
  Forall (λ p, fr_failure_id p.2 = p.1 ∧ record_ok p.2) l →
  (λ r, (fr_failure_id r, r)) <$> l.*2 = l.
Proof.
  induction 1 as [|[k r] l [Hk _] _ IH]; [done|].
  rewrite !fmap_cons, IH. cbn in *. by subst.
Qed.

(** The log enumerated by value is the log enumerated by identity. *)
Lemma failures_pairs (m : gmap FailureId FailureRecord) fl :
  map_Forall (λ id r, fr_failure_id r = id ∧ record_ok r) m →
  fl ≡ₚ (map_to_list m).*2 →
  ((λ r, (fr_failure_id r, r)) <$> fl) ≡ₚ map_to_list m.
Proof.
  intros Hm ->. apply Forall_values in Hm. by rewrite pairs_values.
Qed.

Lemma load_failures_map (m : gmap FailureId FailureRecord) fl :
  map_Forall (λ id r, fr_failure_id r = id ∧ record_ok r) m →
  fl ≡ₚ (map_to_list m).*2 → emplace_all fl ∅ = Some m.
Proof.
  intros Hm Hl. pose proof (failures_pairs m fl Hm Hl) as Hp.
  rewrite emplace_all_insert.
  - f_equal. rewrite <- (foldl_insert_perm _ m Hp), foldl_fmap. done.
  - assert (fr_failure_id <$> fl = ((λ r, (fr_failure_id r, r)) <$> fl).*1) as ->
      by (rewrite <- list_fmap_compose; by apply list_fmap_ext).
    rewrite Hp. apply NoDup_fst_map_to_list.
  - apply Forall_true. intros. apply lookup_empty.
Qed.

Lemma load_ops_map (m : OperationRegistry) ol :
  ol ≡ₚ map_to_list m → NoDup ol.*1 ∧ foldl (λ m o, (restore o.1 o.2 m).2) ∅ ol = m.
Proof.
  intros Hl. assert (NoDup ol.*1) as Hnd by (rewrite Hl; apply NoDup_fst_map_to_list).
  split; [done|]. rewrite foldl_restore_insert; [by apply foldl_insert_perm|done|].
  apply Forall_true. intros. apply lookup_empty.
Qed.

Lemma frames_of_load s frames :
  store_ok s → frames_of s frames →
  ∃ fl ol il, fl ≡ₚ (map_to_list (failures_ s)).*2 ∧ ol ≡ₚ map_to_list (ops_ s) ∧
    il ≡ₚ entry_view <$> map_to_list (idem_ s) ∧
    frames = save_frames fl ol il (ownership_ s) ∧
    Forall frame_ok frames ∧
    ∀ own0, load_frames (pending0 own0) frames
      = Some (MkPending fl ol il (N.of_nat (length fl), N.of_nat (length ol), N.of_nat (length il))
                false (adopt own0 (owner_ (ownership_ s)) (generation_ (ownership_ s))
                         (boot_ (ownership_ s)) authority0).2).
Proof.
  intros [Hf Ho Hi Hg (S1 & S2 & S3)] (fl & ol & il & Hfl & Hol & Hil & ->).
  assert (Forall record_ok fl) as Hf'.
  { rewrite Hfl, Forall_fmap. eapply Forall_impl; [by apply Forall_values|]. by intros ? [_ ?]. }
  exists fl, ol, il. split_and!; try done; [by apply save_frames_ok|].
  intros own0. apply load_save_frames; try done.
  - rewrite Hol. eapply Forall_impl; [by apply Forall_values|]. done.
  - rewrite Hil, Forall_fmap. eapply Forall_impl; [by apply Forall_values|]. by intros [k e].
  - unfold fits. by rewrite Hfl, length_fmap, length_map_to_list.
  - unfold fits. by rewrite Hol, length_map_to_list.
  - unfold fits. by rewrite Hil, length_fmap, length_map_to_list.
Qed.

Lemma image_load_loop s data own0 :
  store_ok s → saves s data →
  ∃ fl ol il, fl ≡ₚ (map_to_list (failures_ s)).*2 ∧ ol ≡ₚ map_to_list (ops_ s) ∧
    il ≡ₚ entry_view <$> map_to_list (idem_ s) ∧ data ≠ [] ∧
    load_loop (length data) data 0 (pending0 own0)
    = (true, MkPending fl ol il (N.of_nat (length fl), N.of_nat (length ol), N.of_nat (length il))
               false (adopt own0 (owner_ (ownership_ s)) (generation_ (ownership_ s))
                        (boot_ (ownership_ s)) authority0).2).
Proof.
  intros Hs (frames & Hfr & ->).
  destruct (frames_of_load s frames Hs Hfr) as (fl & ol & il & Hfl & Hol & Hil & Hsf & Hok & Hl).
  pose proof (length_image frames) as Hlen.
  exists fl, ol, il. split_and!; [done..| |].
  - intros E. rewrite E, Hsf in Hlen. cbn in Hlen. lia.
  - apply (load_loop_frames frames); [done|lia|by rewrite drop_0|apply Hl|lia].
Qed.

(** What a load makes of the values it collected, the owner apart. *)
Lemma load_collected s s0 data fl ol il o :
  store_ok s → fl ≡ₚ (map_to_list (failures_ s)).*2 → ol ≡ₚ map_to_list (ops_ s) →
  il ≡ₚ entry_view <$> map_to_list (idem_ s) → data ≠ [] →
  load_loop (length data) data 0 (pending0 (ownership_ s0))
  = (true, MkPending fl ol il (N.of_nat (length fl), N.of_nat (length ol), N.of_nat (length il))
             false o) →
  load (Some data) s0
  = (true, MkStore (failures_ s) (ops_ s) (forget_authority <$> idem_ s) ownership0).
Proof.
  intros Hs Hfl Hol Hil Hne Hl. unfold load. destruct data as [|b data]; [done|].
  rewrite Hl. cbn [negb].
  unfold counts_match. cbn [counts frs orts idents own]. rewrite !N.eqb_refl. cbn [andb negb].
  rewrite (load_failures_map _ _ (ok_failures s Hs) Hfl).
  destruct (load_ops_map _ _ Hol) as [Hnd ->]. rewrite bool_decide_eq_true_2 by done. cbn [negb].
  by rewrite (foldl_idem_restore _ _ Hil).
Qed.

(** Loading an image of a well-formed store. *)
Lemma load_image s s0 data :
  store_ok s → saves s data →
  load (Some data) s0
  = (true, MkStore (failures_ s) (ops_ s) (forget_authority <$> idem_ s) ownership0).
Proof.
  intros Hs Hd.
  destruct (image_load_loop s data (ownership_ s0) Hs Hd)
    as (fl & ol & il & Hfl & Hol & Hil & Hne & Hl).
  by eapply load_collected.
Qed.

(** C13: a saved store loads back: whatever order the maps are enumerated in,
    loading the image of a well-formed store succeeds from any state and
    restores the failure log and the operations exactly, and the idempotency
    entries without their authority; the recovery ownership, although it is
    saved, comes back unassigned. *)
Theorem save_load_roundtrip s s0 data :
  store_ok s → saves s data →
  load (Some data) s0
  = (true, MkStore (failures_ s) (ops_ s) (forget_authority <$> idem_ s) ownership0).
Proof. apply load_image. Qed.

(** ** Damaged images *)

(** The loop walks over the frames that are intact. *)
Lemma load_loop_prefix frames fuel data off p p' rest :
  Forall frame_ok frames → (off <= length data)%nat → drop off data = image frames ++ rest →
  load_frames p frames = Some p' →
  load_loop (length frames + fuel) data off p
  = load_loop fuel data (off + length (image frames)) p'.
Proof.
  intros Hok. revert off p. induction Hok as [|[k pl] frames [Hk Hpl] Hok IH]; intros off p Hoff Hd Hl.
  { cbn in *. rewrite Nat.add_0_r. congruence. }
  rewrite image_cons, <- app_assoc in Hd. cbn [fst snd] in *.
  pose proof (f_equal length Hd) as E. rewrite length_drop, length_app, length_encode_frame in E.
  cbn [length Nat.add load_loop]. destruct (Nat.leb_spec (length data) off); [lia|].
  rewrite (decode_frame_reads data off k pl _ Hd Hk Hpl).
  cbn [load_frames fst snd] in Hl. destruct (load_frame p _) as [p1|]; [|done].
  rewrite IH; [|lia| |done].
  - f_equal. rewrite image_cons, length_app, length_encode_frame. cbn [fst snd]. lia.
  - replace (off + 19 + length pl)%nat with (off + length (encode_frame k pl))%nat
      by (rewrite length_encode_frame; lia).
    by rewrite <- drop_drop, Hd, drop_app_length.
Qed.

(** A frame that does not decode stops the loop. *)
Lemma load_loop_stuck fuel data off p :
  (off < length data)%nat → decode_frame data off = None → load_loop fuel data off p = (false, p).
Proof.
  intros Ho Hd. destruct fuel; cbn [load_loop]; destruct (Nat.leb_spec (length data) off);
    try lia; [done|]. by rewrite Hd.
Qed.

Lemma load_loop_bad_tail frames data p p' rest :
  Forall frame_ok frames → data = image frames ++ rest → rest ≠ [] →
  load_frames p frames = Some p' → decode_frame data (length (image frames)) = None →
  load_loop (length data) data 0 p = (false, p').
Proof.
  intros Hok -> Hr Hl Hd. pose proof (length_image frames) as Hlen.
  assert (0 < length rest)%nat by (destruct rest; [done|cbn; lia]).
  replace (length (image frames ++ rest))
    with (length frames + (length (image frames ++ rest) - length frames))%nat at 1
    by (rewrite length_app; lia).
  rewrite (load_loop_prefix frames _ _ 0 p p' rest); [|done|lia|by rewrite drop_0|done].
  cbn [Nat.add]. rewrite load_loop_stuck; [done| |done]. rewrite length_app. lia.
Qed.

(** A loop that fails makes [load] fail. *)
Lemma load_loop_false data s :
  (load_loop (length data) data 0 (pending0 (ownership_ s))).1 = false →
  (load (Some data) s).1 = false.
Proof.
  intros H. unfold load. destruct data as [|b data]; [done|].
  by destruct (load_loop _ _ _ _) as [[] p].
Qed.

(** A prefix of the frames of an image loads. *)
Lemma load_frames_prefix p l1 l2 p' :
  load_frames p (l1 ++ l2) = Some p' → ∃ p1, load_frames p l1 = Some p1.
Proof. rewrite load_frames_app. destruct (load_frames p l1); [eauto|done]. Qed.

(** The frames that count: every frame but the ownership adds one entry. *)
Definition total (p : Pending) : nat := length (frs p) + length (orts p) + length (idents p).

Lemma load_frame_total p h p' :
  first p = false → kind h ≠ K_OWN → load_frame p h = Some p' →
  total p' = S (total p) ∧ counts p' = counts p ∧ first p' = false.
Proof.
  unfold load_frame. intros Hf Hk. rewrite Hf.
  destruct (kind h =? K_FAIL); [|destruct (kind h =? K_OP); [|destruct (kind h =? K_ID)]].
  - destruct (decode_failure_record _) as [[rec ?]|]; [|done]. intros [= <-].
    unfold total. cbn. rewrite length_app. cbn. split; [lia|done].
  - destruct (dec_op _) as [[o ?]|]; [|done]. intros [= <-].
    unfold total. cbn. rewrite length_app. cbn. split; [lia|done].
  - destruct (dec_idem _) as [[e ?]|]; [|done]. intros [= <-].
    unfold total. cbn. rewrite length_app. cbn. split; [lia|done].
  - apply N.eqb_neq in Hk. by rewrite Hk.
Qed.

Lemma load_frames_total frames p p' :
  first p = false → Forall (λ f, f.1 ≠ K_OWN) frames → load_frames p frames = Some p' →
  total p' = (total p + length frames)%nat ∧ counts p' = counts p.
Proof.
  intros Hf Hk. revert p Hf. induction Hk as [|f frames Hk _ IH]; intros p Hf Hl.
  { cbn in *. split; [simplify_eq; lia|congruence]. }
  cbn [load_frames] in Hl. destruct (load_frame p _) as [p1|] eqn:E; [|done].
  destruct (load_frame_total p (MkFrame f.1 f.2 _) p1 Hf Hk E) as (T & C & F).
  destruct (IH p1 F Hl) as [T' C']. cbn [length]. split; [lia|congruence].
Qed.

(** Where a cut falls: inside a frame, possibly before its first byte. *)
Lemma take_image frames n :
  (n < length (image frames))%nat →
  ∃ fs1 f fs2 m, frames = fs1 ++ f :: fs2 ∧ (m < length (encode_frame f.1 f.2))%nat ∧
    n = (length (image fs1) + m)%nat ∧
    take n (image frames) = image fs1 ++ take m (encode_frame f.1 f.2).
Proof.
  revert n. induction frames as [|f frames IH]; intros n Hn; [cbn in Hn; lia|].
  rewrite image_cons in *. destruct (decide (n < length (encode_frame f.1 f.2))%nat) as [Hl|Hl].
  - exists [], f, frames, n. split_and!; [done|done|done|]. by rewrite take_app_le by lia.
  - rewrite length_app in Hn. set (len := length (encode_frame f.1 f.2)) in *.
    destruct (IH (n - len)%nat ltac:(lia)) as (fs1 & g & fs2 & m & -> & Hm & En & Et).
    exists (f :: fs1), g, fs2, m. split_and!; [done|done| |].
    + rewrite image_cons, length_app. fold len. lia.
    + rewrite take_app_ge by (fold len; lia). fold len. by rewrite Et, image_cons, <- app_assoc.
Qed.

Lemma counts_match_total p a b c :
  counts_match p = true → counts p = (a, b, c) → N.of_nat (total p) = a + b + c.
Proof. unfold counts_match, total. intros H E. rewrite E in H. bool_simp. lia. Qed.

(** A strict prefix of the frames that stops before the last one fails the
    final count check. *)
Lemma short_image_rejected fl ol il o own0 fs1 f fs2 p1 :
  fits 32 (N.of_nat (length fl)) → fits 32 (N.of_nat (length ol)) → fits 32 (N.of_nat (length il)) →
  save_frames fl ol il o = fs1 ++ f :: fs2 → fs1 ≠ [] → fs2 ≠ [] →
  load_frames (pending0 own0) fs1 = Some p1 → counts_match p1 = false.
Proof.
  intros S1 S2 S3 E H1 H2 Hl. destruct fs1 as [|hd fs1]; [done|]. clear H1.
  destruct (exists_last H2) as (fs3 & g & ->). unfold save_frames in E.
  set (body := ((λ r, (K_FAIL, encode_failure_record r)) <$> fl) ++ ((λ p, (K_OP, op_payload p)) <$> ol)
    ++ ((λ e, (K_ID, idem_payload e)) <$> il)).
  assert ((0, header_payload (N.of_nat (length fl)) (N.of_nat (length ol)) (N.of_nat (length il)))
    :: body ++ [(K_OWN, own_payload o)] = hd :: (fs1 ++ f :: fs3) ++ [g]) as E'.
  { unfold body. rewrite <- !app_assoc. exact E. }
  clear E. injection E' as <- E'. apply app_inj_2 in E' as [Eb _]; [|done].
  assert (Forall (λ f, f.1 ≠ K_OWN) body) as Hk.
  { unfold body. rewrite !Forall_app, !Forall_fmap. split_and!; by apply Forall_true. }
  rewrite Eb, Forall_app in Hk. destruct Hk as [Hk _].
  cbn [load_frames fst snd] in Hl. unfold load_frame at 1 in Hl.
  cbn [pending0 first payload] in Hl.
  destruct (reads_reader _ _ _ (dec_header_reads _ _ _ S1 S2 S3)) as [r1 Hr]. rewrite Hr in Hl.
  apply load_frames_total in Hl as [Ht Hc]; [|done|done].
  destruct (counts_match p1) eqn:Em; [|done].
  apply (counts_match_total _ (N.of_nat (length fl)) (N.of_nat (length ol)) (N.of_nat (length il)))
    in Em; [|by rewrite Hc].
  apply (f_equal length) in Eb. unfold body in Eb.
  rewrite !length_app, !length_fmap in Eb. cbn in Eb, Ht. lia.
Qed.

Lemma load_true_loop data s :
  (load (Some data) s).1 = true →
  data ≠ [] ∧ ∃ p, load_loop (length data) data 0 (pending0 (ownership_ s)) = (true, p) ∧
                   counts_match p = true.
Proof.
  unfold load. destruct data as [|b data]; [done|]. intros H. split; [done|].
  destruct (load_loop _ _ _ _) as [[] p] eqn:E; [|done]. exists p. split; [done|].
  by destruct (counts_match p).
Qed.

Lemma frames_split s frames fs1 f fs2 own0 :
  store_ok s → frames_of s frames → frames = fs1 ++ f :: fs2 →
  Forall frame_ok fs1 ∧ frame_ok f ∧ ∃ p, load_frames (pending0 own0) fs1 = Some p.
Proof.
  intros Hs Hfr ->. destruct (frames_of_load s _ Hs Hfr) as (fl & ol & il & _ & _ & _ & _ & Hok & Hl).
  apply Forall_app in Hok as [H1 H2]. apply Forall_cons in H2 as [H2 _].
  split_and!; [done|done|]. by eapply load_frames_prefix.
Qed.

(** Only an ownership frame changes the owner, and the first frame is gone
    through as the header. *)
Lemma load_frame_own p h p' :
  load_frame p h = Some p' → first p' = false ∧ (kind h ≠ K_OWN → own p' = own p).
Proof.
  unfold load_frame. destruct (first p) eqn:E1.
  { destruct (dec_header _) as [[c r]|]; [|done]. by intros [= <-]. }
  destruct (kind h =? K_FAIL); [|destruct (kind h =? K_OP); [|destruct (kind h =? K_ID);
    [|destruct (N.eqb_spec (kind h) K_OWN); [|done]]]].
  - destruct (decode_failure_record _) as [[rec ?]|]; [|done]. by intros [= <-].
  - destruct (dec_op _) as [[o ?]|]; [|done]. by intros [= <-].
  - destruct (dec_idem _) as [[e ?]|]; [|done]. by intros [= <-].
  - destruct (dec_own _) as [[[[ow g] bt] ?]|]; [|done]. by intros [= <-].
Qed.

Lemma load_frames_own frames p p' :
  Forall (λ f, f.1 ≠ K_OWN) frames → load_frames p frames = Some p' → own p' = own p.
Proof.
  intros Hk. revert p. induction Hk as [|f frames Hk _ IH]; intros p Hl.
  { cbn in Hl. congruence. }
  cbn [load_frames] in Hl. destruct (load_frame p _) as [p1|] eqn:E; [|done].
  apply load_frame_own in E as [_ E]. by rewrite (IH p1 Hl), E.
Qed.

Lemma load_frames_first frames p p' :
  frames ≠ [] → load_frames p frames = Some p' → first p' = false.
Proof.
  intros Hne. destruct (exists_last Hne) as (fs & f & ->). rewrite load_frames_app.
  destruct (load_frames p fs) as [p1|]; [|done]. cbn [load_frames].
  destruct (load_frame p1 _) as [p2|] eqn:E; [|done]. intros [= <-]. by destruct (load_frame_own _ _ _ E).
Qed.

(** The frames before the last one of an image are not ownership frames. *)
Lemma save_frames_init fl ol il o fs1 f fs2 :
  save_frames fl ol il o = fs1 ++ f :: fs2 →
  Forall (λ f, f.1 ≠ K_OWN) fs1 ∧ (fs2 = [] → fs1 ≠ [] ∧ f = (K_OWN, own_payload o)).
Proof.
  intros E. destruct fs2 as [|g fs2] using rev_ind.
  - assert (Forall (λ f, f.1 ≠ K_OWN) fs1 ∧ fs1 ≠ [] ∧ f = (K_OWN, own_payload o)) as (? & ? & ?); [|by split].
    unfold save_frames in E. rewrite !app_assoc in E. apply app_inj_2 in E as [<- E]; [|done].
    split_and!; [|done|congruence]. rewrite !Forall_app, !Forall_fmap, Forall_singleton.
    split_and!; try by apply Forall_true. done.
  - split; [|by intros [_ ?]%app_nil]. clear IHfs2. unfold save_frames in E.
    rewrite !app_assoc, app_comm_cons, app_assoc in E. apply app_inj_2 in E as [E _]; [|done].
    assert (Forall (λ f, f.1 ≠ K_OWN) (fs1 ++ f :: fs2)) as [H _]%Forall_app; [|done].
    rewrite <- E, !Forall_app, !Forall_fmap, Forall_singleton.
    split_and!; try by apply Forall_true. done.
Qed.

(** A refused load that met no ownership frame leaves the store as it was. *)
Lemma load_refused_same data s ok p :
  load_loop (length data) data 0 (pending0 (ownership_ s)) = (ok, p) → own p = ownership_ s →
  ok = false ∨ counts_match p = false → load (Some data) s = (false, s).
Proof.
  intros Hl Ho Hc. unfold load. destruct data as [|b data]; [done|]. rewrite Hl, Ho.
  destruct s. destruct ok; cbn [negb]; [|done]. by destruct Hc as [| ->].
Qed.

(** The values collected before the ownership frame of an image. *)
Lemma frames_before_owner s own0 fs1 fl ol il p :
  load_frames (pending0 own0) fs1 = Some p → fs1 ≠ [] →
  load_frames (pending0 own0) (fs1 ++ [(K_OWN, own_payload (ownership_ s))])
  = Some (MkPending fl ol il (N.of_nat (length fl), N.of_nat (length ol), N.of_nat (length il))
            false (adopt own0 (owner_ (ownership_ s)) (generation_ (ownership_ s))
                     (boot_ (ownership_ s)) authority0).2) →
  p = MkPending fl ol il (N.of_nat (length fl), N.of_nat (length ol), N.of_nat (length il))
        false (own p).
Proof.
  intros Hp Hne. rewrite load_frames_app, Hp. cbn [load_frames fst snd].
  pose proof (load_frames_first _ _ _ Hne Hp) as Hf. unfold load_frame. rewrite Hf.
  cbn [payload kind]. destruct (dec_own _) as [[[[ow g] bt] r]|]; [|done].
  destruct p as [a b c d e o]. cbn in *. by intros [= -> -> -> -> -> _].
Qed.

(** What an image cut short loads as: nothing, unless exactly the ownership
    frame is missing. *)
Lemma cut_image_load s s0 frames n :
  store_ok s → frames_of s frames → (n < length (image frames))%nat →
  load (Some (take n (image frames))) s0 = (false, s0) ∨
  (∃ fs1, frames = fs1 ++ [(K_OWN, own_payload (ownership_ s))] ∧ n = length (image fs1)) ∧
  load (Some (take n (image frames))) s0
  = (true, MkStore (failures_ s) (ops_ s) (forget_authority <$> idem_ s) ownership0).
Proof.
  intros Hs Hfr Hn. destruct (take_image frames n Hn) as (fs1 & f & fs2 & m & E & Hm & En & Et).
  destruct (frames_split s frames fs1 f fs2 (ownership_ s0) Hs Hfr E) as (H1 & [Hk Hpl] & p & Hp).
  destruct (frames_of_load s frames Hs Hfr) as (fl & ol & il & Hfl & Hol & Hil & Hsf & _ & Hl).
  rewrite Hsf in E. destruct (save_frames_init _ _ _ _ _ _ _ E) as [Hno Hlast].
  pose proof (load_frames_own fs1 _ p Hno Hp) as Hown. rewrite Et. destruct m as [|m].
  - cbn [take]. rewrite app_nil_r, Nat.add_0_r in *.
    assert (load_loop (length (image fs1)) (image fs1) 0 (pending0 (ownership_ s0)) = (true, p)) as Hloop
      by (apply (load_loop_frames fs1); try done; [lia|pose proof (length_image fs1); lia]).
    destruct (ok_sizes s Hs) as (S1 & S2 & S3).
    destruct (decide (fs2 = [])) as [->|H2].
    + destruct (Hlast eq_refl) as [Hne ->]. right. split; [exists fs1; by rewrite Hsf, E|].
      specialize (Hl (ownership_ s0)). rewrite Hsf, E in Hl.
      rewrite (frames_before_owner s _ fs1 fl ol il p Hp Hne Hl) in Hloop.
      eapply load_collected; [done|exact Hfl|exact Hol|exact Hil| |exact Hloop].
      intros En0. pose proof (length_image fs1) as Hi. rewrite En0 in Hi. destruct fs1; [done|cbn in Hi; lia].
    + left. destruct (decide (fs1 = [])) as [->|H3]; [done|].
      eapply load_refused_same; [exact Hloop|done|]. right. eapply short_image_rejected; [..|exact E|done|done|exact Hp];
        unfold fits; by rewrite ?Hfl, ?Hol, ?Hil, ?length_fmap, ?length_map_to_list.
  - left. eapply (load_refused_same _ _ false p); [|done|by left].
    apply (load_loop_bad_tail fs1 _ _ p (take (S m) (encode_frame f.1 f.2)));
      [done|done| |done|by apply truncated_frame_rejected].
    intros E0. apply (f_equal length) in E0. rewrite length_take, length_encode_frame in E0.
    cbn in E0. lia.
Qed.

(** C18: a damaged snapshot does not load. Replacing any byte of any frame,
    outside the length field of the frame, makes the load fail; and an image
    cut short at any byte does not load either, unless what is missing is
    exactly the last frame, the recovery ownership, which no count covers. *)
Theorem damaged_image_rejected s s0 frames :
  store_ok s → frames_of s frames →
  (∀ fs1 f fs2 l1 b c l2, frames = fs1 ++ f :: fs2 → encode_frame f.1 f.2 = l1 ++ b :: l2 →
    b ≠ c → (length l1 < 7 ∨ 11 <= length l1)%nat →
    (load (Some (image fs1 ++ (l1 ++ c :: l2) ++ image fs2)) s0).1 = false) ∧
  (∀ n, (n < length (image frames))%nat → (load (Some (take n (image frames))) s0).1 = true →
    ∃ fs1, frames = fs1 ++ [(K_OWN, own_payload (ownership_ s))] ∧ n = length (image fs1)).
Proof.
  intros Hs Hfr. split.
  - intros fs1 f fs2 l1 b c l2 E Ef Hbc Hi.
    destruct (frames_split s frames fs1 f fs2 (ownership_ s0) Hs Hfr E) as (H1 & [_ Hpl] & p & Hp).
    apply load_loop_false. rewrite (load_loop_bad_tail fs1 _ _ p ((l1 ++ c :: l2) ++ image fs2));
      [done|done|done|by destruct l1|done|].
    rewrite <- (app_assoc l1). by apply (corrupted_frame_rejected _ f.1 f.2 l1 b c).
  - intros n Hn Hload. destruct (cut_image_load s s0 frames n Hs Hfr Hn) as [E|[H _]]; [|done].
    by rewrite E in Hload.
Qed.

(** C37: a failed load leaves the failure log, the operations and the
    idempotency entries as they were. The recovery ownership alone can be
    taken by a load that fails later: an image with an ownership frame and a
    wrong count is refused, and its owner is installed all the same. *)
Theorem load_failure_atomic :
  (∀ file s, (load file s).1 = false →
     failures_ (load file s).2 = failures_ s ∧ ops_ (load file s).2 = ops_ s ∧
     idem_ (load file s).2 = idem_ s) ∧
  (let o := MkOwnership RecoveryOwner.OPERATOR (MkGeneration 7) null_id in
   load (Some (image [(0, header_payload 1 0 0); (K_OWN, own_payload o)])) store0
   = (false, MkStore ∅ ∅ ∅ o)).
Proof.
  split; [|vm_compute; reflexivity]. intros file s. unfold load.
  destruct file as [[|b data]|]; [done| |done].
  destruct (load_loop _ _ _ _) as [[] p]; [|done]. cbn [negb].
  destruct (counts_match p); [|done]. cbn [negb].
  destruct (emplace_all (frs p) ∅); [|done]. by destruct (bool_decide _).
Qed.

(** ** The failure log *)
Definition append_run (s : FailureStore) (recs : list FailureRecord) : FailureStore :=
  foldl (λ s r, (append_failure r s).2) s recs.

(** What the log accepts. *)
Definition loggable (rec : FailureRecord) : Prop :=
  fr_failure_id rec ≠ null_id ∧ fr_operation rec ≠ null_id ∧ fr_attempt rec ≠ null_id ∧
  validate_authority (fr_authority rec) = true.

Variant appended (rec : FailureRecord) (s : FailureStore) : bool * FailureStore → Prop :=
  | append_refused :
      is_Some (failures_ s !! fr_failure_id rec) ∨ ¬ loggable rec → appended rec s (false, s)
  | append_taken :
      failures_ s !! fr_failure_id rec = None → loggable rec →
      appended rec s (true, MkStore (<[fr_failure_id rec := rec]> (failures_ s)) (ops_ s)
                              (idem_ s) (ownership_ s)).

Lemma append_failure_spec rec s : appended rec s (append_failure rec s).
Proof.
  unfold append_failure, loggable.
  destruct (is_null (fr_failure_id rec)) eqn:E1.
  { constructor. right. intros (H & _). by apply is_null_spec in E1. }
  destruct (bool_decide _) eqn:E2; bool_simp; [constructor; by left|].
  destruct (is_null (fr_operation rec) || _) eqn:E3.
  { constructor. right. intros (_ & H2 & H3 & _).
    apply orb_true_iff in E3 as [E3|E3]; by apply is_null_spec in E3. }
  apply orb_false_iff in E3 as [E3 E4]. apply is_null_false in E1, E3, E4.
  destruct (validate_authority _) eqn:E5; cbn [negb].
  - constructor; [by apply eq_None_not_Some|by repeat split].
  - constructor. right. intros (_ & _ & _ & H). congruence.
Qed.

(** The failure log is append-only: along any sequence of appends every
    record once committed stays, unchanged, under its identity, every new
    record is one that was appended under its own non-null identity with an
    operation, an attempt and a valid authority, and nothing else of the store
    is touched. *)
Lemma failure_log_append_only s recs :
  let t := append_run s recs in
  failures_ s ⊆ failures_ t ∧
  (∀ id r, failures_ t !! id = Some r →
     failures_ s !! id = Some r ∨ (r ∈ recs ∧ fr_failure_id r = id ∧ loggable r)) ∧
  (∀ r, r ∈ recs → loggable r → is_Some (failures_ t !! fr_failure_id r)) ∧
  ops_ t = ops_ s ∧ idem_ t = idem_ s ∧ ownership_ t = ownership_ s.
Proof.
  cbv zeta. revert s. induction recs as [|rec recs IH]; intros s.
  { split_and!; try done; [by left|]. intros r Hr. by apply not_elem_of_nil in Hr. }
  change (append_run s (rec :: recs)) with (append_run (append_failure rec s).2 recs).
  destruct (append_failure_spec rec s) as [Hno|Hnone Hlog]; cbn [snd].
  - destruct (IH s) as (H1 & H2 & H3 & H4). split_and!; try apply H4; [done| |].
    + intros id r Hr. destruct (H2 id r Hr) as [|(? & ? & ?)]; [by left|right].
      split; [by constructor|]. by split.
    + intros r Hr Hl. apply elem_of_cons in Hr as [->|Hr]; [|by apply H3].
      destruct Hno as [[r' Hr']|]; [|done]. exists r'. by eapply lookup_weaken.
  - destruct (IH (MkStore (<[fr_failure_id rec := rec]> (failures_ s)) (ops_ s) (idem_ s)
      (ownership_ s))) as (H1 & H2 & H3 & H4). cbn [failures_ ops_ idem_ ownership_] in *.
    split_and!; try apply H4.
    + etransitivity; [by apply insert_subseteq|exact H1].
    + intros id r Hr. destruct (H2 id r Hr) as [Hi|(? & ? & ?)].
      * apply lookup_insert_Some in Hi as [[<- <-]|[_ Hi]]; [right|by left].
        split; [by constructor|]. by split.
      * right. split; [by constructor|]. by split.
    + intros r Hr Hl. apply elem_of_cons in Hr as [->|Hr]; [|by apply H3].
      exists rec. eapply lookup_weaken; [|exact H1]. by rewrite lookup_insert_eq.
Qed.

(** ** A concrete store *)
Definition sample_id : FailureId := MkId (Uuid128 (vreplicate 16 Byte.x01)).
Definition sample_attempt : AttemptId := MkId (Uuid128 (vreplicate 16 Byte.x02)).

Definition sample_record : FailureRecord :=
  failure_record0 <| fr_failure_id := sample_id |> <| fr_operation := op1 |>
    <| fr_attempt := sample_attempt |> <| fr_summary := "disk full" |>
    <| fr_dependencies := [sample_id] |>.

Definition sample_store : FailureStore :=
  MkStore {[ sample_id := sample_record ]} {[ op1 := running_rt ]}
    {[ (op1, key1) := MkEntry 9 IdempotencyState.COMPLETED "done" auth1 ]}
    (MkOwnership RecoveryOwner.COORDINATOR (MkGeneration 3) boot_a).

Definition sample_frames : list (N * list byte) :=
  save_frames [sample_record] [(op1, running_rt)]
    [MkEntryView op1 key1 9 IdempotencyState.COMPLETED "done"] (ownership_ sample_store).

Lemma sample_store_ok : store_ok sample_store.
Proof.
  constructor; unfold sample_store; cbn [failures_ ops_ idem_ ownership_];
    rewrite ?map_Forall_singleton, ?map_size_singleton.
  - repeat split; vm_compute; congruence || lia.
  - repeat split; vm_compute; congruence.
  - repeat split; vm_compute; congruence.
  - reflexivity.
  - repeat split; vm_compute; congruence.
Qed.

Lemma sample_frames_of : frames_of sample_store sample_frames.
Proof.
  exists [sample_record], [(op1, running_rt)], [MkEntryView op1 key1 9 IdempotencyState.COMPLETED "done"].
  unfold sample_store. cbn [failures_ ops_ idem_]. by rewrite !map_to_list_singleton.
Qed.

Lemma save_load_roundtrip_witness :
  let (ok, s) := load (Some (image sample_frames)) store0 in
  ok = true ∧ find_failure sample_id s = Some sample_record ∧ ownership_ s = ownership0.
Proof.
  rewrite (save_load_roundtrip sample_store store0 (image sample_frames) sample_store_ok
    (ex_intro _ sample_frames (conj sample_frames_of eq_refl))).
  split_and!; [reflexivity|apply lookup_singleton_eq|reflexivity].
Defined.

Lemma damaged_image_rejected_witness :
  (load (Some (take 40 (image sample_frames))) store0).1 = false.
Proof.
  destruct (damaged_image_rejected sample_store store0 sample_frames sample_store_ok sample_frames_of)
    as [_ H].
  apply not_true_iff_false. intros Ht.
  destruct (H 40%nat) as (fs1 & E & En); [vm_compute; lia|exact Ht|].
  unfold sample_frames, save_frames in E. cbn [app fmap list_fmap] in E.
  do 4 (destruct fs1 as [|? fs1]; [discriminate|cbn in E; injection E as <- E]).
  destruct fs1; [vm_compute in En; discriminate|]. destruct fs1; discriminate.
Defined.

(** A record the log accepts and [save] writes, but no load reads back: it has
    more dependencies than the decoder's guard allows. *)
Definition wide_record : FailureRecord :=
  sample_record <| fr_dependencies := replicate (N.to_nat 4097) sample_id |>.

Lemma wide_record_undecodable :
  decode_failure_record (reader (encode_failure_record wide_record)) = None.
Proof. vm_compute. reflexivity. Qed.

(** A frame that decodes but is not accepted stops the loop as well. *)
Lemma load_frames_stuck frames p :
  Forall frame_ok frames → load_frames p frames = None →
  ∀ fuel data off, (off <= length data)%nat → drop off data = image frames →
    (load_loop fuel data off p).1 = false.
Proof.
  intros Hok. revert p. induction Hok as [|[k pl] frames [Hk Hpl] Hok IH]; intros p Hl fuel data off Ho Hd;
    [done|].
  rewrite image_cons in Hd. cbn [fst snd] in *.
  pose proof (f_equal length Hd) as E. rewrite length_drop, length_app, length_encode_frame in E.
  destruct fuel as [|fuel]; cbn [load_loop]; destruct (Nat.leb_spec (length data) off); try lia; [done|].
  rewrite (decode_frame_reads data off k pl _ Hd Hk Hpl).
  cbn [load_frames fst snd] in Hl. destruct (load_frame p _) as [p1|]; [|done].
  apply IH; [done|lia|].
  replace (off + 19 + length pl)%nat with (off + length (encode_frame k pl))%nat
    by (rewrite length_encode_frame; lia).
  by rewrite <- drop_drop, Hd, drop_app_length.
Qed.

Lemma wide_record_unloadable s :
  (append_failure wide_record store0).1 = true ∧
  (load (Some (image (save_frames [wide_record] [] [] ownership0))) s).1 = false.
Proof.
  split; [vm_compute; reflexivity|]. apply load_loop_false.
  apply (load_frames_stuck (save_frames [wide_record] [] [] ownership0)).
  - unfold save_frames. cbn [app fmap list_fmap]. repeat apply Forall_cons_2; try apply Forall_nil_2;
      (split; [reflexivity|]);
      [apply header_payload_ok | vm_compute; reflexivity | apply own_payload_ok].
  - unfold save_frames. cbn [app fmap list_fmap load_frames fst snd].
    unfold load_frame at 1. cbn [pending0 first payload].
    destruct (reads_reader _ _ _ (dec_header_reads 1 0 0 eq_refl eq_refl eq_refl)) as [r1 Hr].
    change (dec_header _) with (dec_header (reader (header_payload 1 0 0))). rewrite Hr.
    unfold load_frame. cbn [first payload kind set_field]. by rewrite wide_record_undecodable.
  - lia.
  - by rewrite drop_0.
Qed.

(** A summary longer than 65535 bytes is written as the empty string. *)
Lemma long_string_lost s :
  0xFFFF < N.of_nat (String.length s) → w_str16 s = w_str16 EmptyString.
Proof. intros Hs. unfold w_str16. apply N.ltb_lt in Hs. by rewrite Hs. Qed.
