(* ===== verification/Protocol.v ===== *)
(** * The wire protocol ([include/failure_fabric/protocol.hpp],
    [src/protocol.cpp])

    Messages, their encoding, and the framed send and receive over a stream
    socket. The socket itself is a parameter: [sys_send] and [sys_recv] stand
    for Winsock's [send] and [recv], of which only the documented behaviour is
    assumed, in [stream_laws]. *)
From S2P Require Import Prelude Ident Enums Authority Codec RecordCodec.

Local Open Scope N_scope.

Record WireMessage := MkMessage {
  type : ProtocolMessage.t;
  m_op : OperationId;
  m_attempt : AttemptId;
  m_worker : WorkerId;
  m_boot : WorkerBootId;
  m_authority : AuthorityEnvelope;
  flag : bool;
  text : string;
  seq : N;
}.

#[export] Instance WireMessage_settable : Settable WireMessage := λ m,
  MkMessage (type m) (m_op m) (m_attempt m) (m_worker m) (m_boot m) (m_authority m) (flag m)
    (text m) (seq m).

Definition message0 : WireMessage :=
  MkMessage ProtocolMessage.HEARTBEAT null_id null_id null_id null_id authority0 false "" 0.

Definition encode_wire (m : WireMessage) : list byte :=
  w_enumv (enum_to_u32 (type m)) ++ w_uuid (raw (m_op m)) ++ w_uuid (raw (m_attempt m))
  ++ w_uuid (raw (m_worker m)) ++ w_uuid (raw (m_boot m)) ++ enc_auth (m_authority m)
  ++ w_bool (flag m) ++ w_str16 (text m) ++ w_u64 (seq m).

Definition wire_fields : D WireMessage :=
  t ← r_enum ProtocolMessage.t 16;
  op ← r_id; att ← r_id; wk ← r_id; bt ← r_id; auth ← auth_fields;
  fl ← r_bool; tx ← r_str16; sq ← r_u64; _ ← check_ok;
  mret (MkMessage t op att wk bt auth fl tx sq).

Definition decode_wire (data : list byte) : option WireMessage :=
  match wire_fields (reader data) with Some (m, _) => Some m | None => None end.

(** The frame a message travels in: the kind byte repeats its type. *)
Definition message_frame (m : WireMessage) : list byte :=
  encode_frame (wrap 8 (enum_to_u32 (type m))) (encode_wire m).

Definition INT_MAX : N := 2147483647.

(** [n > INT_MAX ? INT_MAX : n]. *)
Definition at_most_int_max (n : nat) : nat := N.to_nat (N.min (N.of_nat n) INT_MAX).

(** ** Messages round trip *)
Definition message_ok (m : WireMessage) : Prop :=
  auth_fits (m_authority m) ∧ str16_ok (text m) ∧ fits 64 (seq m).

Lemma wire_fields_reads m : message_ok m → reads wire_fields (encode_wire m) m.
Proof.
  intros (Ha & Ht & Hs). destruct m as [t op att wk bt auth fl tx sq].
  unfold wire_fields, encode_wire.
  cbn [type m_op m_attempt m_worker m_boot m_authority flag text seq] in *.
  do 8 read_field. rewrite <- (app_nil_r (w_u64 sq)). do 2 read_field. apply reads_ret.
Qed.

Lemma decode_encode_wire m : message_ok m → decode_wire (encode_wire m) = Some m.
Proof.
  intros Hm. unfold decode_wire, reader.
  rewrite (wire_fields_reads m Hm (encode_wire m) 0%nat [] (Nat.le_0_l _)); [done|].
  by rewrite app_nil_r.
Qed.

Lemma length_encode_wire m : N.of_nat (length (encode_wire m)) <= 70000.
Proof.
  assert (N.of_nat (length (w_str16 (text m))) <= 65537) as Ht.
  { unfold w_str16. destruct (N.ltb_spec 0xFFFF (N.of_nat (String.length (text m)))).
    - rewrite length_w_u16. lia.
    - unfold w_bytes. rewrite length_app, length_w_u16, length_list_byte. lia. }
  unfold encode_wire, enc_auth, w_enumv, w_u32, w_u64, w_generation, w_bool, w_u8, w_uuid, w_bytes.
  rewrite !length_app, !length_vec_to_list, !length_put_be. cbn [length]. unfold w_u64.
  rewrite ?length_put_be. lia.
Qed.

Lemma encode_wire_payload_ok m : payload_ok (encode_wire m).
Proof.
  unfold payload_ok, fits. pose proof (length_encode_wire m).
  change (2 ^ 32) with 4294967296. lia.
Qed.

(** ** Sockets *)
Section socket.
  Context {Net : Type}.
  (** [::send]: the bytes accepted, or a non-positive result. *)
  Context (sys_send : Net → list byte → option nat * Net).
  (** [::recv] for at most [n] bytes: the bytes delivered, or a non-positive
      result (closed connection or error). *)
  Context (sys_recv : Net → nat → option (list byte) * Net).

(** [send_all]; each round sends at least one byte, so [length p] rounds are
    enough fuel. *)
Fixpoint send_all_loop (fuel : nat) (net : Net) (p : list byte) : bool * Net :=
  match p, fuel with
  | [], _ => (true, net)
  | _, O => (false, net)
  | _, S fuel =>
      match sys_send net (take (at_most_int_max (length p)) p) with
      | (None, net) => (false, net)
      | (Some sent, net) => send_all_loop fuel net (drop sent p)
      end
  end.

Definition send_all (net : Net) (p : list byte) : bool * Net := send_all_loop (length p) net p.

(** [recv_all] into a buffer of [n] bytes. *)
Fixpoint recv_all_loop (fuel : nat) (net : Net) (n : nat) : option (list byte) * Net :=
  match n, fuel with
  | O, _ => (Some [], net)
  | _, O => (None, net)
  | _, S fuel =>
      match sys_recv net (at_most_int_max n) with
      | (None, net) => (None, net)
      | (Some got, net) =>
          let '(rest, net) := recv_all_loop fuel net (n - length got) in
          (rest' ← rest; Some (got ++ rest'), net)
      end
  end.

Definition recv_all (net : Net) (n : nat) : option (list byte) * Net := recv_all_loop n net n.

Definition send_frame (net : Net) (m : WireMessage) : bool * Net := send_all net (message_frame m).

(** The header [recv_frame] checks before it trusts the length. *)
Definition recv_header : D N :=
  magic ← r_u32; _ ← reject_if (negb (magic =? kFFMagic));
  ver ← r_u16; _ ← reject_if (negb (ver =? kFFVersion));
  _ ← r_u8; len ← r_u32; _ ← check_ok;
  _ ← reject_if (32 * 1024 * 1024 <? len);
  mret len.

Definition recv_frame (net : Net) : option WireMessage * Net :=
  match recv_all net 11 with
  | (None, net) => (None, net)
  | (Some hdr, net) =>
      match recv_header (reader hdr) with
      | None => (None, net)
      | Some (len, _) =>
          match recv_all net (N.to_nat (wrap 32 (len + 8))) with
          | (None, net) => (None, net)
          | (Some body, net) =>
              (match decode_frame (hdr ++ body) 0 with
               | None => None
               | Some (fh, _) => decode_wire (payload fh)
               end, net)
          end
      end
  end.

(** ** What a stream socket promises

    [incoming] are the bytes still to be delivered and [outgoing] the bytes
    accepted so far. A call transfers at least one byte or fails, and never
    more than asked for; a receive fails only at the end of the stream (a
    connection that is reset while bytes are pending is outside the model). *)
Class stream_laws (incoming outgoing : Net → list byte) : Prop := {
  recv_some net n got net' : (0 < n)%nat → sys_recv net n = (Some got, net') →
    got ≠ [] ∧ (length got <= n)%nat ∧ incoming net = got ++ incoming net';
  recv_none net n net' : (0 < n)%nat → sys_recv net n = (None, net') → incoming net = [];
  send_some net p k net' : p ≠ [] → sys_send net p = (Some k, net') →
    (0 < k <= length p)%nat ∧ outgoing net' = outgoing net ++ take k p;
  send_none net p net' : sys_send net p = (None, net') → outgoing net' = outgoing net;
}.

(** ** Sequences of messages *)

(** A receiver that takes [n] messages, stopping at the first failure. *)
Fixpoint recv_messages (n : nat) (net : Net) : option (list WireMessage) * Net :=
  match n with
  | O => (Some [], net)
  | S n =>
      match recv_frame net with
      | (None, net) => (None, net)
      | (Some m, net) =>
          let '(ms, net) := recv_messages n net in (ms' ← ms; Some (m :: ms'), net)
      end
  end.

(** A sender that sends messages in order, stopping at the first failure. *)
Fixpoint send_messages (net : Net) (ms : list WireMessage) : bool * Net :=
  match ms with
  | [] => (true, net)
  | m :: ms =>
      match send_frame net m with
      | (false, net) => (false, net)
      | (true, net) => send_messages net ms
      end
  end.

(** ** The loops *)
Section loops.
  Context (incoming outgoing : Net → list byte) {laws : stream_laws incoming outgoing}.

Lemma min_int_max n : (0 < n)%nat → (0 < at_most_int_max n <= n)%nat.
Proof. intros Hn. unfold at_most_int_max, INT_MAX. lia. Qed.

Lemma send_all_loop_spec fuel net p :
  (length p <= fuel)%nat →
  ∃ k, outgoing (send_all_loop fuel net p).2 = outgoing net ++ take k p ∧
       ((send_all_loop fuel net p).1 = true → take k p = p).
Proof.
  revert net p. induction fuel as [|fuel IH]; intros net p Hf.
  { destruct p; [|cbn in Hf; lia]. exists 0%nat. by rewrite app_nil_r. }
  destruct p as [|b p]; [exists 0%nat; by rewrite app_nil_r|].
  cbn [send_all_loop]. set (q := b :: p) in *.
  assert (take (at_most_int_max (length q)) q ≠ []) as Hq.
  { intros E. apply (f_equal length) in E. rewrite length_take in E.
    pose proof (min_int_max (length q)). cbn in *. lia. }
  destruct (sys_send net (take (at_most_int_max (length q)) q)) as [[sent|] net'] eqn:E.
  - destruct (send_some _ _ _ _ Hq E) as [[H1 H2] Ho].
    rewrite length_take in H2.
    destruct (IH net' (drop sent q)) as (k & Hk & Ht); [rewrite length_drop; lia|].
    exists (sent + k)%nat. rewrite Hk, Ho, take_take, Nat.min_l by lia.
    rewrite <- app_assoc, take_take_drop. split; [done|].
    intros Hb. specialize (Ht Hb). by rewrite <- take_take_drop, Ht, take_drop.
  - exists 0%nat. rewrite (send_none _ _ _ E). cbn. by rewrite app_nil_r.
Qed.

Lemma recv_all_loop_enough fuel net n :
  (n <= fuel)%nat → (n <= length (incoming net))%nat →
  ∃ net', recv_all_loop fuel net n = (Some (take n (incoming net)), net') ∧
          incoming net' = drop n (incoming net).
Proof.
  revert net n. induction fuel as [|fuel IH]; intros net n Hf Hn.
  { destruct n; [|lia]. by exists net. }
  destruct n as [|n]; [by exists net|]. cbn [recv_all_loop].
  pose proof (min_int_max (S n) ltac:(lia)) as [Hm1 Hm2].
  destruct (sys_recv net (at_most_int_max (S n))) as [[got|] net1] eqn:E.
  - destruct (recv_some _ _ _ _ Hm1 E) as (Hg & Hl & Hi).
    assert (0 < length got)%nat by (destruct got; [done|cbn; lia]).
    rewrite Hi, length_app in Hn.
    destruct (IH net1 (S n - length got)%nat) as (net' & -> & Hd); [lia|lia|].
    exists net'. cbn. rewrite Hi, Hd, take_app_ge, drop_app_ge by lia. done.
  - apply recv_none in E; [|done]. rewrite E in Hn. cbn in Hn. lia.
Qed.

Lemma recv_all_loop_sound fuel net n got net' :
  recv_all_loop fuel net n = (Some got, net') →
  length got = n ∧ incoming net = got ++ incoming net'.
Proof.
  revert net n got net'. induction fuel as [|fuel IH]; intros net n got net' H.
  { destruct n; by simplify_eq/=. }
  destruct n as [|n]; [by simplify_eq/=|]. cbn [recv_all_loop] in H.
  pose proof (min_int_max (S n) ltac:(lia)) as [Hm1 Hm2].
  destruct (sys_recv net (at_most_int_max (S n))) as [[g|] net1] eqn:E; [|done].
  destruct (recv_some _ _ _ _ Hm1 E) as (Hg & Hl & Hi).
  destruct (recv_all_loop fuel net1 (S n - length g)) as [[rest|] net2] eqn:Er; [|done].
  destruct (IH _ _ _ _ Er) as [Hlen Hi2]. cbn in H. simplify_eq.
  rewrite length_app, Hi, Hi2, app_assoc. split; [lia|done].
Qed.


Lemma recv_header_reads k len :
  fits 8 k → len <= 32 * 1024 * 1024 → reads recv_header (frame_prefix k len) len.
Proof.
  intros Hk Hl. unfold recv_header, frame_prefix.
  assert (fits 32 len) as Hf by (unfold fits; change (2 ^ 32) with 4294967296; lia).
  read_field. eapply reads_bind_nil; [by apply reads_reject|].
  read_field. eapply reads_bind_nil; [by apply reads_reject|].
  read_field. rewrite <- (app_nil_r (w_u32 len)). do 2 read_field.
  eapply reads_bind_nil; [by apply reads_reject, N.ltb_ge|]. apply reads_ret.
Qed.

(** Whatever the chunking, one frame is taken off the stream, and no more. *)
Lemma recv_frame_of k pl rest net :
  fits 8 k → N.of_nat (length pl) <= 32 * 1024 * 1024 →
  incoming net = encode_frame k pl ++ rest →
  ∃ net', recv_frame net = (decode_wire pl, net') ∧ incoming net' = rest.
Proof.
  intros Hk Hl Hi. set (len := N.of_nat (length pl)) in *.
  assert (payload_ok pl) as Hpl by (unfold payload_ok, fits; fold len; change (2 ^ 32) with 4294967296; lia).
  assert (encode_frame k pl = frame_prefix k len ++ pl ++ w_u64 (fnv1a64 (frame_body k pl))) as Hf.
  { unfold encode_frame, w_bytes. rewrite frame_body_prefix, (wrap_small 32) by by apply payload_ok_fits.
    by rewrite <- app_assoc. }
  set (body := pl ++ w_u64 (fnv1a64 (frame_body k pl))) in *.
  assert (length body = (length pl + 8)%nat) as Hb
    by (unfold body, w_u64; by rewrite length_app, length_put_be).
  pose proof (length_frame_prefix k len) as Hp.
  rewrite Hf, <- app_assoc in Hi.
  destruct (recv_all_loop_enough 11 net 11) as (net1 & E1 & Hi1);
    [lia|rewrite Hi, !length_app; lia|].
  rewrite Hi in E1, Hi1.
  rewrite (take_app_length' (frame_prefix k len) _ 11) in E1 by done.
  rewrite (drop_app_length' (frame_prefix k len) _ 11) in Hi1 by done.
  unfold recv_frame, recv_all. rewrite E1.
  unfold reader. rewrite (recv_header_reads k len Hk Hl (frame_prefix k len) 0%nat [] (Nat.le_0_l _))
    by by rewrite app_nil_r.
  assert (N.to_nat (wrap 32 (len + 8)) = length body) as ->.
  { rewrite Hb, wrap_small; [lia|]. unfold fits. change (2 ^ 32) with 4294967296. lia. }
  destruct (recv_all_loop_enough (length body) net1 (length body)) as (net2 & E2 & Hi2);
    [lia|rewrite Hi1, length_app; lia|].
  rewrite Hi1, take_app_length in E2. rewrite Hi1, drop_app_length in Hi2.
  rewrite E2. exists net2. split; [|done].
  by rewrite <- Hf, (decode_frame_reads (encode_frame k pl) 0 k pl [])
    by (done || by rewrite app_nil_r).
Qed.

Lemma recv_messages_of ms rest net :
  Forall message_ok ms → incoming net = concat (message_frame <$> ms) ++ rest →
  ∃ net', recv_messages (length ms) net = (Some ms, net') ∧ incoming net' = rest.
Proof.
  intros Hok. revert net. induction Hok as [|m ms Hm Hok IH]; intros net Hi; [by exists net|].
  cbn [fmap list_fmap concat] in Hi. rewrite <- app_assoc in Hi. unfold message_frame at 1 in Hi.
  assert (N.of_nat (length (encode_wire m)) <= 32 * 1024 * 1024) as Hlen
    by (pose proof (length_encode_wire m); lia).
  destruct (recv_frame_of _ _ _ net (wrap_fits 8 _) Hlen Hi) as (net1 & E1 & Hi1).
  destruct (IH net1 Hi1) as (net2 & E2 & Hi2). exists net2. split; [|done].
  cbn [length recv_messages]. by rewrite E1, decode_encode_wire, E2.
Qed.

Lemma send_all_true net p :
  (send_all net p).1 = true → outgoing (send_all net p).2 = outgoing net ++ p.
Proof.
  intros H. unfold send_all in *.
  destruct (send_all_loop_spec (length p) net p (le_n _)) as (k & Hk & Ht).
  by rewrite Hk, (Ht H).
Qed.

Lemma send_messages_true ms net :
  (send_messages net ms).1 = true →
  outgoing (send_messages net ms).2 = outgoing net ++ concat (message_frame <$> ms).
Proof.
  revert net. induction ms as [|m ms IH]; intros net H; [by rewrite app_nil_r|].
  cbn [send_messages fmap list_fmap concat] in *. unfold send_frame in *.
  destruct (send_all net (message_frame m)) as [[] net1] eqn:E; [|done].
  pose proof (send_all_true net (message_frame m)) as Hs. rewrite E in Hs. cbn in Hs.
  by rewrite (IH _ H), (Hs eq_refl), <- app_assoc.
Qed.

(** C19: messages are delivered in order and intact: if every send of a list of
    representable messages succeeds, a receiver whose stream holds what was
    sent receives exactly those messages, in that order, and leaves what
    follows on the stream, however the bytes were split into segments on
    either side. *)
Theorem messages_delivered_in_order ms rest sender receiver :
  Forall message_ok ms → outgoing sender = [] →
  (send_messages sender ms).1 = true →
  incoming receiver = outgoing (send_messages sender ms).2 ++ rest →
  ∃ net', recv_messages (length ms) receiver = (Some ms, net') ∧ incoming net' = rest.
Proof.
  intros Hok Hs Hsent Hi. rewrite send_messages_true, Hs in Hi by done. by apply recv_messages_of.
Qed.

Lemma recv_header_sound :
  sound recv_header (λ bs len, ∃ k, bs = frame_prefix k len ∧ fits 8 k ∧ fits 32 len ∧
                                     len <= 32 * 1024 * 1024).
Proof.
  unfold recv_header. do 8 sound_field. apply sound_ret. unfold frame_prefix.
  repeat match goal with H : negb _ = false |- _ => apply negb_false_iff, N.eqb_eq in H end.
  subst. eexists. rewrite app_nil_r. split_and!; try done. by apply N.ltb_ge.
Qed.

Lemma recv_header_certifies : certifies recv_header.
Proof.
  unfold recv_header.
  repeat first [ apply certifies_check_then; intros ? ? ?; apply reject_ret_keeps
               | apply certifies_bind; intros ].
Qed.

Lemma recv_header_hdr hdr len r :
  length hdr = 11%nat → recv_header (reader hdr) = Some (len, r) →
  ∃ k, hdr = frame_prefix k len ∧ fits 8 k ∧ fits 32 len ∧ len <= 32 * 1024 * 1024.
Proof.
  intros Hh H. destruct (recv_header_sound _ _ _ H) as (bs & [C1 C2] & k & -> & Hk & Hf & Hl);
    [apply Nat.le_0_l|by eapply recv_header_certifies|].
  cbn [p_ pos_ reader] in *. rewrite length_frame_prefix in C2. rewrite C2 in C1.
  exists k. split_and!; try done. rewrite drop_0 in C1. rewrite C1.
  rewrite drop_ge by (rewrite Hh; done). by rewrite app_nil_r.
Qed.

Lemma frame_prefix_inj k1 l1 k2 l2 b1 b2 :
  fits 32 l1 → fits 32 l2 → frame_prefix k1 l1 ++ b1 = frame_prefix k2 l2 ++ b2 → l1 = l2 ∧ b1 = b2.
Proof.
  intros H1 H2 E. apply app_inj_1 in E as [E ->]; [|by rewrite !length_frame_prefix].
  split; [|done]. unfold frame_prefix in E. rewrite !app_assoc in E.
  apply app_inj_2 in E as [_ E]; [|done]. by apply (put_be_inj 4 32) in E.
Qed.

Lemma recv_frame_sound net m net' :
  recv_frame net = (Some m, net') →
  ∃ k pl, incoming net = encode_frame k pl ++ incoming net' ∧ decode_wire pl = Some m ∧
          N.of_nat (length pl) <= 32 * 1024 * 1024.
Proof.
  unfold recv_frame. intros H.
  destruct (recv_all net 11) as [[hdr|] net1] eqn:E1; [|done].
  apply recv_all_loop_sound in E1 as [Hh Hi1].
  destruct (recv_header (reader hdr)) as [[len r]|] eqn:Eh; [|done].
  destruct (recv_header_hdr hdr len r Hh Eh) as (k & -> & Hk & Hf & Hl).
  destruct (recv_all net1 _) as [[body|] net2] eqn:E2; [|done].
  apply recv_all_loop_sound in E2 as [Hb Hi2].
  destruct (decode_frame (frame_prefix k len ++ body) 0) as [[fh next]|] eqn:Ed; [|done].
  apply decode_frame_sound in Ed as (Ed & -> & Hn & Hk' & Hpl & _). rewrite drop_0 in Ed.
  assert (len = N.of_nat (length (payload fh))) as Hlen.
  { unfold stored_frame in Ed. rewrite frame_body_prefix, <- !app_assoc in Ed.
    apply frame_prefix_inj in Ed as [-> _]; [by apply wrap_small|done|apply wrap_fits]. }
  rewrite wrap_small in Hb by (unfold fits; change (2 ^ 32) with 4294967296; lia).
  assert (payload_ok (payload fh)) as Hok
    by (unfold payload_ok, fits; change (2 ^ 32) with 4294967296; lia).
  injection H as Hm <-. exists (kind fh), (payload fh). split_and!; [|done|lia].
  rewrite Hi1, Hi2, app_assoc, Ed, drop_ge; [rewrite app_nil_r; by rewrite stored_encode|].
  rewrite length_app, Hh, Hb. lia.
Qed.

(** The receiver never accepts or consumes anything but one frame: if
    [recv_frame] returns a message, the bytes it took off the stream are the
    encoding of one frame of at most 32 MiB whose payload decodes to that
    message, so the stream stays aligned on frame boundaries. *)
Lemma recv_frame_takes_one_frame net m net' :
  recv_frame net = (Some m, net') →
  ∃ k pl, incoming net = encode_frame k pl ++ incoming net' ∧ decode_wire pl = Some m ∧
          N.of_nat (length pl) <= 32 * 1024 * 1024.
Proof. apply recv_frame_sound. Qed.
End loops.

End socket.

(** ** A socket pair that moves three bytes at a time *)
Definition net3 : Type := list byte * list byte.

Definition three (n : nat) : nat := Nat.min n 3.

Definition send3 (net : net3) (p : list byte) : option nat * net3 :=
  match p with
  | [] => (None, net)
  | _ => (Some (three (length p)), (net.1, net.2 ++ take 3 p))
  end.

Definition recv3 (net : net3) (n : nat) : option (list byte) * net3 :=
  match net.1 with
  | [] => (None, net)
  | l => (Some (take (three n) l), (drop (three n) l, net.2))
  end.

Lemma take_three (q : list byte) : take (three (length q)) q = take 3 q.
Proof.
  unfold three. rewrite <- take_take. apply take_ge. rewrite length_take. lia.
Qed.

#[export] Instance net3_laws : stream_laws send3 recv3 fst snd.
Proof.
  split.
  - intros [[|b l] o] n got net' Hn H; [done|]. unfold recv3 in H. cbn [fst snd] in H.
    injection H as <- <-. unfold three. split_and!.
    + destruct n; [lia|]. by rewrite Nat.min_comm.
    + rewrite length_take. lia.
    + cbn [fst]. symmetry. apply take_drop.
  - intros [[|b l] o] n net' Hn H; [done|]. by unfold recv3 in H.
  - intros [i o] [|b p] k net' Hp H; [done|]. unfold send3 in H. cbn [fst snd] in H.
    injection H as <- <-. split; [unfold three; cbn [length]; lia|]. cbn [snd]. f_equal.
    symmetry. exact (take_three (b :: p)).
  - intros [i o] [|b p] net' H; unfold send3 in H; by simplify_eq.
Qed.

Definition ping : WireMessage :=
  MkMessage ProtocolMessage.HEARTBEAT null_id null_id null_id null_id authority0 true "ping" 7.

Lemma ping_ok : message_ok ping.
Proof. repeat split; vm_compute; congruence. Qed.

Lemma messages_delivered_in_order_witness :
  ∃ net', recv_messages recv3 2
            ((send_messages send3 ([], []) [message0; ping]).2.2 ++ [Byte.xff], [])
          = (Some [message0; ping], net') ∧ net'.1 = [Byte.xff].
Proof.
  apply (messages_delivered_in_order send3 recv3 fst snd [message0; ping] [Byte.xff] ([], [])).
  - repeat constructor; vm_compute; congruence.
  - reflexivity.
  - vm_compute. reflexivity.
  - reflexivity.
Defined.

Lemma recv_frame_takes_one_frame_witness :
  ∃ k pl, message_frame ping ++ [Byte.xff] = encode_frame k pl ++ [Byte.xff] ∧
          decode_wire pl = Some ping ∧ N.of_nat (length pl) <= 32 * 1024 * 1024.
Proof.
  apply (recv_frame_takes_one_frame send3 recv3 fst snd (message_frame ping ++ [Byte.xff], []) ping
    ([Byte.xff], [])).
  vm_compute. reflexivity.
Defined.
