(* ===== verification/Socket.v ===== *)
(** * Socket handles ([TcpSocket], [TcpListener] of
    [include/failure_fabric/protocol.hpp], [src/protocol.cpp])

    The two classes own Winsock handles: they are move-only and close in the
    destructor. A program that uses them is a sequence of actions on named
    objects; the process state is the objects and what Winsock knows of the
    handles. Which handle Winsock returns, and whether its calls succeed, are
    inputs; of Winsock only the documented behaviour is assumed, that a new
    handle is none of those in use and not [INVALID_SOCKET]. It may be 0, which
    the classes take for an empty object: [runs] notes whether that happened.
    The bytes are in [Protocol]. *)
From stdpp Require Import gmap.
From S2P Require Import Prelude.

Local Open Scope N_scope.

(** [SocketHandle] and Winsock's [SOCKET] are 64-bit words; [to_sock] and
    [to_handle] are casts. *)
Abbreviation SocketHandle := N.
Definition INVALID_SOCKET : SocketHandle := 2 ^ 64 - 1.

(** What Winsock knows: the handles in use, and the log of [closesocket]
    calls, each with whether the handle was in use. *)
Record Winsock := MkWinsock {
  open : gset SocketHandle;
  closed : list (SocketHandle * bool);
  init_done : bool;
}.

#[export] Instance Winsock_settable : Settable Winsock := λ w,
  MkWinsock (open w) (closed w) (init_done w).

Definition winsock0 : Winsock := MkWinsock ∅ [] false.

Definition closesocket (h : SocketHandle) (w : Winsock) : Winsock :=
  w <| open := open w ∖ {[h]} |> <| closed := closed w ++ [(h, bool_decide (h ∈ open w))] |>.

(** [::socket] and [::accept] on success. *)
Definition opened (h : SocketHandle) (w : Winsock) : Winsock := w <| open := {[h]} ∪ open w |>.

(** [startup] is whether [WSAStartup] succeeds. *)
Definition winsock_init (startup : bool) (w : Winsock) : bool * Winsock :=
  if init_done w then (true, w)
  else if startup then (true, w <| init_done := true |>) else (false, w).

Definition winsock_shutdown (w : Winsock) : Winsock :=
  if init_done w then w <| init_done := false |> else w.

(** ** [TcpSocket] *)
Definition valid (s : SocketHandle) : bool := negb (s =? 0).

Definition close (s : SocketHandle) (w : Winsock) : SocketHandle * Winsock :=
  (0, if s =? INVALID_SOCKET then w else closesocket s w).

(** [explicit TcpSocket(SocketHandle h)]. *)
Definition from_handle (h : SocketHandle) : SocketHandle := h.

(** The move constructor: the new handle and the one left behind. *)
Definition move_construct (o : SocketHandle) : SocketHandle * SocketHandle := (o, 0).

(** Move assignment; [same] is whether the operands are one object. *)
Definition move_assign (same : bool) (s o : SocketHandle) (w : Winsock)
    : SocketHandle * SocketHandle * Winsock :=
  if negb same then let '(_, w) := close s w in (o, 0, w) else (s, o, w).

(** What Winsock answers to [connect_to]: [WSAStartup], [socket], [connect]. *)
Record connect_answers := MkConnect {
  c_startup : bool;
  c_socket : option SocketHandle;
  c_connected : bool;
}.

Definition connect_to (a : connect_answers) (s : SocketHandle) (w : Winsock)
    : bool * SocketHandle * Winsock :=
  let '(ok, w) := winsock_init (c_startup a) w in
  if negb ok then (false, s, w)
  else match c_socket a with
  | None => (false, s, w)
  | Some h =>
      let w := opened h w in
      if negb (c_connected a) then (false, s, closesocket h w) else (true, h, w)
  end.

(** ** [TcpListener] *)
Record listen_answers := MkListen {
  l_startup : bool;
  l_socket : option SocketHandle;
  l_bound : bool;
  l_listening : bool;
}.

Definition listen (a : listen_answers) (s : SocketHandle) (w : Winsock)
    : bool * SocketHandle * Winsock :=
  let '(ok, w) := winsock_init (l_startup a) w in
  if negb ok then (false, s, w)
  else match l_socket a with
  | None => (false, s, w)
  | Some h =>
      let w := opened h w in
      if negb (l_bound a) then (false, s, closesocket h w)
      else if negb (l_listening a) then (false, s, closesocket h w)
      else (true, h, w)
  end.

(** The handle of the socket that [accept] returns; [answer] is Winsock's. *)
Definition accept (answer : option SocketHandle) (s : SocketHandle) (w : Winsock)
    : SocketHandle * Winsock :=
  if s =? INVALID_SOCKET then (0, w)
  else match answer with
  | None => (0, w)
  | Some h => (h, opened h w)
  end.

(** [~TcpListener]. *)
Definition destroy_listener (s : SocketHandle) (w : Winsock) : Winsock :=
  if s =? INVALID_SOCKET then w else closesocket s w.

(** ** Programs *)
Variant Obj := TcpSocket (s_ : SocketHandle) | TcpListener (s_ : SocketHandle).

Definition handle (o : Obj) : SocketHandle := match o with TcpSocket s | TcpListener s => s end.

Abbreviation Var := nat.

Record Process := MkProcess { objs : gmap Var Obj; net : Winsock }.

Definition process0 : Process := MkProcess ∅ winsock0.

Variant action :=
  | DeclareSocket (x : Var)
  | DeclareListener (x : Var)
  | Construct (x : Var) (h : SocketHandle)       (* [TcpSocket x(h);] *)
  | MoveConstruct (x y : Var)                    (* [TcpSocket x(std::move(y));] *)
  | MoveAssign (x y : Var)                       (* [x = std::move(y);] *)
  | Close (x : Var)
  | Connect (x : Var) (a : connect_answers)
  | Listen (x : Var) (a : listen_answers)
  | Accept (x l : Var) (a : option SocketHandle) (* [TcpSocket x = l.accept();] *)
  | Destroy (x : Var).                           (* the end of the scope of [x] *)

Definition declared (p : Process) (x : Var) : bool := bool_decide (is_Some (objs p !! x)).

(** An action of a program that type checks; [None] if it does not. *)
Definition act (a : action) (p : Process) : option Process :=
  match a with
  | DeclareSocket x =>
      if declared p x then None else Some (MkProcess (<[x := TcpSocket 0]> (objs p)) (net p))
  | DeclareListener x =>
      if declared p x then None else Some (MkProcess (<[x := TcpListener 0]> (objs p)) (net p))
  | Construct x h =>
      if declared p x then None
      else Some (MkProcess (<[x := TcpSocket (from_handle h)]> (objs p)) (net p))
  | MoveConstruct x y =>
      match objs p !! y with
      | Some (TcpSocket o) =>
          if declared p x then None
          else let '(s, o) := move_construct o in
               Some (MkProcess (<[x := TcpSocket s]> (<[y := TcpSocket o]> (objs p))) (net p))
      | _ => None
      end
  | MoveAssign x y =>
      match objs p !! x, objs p !! y with
      | Some (TcpSocket s), Some (TcpSocket o) =>
          let '(s, o, w) := move_assign (bool_decide (x = y)) s o (net p) in
          Some (MkProcess (<[x := TcpSocket s]> (<[y := TcpSocket o]> (objs p))) w)
      | _, _ => None
      end
  | Close x =>
      match objs p !! x with
      | Some (TcpSocket s) =>
          let '(s, w) := close s (net p) in Some (MkProcess (<[x := TcpSocket s]> (objs p)) w)
      | _ => None
      end
  | Connect x a =>
      match objs p !! x with
      | Some (TcpSocket s) =>
          let '(_, s, w) := connect_to a s (net p) in
          Some (MkProcess (<[x := TcpSocket s]> (objs p)) w)
      | _ => None
      end
  | Listen x a =>
      match objs p !! x with
      | Some (TcpListener s) =>
          let '(_, s, w) := listen a s (net p) in
          Some (MkProcess (<[x := TcpListener s]> (objs p)) w)
      | _ => None
      end
  | Accept x l a =>
      match objs p !! l with
      | Some (TcpListener s) =>
          if declared p x then None
          else let '(h, w) := accept a s (net p) in
               Some (MkProcess (<[x := TcpSocket h]> (objs p)) w)
      | _ => None
      end
  | Destroy x =>
      match objs p !! x with
      | Some (TcpSocket s) => Some (MkProcess (delete x (objs p)) (close s (net p)).2)
      | Some (TcpListener s) => Some (MkProcess (delete x (objs p)) (destroy_listener s (net p)))
      | None => None
      end
  end.

(** The handle Winsock returns in an action, if any: not in use, and not the
    error value. *)
Definition returned (a : action) : option SocketHandle :=
  match a with
  | Connect _ a => c_socket a
  | Listen _ a => l_socket a
  | Accept _ _ a => a
  | _ => None
  end.

Definition fresh_handle (p : Process) (a : action) : Prop :=
  ∀ h, returned a = Some h → h ∉ open (net p) ∧ h ≠ INVALID_SOCKET.

(** The handles that objects hold. *)
Definition holdings (p : Process) : list SocketHandle := handle <$> (map_to_list (objs p)).*2.

(** The action brings in a handle the classes cannot own: Winsock returned 0, or
    the program wrapped a number that is not a handle in use, or that an object
    holds already. *)
Definition foreign (p : Process) (a : action) : bool :=
  match a with
  | Construct _ h =>
      valid h && negb (bool_decide (h ∈ open (net p)) && negb (bool_decide (h ∈ holdings p)))
  | _ => match returned a with Some h => negb (valid h) | None => false end
  end.

(** The action connects or listens with an object that holds a handle. *)
Definition reuses (p : Process) (a : action) : bool :=
  match a with
  | Connect x _ | Listen x _ =>
      match objs p !! x with Some o => valid (handle o) | None => false end
  | _ => false
  end.

(** Runs, with whether some action reused an object and whether some action
    brought in a foreign handle. *)
Inductive runs : bool → bool → Process → Prop :=
  | run_start : runs false false process0
  | run_act a p p' r z :
      runs r z p → fresh_handle p a → act a p = Some p' →
      runs (r || reuses p a) (z || foreign p a) p'.

(** ** Ownership

    The invariant, on the handle each variable holds and on Winsock's state. *)
Definition held (p : Process) (x : Var) : SocketHandle := default 0 (handle <$> objs p !! x).

Definition upd (x : Var) (h : SocketHandle) (f : Var → SocketHandle) : Var → SocketHandle :=
  λ y, if decide (y = x) then h else f y.

Record owned (r : bool) (f : Var → SocketHandle) (w : Winsock) : Prop := {
  own_unique : ∀ x y, f x = f y → f x ≠ 0 → x = y;
  own_open : ∀ x, f x ≠ 0 → f x ∈ open w;
  own_real : 0 ∉ open w ∧ INVALID_SOCKET ∉ open w;
  own_closed : ∀ h b, (h, b) ∈ closed w → h = 0 ∨ b = true;
  own_all : r = false → ∀ h, h ∈ open w → ∃ x, f x = h;
}.

Lemma owned_ext r f g w : (∀ x, g x = f x) → owned r f w → owned r g w.
Proof.
  intros He [H1 H2 H3 H4 H5]. split; try done.
  - intros x y. rewrite !He. apply H1.
  - intros x. rewrite He. apply H2.
  - intros Hr h Hh. destruct (H5 Hr h Hh) as [x <-]. exists x. apply He.
Qed.

Lemma owned_weaken r r' f w : (r' = false → r = false) → owned r f w → owned r' f w.
Proof. intros Hr []. split; auto. Qed.

Lemma owned_init r f w b : owned r f w → owned r f (w <| init_done := b |>).
Proof. intros []. by split. Qed.

(** An object closes the handle it holds. *)
Lemma owned_close r f w x : owned r f w → owned r (upd x 0 f) (closesocket (f x) w).
Proof.
  intros [H1 H2 [H3 H3'] H4 H5]. unfold upd. split; cbn.
  - intros y z. repeat case_decide; subst; try done; eauto.
  - intros y. case_decide as Hy; [done|]. intros Hn. apply elem_of_difference. split; [eauto|].
    rewrite elem_of_singleton. intros E. apply Hy. eauto.
  - rewrite !not_elem_of_difference. eauto.
  - intros h b. rewrite elem_of_app, list_elem_of_singleton. intros [Hin|[= -> ->]]; [eauto|].
    destruct (decide (f x = 0)) as [|Hn]; [by left|right]. by apply bool_decide_eq_true, H2.
  - intros Hr h. rewrite elem_of_difference, elem_of_singleton. intros [Hh Hne].
    destruct (H5 Hr h Hh) as [y Hy]. exists y. case_decide; [subst; done|done].
Qed.

(** Nothing to close. *)
Lemma owned_release r f w x : f x = 0 → owned r f w → owned r (upd x 0 f) w.
Proof. intros Hx. apply owned_ext. intros y. unfold upd. case_decide; [by subst|done]. Qed.

(** A handle moves to an object that holds none. *)
Lemma owned_move r f w x y :
  x ≠ y → f x = 0 → owned r f w → owned r (upd x (f y) (upd y 0 f)) w.
Proof.
  intros Hne Hx [H1 H2 H3 H4 H5]. unfold upd. split; try done.
  - intros a b. repeat case_decide; subst; try done; intros E Hn; try (by apply H1 in E);
      symmetry in E; try (apply H1 in E; congruence); congruence.
  - intros a. repeat case_decide; subst; try done; eauto.
  - intros Hr h Hh. destruct (H5 Hr h Hh) as [a Ha]. destruct (decide (a = y)) as [->|Hay].
    + exists x. by rewrite decide_True.
    + destruct (decide (a = x)) as [->|Hax].
      * exists y. rewrite decide_False, decide_True by done. congruence.
      * exists a. by rewrite !decide_False.
Qed.

(** A new handle is given to an object that held [f x]. *)
Lemma owned_open_new r f w x h :
  h ∉ open w → h ≠ 0 → h ≠ INVALID_SOCKET → owned r f w →
  owned (r || valid (f x)) (upd x h f) (opened h w).
Proof.
  intros Hf H0 Hi [H1 H2 [H3 H3'] H4 H5]. unfold upd. split; cbn; try done.
  - intros a b. repeat case_decide; subst; try done; [..|by apply H1].
    + intros E Hn. exfalso. apply Hf. rewrite E. apply H2. congruence.
    + intros E Hn. exfalso. apply Hf. rewrite <- E. by apply H2.
  - intros a. case_decide; [set_solver|]. intros Hn. apply elem_of_union_r. by apply H2.
  - set_solver.
  - intros Hr y. apply orb_false_iff in Hr as [Hr Hv]. unfold valid in Hv.
    apply negb_false_iff, N.eqb_eq in Hv. rewrite elem_of_union, elem_of_singleton.
    intros [->|Hy]; [exists x; by rewrite decide_True|].
    destruct (H5 Hr y Hy) as [a Ha]. exists a. rewrite decide_False; [done|]. intros ->.
    apply H3. congruence.
Qed.

(** A handle in use that no object holds is wrapped. *)
Lemma owned_wrap r f w x h :
  h ∈ open w → (∀ y, f y ≠ h) → f x = 0 → owned r f w → owned r (upd x h f) w.
Proof.
  intros Hh Hf Hx [H1 H2 H3 H4 H5]. unfold upd. split; try done.
  - intros a b. repeat case_decide; subst; try done; [..|by apply H1].
    + intros E. by destruct (Hf b).
    + intros E. by destruct (Hf a).
  - intros a. by case_decide; [|apply H2].
  - intros Hr y Hy. destruct (H5 Hr y Hy) as [a Ha]. exists a. rewrite decide_False; [done|].
    intros ->. destruct H3 as [H3 _]. apply H3. congruence.
Qed.

(** A new handle that is closed at once. *)
Lemma owned_open_close r f w h :
  h ∉ open w → owned r f w → owned r f (closesocket h (opened h w)).
Proof.
  intros Hf [H1 H2 [H3 H3'] H4 H5].
  assert (open (closesocket h (opened h w)) = open w) as Ho by (cbn; set_solver).
  split; rewrite ?Ho; try done.
  intros h' b. cbn. rewrite elem_of_app, list_elem_of_singleton. intros [Hin|[= -> ->]]; [eauto|].
  right. apply bool_decide_eq_true. set_solver.
Qed.

(** *** The methods *)
Lemma owned_not_invalid r f w x : owned r f w → (f x =? INVALID_SOCKET) = false.
Proof.
  intros [_ H2 [_ H3] _ _]. apply N.eqb_neq. intros E. apply H3. rewrite <- E. apply H2. by rewrite E.
Qed.

Lemma owned_close_method r f w x : owned r f w → owned r (upd x 0 f) (close (f x) w).2.
Proof.
  intros H. unfold close. rewrite (owned_not_invalid r f w x H). by apply owned_close.
Qed.

Lemma winsock_init_spec b w :
  (winsock_init b w).2 = w <| init_done := init_done w || b |>.
Proof. destruct w as [o c []]; [done|]. by destruct b. Qed.

Lemma winsock_init_open b w : open (winsock_init b w).2 = open w.
Proof. by rewrite winsock_init_spec. Qed.

(** What [connect_to] and [listen] share: a new handle is kept or closed. *)
Lemma owned_connect r f w x a :
  (∀ h, c_socket a = Some h → h ∉ open w ∧ h ≠ 0 ∧ h ≠ INVALID_SOCKET) → owned r f w →
  owned (r || valid (f x)) (upd x (connect_to a (f x) w).1.2 f) (connect_to a (f x) w).2.
Proof.
  intros Hf H. unfold connect_to. pose proof (winsock_init_open (c_startup a) w) as Ho.
  assert (owned r f (winsock_init (c_startup a) w).2) as Hi
    by (rewrite winsock_init_spec; by apply owned_init).
  destruct (winsock_init _ _) as [ok w']. cbn [snd] in *. rewrite <- Ho in Hf.
  assert (∀ w, owned r f w → owned (r || valid (f x)) (upd x (f x) f) w) as Hstay.
  { intros w1 H1. eapply owned_weaken; [|eapply owned_ext; [|exact H1]].
    - intros E. by apply orb_false_iff in E as [? _].
    - intros y. unfold upd. case_decide; [by subst|done]. }
  destruct ok; [|by apply Hstay]. cbn [negb].
  destruct (c_socket a) as [h|] eqn:Eh; [|by apply Hstay].
  destruct (Hf h eq_refl) as (F1 & F2 & F3).
  destruct (c_connected a); cbn [negb fst snd].
  - by apply owned_open_new.
  - by apply Hstay, owned_open_close.
Qed.

Lemma listen_connect a s w :
  listen a s w = connect_to (MkConnect (l_startup a) (l_socket a) (l_bound a && l_listening a)) s w.
Proof.
  unfold listen, connect_to. cbn. destruct (winsock_init _ _) as [[] ?]; [|done]. cbn.
  destruct (l_socket a); [|done]. by destruct (l_bound a), (l_listening a).
Qed.

(** *** The actions *)
Lemma held_insert x o m w y :
  held (MkProcess (<[x := o]> m) w) y = upd x (handle o) (held (MkProcess m w)) y.
Proof.
  unfold held, upd. cbn. case_decide; [subst; by rewrite lookup_insert_eq|].
  by rewrite lookup_insert_ne.
Qed.

Lemma held_delete x m w y :
  held (MkProcess (delete x m) w) y = upd x 0 (held (MkProcess m w)) y.
Proof.
  unfold held, upd. cbn. case_decide; [subst; by rewrite lookup_delete_eq|].
  by rewrite lookup_delete_ne.
Qed.

Lemma held_some p x o : objs p !! x = Some o → held p x = handle o.
Proof. unfold held. by intros ->. Qed.

Lemma held_none p x : declared p x = false → held p x = 0.
Proof.
  unfold declared, held. intros H. apply bool_decide_eq_false in H.
  by destruct (objs p !! x); [destruct H|].
Qed.

(** The objects of a process do not depend on Winsock. *)
Lemma held_net m w w' y : held (MkProcess m w) y = held (MkProcess m w') y.
Proof. done. Qed.

Definition process_owned (r : bool) (p : Process) : Prop := owned r (held p) (net p).

Lemma process_owned_insert r x o p w :
  owned r (upd x (handle o) (held p)) w → process_owned r (MkProcess (<[x := o]> (objs p)) w).
Proof. apply owned_ext. intros y. by rewrite held_insert. Qed.

Lemma process_owned_delete r x p w :
  owned r (upd x 0 (held p)) w → process_owned r (MkProcess (delete x (objs p)) w).
Proof. apply owned_ext. intros y. by rewrite held_delete. Qed.

Lemma process_owned_move r x y a p w :
  owned r (upd x a (upd y 0 (held p))) w →
  process_owned r (MkProcess (<[x := TcpSocket a]> (<[y := TcpSocket 0]> (objs p))) w).
Proof.
  apply owned_ext. intros z. rewrite held_insert. unfold upd. cbn [handle].
  case_decide; [done|]. rewrite held_insert. done.
Qed.

Lemma not_holding p h : h ∉ holdings p → h ≠ 0 → ∀ y, held p y ≠ h.
Proof.
  intros Hh H0 y E. apply Hh. unfold held in E. destruct (objs p !! y) as [o|] eqn:Ey; [|by subst].
  apply list_elem_of_fmap. exists o. split; [done|]. apply list_elem_of_fmap.
  exists (y, o). by rewrite elem_of_map_to_list.
Qed.

Lemma act_owned r p a p' :
  process_owned r p → fresh_handle p a → foreign p a = false → act a p = Some p' →
  process_owned (r || reuses p a) p'.
Proof.
  intros H Hfresh Hz. assert (∀ h, returned a = Some h → h ∉ open (net p) ∧ h ≠ 0 ∧ h ≠ INVALID_SOCKET) as Hf.
  { intros h Hh. destruct (Hfresh h Hh) as [H1 H2]. split_and!; [done| |done]. intros ->.
    unfold foreign in Hz. rewrite Hh in Hz. by destruct a. }
  clear Hfresh. destruct a; cbn [act reuses]; rewrite ?orb_false_r.
  - destruct (declared p x) eqn:Ed; [done|]. intros [= <-]. apply process_owned_insert.
    apply owned_release; [by apply held_none|done].
  - destruct (declared p x) eqn:Ed; [done|]. intros [= <-]. apply process_owned_insert.
    apply owned_release; [by apply held_none|done].
  - destruct (declared p x) eqn:Ed; [done|]. intros [= <-]. apply process_owned_insert.
    apply held_none in Ed. cbn [handle]. unfold from_handle. unfold foreign, valid in Hz.
    destruct (N.eqb_spec h 0) as [->|Hh]; [by apply owned_release|]. cbn [negb andb] in Hz.
    apply negb_false_iff, andb_true_iff in Hz as [Ho Hn]. apply bool_decide_eq_true in Ho.
    apply negb_true_iff, bool_decide_eq_false in Hn.
    apply owned_wrap; [done|by apply not_holding|done|done].
  - destruct (objs p !! y) as [[o|]|] eqn:Ey; try done.
    destruct (declared p x) eqn:Ed; [done|]. intros [= <-]. apply process_owned_move.
    rewrite <- (held_some p y _ Ey : held p y = o). apply owned_move; [|by apply held_none|done].
    intros ->. unfold declared in Ed. apply bool_decide_eq_false in Ed. rewrite Ey in Ed. eauto.
  - destruct (objs p !! x) as [[s|]|] eqn:Ex; try done.
    destruct (objs p !! y) as [[o|]|] eqn:Ey; try done. unfold move_assign.
    case_bool_decide as Hxy; cbn [negb].
    + intros [= <-]. subst. rewrite Ex in Ey. injection Ey as <-. unfold process_owned.
      cbn [net]. eapply owned_ext; [|exact H]. intros z. rewrite held_insert. unfold upd.
      case_decide; [subst; by rewrite (held_some p y _ Ex)|]. rewrite held_insert. unfold upd.
      by rewrite decide_False.
    + intros [= <-]. apply process_owned_move.
      pose proof (owned_close_method r (held p) (net p) x H) as Hc.
      rewrite (held_some p x _ Ex) in Hc. cbn [handle snd close] in Hc.
      assert (upd x 0 (held p) x = 0) as Hx by (unfold upd; by rewrite decide_True).
      apply (owned_move r _ _ x y Hxy Hx) in Hc. eapply owned_ext; [|exact Hc].
      intros z. unfold upd. repeat case_decide; subst; try done.
      all: by rewrite ?(held_some p y _ Ey).
  - destruct (objs p !! x) as [[s|]|] eqn:Ex; try done. intros [= <-]. apply process_owned_insert.
    pose proof (owned_close_method r (held p) (net p) x H) as Hc.
    by rewrite (held_some p x _ Ex) in Hc.
  - destruct (objs p !! x) as [[s|]|] eqn:Ex; try done.
    pose proof (owned_connect r (held p) (net p) x a Hf H) as Hc.
    rewrite (held_some p x _ Ex) in Hc. cbn [handle] in Hc |- *.
    destruct (connect_to a s (net p)) as [[ok s'] w]. intros [= <-]. by apply process_owned_insert.
  - destruct (objs p !! x) as [[|s]|] eqn:Ex; try done. rewrite listen_connect.
    pose proof (owned_connect r (held p) (net p) x
      (MkConnect (l_startup a) (l_socket a) (l_bound a && l_listening a)) Hf H) as Hc.
    rewrite (held_some p x _ Ex) in Hc. cbn [handle] in Hc |- *.
    destruct (connect_to _ s (net p)) as [[ok s'] w]. intros [= <-]. by apply process_owned_insert.
  - destruct (objs p !! l) as [[|s]|] eqn:El; try done.
    destruct (declared p x) eqn:Ed; [done|]. apply held_none in Ed.
    assert (process_owned r (MkProcess (<[x := TcpSocket 0]> (objs p)) (net p))) as H0
      by (apply process_owned_insert, owned_release; done).
    unfold accept. destruct (s =? INVALID_SOCKET); [by intros [= <-]|].
    destruct a as [h|]; [|by intros [= <-]]. intros [= <-]. apply process_owned_insert. cbn [handle].
    destruct (Hf h eq_refl) as (F1 & F2 & F3).
    pose proof (owned_open_new r (held p) (net p) x h F1 F2 F3 H) as Hn. rewrite Ed in Hn.
    by rewrite orb_false_r in Hn.
  - destruct (objs p !! x) as [[s|s]|] eqn:Ex; try done; intros [= <-]; apply process_owned_delete;
      pose proof (owned_close_method r (held p) (net p) x H) as Hc;
      by rewrite (held_some p x _ Ex) in Hc.
Qed.

(** C26: handles are owned. Take any run of any program over the two classes,
    moves, raw-handle constructions, failures of Winsock and all, in which
    Winsock never returned the handle 0 (its documented range allows it, and the
    classes take 0 for an empty object) and the program never wrapped a number
    that is not a handle in use, or is held already ([winsock_shutdown], which
    nothing calls, is not an action): two objects never hold the same handle, a handle
    that an object holds is in use, and [closesocket] is only called on a
    handle in use, or on 0, which an empty or moved-from object passes to it.
    If no object that holds a handle connects or listens again, every handle in
    use is held by an object, so that none is left once all objects are
    gone. *)
Theorem socket_handles_owned r p (Hrun : runs r false p) :
  (∀ x y a b, objs p !! x = Some a → objs p !! y = Some b → handle a = handle b →
     handle a ≠ 0 → x = y) ∧
  (∀ x a, objs p !! x = Some a → handle a ≠ 0 → handle a ∈ open (net p)) ∧
  (∀ h was_open, (h, was_open) ∈ closed (net p) → h = 0 ∨ was_open = true) ∧
  (r = false →
     (∀ h, h ∈ open (net p) → ∃ x a, objs p !! x = Some a ∧ handle a = h) ∧
     (objs p = ∅ → open (net p) = ∅)).
Proof.
  assert (process_owned r p) as [H1 H2 [H3 _] H4 H5].
  { remember false as z eqn:Hz. revert Hz.
    induction Hrun as [|a p p' r z _ IH Hf Ha]; intros Hz; [split; try done; set_solver|].
    apply orb_false_iff in Hz as [Hz Hz']. apply (act_owned r p a); try done. by apply IH. }
  assert (r = false → ∀ h, h ∈ open (net p) → ∃ x a, objs p !! x = Some a ∧ handle a = h) as H6.
  { intros Hr h Hh. destruct (H5 Hr h Hh) as [x Hx]. unfold held in Hx. exists x.
    destruct (objs p !! x) as [a|]; [by exists a|]. cbn in Hx. by subst. }
  split_and!.
  - intros x y a b Ha Hb E Hn. apply H1; by rewrite ?(held_some _ _ _ Ha), ?(held_some _ _ _ Hb).
  - intros x a Ha Hn. specialize (H2 x). rewrite (held_some _ _ _ Ha) in H2. auto.
  - exact H4.
  - intros Hr. split; [by apply H6|]. intros Ho. apply set_eq. intros h. split; [|set_solver].
    intros Hh. destruct (H6 Hr h Hh) as (x & a & Hx & _). by rewrite Ho, lookup_empty in Hx.
Qed.

(** ** Programs that run *)
Definition fresh_check (p : Process) (a : action) : bool :=
  match returned a with
  | Some h => negb (bool_decide (h ∈ open (net p))) && negb (h =? INVALID_SOCKET)
  | None => true
  end.

Fixpoint exec (l : list action) (r z : bool) (p : Process) : option (bool * bool * Process) :=
  match l with
  | [] => Some (r, z, p)
  | a :: l =>
      if fresh_check p a
      then p' ← act a p; exec l (r || reuses p a) (z || foreign p a) p' else None
  end.

Lemma fresh_check_handle p a : fresh_check p a = true → fresh_handle p a.
Proof.
  unfold fresh_check, fresh_handle. intros H h Hh. rewrite Hh in H.
  rewrite andb_true_iff, !negb_true_iff, N.eqb_neq, bool_decide_eq_false in H. naive_solver.
Qed.

Lemma exec_runs l : ∀ r z p r' z' p', runs r z p → exec l r z p = Some (r', z', p') → runs r' z' p'.
Proof.
  induction l as [|a l IH]; intros r z p r' z' p' Hr; cbn [exec]; [by intros [= <- <- <-]|].
  destruct (fresh_check p a) eqn:Ef; [|done]. destruct (act a p) as [p1|] eqn:Ea; [|done].
  apply IH. eapply run_act; [done|by apply fresh_check_handle|done].
Qed.

(** A client that connects, moves its socket, and lets both objects go; and one
    that connects twice with one object. *)
Definition up (h : SocketHandle) : connect_answers := MkConnect true (Some h) true.

Definition moving_client : list action :=
  [DeclareSocket 0; Connect 0 (up 5); MoveConstruct 1 0; Destroy 0; Destroy 1].

Definition reconnecting_client : list action :=
  [DeclareSocket 0; Connect 0 (up 5); Connect 0 (up 6); Destroy 0].

Definition after (l : list action) : bool * bool * Process :=
  default (true, true, process0) (exec l false false process0).

Lemma after_runs l :
  match exec l false false process0 with Some _ => true | None => false end = true →
  runs (after l).1.1 (after l).1.2 (after l).2.
Proof.
  unfold after. destruct (exec l false false process0) as [[[r z] p]|] eqn:E; [|done]. intros _.
  eapply exec_runs; [apply run_start|exact E].
Qed.

Lemma socket_handles_owned_witness :
  (after moving_client).1 = (false, false) ∧ open (net (after moving_client).2) = ∅ ∧
  closed (net (after moving_client).2) = [(0, false); (5, true)].
Proof.
  split_and!; [vm_compute; reflexivity| |vm_compute; reflexivity].
  apply (socket_handles_owned (after moving_client).1.1 (after moving_client).2);
    [|vm_compute; reflexivity..].
  pose proof (after_runs moving_client) as H. apply H. vm_compute; reflexivity.
Defined.

(** Connecting again drops the handle without closing it. *)
Lemma reconnecting_leaks :
  (after reconnecting_client).1 = (true, false) ∧ objs (after reconnecting_client).2 = ∅ ∧
  open (net (after reconnecting_client).2) = {[5]}.
Proof. by vm_compute. Qed.

(** Should Winsock return 0, the object that connected looks empty, and the end
    of any object that is really empty closes its connection. *)
Definition zero_client : list action :=
  [DeclareSocket 0; Connect 0 (up 0); DeclareSocket 1; Destroy 1].

Lemma zero_handle_stolen :
  (after zero_client).1 = (false, true) ∧ objs (after zero_client).2 !! 0%nat = Some (TcpSocket 0) ∧
  closed (net (after zero_client).2) = [(0, true)] ∧ open (net (after zero_client).2) = ∅.
Proof. by vm_compute. Qed.

(** Wrapping a handle that an object holds closes it twice. *)
Definition wrapping_client : list action :=
  [DeclareSocket 0; Connect 0 (up 5); Construct 1 5; Destroy 1; Destroy 0].

Lemma wrapped_twice_closed_twice :
  (after wrapping_client).1 = (false, true) ∧
  closed (net (after wrapping_client).2) = [(5, true); (5, false)].
Proof. by vm_compute. Qed.
