(* ===== verification/Reload.v ===== *)
(** * What a load can produce ([FailureStore::load] of [src/store.cpp])

    The typing side of the snapshot format: whatever bytes a file holds, a load
    that succeeds builds a well-formed store, hence one that every later save
    and load keeps. The decoders of the payloads are shown to produce only
    values the formats can represent, and the frame loop to collect only such
    values. *)
From stdpp Require Import gmap.
From S2P Require Import Prelude Ident Enums Authority Operation Idempotency Registry FailureRecord Recovery Codec RecordCodec Store.

Local Open Scope N_scope.

(** ** The payload decoders *)
Lemma IdempotencyState_to_of_u32 n : IdempotencyState.to_u32 (IdempotencyState.of_u32 n) = n.
Proof.
  destruct (decide (4 <= n)) as [H|H].
  - unfold IdempotencyState.of_u32. rewrite lookup_ge_None_2 by (cbn; lia). cbn. lia.
  - rewrite <- (N2Nat.id n) in *. set (k := N.to_nat n) in *. clearbody k.
    do 4 (destruct k as [|k]; [reflexivity|]). lia.
Qed.

(** A decoder all of whose answers satisfy [P]. *)
Definition produces {A} (d : D A) (P : A → Prop) : Prop :=
  ∀ data a r, d (reader data) = Some (a, r) → P a.

Lemma produces_sound {A} (d : D A) W (P : A → Prop) :
  sound d W → certifies d → (∀ bs a, W bs a → P a) → produces d P.
Proof.
  intros Hs Hc HP data a r H.
  destruct (Hs _ _ _ H (Nat.le_0_l _) (Hc _ _ _ H)) as (bs & _ & Hw). by eapply HP.
Qed.

Lemma stable_enumv : stable r_enumv.
Proof. apply (codec_stable (Codec := u32_codec)). Qed.
#[export] Hint Resolve stable_enumv : codec.

Lemma sound_enumv : sound r_enumv (λ bs v, bs = w_u32 v ∧ fits 32 v).
Proof. apply (codec_sound (Codec := u32_codec)). Qed.

Lemma sound_bool : sound r_bool (λ _ _, True).
Proof.
  unfold r_bool. eapply sound_bind; [apply codec_sound|apply codec_stable|intros; apply stable_ret|].
  intros v b [-> _]. by apply sound_ret.
Qed.

Lemma sound_dec_auth : sound dec_auth (λ bs e, bs = enc_auth e ∧ auth_ok e).
Proof.
  unfold dec_auth. do 3 sound_field. apply sound_ret. rewrite app_nil_r.
  split; [done|]. split; [done|]. by apply negb_false_iff.
Qed.

Lemma stable_dec_auth : stable dec_auth.
Proof. unfold dec_auth. solve_stable. Qed.
#[export] Hint Resolve stable_dec_auth : codec.

(** One bind whose bytes are of no interest. *)
Ltac sound_value S :=
  eapply sound_bind; [apply S | solve_stable | intros; solve_stable | intros ? ? ?].

(** Proofs of soundness with a postcondition on the value only end here. *)
Lemma sound_ret_value {A} (a : A) (P : A → Prop) : P a → sound (mret a) (λ _, P).
Proof. intros. by apply sound_ret. Qed.

Lemma dec_header_produces :
  produces dec_header (λ c, fits 32 c.1.1 ∧ fits 32 c.1.2 ∧ fits 32 c.2).
Proof.
  eapply (produces_sound _ (λ _ c, fits 32 c.1.1 ∧ fits 32 c.1.2 ∧ fits 32 c.2)); [| |done].
  - unfold dec_header. do 8 sound_field. by apply sound_ret_value.
  - unfold dec_header. repeat first [apply certifies_check | apply certifies_bind; intros].
Qed.

Lemma dec_op_produces : produces dec_op (λ o, op_ok o.2).
Proof.
  eapply (produces_sound _ (λ _ o, op_ok o.2)); [| |done].
  - unfold dec_op. do 2 sound_field. sound_value sound_enumv. sound_field. sound_value sound_bool.
    sound_field. sound_value sound_bool. sound_field. do 2 sound_value sound_dec_auth. sound_field.
    apply sound_ret_value. unfold op_ok. cbn [snd machine machine_reset state_ attempt_count
      terminal_outcome authority terminal].
    rewrite OperationState_to_of_u32. naive_solver.
  - unfold dec_op. repeat first [apply certifies_check | apply certifies_bind; intros].
Qed.

Lemma dec_idem_produces : produces dec_idem entry_ok.
Proof.
  eapply (produces_sound _ (λ _, entry_ok)); [| |done].
  - unfold dec_idem. do 3 sound_field. sound_value sound_enumv. do 2 sound_field.
    apply sound_ret_value. unfold entry_ok. cbn [ev_payload_hash ev_state ev_result_metadata].
    rewrite IdempotencyState_to_of_u32. naive_solver.
  - unfold dec_idem. repeat first [apply certifies_check | apply certifies_bind; intros].
Qed.

Lemma failure_record_produces : produces decode_failure_record record_ok.
Proof.
  eapply produces_sound; [apply failure_record_sound|apply failure_record_certifies|].
  by intros ? ? [].
Qed.

(** ** The frame loop *)

(** What the locals of [load] hold between two frames. *)
Record pending_ok (p : Pending) : Prop := {
  pok_failures : Forall record_ok (frs p);
  pok_ops : Forall (λ o, op_ok o.2) (orts p);
  pok_entries : Forall entry_ok (idents p);
  pok_counts : fits 32 (counts p).1.1 ∧ fits 32 (counts p).1.2 ∧ fits 32 (counts p).2;
}.

Lemma pending0_ok o : pending_ok (pending0 o).
Proof. split; [by apply Forall_nil_2..|]. by vm_compute. Qed.

Lemma load_frame_ok p h p' : pending_ok p → load_frame p h = Some p' → pending_ok p'.
Proof.
  intros [H1 H2 H3 H4]. unfold load_frame. destruct (first p).
  { destruct (dec_header _) as [[c r]|] eqn:E; intros; simplify_eq.
    split; try done. by eapply dec_header_produces. }
  repeat (case_match; simplify_eq; try done); intros; simplify_eq; split; cbn; try done;
    apply Forall_app; (split; [done|]); apply Forall_singleton.
  - by eapply failure_record_produces.
  - by eapply dec_op_produces.
  - by eapply dec_idem_produces.
Qed.

Lemma load_loop_ok fuel data off p ok p' :
  pending_ok p → load_loop fuel data off p = (ok, p') → pending_ok p'.
Proof.
  revert off p. induction fuel as [|fuel IH]; intros off p Hp; cbn [load_loop];
    destruct (_ <=? _)%nat; intros H; simplify_eq; try done.
  destruct (decode_frame data off) as [[h next]|]; [|by simplify_eq].
  destruct (load_frame p h) as [p1|] eqn:E; [|by simplify_eq].
  eapply IH; [|exact H]. by eapply load_frame_ok.
Qed.

(** ** From the collected values to the maps *)
Lemma emplace_all_ok l (m m' : gmap FailureId FailureRecord) :
  Forall record_ok l → map_Forall (λ id r, fr_failure_id r = id ∧ record_ok r) m →
  emplace_all l m = Some m' →
  map_Forall (λ id r, fr_failure_id r = id ∧ record_ok r) m' ∧
  size m' = (size m + length l)%nat.
Proof.
  intros Hl. revert m. induction Hl as [|r l Hr Hl IH]; intros m Hm; cbn [emplace_all].
  { intros [= <-]. split; [done|]. cbn. lia. }
  destruct (m !! fr_failure_id r) eqn:E; [done|]. intros H.
  destruct (IH (<[fr_failure_id r := r]> m)) as [H1 H2]; [|done|].
  - apply map_Forall_insert_2; [by split|done].
  - split; [done|]. rewrite map_size_insert_None in H2 by done. cbn. lia.
Qed.

Lemma restore_all_ok (ol : list (OperationId * OperationRuntime)) (m : OperationRegistry) :
  Forall (λ o, op_ok o.2) ol → map_Forall (λ _, op_ok) m →
  let m' := foldl (λ m o, (restore o.1 o.2 m).2) m ol in
  map_Forall (λ _, op_ok) m' ∧ (size m' <= size m + length ol)%nat.
Proof.
  cbv zeta. intros Hl. revert m. induction Hl as [|[op rt] ol Ho Hl IH]; intros m Hm.
  { split; [done|]. cbn. lia. }
  cbn [foldl length fst snd]. unfold restore at 2 4. destruct (m !! op) eqn:E; cbn [snd].
  - destruct (IH m Hm). split; [done|lia].
  - destruct (IH (<[op := rt]> m)) as [H1 H2]; [by apply map_Forall_insert_2|].
    split; [done|]. rewrite map_size_insert_None in H2 by done. lia.
Qed.

Lemma idem_restore_all_ok (il : list EntryView) (m : IdempotencyStore) :
  Forall entry_ok il → map_Forall (λ k e, entry_ok (entry_view (k, e))) m →
  map_Forall (λ _ e, e_authority e = authority0) m →
  let m' := foldl (λ m e, idem_restore e m) m il in
  map_Forall (λ k e, entry_ok (entry_view (k, e))) m' ∧
  map_Forall (λ _ e, e_authority e = authority0) m' ∧ (size m' <= size m + length il)%nat.
Proof.
  cbv zeta. intros Hl. revert m. induction Hl as [|e il He Hl IH]; intros m Hm Ha.
  { split_and!; [done..|]. cbn. lia. }
  cbn [foldl length]. destruct (IH (idem_restore e m)) as (H1 & H2 & H3).
  - apply map_Forall_insert_2; [|done]. by destruct e.
  - by apply map_Forall_insert_2.
  - split_and!; [done..|]. etransitivity; [exact H3|]. unfold idem_restore.
    destruct (m !! (ev_op e, ev_key e)) eqn:E.
    + rewrite map_size_insert_Some by done. lia.
    + rewrite map_size_insert_None by done. lia.
Qed.

(** ** The type of a loaded store *)

(** A load that succeeds: a well-formed store, no recovery owner, and
    idempotency entries without authority. *)
Lemma load_well_formed file s t :
  load file s = (true, t) →
  store_ok t ∧ ownership_ t = ownership0 ∧ forget_authority <$> idem_ t = idem_ t.
Proof.
  unfold load. destruct file as [[|b data]|]; [done| |done].
  destruct (load_loop _ _ _ _) as [ok p] eqn:El.
  apply load_loop_ok in El as [Hf Ho Hi (C1 & C2 & C3)]; [|apply pending0_ok].
  destruct ok; [|done]. cbn [negb]. destruct (counts_match p) eqn:Ec; [|done]. cbn [negb].
  destruct (emplace_all (frs p) ∅) as [fs|] eqn:Ef; [|done].
  destruct (negb _) eqn:En; [done|]. intros [= <-].
  unfold counts_match in Ec. destruct (counts p) as [[nf no] ni]. cbn in C1, C2, C3.
  apply andb_true_iff in Ec as [Ec E3]. apply andb_true_iff in Ec as [E1 E2].
  apply N.eqb_eq in E1, E2, E3. unfold fits in *.
  destruct (emplace_all_ok _ _ _ Hf (map_Forall_empty _) Ef) as [F1 F2].
  destruct (restore_all_ok (orts p) ∅ Ho (map_Forall_empty _)) as [O1 O2].
  destruct (idem_restore_all_ok (idents p) ∅ Hi (map_Forall_empty _) (map_Forall_empty _))
    as (I1 & I2 & I3).
  change (size ∅) with 0%nat in F2, O2, I3. split; [|split; [done|]].
  - constructor; cbn [failures_ ops_ idem_ ownership_]; try done. split_and!; lia.
  - cbn [idem_]. apply map_eq. intros k. rewrite lookup_fmap.
    destruct (_ !! k) as [e|] eqn:Ek; [|done]. cbn. f_equal.
    specialize (I2 k e Ek). destruct e. unfold forget_authority. cbn in *. by f_equal.
Qed.

(** C14: loading is typed: whatever bytes a file holds and whatever the store was,
    a load that succeeds leaves a well-formed store (every record under its
    own identity with a valid authority, every string, integer, count and
    enumeration representable in the format); hence such a store loses
    nothing more: each image a save of it can write loads, into any store, as
    exactly the same store. *)
Theorem loaded_store_well_formed file s t :
  load file s = (true, t) →
  store_ok t ∧ ∀ data s', saves t data → load (Some data) s' = (true, t).
Proof.
  intros Hl. destruct (load_well_formed file s t Hl) as (Hok & Ho & Hi). split; [done|].
  intros data s' Hd. rewrite (load_image t s' data Hok Hd), Hi. destruct t. cbn in *. by rewrite Ho.
Qed.

(** The sample store, read back from an image of it. *)
Definition sample_reloaded : FailureStore := (load (Some (image sample_frames)) store0).2.

Lemma loaded_store_well_formed_witness :
  (load (Some (image sample_frames)) store0).1 = true ∧ store_ok sample_reloaded.
Proof.
  assert ((load (Some (image sample_frames)) store0).1 = true) as H by (vm_compute; reflexivity).
  split; [exact H|].
  apply (loaded_store_well_formed (Some (image sample_frames)) store0).
  unfold sample_reloaded. rewrite <- H. apply surjective_pairing.
Defined.
