(* ===== verification/Explain.v ===== *)
(** * Explanations ([include/failure_fabric/explain.hpp], [src/explain.cpp])

    The text and JSON explanations, and a reader for flat JSON objects that
    gives the JSON printers a meaning: what they print reads back as the fields
    of the record and of the decision. *)
From S2P Require Import Prelude Ident Enums Authority FailureRecord Retry Recovery.
From Stdlib Require Import Ascii.

Local Open Scope N_scope.

Definition backslash : ascii := ascii_of_N 92.
Definition quote : ascii := ascii_of_N 34.
Definition lf : ascii := ascii_of_N 10.

(** ** Printing *)

(** The [switch] of [quote_json], one character. *)
Definition escape (ch : ascii) (rest : string) : string :=
  if ascii_dec ch quote then String backslash (String quote rest)
  else if ascii_dec ch backslash then String backslash (String backslash rest)
  else if ascii_dec ch lf then String backslash (String "n" rest)
  else String ch rest.

Fixpoint escape_all (s : string) : string :=
  match s with
  | EmptyString => EmptyString
  | String ch s => escape ch (escape_all s)
  end.

Definition quote_json (s : string) : string := put [dquote; escape_all s; dquote].

Definition boolstr (b : bool) : string := if b then "true" else "false".

Definition id_hex {tag} (i : Id tag) : string := uuid128_to_hex (raw i).

Definition explain_failure (rec : FailureRecord) : string :=
  put [ "Failure "; id_hex (fr_failure_id rec); " on operation "; id_hex (fr_operation rec);
    " attempt "; id_hex (fr_attempt rec); " classified "; FailureClass.to_string (fr_failure_class rec);
    " (origin "; FailureOrigin.to_string (fr_origin rec); ", code "; dec (fr_failure_code rec);
    ", phase "; FailurePhase.to_string (fr_phase rec); ")."; newline;
    "  completion status: "; Ambiguity.to_string (fr_completion rec); newline;
    "  side-effect state: "; SideEffectState.to_string (fr_side_effect_state rec);
    " (unknown side effects: "; dec (fr_unknown_side_effects rec); ")"; newline;
    "  retryability: "; Retryability.to_string (fr_retryability rec);
    "; rollback requirement: "; RollbackRequirement.to_string (fr_rollback rec);
    "; compensation requirement: "; CompensationRequirement.to_string (fr_compensation rec);
    "; terminality: "; Terminality.to_string (fr_terminality rec); newline;
    "  recovery owner: "; RecoveryOwner.to_string (fr_recovery_owner rec); newline;
    "  authority: epoch="; dec (value (coordinator_epoch (fr_authority rec)));
    " attempt_gen="; dec (value (attempt_generation (fr_authority rec)));
    " op_gen="; dec (value (operation_generation (fr_authority rec)));
    " fail_gen="; dec (value (failure_generation (fr_authority rec)));
    " recovery_gen="; dec (value (recovery_generation (fr_authority rec))); newline;
    "  summary: "; fr_summary rec;
    if bool_decide (fr_reason rec ≠ EmptyString) then put ["  reason: "; fr_reason rec]
    else EmptyString ].

(** One [quote key quote colon] and the value, as the printers write them. *)
Definition field (key v : string) : string := put [dquote; key; dquote; ":"; v].

Definition explain_failure_json (rec : FailureRecord) : string :=
  put [ "{"; field "failure_id" (quote_json (id_hex (fr_failure_id rec))); ",";
    field "operation" (quote_json (id_hex (fr_operation rec))); ",";
    field "attempt" (quote_json (id_hex (fr_attempt rec))); ",";
    field "failure_class" (quote_json (FailureClass.to_string (fr_failure_class rec))); ",";
    field "origin" (quote_json (FailureOrigin.to_string (fr_origin rec))); ",";
    field "completion" (quote_json (Ambiguity.to_string (fr_completion rec))); ",";
    field "side_effect_state" (quote_json (SideEffectState.to_string (fr_side_effect_state rec))); ",";
    field "retryability" (quote_json (Retryability.to_string (fr_retryability rec))); ",";
    field "rollback" (quote_json (RollbackRequirement.to_string (fr_rollback rec))); ",";
    field "compensation" (quote_json (CompensationRequirement.to_string (fr_compensation rec))); ",";
    field "terminality" (quote_json (Terminality.to_string (fr_terminality rec))); ",";
    field "recovery_owner" (quote_json (RecoveryOwner.to_string (fr_recovery_owner rec))); ",";
    field "unknown_side_effects" (dec (fr_unknown_side_effects rec)); ",";
    field "summary" (quote_json (fr_summary rec)); "}" ].

(** The loop over the rejected alternatives: the reason of the same index, if
    there is one. *)
Fixpoint rejected_text (alts : list RecoveryAction.t) (reasons : list string) : string :=
  match alts with
  | [] => EmptyString
  | a :: alts =>
      put [ " "; RecoveryAction.to_string a;
            match reasons with [] => EmptyString | why :: _ => put [" ("; why; ")"] end;
            rejected_text alts (tail reasons) ]
  end.

Definition explain_decision (rec : FailureRecord) (retry : RetryDecision) (plan : RecoveryPlan) : string :=
  put [ "Retry decision: "; RetryVerdict.to_string (verdict retry);
    (if same_idempotency_key retry then " (same idempotency key)" else EmptyString);
    (if requires_fresh_attempt retry then " (fresh attempt required)" else EmptyString);
    ". Reason: "; rd_reason retry; newline;
    "Recovery plan id "; id_hex (rp_plan_id plan); " selected action ";
    RecoveryAction.to_string (rp_action plan); " (generation "; dec (value (rp_generation plan)); ").";
    newline;
    "  expected preserved: "; rp_expected_preserved plan; newline;
    "  expected discarded: "; rp_expected_discarded plan; newline;
    "  rejected alternatives:";
    rejected_text (rp_rejected_alternatives plan) (rp_rejection_reasons plan); newline;
    "  reason factors:"; put ((λ f, put [" ["; f; "]"]) <$> rp_reason_factors plan); newline ].

Definition explain_decision_json (rec : FailureRecord) (retry : RetryDecision) (plan : RecoveryPlan)
    : string :=
  put [ "{"; field "verdict" (quote_json (RetryVerdict.to_string (verdict retry))); ",";
    field "fresh_attempt" (boolstr (requires_fresh_attempt retry)); ",";
    field "same_key" (boolstr (same_idempotency_key retry)); ",";
    field "rollback_first" (boolstr (rollback_first retry)); ",";
    field "recovery_action" (quote_json (RecoveryAction.to_string (rp_action plan))); ",";
    field "recovery_generation" (dec (value (rp_generation plan))); ",";
    field "reason" (quote_json (rd_reason retry)); ",";
    field "expected_preserved" (quote_json (rp_expected_preserved plan)); ",";
    field "expected_discarded" (quote_json (rp_expected_discarded plan)); "}" ].

(** ** A reader for flat JSON objects: strings without control characters,
    unsigned integers and booleans *)
Variant json :=
  | JString (s : string)
  | JNumber (digits : string)
  | JBool (b : bool).

Definition is_control (c : ascii) : bool := N_of_ascii c <? 32.

(** The contents of a string literal, after its opening quote. *)
Fixpoint scan_string (l : string) : option (string * string) :=
  match l with
  | EmptyString => None
  | String c l =>
      if ascii_dec c quote then Some (EmptyString, l)
      else if ascii_dec c backslash then
        match l with
        | EmptyString => None
        | String e l =>
            if ascii_dec e quote then prod_map (String quote) id <$> scan_string l
            else if ascii_dec e backslash then prod_map (String backslash) id <$> scan_string l
            else if ascii_dec e "n" then prod_map (String lf) id <$> scan_string l
            else None
        end
      else if is_control c then None
      else prod_map (String c) id <$> scan_string l
  end.

Definition is_digit (c : ascii) : bool := char_between "0" c "9".

Fixpoint scan_digits (l : string) : string * string :=
  match l with
  | String c r =>
      if is_digit c then let '(d, r) := scan_digits r in (String c d, r) else (EmptyString, l)
  | EmptyString => (EmptyString, EmptyString)
  end.

Fixpoint strip_prefix (p l : string) : option string :=
  match p, l with
  | EmptyString, _ => Some l
  | String a p, String b l => if ascii_dec a b then strip_prefix p l else None
  | String _ _, EmptyString => None
  end.

Definition scan_value (l : string) : option (json * string) :=
  match strip_prefix dquote l with
  | Some l => prod_map JString id <$> scan_string l
  | None =>
      match strip_prefix "true" l, strip_prefix "false" l with
      | Some l, _ => Some (JBool true, l)
      | _, Some l => Some (JBool false, l)
      | None, None =>
          match scan_digits l with
          | (EmptyString, _) => None
          | (d, l) => Some (JNumber d, l)
          end
      end
  end.

(** The fields of an object after its opening brace, [fuel] of them at most. *)
Fixpoint scan_fields (fuel : nat) (l : string) : option (list (string * json) * string) :=
  match fuel with
  | O => None
  | S fuel =>
      l ← strip_prefix dquote l;
      '(key, l) ← scan_string l;
      l ← strip_prefix ":" l;
      '(v, l) ← scan_value l;
      match strip_prefix "," l, strip_prefix "}" l with
      | Some l, _ => '(fs, l) ← scan_fields fuel l; Some ((key, v) :: fs, l)
      | _, Some l => Some ([(key, v)], l)
      | None, None => None
      end
  end.

Definition read_object (s : string) : option (list (string * json)) :=
  l ← strip_prefix "{" s;
  match scan_fields (String.length s) l with
  | Some (fs, EmptyString) => Some fs
  | _ => None
  end.

(** ** What [quote_json] prints reads back *)
Definition printable (s : string) : bool :=
  forallb (λ c, negb (is_control c) || bool_decide (c = lf)) (String.list_ascii_of_string s).

Lemma sapp_assoc (a b c : string) : (a +:+ b) +:+ c = a +:+ (b +:+ c).
Proof. induction a as [|x a IH]; [done|]. exact (f_equal (String x) IH). Qed.

Lemma sapp_cons c (a b : string) : String c a +:+ b = String c (a +:+ b).
Proof. done. Qed.

Lemma sapp_nil (a : string) : a +:+ EmptyString = a.
Proof. induction a as [|x a IH]; [done|]. exact (f_equal (String x) IH). Qed.

(** One character read in front of a string that reads back. *)
Lemma step_scan c o s rest :
  o = Some (s, rest) → prod_map (String c) (@id string) <$> o = Some (String c s, rest).
Proof. by intros ->. Qed.

Lemma scan_plain c l :
  c ≠ quote → c ≠ backslash → is_control c = false →
  scan_string (String c l) = prod_map (String c) (@id string) <$> scan_string l.
Proof.
  intros H1 H2 H3. cbn [scan_string]. destruct (ascii_dec c quote); [done|].
  destruct (ascii_dec c backslash); [done|]. by rewrite H3.
Qed.

Lemma scan_escape s rest :
  printable s = true → scan_string (escape_all s +:+ String quote rest) = Some (s, rest).
Proof.
  induction s as [|c s IH]; intros Hp; [done|].
  unfold printable in *. cbn [String.list_ascii_of_string forallb] in Hp.
  apply andb_prop in Hp as [Hc Hp]. specialize (IH Hp). cbn [escape_all]. unfold escape.
  destruct (ascii_dec c quote) as [->|H1]; [by apply (step_scan quote)|].
  destruct (ascii_dec c backslash) as [->|H2]; [by apply (step_scan backslash)|].
  destruct (ascii_dec c lf) as [->|H3]; [by apply (step_scan lf)|].
  rewrite bool_decide_eq_false_2, orb_false_r in Hc by done. apply negb_true_iff in Hc.
  etransitivity; [by apply scan_plain|by apply step_scan].
Qed.

(** ** The reference printer of flat objects *)
Definition print_value (v : json) : string :=
  match v with JString s => quote_json s | JNumber d => d | JBool b => boolstr b end.

Fixpoint print_fields (k : string) (v : json) (fs : list (string * json)) : string :=
  field k (print_value v) +:+
  match fs with
  | [] => "}"
  | (k, v) :: fs => "," +:+ print_fields k v fs
  end.

Definition print_object (k : string) (v : json) (fs : list (string * json)) : string :=
  "{" +:+ print_fields k v fs.

Definition digits (d : string) : bool := forallb is_digit (String.list_ascii_of_string d).

Definition value_ok (v : json) : Prop :=
  match v with
  | JString s => printable s = true
  | JNumber d => d ≠ EmptyString ∧ digits d = true
  | JBool _ => True
  end.

Definition key_ok (k : string) : Prop := printable k = true ∧ escape_all k = k.

Lemma scan_digits_app d rest :
  digits d = true → match rest with String c _ => is_digit c = false | EmptyString => True end →
  scan_digits (d +:+ rest) = (d, rest).
Proof.
  intros Hd Hr. induction d as [|c d IH].
  - destruct rest as [|c rest]; [done|].
    change (EmptyString +:+ String c rest) with (String c rest). cbn [scan_digits]. by rewrite Hr.
  - unfold digits in *. cbn [String.list_ascii_of_string forallb] in Hd.
    apply andb_prop in Hd as [Hc Hd]. rewrite sapp_cons. cbn [scan_digits]. by rewrite Hc, (IH Hd).
Qed.

Lemma quote_json_app s rest :
  quote_json s +:+ rest = String quote (escape_all s +:+ String quote rest).
Proof. exact (sapp_assoc (String quote (escape_all s)) (String quote EmptyString) rest). Qed.

(** A separator is neither a digit nor the start of a value. *)
Definition sep_ok (rest : string) : Prop :=
  match rest with String c _ => is_digit c = false | EmptyString => True end.

Lemma strip_prefix_digit a p c d : is_digit a = false → is_digit c = true →
  strip_prefix (String a p) (String c d) = None.
Proof. intros Ha Hc. cbn. destruct (ascii_dec a c); congruence. Qed.

Lemma scan_value_print v rest :
  value_ok v → sep_ok rest → scan_value (print_value v +:+ rest) = Some (v, rest).
Proof.
  intros Hv Hr. destruct v as [s|d|b]; cbn [print_value value_ok] in *.
  - rewrite quote_json_app. unfold scan_value. cbn [strip_prefix dquote].
    destruct (ascii_dec _ _); [|done]. by rewrite scan_escape.
  - destruct Hv as [Hne Hd]. destruct d as [|c d]; [done|].
    assert (is_digit c = true) as Hc.
    { unfold digits in Hd. cbn in Hd. by apply andb_prop in Hd as [? _]. }
    unfold scan_value. rewrite sapp_cons. unfold dquote.
    rewrite !strip_prefix_digit by done. rewrite <- sapp_cons.
    by rewrite scan_digits_app.
  - by destruct b.
Qed.

(** ** The reference printer reads back *)
Lemma strip_hit a l : strip_prefix (String a EmptyString) (String a l) = Some l.
Proof. cbn [strip_prefix]. by destruct (ascii_dec a a). Qed.

Lemma field_app k v rest :
  key_ok k → field k v +:+ rest
             = String quote (escape_all k +:+ String quote (String ":" (v +:+ rest))).
Proof.
  intros [_ Hk]. rewrite Hk.
  exact (f_equal (String quote) (sapp_assoc k (String quote (String ":" v)) rest)).
Qed.

Lemma scan_fields_print fs : ∀ fuel k v,
  (length fs < fuel)%nat → Forall (λ f, key_ok f.1 ∧ value_ok f.2) ((k, v) :: fs) →
  scan_fields fuel (print_fields k v fs) = Some ((k, v) :: fs, EmptyString).
Proof.
  induction fs as [|[k' v'] fs IH]; intros [|fuel] k v Hf Hok; try (cbn in Hf; lia);
    apply Forall_cons in Hok as [[Hk Hv] Hok]; cbn [fst snd] in *;
    cbn [scan_fields print_fields]; rewrite (field_app k) by exact Hk;
    rewrite (strip_hit quote); cbn [mbind option_bind]; rewrite scan_escape by apply Hk;
    cbn [mbind option_bind]; rewrite (strip_hit ":"); cbn [mbind option_bind];
    rewrite scan_value_print by (exact Hv || exact eq_refl); cbn [mbind option_bind].
  - by rewrite (strip_hit "}").
  - rewrite sapp_cons, (strip_hit ",").
    change (EmptyString +:+ print_fields k' v' fs) with (print_fields k' v' fs).
    rewrite IH; [done|cbn in Hf; lia|done].
Qed.

Lemma length_sapp a b : String.length (a +:+ b) = (String.length a + String.length b)%nat.
Proof. induction a as [|c a IH]; [done|]. rewrite sapp_cons. cbn [String.length]. lia. Qed.

Lemma length_print_fields fs : ∀ k v, (length fs < String.length (print_fields k v fs))%nat.
Proof.
  induction fs as [|[k' v'] fs IH]; intros k v; cbn [print_fields length];
    rewrite !length_sapp; [|specialize (IH k' v')];
    change (field k (print_value v))
      with (dquote +:+ (k +:+ (dquote +:+ (":" +:+ print_value v))));
    rewrite length_sapp; cbn [String.length dquote]; lia.
Qed.

Definition field_ok (f : string * json) : Prop := key_ok f.1 ∧ value_ok f.2.

Lemma read_print_object k v fs :
  Forall field_ok ((k, v) :: fs) → read_object (print_object k v fs) = Some ((k, v) :: fs).
Proof.
  intros Hok. unfold read_object, print_object.
  change ("{" +:+ print_fields k v fs) with (String "{" (print_fields k v fs)).
  rewrite (strip_hit "{"). cbn [mbind option_bind].
  rewrite scan_fields_print; [done| |exact Hok].
  pose proof (length_print_fields fs k v). cbn [String.length]. lia.
Qed.

(** ** Printable values *)
Lemma digits_pretty_go n s : digits s = true → digits (pretty_N_go n s) = true.
Proof.
  revert s. induction (N.lt_wf_0 n) as [n _ IH]. intros s Hs.
  destruct (decide (n = 0)) as [->|Hn]; [by rewrite pretty_N_go_0|].
  rewrite pretty_N_go_step by lia. apply IH; [apply N.div_lt; lia|].
  unfold digits in *. cbn [String.list_ascii_of_string forallb]. rewrite Hs, andb_true_r.
  pose proof (N.mod_lt n 10 ltac:(lia)) as Hm. revert Hm. generalize (n mod 10). intros m Hm.
  assert (m = 0 ∨ m = 1 ∨ m = 2 ∨ m = 3 ∨ m = 4 ∨ m = 5 ∨ m = 6 ∨ m = 7 ∨ m = 8 ∨ m = 9) as H by lia.
  by repeat destruct H as [->|H]; subst.
Qed.

Lemma pretty_go_cons n c s : ∃ c' s', pretty_N_go n (String c s) = String c' s'.
Proof.
  revert c s. induction (N.lt_wf_0 n) as [n _ IH]. intros c s.
  destruct (decide (n = 0)) as [->|Hn]; [rewrite pretty_N_go_0; eauto|].
  rewrite pretty_N_go_step by lia. apply IH. apply N.div_lt; lia.
Qed.

Lemma dec_ok n : dec n ≠ EmptyString ∧ digits (dec n) = true.
Proof.
  unfold dec. change (pretty n) with (if decide (n = 0) then "0" else pretty_N_go n "").
  destruct (decide (n = 0)) as [->|Hn]; [done|]. split; [|by apply digits_pretty_go].
  rewrite pretty_N_go_step by lia.
  destruct (pretty_go_cons (n / 10) (pretty_N_char (n mod 10)) "") as (c & s & ->). done.
Qed.

Lemma char_between_printable lo c hi :
  32 <= N_of_ascii lo → char_between lo c hi = true → is_control c = false.
Proof.
  unfold char_between, is_control. intros Hl H. apply andb_prop in H as [H _].
  apply N.leb_le in H. apply N.ltb_ge. lia.
Qed.

Lemma id_hex_printable {tag} (i : Id tag) : printable (id_hex i) = true.
Proof.
  pose proof (is_valid_hex_to_hex (raw i)) as H. unfold is_valid_hex in H.
  rewrite length_uuid128_to_hex in H. cbn [orb Nat.eqb Nat.ltb Nat.leb] in H.
  unfold printable, id_hex. rewrite forallb_forall in *. intros c Hc. specialize (H c Hc).
  apply orb_true_iff. left. apply negb_true_iff.
  apply orb_true_iff in H as [H|H]; [apply orb_true_iff in H as [H|H]|];
    (eapply char_between_printable; [|exact H]); vm_compute; discriminate.
Qed.

Lemma class_printable c : printable (FailureClass.to_string c) = true.
Proof. by destruct c. Qed.

(** Solves the side conditions of the reference printer. *)
Ltac solve_fields :=
  repeat (apply Forall_cons_2; [split; [split; reflexivity|cbn [snd value_ok]]|]); [..|apply Forall_nil_2];
  try apply id_hex_printable; try apply dec_ok; try done;
  try match goal with |- printable (_ ?e) = true => by destruct e end.

(** C34: the JSON explanation of a failure is a well-formed flat object that
    reads back as the fields of the record, for every summary without control
    characters other than line feeds: quoting loses nothing. *)
Theorem explain_failure_json_reads_back rec :
  printable (fr_summary rec) = true →
  read_object (explain_failure_json rec)
  = Some [ ("failure_id", JString (id_hex (fr_failure_id rec)));
      ("operation", JString (id_hex (fr_operation rec)));
      ("attempt", JString (id_hex (fr_attempt rec)));
      ("failure_class", JString (FailureClass.to_string (fr_failure_class rec)));
      ("origin", JString (FailureOrigin.to_string (fr_origin rec)));
      ("completion", JString (Ambiguity.to_string (fr_completion rec)));
      ("side_effect_state", JString (SideEffectState.to_string (fr_side_effect_state rec)));
      ("retryability", JString (Retryability.to_string (fr_retryability rec)));
      ("rollback", JString (RollbackRequirement.to_string (fr_rollback rec)));
      ("compensation", JString (CompensationRequirement.to_string (fr_compensation rec)));
      ("terminality", JString (Terminality.to_string (fr_terminality rec)));
      ("recovery_owner", JString (RecoveryOwner.to_string (fr_recovery_owner rec)));
      ("unknown_side_effects", JNumber (dec (fr_unknown_side_effects rec)));
      ("summary", JString (fr_summary rec)) ].
Proof.
  intros Hs. etransitivity; [|apply read_print_object; solve_fields]. reflexivity.
Qed.

Lemma explain_failure_json_reads_back_witness :
  let rec := failure_record0 <| fr_summary := put ["bad "; String quote "page"; String quote EmptyString; newline] |> in
  read_object (explain_failure_json rec) ≠ None.
Proof.
  intros rec. rewrite (explain_failure_json_reads_back rec); [done|by vm_compute].
Defined.

(** The JSON explanation of a decision is a well-formed flat object that
    reads back as the verdict and flags of the retry decision and the action,
    generation and expectations of the plan, for all texts without control
    characters other than line feeds. *)
Lemma explain_decision_json_reads_back rec retry plan :
  printable (rd_reason retry) = true → printable (rp_expected_preserved plan) = true →
  printable (rp_expected_discarded plan) = true →
  read_object (explain_decision_json rec retry plan)
  = Some [ ("verdict", JString (RetryVerdict.to_string (verdict retry)));
      ("fresh_attempt", JBool (requires_fresh_attempt retry));
      ("same_key", JBool (same_idempotency_key retry));
      ("rollback_first", JBool (rollback_first retry));
      ("recovery_action", JString (RecoveryAction.to_string (rp_action plan)));
      ("recovery_generation", JNumber (dec (value (rp_generation plan))));
      ("reason", JString (rd_reason retry));
      ("expected_preserved", JString (rp_expected_preserved plan));
      ("expected_discarded", JString (rp_expected_discarded plan)) ].
Proof.
  intros H1 H2 H3. etransitivity; [|apply read_print_object; solve_fields]. reflexivity.
Qed.

Lemma explain_decision_json_reads_back_witness :
  let rec := failure_record0 in
  read_object (explain_decision_json rec decision0 (plan0 <| rp_expected_preserved := put ["a"; newline] |>)) ≠ None.
Proof.
  intros rec.
  rewrite (explain_decision_json_reads_back rec decision0
             (plan0 <| rp_expected_preserved := put ["a"; newline] |>)); [done|..]; by vm_compute.
Defined.
