(* ===== verification/Worker.v ===== *)
(** * The worker process ([src/worker.cpp])

    One process: it connects, registers, and waits for a dispatch, which it
    runs and reports before it exits. The socket is the one of [Protocol]; the
    network set-up and the file system are arguments, and the marker files
    written are part of the state. *)
From S2P Require Import Prelude Ident Enums Authority Codec RecordCodec Protocol.
From Stdlib Require Import Ascii.

Local Open Scope N_scope.

(** ** [std::atoi]: blanks, a sign, digits *)
Definition is_space (c : ascii) : bool :=
  bool_decide (c = " "%char) || char_between (ascii_of_N 9) c (ascii_of_N 13).

Fixpoint skip_spaces (s : string) : string :=
  match s with
  | String c r => if is_space c then skip_spaces r else s
  | EmptyString => EmptyString
  end.

Fixpoint digits_value (s : string) (acc : Z) : Z :=
  match s with
  | String c r =>
      if char_between "0" c "9" then digits_value r (acc * 10 + (Z.of_N (N_of_ascii c) - 48))%Z else acc
  | EmptyString => acc
  end.

(** Out of the range of [int] the behaviour of [atoi] is undefined; the
    mathematical value stands for it. *)
Definition atoi (s : string) : Z :=
  match skip_spaces s with
  | String c r =>
      if bool_decide (c = "-"%char) then (- digits_value r 0)%Z
      else if bool_decide (c = "+"%char) then digits_value r 0
      else digits_value (String c r) 0
  | EmptyString => 0%Z
  end.

(** [static_cast<uint16_t>(std::atoi(s))]. *)
Definition port_of (s : string) : N := Z.to_N (atoi s mod 65536).

(** ** Messages and files of a dispatch *)

(** [reg]: the registration, whose worker and boot every message repeats. *)
Definition register_message (w : WorkerId) (b : WorkerBootId) (workdir : string) : WireMessage :=
  message0 <| type := ProtocolMessage.REGISTER |> <| m_worker := w |> <| m_boot := b |>
           <| text := workdir |>.

Definition reply (t : ProtocolMessage.t) (reg m : WireMessage) : WireMessage :=
  message0 <| type := t |> <| m_op := m_op m |> <| m_attempt := m_attempt m |>
           <| m_worker := m_worker reg |> <| m_boot := m_boot reg |>
           <| m_authority := m_authority m |>.

Definition running_message (reg m : WireMessage) : WireMessage :=
  reply ProtocolMessage.RUNNING reg m.

Definition fail_message (reg m : WireMessage) : WireMessage :=
  reply ProtocolMessage.FAILURE reg m <| flag := false |>
    <| text := "known no-side-effect failure" |>.

Definition complete_message (reg m : WireMessage) : WireMessage :=
  reply ProtocolMessage.COMPLETE reg m <| text := "result=done" |>.

(** The message that ends a dispatch. *)
Definition final_message (mode : string) (reg m : WireMessage) : WireMessage :=
  if bool_decide (mode = "fail") then fail_message reg m else complete_message reg m.

(** The literal reads [%s\attempt_%s_marker.txt]: its [\a] is the BEL
    character, not a path separator and an [a]. *)
Definition bell : string := String (ascii_of_N 7) EmptyString.

(** [std::snprintf] into a buffer of 512 bytes. *)
Definition marker_path (workdir : string) (a : AuthorityEnvelope) : string :=
  String.substring 0 511
    (put [workdir; bell; "ttempt_";
          if is_unset (attempt_generation a) then "0" else dec (value (attempt_generation a));
          "_marker.txt"]).

Definition marker_line (mode : string) (a : AuthorityEnvelope) : string :=
  put ["worker_"; mode; "_attempt_"; dec (value (attempt_generation a)); " marker"; newline].

(** Does the character occur in the name? *)
Fixpoint has_char (c : ascii) (s : string) : bool :=
  match s with
  | EmptyString => false
  | String d r => bool_decide (d = c) || has_char c r
  end.

Lemma marker_path_bell workdir a :
  (String.length workdir < 511)%nat → has_char (ascii_of_N 7) (marker_path workdir a) = true.
Proof.
  unfold marker_path, put. cbn [String.concat]. generalize 511%nat. intros n.
  match goal with |- _ → has_char _ (String.substring 0 n (_ +:+ "" +:+ ?s)) = _ =>
    change (String.substring 0 n (workdir +:+ "" +:+ s))
      with (String.substring 0 n (workdir +:+ s)); set (rest := s) end.
  assert (∃ s, rest = String (ascii_of_N 7) s) as [s ->] by (eexists; reflexivity).
  generalize (ascii_of_N 7). intros c.
  revert n. induction workdir as [|d w IH]; intros [|n] Hn; cbn in Hn; try lia.
  - change (bool_decide (c = c) || has_char c (String.substring 0 n s) = true).
    by rewrite bool_decide_eq_true_2.
  - change (bool_decide (d = c) || has_char c (String.substring 0 n (w +:+ String c s)) = true).
    rewrite IH by lia. apply orb_true_r.
Qed.

(** ** The process *)
Section worker.
  Context {Net : Type}.
  Context (sys_send : Net → list byte → option nat * Net).
  Context (sys_recv : Net → nat → option (list byte) * Net).
  (** Whether a file can be opened for appending. *)
  Context (can_open : string → bool).

(** The socket, and the lines appended to files, in order. *)
Record World := MkWorld { net : Net; appended : list (string * string) }.

Definition send (m : WireMessage) (w : World) : bool * World :=
  let '(ok, n) := send_frame sys_send (net w) m in (ok, MkWorld n (appended w)).

Definition recv (w : World) : option WireMessage * World :=
  let '(m, n) := recv_frame sys_recv (net w) in (m, MkWorld n (appended w)).

(** [fopen] in append mode, [fprintf], [fclose]: nothing is written if the file
    does not open, as on Windows, where no file name can hold the BEL of the
    path ([marker_path_bell]). *)
Definition append_marker (workdir mode : string) (a : AuthorityEnvelope) (w : World) : World :=
  let path := marker_path workdir a in
  if can_open path then MkWorld (net w) (appended w ++ [(path, marker_line mode a)]) else w.

(** The body of the loop for a [DISPATCH]: the exit code, and the world left.
    The [slow] mode only sleeps before the last message. *)
Definition on_dispatch (mode workdir : string) (reg m : WireMessage) (w : World) : Z * World :=
  match send (running_message reg m) w with
  | (false, w) => (2%Z, w)
  | (true, w) =>
      let w := append_marker workdir mode (m_authority m) w in
      if bool_decide (mode = "fail") then
        match send (fail_message reg m) w with (false, w) => (2%Z, w) | (true, w) => (0%Z, w) end
      else
        match send (complete_message reg m) w with (false, w) => (0%Z, w) | (true, w) => (0%Z, w) end
  end.

(** The loop; a received message takes bytes off the stream, so a finite
    stream ends it. *)
Fixpoint worker_loop (fuel : nat) (mode workdir : string) (reg : WireMessage) (w : World)
    : option (Z * World) :=
  match fuel with
  | O => None
  | S fuel =>
      match recv w with
      | (None, w) => Some (0%Z, w)
      | (Some m, w) =>
          match type m with
          | ProtocolMessage.DISPATCH => Some (on_dispatch mode workdir reg m w)
          | ProtocolMessage.SHUTDOWN => Some (0%Z, w)
          | _ => worker_loop fuel mode workdir reg w
          end
      end
  end.

(** What [main] finds outside: the result of [winsock_init], of [connect_to],
    and the engine behind [generate]. *)
Definition worker_main {Rng} (rng_next : Rng → N * Rng) (rng : Rng) (fuel : nat)
    (argv : list string) (winsock_ok : bool) (connect : string → N → option Net)
    : option (Z * option World) :=
  match argv with
  | _ :: host :: port :: workdir :: mode :: _ =>
      if negb winsock_ok then Some (2%Z, None)
      else match connect host (port_of port) with
      | None => Some (2%Z, None)
      | Some n =>
          let '(w, rng) := uuid128_generate rng_next rng in
          let '(b, rng) := uuid128_generate rng_next rng in
          let reg := register_message (MkId w) (MkId b) workdir in
          match send reg (MkWorld n []) with
          | (false, w) => Some (2%Z, Some w)
          | (true, w) =>
              match recv w with
              | (None, w) => Some (2%Z, Some w)
              | (Some ack, w) =>
                  if negb (bool_decide (type ack = ProtocolMessage.REGISTER_ACK)) then Some (2%Z, Some w)
                  else match worker_loop fuel mode workdir reg w with
                  | None => None
                  | Some (code, w) => Some (code, Some w)
                  end
              end
          end
      end
  | _ => Some (2%Z, None)
  end.

(** ** Both directions of a connection

    Sending takes nothing off the incoming stream and receiving puts nothing
    on the outgoing one. A reliable socket is one whose [send] does not fail. *)
Class duplex_laws (incoming outgoing : Net → list byte) : Prop := {
  duplex_stream :: stream_laws sys_send sys_recv incoming outgoing;
  send_incoming n p : incoming (sys_send n p).2 = incoming n;
  recv_outgoing n k : outgoing (sys_recv n k).2 = outgoing n;
}.

Definition reliable : Prop := ∀ n p, p ≠ [] → (sys_send n p).1 ≠ None.

Section facts.
  Context (incoming outgoing : Net → list byte) {laws : duplex_laws incoming outgoing}.

Lemma send_all_loop_incoming fuel n p : incoming (send_all_loop sys_send fuel n p).2 = incoming n.
Proof.
  revert n p. induction fuel as [|fuel IH]; intros n [|b p]; cbn [send_all_loop]; try done.
  pose proof (send_incoming n (take (at_most_int_max (length (b :: p))) (b :: p))) as H.
  destruct (sys_send n _) as [[k|] n']; cbn in H; [by rewrite IH|done].
Qed.

Lemma recv_all_loop_outgoing fuel n k : outgoing (recv_all_loop sys_recv fuel n k).2 = outgoing n.
Proof.
  revert n k. induction fuel as [|fuel IH]; intros n [|k]; cbn [recv_all_loop]; try done.
  pose proof (recv_outgoing n (at_most_int_max (S k))) as H.
  destruct (sys_recv n _) as [[got|] n']; cbn in H; [|done].
  pose proof (IH n' (S k - length got)%nat) as Hr.
  destruct (recv_all_loop sys_recv fuel n' _) as [rest n'']. cbn in *. congruence.
Qed.

Lemma recv_frame_outgoing n : outgoing (recv_frame sys_recv n).2 = outgoing n.
Proof.
  unfold recv_frame, recv_all.
  pose proof (recv_all_loop_outgoing 11 n 11) as H.
  destruct (recv_all_loop sys_recv 11 n 11) as [[hdr|] n1]; cbn in H; [|done].
  destruct (recv_header (reader hdr)) as [[len r]|]; [|done].
  set (k := N.to_nat (wrap 32 (len + 8))).
  pose proof (recv_all_loop_outgoing k n1 k) as H2.
  destruct (recv_all_loop sys_recv k n1 k) as [[body|] n2]; cbn in *; congruence.
Qed.

Lemma send_all_loop_reliable fuel n p :
  reliable → (length p ≤ fuel)%nat → (send_all_loop sys_send fuel n p).1 = true.
Proof.
  intros Hr. revert n p. induction fuel as [|fuel IH]; intros n [|b p] Hf; try done; [cbn in Hf; lia|].
  cbn [send_all_loop]. set (q := b :: p) in *.
  assert (take (at_most_int_max (length q)) q ≠ []) as Hq.
  { intros E. apply (f_equal length) in E. rewrite length_take in E.
    pose proof (min_int_max (length q)). cbn in *. lia. }
  pose proof (Hr n _ Hq) as Hn.
  destruct (sys_send n _) as [[k|] n'] eqn:E; [|done].
  eapply (send_some sys_send sys_recv) in E as [Hk _]; [|exact Hq].
  apply IH. rewrite length_drop. lia.
Qed.

(** A message sent on a reliable socket. *)
Lemma send_reliable m w :
  reliable → ∃ n, send m w = (true, MkWorld n (appended w)) ∧
    outgoing n = outgoing (net w) ++ message_frame m ∧ incoming n = incoming (net w).
Proof.
  intros Hr. unfold send, send_frame.
  pose proof (send_all_loop_reliable (length (message_frame m)) (net w) (message_frame m) Hr (le_n _)) as H1.
  pose proof (send_all_true sys_send sys_recv incoming outgoing (net w) (message_frame m) H1) as H2.
  pose proof (send_all_loop_incoming (length (message_frame m)) (net w) (message_frame m)) as H3.
  unfold send_all in *. destruct (send_all_loop _ _ _ _) as [ok n]. cbn in *. subst ok. by exists n.
Qed.

(** A message received from its frame. *)
Lemma recv_message m rest w :
  message_ok m → incoming (net w) = message_frame m ++ rest →
  ∃ n, recv w = (Some m, MkWorld n (appended w)) ∧ incoming n = rest ∧
       outgoing n = outgoing (net w).
Proof.
  intros Hm Hi. unfold recv.
  assert (N.of_nat (length (encode_wire m)) <= 32 * 1024 * 1024) as Hlen
    by (pose proof (length_encode_wire m); lia).
  destruct (recv_frame_of sys_send sys_recv incoming outgoing _ _ rest (net w) (wrap_fits 8 _) Hlen Hi)
    as (n & E & Hn).
  pose proof (recv_frame_outgoing (net w)) as Ho. rewrite E in *. exists n.
  by rewrite decode_encode_wire.
Qed.

(** A received message takes bytes off the stream. *)
Lemma recv_shrinks w m w' :
  recv w = (Some m, w') → (length (incoming (net w')) < length (incoming (net w)))%nat.
Proof.
  unfold recv. destruct (recv_frame sys_recv (net w)) as [[m'|] n] eqn:E; [|done].
  intros [= <- <-]. cbn.
  destruct (recv_frame_sound sys_send sys_recv incoming outgoing _ _ _ E) as (k & pl & -> & _ & _).
  rewrite length_app. pose proof (length_encode_frame k pl). lia.
Qed.

Lemma worker_loop_returns fuel mode workdir reg w :
  (length (incoming (net w)) < fuel)%nat → worker_loop fuel mode workdir reg w ≠ None.
Proof.
  revert w. induction fuel as [|fuel IH]; intros w Hf; [lia|]. cbn [worker_loop].
  destruct (recv w) as [[m|] w'] eqn:E; [|done]. apply recv_shrinks in E.
  destruct (type m); try done; apply IH; lia.
Qed.

Lemma worker_loop_code fuel mode workdir reg w code w' :
  worker_loop fuel mode workdir reg w = Some (code, w') → code = 0%Z ∨ code = 2%Z.
Proof.
  revert w. induction fuel as [|fuel IH]; intros w; [done|]. cbn [worker_loop].
  destruct (recv w) as [[m|] w1]; [|naive_solver].
  destruct (type m); try apply IH; [|naive_solver].
  unfold on_dispatch. intros [= H]. revert H. repeat case_match; naive_solver.
Qed.

(** The replies are representable when the dispatch is. *)
Lemma running_message_ok reg m : message_ok m → message_ok (running_message reg m).
Proof. intros (Ha & _ & _). split_and!; [exact Ha|by vm_compute|by vm_compute]. Qed.

Lemma complete_message_ok reg m : message_ok m → message_ok (complete_message reg m).
Proof. intros (Ha & _ & _). split_and!; [exact Ha|by vm_compute|by vm_compute]. Qed.

Lemma register_message_ok w b workdir : str16_ok workdir → message_ok (register_message w b workdir).
Proof. intros Hw. split_and!; [by repeat split|exact Hw|by vm_compute]. Qed.

(** What a worker writes for a dispatch. *)
Definition marker (mode workdir : string) (a : AuthorityEnvelope) : list (string * string) :=
  if can_open (marker_path workdir a) then [(marker_path workdir a, marker_line mode a)] else [].

Lemma append_marker_eq workdir mode a w :
  append_marker workdir mode a w = MkWorld (net w) (appended w ++ marker mode workdir a).
Proof.
  unfold append_marker, marker. destruct (can_open _); [done|]. rewrite app_nil_r. by destruct w.
Qed.

Lemma on_dispatch_reliable mode workdir reg m w :
  reliable →
  ∃ n, on_dispatch mode workdir reg m w
       = (0%Z, MkWorld n (appended w ++ marker mode workdir (m_authority m))) ∧
    outgoing n = outgoing (net w) ++ message_frame (running_message reg m)
                 ++ message_frame (final_message mode reg m) ∧
    incoming n = incoming (net w).
Proof.
  intros Hr. unfold on_dispatch.
  destruct (send_reliable (running_message reg m) w Hr) as (n1 & -> & Ho1 & Hi1).
  rewrite append_marker_eq. cbn [net appended].
  set (w1 := MkWorld n1 (appended w ++ marker mode workdir (m_authority m))).
  unfold final_message. destruct (bool_decide (mode = "fail")).
  - destruct (send_reliable (fail_message reg m) w1 Hr) as (n2 & -> & Ho2 & Hi2).
    exists n2. rewrite Ho2, Hi2. cbn [net w1]. rewrite Ho1, Hi1, <- app_assoc. by repeat split.
  - destruct (send_reliable (complete_message reg m) w1 Hr) as (n2 & -> & Ho2 & Hi2).
    exists n2. rewrite Ho2, Hi2. cbn [net w1]. rewrite Ho1, Hi1, <- app_assoc. by repeat split.
Qed.

(** The messages the loop passes over. *)
Definition ignored (m : WireMessage) : Prop :=
  type m ≠ ProtocolMessage.DISPATCH ∧ type m ≠ ProtocolMessage.SHUTDOWN.

Lemma worker_loop_dispatch noise : ∀ fuel mode workdir reg m rest w,
  reliable → Forall (λ x, message_ok x ∧ ignored x) noise → message_ok m →
  type m = ProtocolMessage.DISPATCH →
  incoming (net w) = concat (message_frame <$> noise) ++ message_frame m ++ rest →
  (length (incoming (net w)) < fuel)%nat →
  ∃ n, worker_loop fuel mode workdir reg w
       = Some (0%Z, MkWorld n (appended w ++ marker mode workdir (m_authority m))) ∧
    outgoing n = outgoing (net w) ++ message_frame (running_message reg m)
                 ++ message_frame (final_message mode reg m) ∧
    incoming n = rest.
Proof.
  induction noise as [|x noise IH]; intros fuel mode workdir reg m rest w Hr Hn Hm Ht Hi Hf;
    (destruct fuel as [|fuel]; [lia|]); cbn [worker_loop].
  - destruct (recv_message m rest w Hm Hi) as (n1 & -> & Hi1 & Ho1). rewrite Ht.
    destruct (on_dispatch_reliable mode workdir reg m (MkWorld n1 (appended w)) Hr)
      as (n2 & -> & Ho2 & Hi2).
    exists n2. cbn [net appended] in *. by rewrite Ho2, Hi2, Ho1.
  - apply Forall_cons in Hn as [[Hx [Hx1 Hx2]] Hn]. cbn [fmap list_fmap concat] in Hi.
    rewrite <- app_assoc in Hi.
    destruct (recv_message x _ w Hx Hi) as (n1 & E & Hi1 & Ho1). rewrite E.
    apply recv_shrinks in E.
    destruct (IH fuel mode workdir reg m rest (MkWorld n1 (appended w)) Hr Hn Hm Ht)
      as (n2 & Hl & Ho2 & Hi2); [done|cbn in *; lia|].
    exists n2. rewrite <- Ho1. destruct (type x); try done.
Qed.

Lemma worker_main_dispatch {Rng} (rng_next : Rng → N * Rng) rng fuel prog host port workdir
    mode args connect n ack noise m rest :
  let '(u, rng1) := uuid128_generate rng_next rng in
  let '(b, _) := uuid128_generate rng_next rng1 in
  let reg := register_message (MkId u) (MkId b) workdir in
  reliable → connect host (port_of port) = Some n → outgoing n = [] →
  message_ok ack → type ack = ProtocolMessage.REGISTER_ACK →
  Forall (λ x, message_ok x ∧ ignored x) noise →
  message_ok m → type m = ProtocolMessage.DISPATCH →
  incoming n = message_frame ack ++ concat (message_frame <$> noise) ++ message_frame m ++ rest →
  (length (incoming n) < fuel)%nat →
  ∃ n', worker_main rng_next rng fuel (prog :: host :: port :: workdir :: mode :: args) true connect
        = Some (0%Z, Some (MkWorld n' (marker mode workdir (m_authority m)))) ∧
    outgoing n' = message_frame reg ++ message_frame (running_message reg m)
                  ++ message_frame (final_message mode reg m) ∧
    incoming n' = rest.
Proof.
  unfold worker_main. destruct (uuid128_generate rng_next rng) as [u rng1].
  destruct (uuid128_generate rng_next rng1) as [b rng2]. cbn [negb].
  intros Hr Hc Ho Hack Hta Hn Hm Ht Hi Hf. rewrite Hc.
  set (reg := register_message _ _ _).
  destruct (send_reliable reg (MkWorld n []) Hr) as (n1 & -> & Ho1 & Hi1).
  cbn [net appended] in *. rewrite Hi in Hi1.
  destruct (recv_message ack _ (MkWorld n1 []) Hack Hi1) as (n2 & E & Hi2 & Ho2).
  rewrite E, bool_decide_eq_true_2 by done. cbn [negb]. apply recv_shrinks in E.
  destruct (worker_loop_dispatch noise fuel mode workdir reg m rest (MkWorld n2 []) Hr Hn Hm Ht Hi2)
    as (n3 & Hl & Ho3 & Hi3).
  { cbn [net] in *. rewrite Hi1 in E. rewrite Hi in Hf. lia. }
  cbn [net appended] in *. rewrite Hl. exists n3.
  rewrite Ho3, Ho2, Ho1, Ho, app_nil_l. by repeat split.
Qed.

(** C22: a worker runs exactly one operation. On a reliable connection whose
    stream holds the acknowledgement of its registration, messages it passes
    over, and a dispatch, it sends its registration, [RUNNING] and one final
    message, in this order, all under the identity and the authority of the
    dispatch, takes nothing else off the stream and exits with 0. The final
    message is [FAILURE], which claims that there was no side effect, exactly in
    mode [fail]. Whatever the mode, it appends one marker if the marker file
    opens and none otherwise; no other file is touched. The name of that file
    holds a BEL character (for a working directory of less than 511 bytes), so
    where such names are refused, as on Windows, no marker is written and the
    operation is reported complete all the same. *)
Theorem worker_runs_one_operation {Rng} (rng_next : Rng → N * Rng) rng fuel prog host port workdir
    mode args connect n ack noise m rest :
  let '(u, rng1) := uuid128_generate rng_next rng in
  let '(b, _) := uuid128_generate rng_next rng1 in
  let reg := register_message (MkId u) (MkId b) workdir in
  let path := marker_path workdir (m_authority m) in
  reliable → connect host (port_of port) = Some n → outgoing n = [] →
  message_ok ack → type ack = ProtocolMessage.REGISTER_ACK →
  Forall (λ x, message_ok x ∧ ignored x) noise →
  message_ok m → type m = ProtocolMessage.DISPATCH →
  incoming n = message_frame ack ++ concat (message_frame <$> noise) ++ message_frame m ++ rest →
  (length (incoming n) < fuel)%nat →
  ∃ n' files, worker_main rng_next rng fuel (prog :: host :: port :: workdir :: mode :: args) true connect
        = Some (0%Z, Some (MkWorld n' files)) ∧
    outgoing n' = message_frame reg ++ message_frame (running_message reg m)
                  ++ message_frame (final_message mode reg m) ∧
    incoming n' = rest ∧
    files = (if can_open path then [(path, marker_line mode (m_authority m))] else []) ∧
    ((String.length workdir < 511)%nat →
     (∀ p, has_char (ascii_of_N 7) p = true → can_open p = false) → files = []).
Proof.
  pose proof (worker_main_dispatch rng_next rng fuel prog host port workdir mode args connect n ack
    noise m rest) as H.
  destruct (uuid128_generate rng_next rng) as [u rng1].
  destruct (uuid128_generate rng_next rng1) as [b rng2]. cbv zeta in *.
  intros H1 H2 H3 H4 H5 H6 H7 H8 H9 H10.
  destruct (H H1 H2 H3 H4 H5 H6 H7 H8 H9 H10) as (n' & Hm & Ho & Hi).
  exists n', (marker mode workdir (m_authority m)). split_and!; try done.
  intros Hw Hb. unfold marker. by rewrite Hb by by apply marker_path_bell.
Qed.

(** C23: the worker process always ends. Whatever its arguments, its files and
    what comes over the connection, as long as the stream is finite, [main]
    returns an exit code, 0 or 2. *)
Theorem worker_always_exits {Rng} (rng_next : Rng → N * Rng) rng fuel argv winsock_ok connect :
  (∀ host port n, connect host port = Some n → (length (incoming n) < fuel)%nat) →
  ∃ code w, worker_main rng_next rng fuel argv winsock_ok connect = Some (code, w) ∧
    (code = 0%Z ∨ code = 2%Z).
Proof.
  intros Hf. unfold worker_main. destruct argv as [|p [|host [|port [|workdir [|mode args]]]]];
    eauto.
  destruct winsock_ok; cbn [negb]; [|eauto].
  destruct (connect host (port_of port)) as [n|] eqn:Ec; [|eauto]. apply Hf in Ec.
  destruct (uuid128_generate rng_next rng) as [u rng1].
  destruct (uuid128_generate rng_next rng1) as [b rng2].
  set (reg := register_message _ _ _).
  destruct (send reg (MkWorld n [])) as [[] w1] eqn:Es; [|eauto].
  assert (incoming (net w1) = incoming n) as Hi1.
  { pose proof (send_all_loop_incoming (length (message_frame reg)) n (message_frame reg)) as H.
    unfold send, send_frame, send_all in Es. cbn [net appended] in Es.
    destruct (send_all_loop _ _ _ _) as [ok n']. by simplify_eq/=. }
  destruct (recv w1) as [[ack|] w2] eqn:Er; [|eauto]. apply recv_shrinks in Er.
  destruct (negb _); [eauto|].
  destruct (worker_loop fuel mode workdir reg w2) as [[code w3]|] eqn:El.
  - eexists _, _. split; [done|]. by eapply worker_loop_code.
  - exfalso. revert El. apply worker_loop_returns. rewrite Hi1 in Er. lia.
Qed.
End facts.
End worker.

(** ** Witnesses, on the socket that moves three bytes at a time *)
#[export] Instance net3_duplex : duplex_laws send3 recv3 fst snd.
Proof.
  split; [apply _|by intros [i o] [|x p]|by intros [[|x i] o] k].
Qed.

Lemma net3_reliable : reliable send3.
Proof. by intros n [|x p]. Qed.

Definition ack0 : WireMessage := message0 <| type := ProtocolMessage.REGISTER_ACK |>.
Definition dispatch0 : WireMessage := message0 <| type := ProtocolMessage.DISPATCH |>.

(** The stream of an acknowledgement, a heartbeat and a dispatch. *)
Definition stream0 : net3 :=
  (message_frame ack0 ++ message_frame message0 ++ message_frame dispatch0, []).

Definition connect0 (host : string) (port : N) : option net3 :=
  if bool_decide (host = "127.0.0.1" ∧ port = 57321) then Some stream0 else None.

Definition count_words (n : N) : N * N := (n, n + 1).

(** On a host that takes any name, and on one that refuses a BEL. *)
Definition no_bell (p : string) : bool := negb (has_char (ascii_of_N 7) p).

Lemma worker_runs_one_operation_witness :
  (∃ n', worker_main send3 recv3 (λ _, true) count_words 0 1000
          ["ff_worker"; "127.0.0.1"; "57321"; "work"; "normal"] true connect0
        = Some (0%Z, Some (MkWorld n' [(marker_path "work" authority0, marker_line "normal" authority0)]))) ∧
  (∃ n', worker_main send3 recv3 no_bell count_words 0 1000
          ["ff_worker"; "127.0.0.1"; "57321"; "work"; "normal"] true connect0
        = Some (0%Z, Some (MkWorld n' []))).
Proof.
  split.
  - destruct (worker_runs_one_operation send3 recv3 (λ _, true) fst snd count_words 0 1000 "ff_worker"
      "127.0.0.1" "57321" "work" "normal" [] connect0 stream0 ack0 [message0] dispatch0 [])
      as (n' & files & H & _ & _ & Hf & _).
    + exact net3_reliable.
    + vm_compute; reflexivity.
    + reflexivity.
    + repeat split; vm_compute; congruence.
    + reflexivity.
    + repeat constructor; try (vm_compute; congruence); discriminate.
    + repeat split; vm_compute; congruence.
    + reflexivity.
    + reflexivity.
    + apply Nat.ltb_lt. vm_compute; reflexivity.
    + exists n'. rewrite Hf in H. exact H.
  - destruct (worker_runs_one_operation send3 recv3 no_bell fst snd count_words 0 1000 "ff_worker"
      "127.0.0.1" "57321" "work" "normal" [] connect0 stream0 ack0 [message0] dispatch0 [])
      as (n' & files & H & _ & _ & _ & Hf).
    + exact net3_reliable.
    + vm_compute; reflexivity.
    + reflexivity.
    + repeat split; vm_compute; congruence.
    + reflexivity.
    + repeat constructor; try (vm_compute; congruence); discriminate.
    + repeat split; vm_compute; congruence.
    + reflexivity.
    + reflexivity.
    + apply Nat.ltb_lt. vm_compute; reflexivity.
    + exists n'. rewrite H, Hf; [reflexivity|cbn; lia|]. intros p Hp. unfold no_bell. by rewrite Hp.
Defined.

Lemma worker_always_exits_witness :
  ∃ code w, worker_main send3 recv3 (λ _, true) count_words 0 1000
              ["ff_worker"; "127.0.0.1"; "57321"; "work"; "fail"] true connect0 = Some (code, w) ∧
    (code = 0%Z ∨ code = 2%Z).
Proof.
  apply (worker_always_exits send3 recv3 (λ _, true) fst snd count_words 0 1000).
  intros host port n. unfold connect0. destruct (bool_decide _); [|discriminate].
  intros [= <-]. apply Nat.ltb_lt. vm_compute; reflexivity.
Defined.
