(* ===== verification/Cli.v ===== *)
(** * The command-line tool ([tools/ff_cli.cpp])

    [main] is a function of the arguments and of the host it runs on: what it
    prints, its exit code, the file it writes and the shell command it runs.
    The engines of [std::mt19937_64] and of [generate()], the order in which the
    unordered maps are enumerated, the file system and the shell are
    arguments. *)
From stdpp Require Import gmap.
From Stdlib Require Import Ascii.
From S2P Require Import Prelude Ident Enums Authority Operation Idempotency Registry FailureRecord Retry Recovery Rollback Codec RecordCodec Store Reload Explain Worker.
Module B := FailureRecordBuilder.

Local Open Scope N_scope.

(** ** What a run shows *)
Record Outcome := MkOutcome {
  out : string;                              (* standard output *)
  code : Z;                                  (* the exit code *)
  wrote : option (string * list byte);       (* the file written *)
  ran : option string;                       (* the shell command *)
}.

Definition say (text : string) (c : Z) : Outcome := MkOutcome text c None None.

Definition line (parts : list string) : string := put parts +:+ newline.

Definition usage : string := put [
  line ["usage: ff_cli <command> [args]"];
  line ["  list                         list operations and failures"];
  line ["  inspect <op_hex>             show operation state + authority"];
  line ["  failure <fail_hex>           show a failure record"];
  line ["  operation <op_hex>           show operation runtime"];
  line ["  attempt <op_hex>             show attempt authority"];
  line ["  classify <class>             classify a failure (dimensions)"];
  line ["  retry <class>                classify retry decision"];
  line ["  rollback                     run a typed rollback plan"];
  line ["  compensate                   run a compensation"];
  line ["  recover <class>              generate a recovery plan"];
  line ["  plan <class>                 generate a RecoveryPlan (with rejected alts)"];
  line ["  owner                        show recovery ownership + transfer"];
  line ["  explain <fail_hex>           deterministic explanation"];
  line ["  snapshot                     store snapshot summary"];
  line ["  save <file>                  persist store"];
  line ["  reload <file>                load store"];
  line ["  replay <file>                deterministic replay -> terminal outcomes"];
  line ["  serve <port>                 run the coordinator server"];
  line ["  worker <port> <mode>         run a worker (normal|slow|fail)"];
  line ["  multiprocess                 run the real multiprocess failure proof"];
  line ["  cuda                         run the CUDA failure/recovery proof"];
  line ["  benchmark <n>                run the benchmark suite"];
  line ["  help                         this message"]].

(** ** Helpers *)

(** [p.substr(0, p.find_last_of("\\/"))]: the path up to the last separator,
    or [None] if there is none. *)
Fixpoint before_last_separator (p : string) : option string :=
  match p with
  | EmptyString => None
  | String c r =>
      match before_last_separator r with
      | Some d => Some (String c d)
      | None => if bool_decide (c = backslash) || bool_decide (c = "/"%char) then Some EmptyString else None
      end
  end.

Definition dir (module_path : string) : string := default "." (before_last_separator module_path).

Definition sibling (module_path name : string) : string :=
  put [dir module_path; String backslash EmptyString; name].

Definition demo_auth (gen : N) : AuthorityEnvelope :=
  MkAuthority (MkGeneration 1) (MkId (uuid128_from_hex "1234abcd"))
    (MkId (uuid128_from_hex "a1b2c3d4")) (MkGeneration gen) (MkId (uuid128_from_hex "feedbeef"))
    (MkGeneration gen) gen0 gen0.

Definition yes_no (b : bool) : string := if b then "yes" else "no".
Definition one_zero (b : bool) : string := if b then "1" else "0".

(** [argc > i ? argv\[i\] : dflt], with the program name left out. *)
Definition arg (args : list string) (i : nat) (dflt : string) : string := default dflt (args !! i).

(** ** The demonstrations without a store *)
Definition demo_steps : list RollbackStep :=
  [ MkStep RollbackAction.RELEASE_RESERVATION "res-1" true false false "";
    MkStep RollbackAction.FREE_ALLOCATION "alloc-1" true false false "" ].

Definition demo_plan : RollbackPlan :=
  MkRollbackPlan (MkId (uuid128_from_hex "cafe0001")) (MkGeneration 1) RecoveryOwner.COORDINATOR
    authority0 demo_steps.

(** The loop; each round completes a step or breaks, so the number of steps is
    enough fuel. *)
Fixpoint rollback_loop (fuel : nat) (ex : RollbackExecutor) : string * RollbackExecutor :=
  if is_complete ex then (EmptyString, ex)
  else match fuel with
  | O => (EmptyString, ex)
  | S fuel =>
      let '(ok, ex) := run_next ex true in
      let text := line ["  rollback step "; dec (N.of_nat (completed_ ex)); "/";
                        dec (N.of_nat (length (steps (plan_ ex)))); " "; if ok then "ok" else "blocked"] in
      if negb ok then
        (put [text; line ["  rollback failed: "; failure_reason_ ex; " (record RecoveryFailure)"]], ex)
      else let '(rest, ex) := rollback_loop fuel ex in (text +:+ rest, ex)
  end.

Definition cmd_rollback : Outcome :=
  let ex := executor demo_plan in
  let '(text, ex) := rollback_loop (length demo_steps) ex in
  say (put [text; line ["  rollback "; if is_complete ex then "complete (monotonic)" else "interrupted"]])
      (if is_complete ex then 0 else 1)%Z.

(** Evaluates the comparisons of closed strings. *)
Ltac eval_names :=
  repeat match goal with
  | |- context [bool_decide ?P] =>
      let v := eval vm_compute in (bool_decide P) in
      lazymatch v with true => idtac | false => idtac end;
      change (bool_decide P) with v
  end; cbn [orb andb negb].

Section cli.
  Context {Rng : Type} (rng_next : Rng → N * Rng).
  (** [std::mt19937_64 rng(n)], and the engine of the [n]-th [generate()]. *)
  Context (seeded : N → Rng) (entropy : nat → Rng).
  (** The orders of enumeration of the three maps. *)
  Context (failures_list : gmap FailureId FailureRecord → list FailureRecord).
  Context (operations : OperationRegistry → list OperationId).
  Context (collect_entries : IdempotencyStore → list EntryView).
  (** The path of the executable, the readable files, the files that can be
      written, and the shell. *)
  Context (module_path : string) (readable : string → option (list byte)).
  Context (writable : string → bool) (system : string → Z).

Definition fresh {tag} (n : nat) : Id tag := MkId (uuid128_generate rng_next (entropy n)).1.

Definition cmd_compensate : Outcome :=
  let rec := compensation0 <| compensation_id := fresh 0 |>
    <| target_operation := MkId (uuid128_from_hex "cafe0002") |>
    <| cr_reason := "external side effect escaped; logical adjustment required" |> in
  let rec := compensator_run rec true in
  let complete := bool_decide (completion rec = CompletionState.COMPLETE) in
  say (line ["  compensation "; (if complete then "complete" else "failed"); " side_effect=";
             SideEffectState.to_string (side_effects rec); " attempts="; dec (attempts rec)])
      (if complete then 0 else 1)%Z.

Definition owner_text (o : RecoveryOwnership) : string :=
  put [" owner="; RecoveryOwner.to_string (owner_ o); " gen="; dec (wrap 32 (value (generation_ o)))].

Definition cmd_owner : Outcome :=
  let a := demo_auth 1 in
  let '(adopted, own) := adopt ownership0 RecoveryOwner.COORDINATOR (MkGeneration 1) (fresh 0) a in
  let l1 := line ["  adopt="; one_zero adopted; owner_text own] in
  let '(transferred, own) :=
    transfer own RecoveryOwner.REPLACEMENT_WORKER (MkGeneration 2) (fresh 1) a in
  let l2 := line ["  transfer->replacement worker (gen2) ="; one_zero transferred; owner_text own] in
  let '(stale, own) := transfer own RecoveryOwner.OPERATOR (MkGeneration 1) (fresh 2) a in
  let l3 := line ["  stale transfer (gen1 <= gen2) rejected="; one_zero (negb stale)] in
  say (put [l1; l2; l3]) (if adopted && transferred && negb stale then 0 else 1)%Z.

(** The record of [classify], [retry], [recover] and [plan]. *)
Definition demo_record (fc : FailureClass.t) : FailureRecord :=
  let rng := seeded 1 in
  let '(op, rng) := uuid128_generate rng_next rng in
  let '(att, rng) := uuid128_generate rng_next rng in
  let ambiguous := bool_decide (fc = FailureClass.AMBIGUOUS) in
  (B.build rng_next (foldl B.builder_call B.builder0
    [ B.Failure_class fc; B.Operation (MkId op); B.Attempt (MkId att);
      B.Origin FailureOrigin.WORKER; B.Phase FailurePhase.EXECUTE;
      B.Completion (if ambiguous then Ambiguity.AMBIGUOUS else Ambiguity.KNOWN);
      B.Side_effect_state (if ambiguous then SideEffectState.MAY_OCCURRED
                           else SideEffectState.NONE_POSSIBLE);
      B.Authority (demo_auth 1) ]) rng).1.

Definition demo_retry_input : RetryInput := MkRetryInput 1 true true true true false true.

Definition demo_plan_input : PlanInput :=
  MkPlanInput 0 3 true true true true false false false true.

Definition cmd_classify (cmd cls : string) : Outcome :=
  match FailureClass.from_string cls with
  | None => say (line ["unknown class: "; cls]) 2
  | Some fc =>
      let rec := demo_record fc in
      let l1 := line [explain_failure rec] in
      if bool_decide (cmd = "classify") then
        say (put [l1; line ["  derived: retryability="; Retryability.to_string (fr_retryability rec);
               " rollback="; RollbackRequirement.to_string (fr_rollback rec);
               " compensation="; CompensationRequirement.to_string (fr_compensation rec);
               " terminality="; Terminality.to_string (fr_terminality rec)]]) 0
      else
        let d := classify rec demo_retry_input policy0 in
        let plan := plan (fresh 0) rec demo_plan_input in
        say (put [l1; line [explain_decision rec d plan];
                  line ["  JSON: "; explain_decision_json rec d plan]]) 0
  end.

(** ** The commands on the store *)
Definition cmd_list (store : FailureStore) : Outcome :=
  say (put (((λ op, line ["  op "; uuid128_to_display (raw op); " state=";
                          OperationState.to_string (state op (ops_ store))]) <$> operations (ops_ store))
       ++ ((λ f, line ["  fail "; uuid128_to_display (raw (fr_failure_id f)); " class=";
                       FailureClass.to_string (fr_failure_class f); " op=";
                       uuid128_to_display (raw (fr_operation f))]) <$> failures_list (failures_ store))
       ++ [line ["  "; dec (N.of_nat (size (ops_ store))); " operations, ";
                 dec (N.of_nat (failure_count store)); " failures"]])) 0.

Definition cmd_snapshot (store : FailureStore) : Outcome :=
  say (line ["  store: "; dec (N.of_nat (failure_count store)); " failures, ";
             dec (N.of_nat (size (ops_ store))); " ops, ownership"; owner_text (ownership_ store)]) 0.

(** The bytes [save] writes. *)
Definition save_bytes (s : FailureStore) : list byte :=
  image (save_frames (failures_list (failures_ s))
           (omap (λ op, (λ rt, (op, rt)) <$> ops_ s !! op) (operations (ops_ s)))
           (collect_entries (idem_ s)) (ownership_ s)).

Definition demo_op : OperationId := MkId (uuid128_from_hex "00dd00ee").

(** The store [save] fills. *)
Definition demo_ops : OperationRegistry :=
  let a := demo_auth 1 in
  let o := (create demo_op a ∅).2 in
  let o := (dispatch_op demo_op a o).2 in
  let o := (run demo_op a o).2 in
  let o := (report_completion demo_op a false o).2 in
  (confirm_completion demo_op a o).2.

Definition saved_record : FailureRecord :=
  let a := demo_auth 1 in
  (B.build rng_next (foldl B.builder_call B.builder0
    [ B.Failure_class FailureClass.PARTIAL_SUCCESS; B.Operation demo_op; B.Attempt (attempt a);
      B.Authority a ]) (seeded 3)).1.

Definition demo_store : FailureStore :=
  (append_failure saved_record (MkStore ∅ demo_ops ∅ ownership0)).2.

Definition cmd_save (file : string) : Outcome :=
  let ok := writable file in
  MkOutcome (line ["  save "; file; " -> "; if ok then "ok" else "failed"]) (if ok then 0 else 1)%Z
    (if ok then Some (file, save_bytes demo_store) else None) None.

Definition replay_line (s : FailureStore) (op : OperationId) : string :=
  line ["  op "; uuid128_to_display (raw op); " terminal=";
        yes_no (match ops_ s !! op with Some rt => terminal_recorded rt | None => false end);
        " state="; OperationState.to_string (state op (ops_ s))].

Definition cmd_load (cmd file : string) (store : FailureStore) : Outcome :=
  let '(ok, store) := load (readable file) store in
  let l1 := line ["  load "; file; " -> "; if ok then "ok" else "corrupt/unsupported"] in
  if negb ok then say l1 1
  else if bool_decide (cmd = "replay") then
    say (put (l1 :: (replay_line store <$> operations (ops_ store)))) 0
  else say l1 0.

(** [inspect], [operation], [attempt], [failure] and [explain]. *)
Definition cmd_lookup (args : list string) (store : FailureStore) : Outcome :=
  match args !! 1%nat with
  | None => say (line ["need an id (hex)"]) 2
  | Some idhex =>
      match List.find (λ f, bool_decide
              (String.substring 0 (String.length idhex) (uuid128_to_hex (raw (fr_failure_id f))) = idhex))
              (failures_list (failures_ store)) with
      | Some f => say (line [explain_failure f]) 0
      | None =>
          let rng := seeded 4 in
          let '(op, rng) := uuid128_generate rng_next rng in
          let '(att, rng) := uuid128_generate rng_next rng in
          let rec := (B.build rng_next (foldl B.builder_call B.builder0
            [ B.Failure_class FailureClass.TRANSIENT; B.Operation (MkId op); B.Attempt (MkId att);
              B.Authority (demo_auth 1) ]) rng).1 in
          say (put [line ["  (no persisted failures; showing a demo explaining a TRANSIENT failure)"];
                    line [explain_failure rec]]) 0
      end
  end.

(** ** The commands that start another program *)
Definition shell (c : string) : Outcome := MkOutcome EmptyString (system c) None (Some c).

Definition quoted (name : string) : string := put [dquote; sibling module_path name; dquote].

Definition port_arg (args : list string) : N :=
  match args !! 1%nat with Some p => port_of p | None => 57321 end.

Definition cmd_serve (args : list string) : Outcome :=
  shell (put [quoted "ff_coordinator.exe"; " --port "; dec (port_arg args); " --state ff_coord_state.bin"]).

Definition cmd_worker (args : list string) : Outcome :=
  shell (put [quoted "ff_worker.exe"; " 127.0.0.1 "; dec (port_arg args); " . "; arg args 2 "normal"]).

Definition cmd_benchmark (args : list string) : Outcome :=
  shell (put [quoted "ff_benchmark.exe"; " ";
              pretty (match args !! 1%nat with Some n => atoi n | None => 100000%Z end)]).

(** ** [main] *)
Definition main (args : list string) : Outcome :=
  match args with
  | [] => say usage 0
  | cmd :: _ =>
      let store := store0 in
      let named name := bool_decide (cmd = name) in
      if named "help" then say usage 0
      else if named "list" then cmd_list store
      else if named "classify" || named "retry" || named "recover" || named "plan" then
        cmd_classify cmd (arg args 1 "TRANSIENT")
      else if named "rollback" then cmd_rollback
      else if named "compensate" then cmd_compensate
      else if named "owner" then cmd_owner
      else if named "snapshot" then cmd_snapshot store
      else if named "save" || named "reload" || named "replay" then
        let file := arg args 1 "ff_state.bin" in
        if named "save" then cmd_save file else cmd_load cmd file store
      else if named "serve" then cmd_serve args
      else if named "worker" then cmd_worker args
      else if named "multiprocess" then shell (quoted "test_multiprocess.exe")
      else if named "cuda" then shell (quoted "ff_cuda_proof.exe")
      else if named "benchmark" then cmd_benchmark args
      else if named "inspect" || named "operation" || named "attempt" || named "failure" || named "explain" then
        cmd_lookup args store
      else say usage 0
  end.

(** ** Exit codes *)

(** Wrong arguments: an unknown class, or a missing identity. *)
Definition misused (args : list string) : bool :=
  match args with
  | [] => false
  | cmd :: _ =>
      (bool_decide (cmd ∈ ["classify"; "retry"; "recover"; "plan"])
       && bool_decide (FailureClass.from_string (arg args 1 "TRANSIENT") = None))
      || (bool_decide (cmd ∈ ["inspect"; "operation"; "attempt"; "failure"; "explain"])
          && bool_decide (args !! 1%nat = None))
  end.

(** A state file that cannot be written or does not load. *)
Definition file_fails (args : list string) : bool :=
  match args with
  | [] => false
  | cmd :: _ =>
      let file := arg args 1 "ff_state.bin" in
      (bool_decide (cmd = "save") && negb (writable file))
      || (bool_decide (cmd ∈ ["reload"; "replay"]) && negb (load (readable file) store0).1)
  end.

Lemma cmd_owner_code : code cmd_owner = 0%Z.
Proof. reflexivity. Qed.

Lemma cmd_rollback_code : code cmd_rollback = 0%Z ∧ ran cmd_rollback = None.
Proof. vm_compute. done. Qed.

Lemma cmd_classify_code cmd cls :
  ran (cmd_classify cmd cls) = None ∧
  code (cmd_classify cmd cls) = (if bool_decide (FailureClass.from_string cls = None) then 2 else 0)%Z.
Proof.
  unfold cmd_classify. destruct (FailureClass.from_string cls); [|done].
  destruct (bool_decide (cmd = "classify")); done.
Qed.

Lemma cmd_load_code cmd file :
  ran (cmd_load cmd file store0) = None ∧
  code (cmd_load cmd file store0) = (if (load (readable file) store0).1 then 0 else 1)%Z.
Proof.
  unfold cmd_load. destruct (load (readable file) store0) as [[] s]; [|done].
  by destruct (bool_decide (cmd = "replay")).
Qed.

Lemma cmd_lookup_code args store :
  ran (cmd_lookup args store) = None ∧
  code (cmd_lookup args store) = (if bool_decide (args !! 1%nat = None) then 2 else 0)%Z.
Proof.
  unfold cmd_lookup. destruct (args !! 1%nat); [|done]. destruct (List.find _ _); [done|].
  destruct (uuid128_generate rng_next (seeded 4)) as [op rng].
  by destruct (uuid128_generate rng_next rng).
Qed.

(** Splits on whether the command is [name]. *)
Ltac on_command cmd name :=
  destruct (decide (cmd = name)) as [->|?];
  [unfold main, misused, file_fails; eval_names; cbv iota|].

(** A command that is none of the names of the context. *)
Ltac other_command cmd :=
  repeat match goal with
  | H : cmd ≠ ?n |- context [bool_decide (cmd = ?n)] =>
      rewrite (bool_decide_eq_false_2 (cmd = n) H)
  | |- context [bool_decide (cmd ∈ ?l)] =>
      rewrite (bool_decide_eq_false_2 (cmd ∈ l))
        by (rewrite !not_elem_of_cons; repeat split; first [assumption | apply not_elem_of_nil])
  end.

(** Closes a case with the code of its command. *)
Ltac settle :=
  match goal with
  | |- context [cmd_classify ?c ?a] => destruct (cmd_classify_code c a) as [-> ->]
  | |- context [cmd_load ?c ?f store0] => destruct (cmd_load_code c f) as [-> ->]
  | |- context [cmd_lookup ?a ?s] => destruct (cmd_lookup_code a s) as [-> ->]
  | |- context [cmd_rollback] => destruct cmd_rollback_code as [-> ->]
  end; try destruct (bool_decide _); try destruct (load _ _) as [[] ?].

(** C38: the exit code of the tool. A command that starts another program exits
    with that program's code; every other one with 2 for an unknown failure
    class or a missing identity, with 1 for a state file that cannot be written
    or is rejected by the loader, and with 0 otherwise: in particular the
    rollback, compensation and ownership demonstrations always succeed, and an
    unknown command is not an error. *)
Theorem cli_exit_code args :
  code (main args)
  = match ran (main args) with
    | Some c => system c
    | None => if misused args then 2 else if file_fails args then 1 else 0
    end%Z.
Proof.
  destruct args as [|cmd args]; [reflexivity|].
  on_command cmd "help"; [done|]. on_command cmd "list"; [done|].
  on_command cmd "classify"; [by settle|].
  on_command cmd "retry"; [by settle|].
  on_command cmd "recover"; [by settle|].
  on_command cmd "plan"; [by settle|].
  on_command cmd "rollback"; [by settle|].
  on_command cmd "compensate"; [done|]. on_command cmd "owner"; [done|].
  on_command cmd "snapshot"; [done|].
  on_command cmd "save"; [unfold cmd_save; cbn [code ran]; by destruct (writable _)|].
  on_command cmd "reload"; [by settle|].
  on_command cmd "replay"; [by settle|].
  on_command cmd "serve"; [done|]. on_command cmd "worker"; [done|].
  on_command cmd "multiprocess"; [done|]. on_command cmd "cuda"; [done|].
  on_command cmd "benchmark"; [done|].
  on_command cmd "inspect"; [by settle|].
  on_command cmd "operation"; [by settle|].
  on_command cmd "attempt"; [by settle|].
  on_command cmd "failure"; [by settle|].
  on_command cmd "explain"; [by settle|].
  unfold main, misused, file_fails. other_command cmd. done.
Qed.

(** ** What [save] writes, [replay] reads *)
Section laws.
  Hypothesis failures_law : ∀ m, failures_list m ≡ₚ (map_to_list m).*2.
  Hypothesis operations_law : ∀ m, operations m ≡ₚ (map_to_list m).*1.
  Hypothesis entries_law : ∀ m, collect_entries m ≡ₚ entry_view <$> map_to_list m.

Lemma operations_find (m : OperationRegistry) :
  omap (λ op, (λ rt, (op, rt)) <$> m !! op) (operations m) ≡ₚ map_to_list m.
Proof.
  rewrite operations_law. apply Permutation_refl'.
  assert (∀ l : list (OperationId * OperationRuntime), (∀ k x, (k, x) ∈ l → m !! k = Some x) →
    omap (λ op, (λ rt, (op, rt)) <$> m !! op) l.*1 = l) as H.
  { induction l as [|[k x] l IH]; intros Hl; [done|]. cbn.
    rewrite (Hl k x) by by constructor. cbn. f_equal. apply IH. intros k' x' Hin.
    apply Hl. by constructor. }
  apply H. intros k x. apply elem_of_map_to_list.
Qed.

Lemma save_bytes_saves s : saves s (save_bytes s).
Proof.
  eexists. split; [|done]. do 3 eexists. split; [apply failures_law|].
  split; [apply operations_find|]. split; [apply entries_law|done].
Qed.
End laws.

(** The runtime of the saved operation. *)
Definition demo_rt : OperationRuntime := default runtime0 (demo_ops !! demo_op).

Lemma demo_ops_eq : demo_ops = {[ demo_op := demo_rt ]}.
Proof.
  assert (is_Some (demo_ops !! demo_op)) as [rt Hrt].
  { assert (match demo_ops !! demo_op with Some _ => true | None => false end = true) as H
      by (vm_compute; reflexivity).
    destruct (demo_ops !! demo_op); [eauto|done]. }
  unfold demo_rt. rewrite Hrt. cbn [default from_option id].
  apply map_eq. intros op. destruct (decide (demo_op = op)) as [<-|Hne].
  { by rewrite lookup_singleton_eq. }
  rewrite lookup_singleton_ne by done. clear Hrt.
  set (a := demo_auth 1).
  assert (demo_ops = reg_run [Create demo_op a; Dispatch demo_op a; Run demo_op a;
    ReportCompletion demo_op a false; ConfirmCompletion demo_op a] ∅) as ->.
  { cbn [reg_run]. by rewrite !reg_apply_next. }
  rewrite reg_run_frame; [apply lookup_empty|]. by repeat constructor.
Qed.

Lemma demo_rt_ok : op_ok demo_rt ∧ terminal_recorded demo_rt = true ∧
  OperationState.to_string (state_ (machine demo_rt)) = "COMPLETION_CONFIRMED".
Proof. repeat split; vm_compute; congruence. Qed.

Lemma saved_record_ok : record_ok saved_record ∧ loggable saved_record.
Proof.
  unfold saved_record.
  match goal with |- context [B.build _ ?b ?g] =>
    destruct (build_built rng_next b g) as (id & -> & Hid & _) end.
  split; [unfold record_ok; split_and!|unfold loggable; split_and!]; try (vm_compute; congruence).
  - by vm_compute.
  - cbn. lia.
  - by apply is_null_false.
Qed.

Lemma demo_store_eq :
  demo_store = MkStore {[ fr_failure_id saved_record := saved_record ]} demo_ops ∅ ownership0.
Proof.
  destruct saved_record_ok as [_ Hl]. unfold demo_store.
  destruct (append_failure_spec saved_record (MkStore ∅ demo_ops ∅ ownership0)) as [[[r Hr]|Hn]|];
    [by cbn [failures_] in Hr; rewrite lookup_empty in Hr|done|done].
Qed.

Lemma demo_store_ok : store_ok demo_store.
Proof.
  rewrite demo_store_eq, demo_ops_eq. destruct saved_record_ok as [Hr _], demo_rt_ok as [Ho _].
  split; cbn [failures_ ops_ idem_ ownership_]; rewrite ?map_Forall_singleton, ?map_size_singleton.
  - by split.
  - exact Ho.
  - apply map_Forall_empty.
  - reflexivity.
  - by vm_compute.
Qed.

(** C24: what [save] writes, [replay] reads back, in another process and whatever
    the engines and the enumeration orders: on a file that can be written,
    [save] exits with 0 after writing the file and starts no other program; and
    [replay] on a file with these contents exits with 0, prints that the load
    succeeded and then exactly one operation, the saved one, terminal and
    confirmed. *)
Theorem cli_replays_what_it_saved file :
  (∀ m, failures_list m ≡ₚ (map_to_list m).*2) →
  (∀ m, operations m ≡ₚ (map_to_list m).*1) →
  (∀ m, collect_entries m ≡ₚ entry_view <$> map_to_list m) →
  writable file = true →
  code (main ["save"; file]) = 0%Z ∧ ran (main ["save"; file]) = None ∧
  ∃ data, wrote (main ["save"; file]) = Some (file, data) ∧
    (readable file = Some data →
     main ["replay"; file]
     = say (put [line ["  load "; file; " -> ok"];
                 line ["  op "; uuid128_to_display (raw demo_op);
                       " terminal=yes state=COMPLETION_CONFIRMED"]]) 0).
Proof.
  intros Hfl Hop Hen Hw.
  assert (main ["save"; file] = cmd_save file) as -> by (unfold main, arg; by eval_names).
  assert (main ["replay"; file] = cmd_load "replay" file store0) as -> by (unfold main, arg; by eval_names).
  unfold cmd_save. rewrite Hw. cbn [code ran wrote]. split_and!; [done..|].
  exists (save_bytes demo_store). split; [done|]. intros Hr. unfold cmd_load. rewrite Hr.
  rewrite (load_image demo_store store0 _ demo_store_ok (save_bytes_saves Hfl Hop Hen demo_store)).
  cbn [negb]. rewrite bool_decide_eq_true_2 by done. rewrite demo_store_eq. cbn [ops_].
  assert (operations demo_ops = [demo_op]) as ->.
  { apply Permutation_singleton_r. rewrite Hop, demo_ops_eq, map_to_list_singleton. done. }
  unfold replay_line, state. cbn [fmap list_fmap ops_]. rewrite demo_ops_eq, lookup_singleton_eq.
  destruct demo_rt_ok as (_ & -> & ->). done.
Qed.
End cli.

(** ** Witnesses *)

(** A host with counting engines whose disk holds what [save] writes. *)
Definition disk (file : string) : option (list byte) :=
  Some (save_bytes (λ m, (map_to_list m).*2) (λ m, (map_to_list m).*1)
          (λ m, entry_view <$> map_to_list m) (demo_store (λ n, (n, n + 1)) id)).

Definition run_cli : list string → Outcome :=
  main (λ n, (n, n + 1)) id N.of_nat (λ m, (map_to_list m).*2) (λ m, (map_to_list m).*1)
    (λ m, entry_view <$> map_to_list m) "C:\tools\ff_cli.exe" disk (λ _, true) (λ _, 0%Z).

Lemma cli_replays_what_it_saved_witness :
  code (run_cli ["save"; "state.bin"]) = 0%Z ∧ code (run_cli ["replay"; "state.bin"]) = 0%Z.
Proof.
  destruct (cli_replays_what_it_saved (λ n, (n, n + 1)) id N.of_nat (λ m, (map_to_list m).*2)
    (λ m, (map_to_list m).*1) (λ m, entry_view <$> map_to_list m) "C:\tools\ff_cli.exe" disk
    (λ _, true) (λ _, 0%Z) "state.bin") as (H1 & _ & data & H2 & H3); try reflexivity.
  split; [exact H1|]. unfold run_cli. rewrite H3; [reflexivity|].
  injection H2 as <-. reflexivity.
Defined.
