(* ===== verification/Coordinator.v ===== *)
(** * The coordinator process ([src/coordinator.cpp])

    The process runs one thread per connection over shared globals, under the
    mutex [g_mu] and the mutexes of the store and of the registry. A thread is
    a program counter; a step runs a thread from one synchronisation point to
    the next: one locked section, one call of the registry, one unlocked read
    of a global, or one [send]. The interleaving of the threads, the messages
    received and the lost connections are the trace. *)
From stdpp Require Import gmap.
From S2P Require Import Prelude Ident Enums Authority Operation Idempotency Registry.
From S2P Require Import FailureRecord Recovery Codec RecordCodec Store Protocol.
Module B := FailureRecordBuilder.

Local Open Scope N_scope.

#[export] Instance Authority_settable : Settable AuthorityEnvelope := λ e,
  MkAuthority (coordinator_epoch e) (worker_boot e) (attempt e) (attempt_generation e) (dispatch e)
    (operation_generation e) (failure_generation e) (recovery_generation e).

#[export] Instance FailureStore_settable : Settable FailureStore := λ s,
  MkStore (failures_ s) (ops_ s) (idem_ s) (ownership_ s).

(** A connection, by its number in the order of [accept]. *)
Abbreviation ConnId := nat.

(** Where a connection's thread stands. *)
Variant Pc :=
  | Receiving                                             (* in [recv] *)
  | DispatchCreate (op : OperationId) (auth : AuthorityEnvelope)
  | DispatchSend (target : ConnId) (op : OperationId) (auth : AuthorityEnvelope)
  | DispatchMark (target : ConnId) (op : OperationId) (auth : AuthorityEnvelope)
  | DispatchRun (op : OperationId) (auth : AuthorityEnvelope)
  | CompleteConfirm (op : OperationId) (auth : AuthorityEnvelope)
  | CompleteAck (op : OperationId)
  | CompleteFinish
  | CompleteFence (op : OperationId)
  | LostTake                                              (* [recv] failed *)
  | LostDecide (was_running : bool)
  | LostTransfer
  | LostBuild (cur : AuthorityEnvelope)
  | LostAppend (b : B.t) (cur : AuthorityEnvelope)
  | LostRedispatch (cur : AuthorityEnvelope)
  | LostCheck (replacement : option ConnId) (fresh : AuthorityEnvelope)
  | LostSend (replacement : ConnId) (fresh : AuthorityEnvelope)
  | LostMark (replacement : ConnId)
  | Gone.                                                 (* the thread returned *)

Record Conn := MkConn {
  worker : bool;
  wid : WorkerId;
  boot : WorkerBootId;
  running_op : bool;
  pc : Pc;
}.

#[export] Instance Conn_settable : Settable Conn := λ k,
  MkConn (worker k) (wid k) (boot k) (running_op k) (pc k).

Definition conn0 : Conn := MkConn false null_id null_id false Receiving.

(** The globals. [g_sent] is what was handed to the sockets, in order;
    [g_saved] is the store [save_state] was last called with; what that call
    makes of the state file, which the code does not look at, is in [Restart]. *)
Record Coordinator := MkCoordinator {
  g_store : FailureStore;
  g_conns : gmap ConnId Conn;
  g_workers : gmap WorkerId ConnId;
  g_reg_order : list ConnId;
  g_running_conn : option ConnId;
  g_current_op : OperationId;
  g_finished : bool;
  g_saved : option FailureStore;
  g_sent : list (ConnId * WireMessage);
}.

#[export] Instance Coordinator_settable : Settable Coordinator := λ g,
  MkCoordinator (g_store g) (g_conns g) (g_workers g) (g_reg_order g) (g_running_conn g)
    (g_current_op g) (g_finished g) (g_saved g) (g_sent g).

(** [main] up to its loop: a best-effort load of the state file. *)
Definition coordinator_start (file : option (list byte)) : Coordinator :=
  MkCoordinator (load file store0).2 ∅ ∅ [] None null_id false None [].

(** [g_store.save(g_statefile)], whose answer is ignored: the store it is called
    with is noted, and [Restart] says what the call can make of the file. *)
Definition save_state (g : Coordinator) : Coordinator := g <| g_saved := Some (g_store g) |>.

(** ** Access to the shared state *)
Definition ops (g : Coordinator) : OperationRegistry := ops_ (g_store g).

Definition call {R} (f : OperationRegistry → R * OperationRegistry) (g : Coordinator)
    : R * Coordinator :=
  let '(r, o) := f (ops g) in (r, g <| g_store := g_store g <| ops_ := o |> |>).

Definition goto (c : ConnId) (p : Pc) (g : Coordinator) : Coordinator :=
  g <| g_conns := alter (λ k, k <| pc := p |>) c (g_conns g) |>.

Definition send (c : ConnId) (m : WireMessage) (g : Coordinator) : Coordinator :=
  g <| g_sent := g_sent g ++ [(c, m)] |>.

(** ** The threads *)
Section threads.
  Context {Rng : Type} (rng_next : Rng → N * Rng).

(** What a step takes from outside: the engine behind [generate], the clock,
    and the worker [g_workers.begin()] yields, which is unspecified. *)
Record Env := MkEnv { rng : Rng; now_ms : N; begin_wid : WorkerId }.

Definition generate {tag} (env : Env) : Id tag := MkId (uuid128_generate rng_next (rng env)).1.

(** [g_workers.begin()->second], of a map that is not empty. *)
Definition begin_ (env : Env) (g : Coordinator) : option ConnId := g_workers g !! begin_wid env.

Definition new_attempt (env : Env) (fresh : AuthorityEnvelope) : AuthorityEnvelope :=
  fresh <| attempt := generate env |>
        <| attempt_generation := next (attempt_generation fresh) |>
        <| operation_generation := next (operation_generation fresh) |>
        <| failure_generation := next (failure_generation fresh) |>
        <| recovery_generation := next (recovery_generation fresh) |>.

(** [dispatch_to], up to its lock and from its lock on. *)
Definition dispatch_message (op : OperationId) (auth : AuthorityEnvelope) (w : WorkerId)
    : WireMessage :=
  message0 <| type := ProtocolMessage.DISPATCH |> <| m_op := op |> <| m_attempt := attempt auth |>
           <| m_authority := auth |> <| m_worker := w |>.

Definition dispatch_send (target : ConnId) (op : OperationId) (auth : AuthorityEnvelope)
    (g : Coordinator) : option Coordinator :=
  k ← g_conns g !! target;
  Some (send target (dispatch_message op auth (wid k)) g).

Definition dispatch_mark (target : ConnId) (op : OperationId) (g : Coordinator) : Coordinator :=
  g <| g_conns := alter (λ k, k <| running_op := true |>) target (g_conns g) |>
    <| g_running_conn := Some target |> <| g_current_op := op |>.

(** The envelope of a client's [DISPATCH]: the boot is the one of the first
    worker at this moment. *)
Definition client_authority (env : Env) (g : Coordinator) : option AuthorityEnvelope :=
  b ← (if bool_decide (g_workers g = ∅) then Some null_id
       else c ← begin_ env g; k ← g_conns g !! c; Some (boot k));
  Some (authority0 <| coordinator_epoch := MkGeneration 1 |> <| attempt := generate env |>
                   <| attempt_generation := MkGeneration 1 |>
                   <| operation_generation := MkGeneration 1 |> <| worker_boot := b |>).

Definition ack_message (op : OperationId) : WireMessage :=
  message0 <| type := ProtocolMessage.ACK |> <| flag := true |> <| m_op := op |>.

Definition fence_message (op : OperationId) : WireMessage :=
  message0 <| type := ProtocolMessage.FENCE |> <| flag := false |> <| m_op := op |>
           <| text := "stale completion rejected" |>.

(** [handle_message], up to its first synchronisation point. *)
Definition handle_message (env : Env) (c : ConnId) (m : WireMessage) (g : Coordinator)
    : option Coordinator :=
  match type m with
  | ProtocolMessage.REGISTER =>
      let w := if is_null (m_worker m) then generate env else m_worker m in
      let g := g <| g_conns := alter (λ k, k <| worker := true |> <| wid := w |>
                                             <| boot := m_boot m |>) c (g_conns g) |>
                 <| g_workers := <[w := c]> (g_workers g) |>
                 <| g_reg_order := g_reg_order g ++ [c] |> in
      Some (send c (message0 <| type := ProtocolMessage.REGISTER_ACK |> <| m_worker := w |>) g)
  | ProtocolMessage.DISPATCH =>
      auth ← client_authority env g;
      Some (goto c (DispatchCreate (m_op m) auth) g)
  | ProtocolMessage.RUNNING => Some (call (run (m_op m) (m_authority m)) g).2
  | ProtocolMessage.COMPLETE =>
      let '(fr, g) := call (report_completion (m_op m) (m_authority m) false) g in
      Some (goto c (if bool_decide (fr = ApplyResult.OK)
                    then CompleteConfirm (m_op m) (m_authority m)
                    else CompleteFence (m_op m)) g)
  | ProtocolMessage.FAILURE =>
      Some (call (report_failure (m_op m) (m_authority m) (flag m)) g).2
  | _ => Some g
  end.

(** The setters on the record of a lost worker, before the lock. *)
Definition lost_record (env : Env) (op : OperationId) (cur : AuthorityEnvelope) : B.t :=
  foldl B.builder_call B.builder0
    [ B.Failure_class FailureClass.AMBIGUOUS; B.Operation op; B.Attempt (attempt cur);
      B.Origin FailureOrigin.WORKER; B.Phase FailurePhase.ACK; B.Completion Ambiguity.AMBIGUOUS;
      B.Side_effect_state SideEffectState.MAY_OCCURRED; B.Unknown_side_effects 1;
      B.Authority cur; B.Timestamp (now_ms env) ].

(** The choice of the replacement: the first registered connection, or the
    first worker of the map if that connection's worker is not in it. *)
Definition choose_replacement (env : Env) (g : Coordinator) : option (option ConnId) :=
  if bool_decide (g_workers g = ∅) then Some None
  else match g_reg_order g with
  | [] => Some None
  | c :: _ =>
      k ← g_conns g !! c;
      if bool_decide (is_Some (g_workers g !! wid k)) then Some (Some c)
      else Some <$> begin_ env g
  end.

(** From one synchronisation point to the next: the rest of [handle_message],
    and what [worker_thread] does once the connection is lost. *)
Definition advance (env : Env) (c : ConnId) (k : Conn) (g : Coordinator) : option Coordinator :=
  match pc k with
  | Receiving | Gone => None
  | DispatchCreate op auth =>
      if bool_decide (g_workers g = ∅) then Some (goto c Receiving g)
      else
        target ← begin_ env g;
        let g := (call (create op auth) g).2 in
        let g := (call (dispatch_op op auth) g).2 in
        Some (goto c (DispatchSend target op auth) g)
  | DispatchSend target op auth =>
      g ← dispatch_send target op auth g; Some (goto c (DispatchMark target op auth) g)
  | DispatchMark target op auth => Some (goto c (DispatchRun op auth) (dispatch_mark target op g))
  | DispatchRun op auth => Some (goto c Receiving (call (run op auth) g).2)
  | CompleteConfirm op auth => Some (goto c (CompleteAck op) (call (confirm_completion op auth) g).2)
  | CompleteAck op => Some (goto c CompleteFinish (send c (ack_message op) g))
  | CompleteFinish => Some (goto c Receiving (save_state (g <| g_finished := true |>)))
  | CompleteFence op => Some (goto c Receiving (send c (fence_message op) g))
  | LostTake =>
      let was_running := bool_decide (g_running_conn g = Some c) in
      let g := if was_running then
                 g <| g_workers := delete (wid k) (g_workers g) |> <| g_running_conn := None |>
               else g in
      Some (goto c (LostDecide was_running) g)
  | LostDecide was_running =>
      Some (goto c (if was_running && negb (g_finished g) then LostTransfer else Gone) g)
  | LostTransfer =>
      let cur := current_authority (g_current_op g) (ops g) in
      let own := (transfer (ownership_ (g_store g)) RecoveryOwner.REPLACEMENT_WORKER
                    (next (recovery_generation cur)) (generate env) cur).2 in
      Some (goto c (LostBuild cur) (g <| g_store := g_store g <| ownership_ := own |> |>))
  | LostBuild cur => Some (goto c (LostAppend (lost_record env (g_current_op g) cur) cur) g)
  | LostAppend b cur =>
      let rec := (B.build rng_next b (rng env)).1 in
      let g := g <| g_store := (append_failure rec (g_store g)).2 |> in
      Some (goto c (LostRedispatch cur) (call (report_failure (g_current_op g) cur true) g).2)
  | LostRedispatch cur =>
      let fresh := new_attempt env cur in
      replacement ← choose_replacement env g;
      let g := match replacement with
               | Some _ => (call (dispatch_op (g_current_op g) fresh) g).2
               | None => g
               end in
      Some (goto c (LostCheck replacement fresh) g)
  | LostCheck replacement fresh =>
      Some (goto c (match replacement with
                    | Some r => if negb (is_terminal (state (g_current_op g) (ops g)))
                                then LostSend r fresh else Gone
                    | None => Gone
                    end) g)
  | LostSend r fresh =>
      g ← dispatch_send r (g_current_op g) fresh g; Some (goto c (LostMark r) g)
  | LostMark r => Some (goto c Gone (dispatch_mark r (g_current_op g) g))
  end.

(** ** Traces *)
Variant event :=
  | Accept (c : ConnId)
  | Receive (c : ConnId) (m : WireMessage)
  | Disconnect (c : ConnId)
  | Advance (c : ConnId).

Definition coord_step (ev : event) (env : Env) (g : Coordinator) : option Coordinator :=
  match ev with
  | Accept c =>
      match g_conns g !! c with
      | Some _ => None
      | None => Some (g <| g_conns := <[c := conn0]> (g_conns g) |>)
      end
  | Receive c m =>
      k ← g_conns g !! c;
      match pc k with Receiving => handle_message env c m g | _ => None end
  | Disconnect c =>
      k ← g_conns g !! c;
      match pc k with Receiving => Some (goto c LostTake g) | _ => None end
  | Advance c => k ← g_conns g !! c; advance env c k g
  end.

Fixpoint coord_run (tr : list (event * Env)) (g : Coordinator) : option Coordinator :=
  match tr with
  | [] => Some g
  | (ev, env) :: tr => g ← coord_step ev env g; coord_run tr g
  end.

(** ** Refinement: what a step does to the registry, as calls *)
#[local] Arguments reg_apply : simpl never.

(** Fields of the combinators. *)
Lemma call_ops {R} (f : OperationRegistry → R * OperationRegistry) g :
  ops (call f g).2 = (f (ops g)).2.
Proof. unfold call. by destruct (f (ops g)). Qed.

Lemma call_res {R} (f : OperationRegistry → R * OperationRegistry) g :
  (call f g).1 = (f (ops g)).1.
Proof. unfold call. by destruct (f (ops g)). Qed.

(** [call] changes the registry alone. *)
Definition with_ops (o : OperationRegistry) (g : Coordinator) : Coordinator :=
  g <| g_store := g_store g <| ops_ := o |> |>.

Lemma call_eq {R} (f : OperationRegistry → R * OperationRegistry) g :
  call f g = ((f (ops g)).1, with_ops (f (ops g)).2 g).
Proof. unfold call. by destruct (f (ops g)). Qed.

Definition receive_calls (m : WireMessage) : list reg_call :=
  match type m with
  | ProtocolMessage.RUNNING => [Run (m_op m) (m_authority m)]
  | ProtocolMessage.COMPLETE => [ReportCompletion (m_op m) (m_authority m) false]
  | ProtocolMessage.FAILURE => [ReportFailure (m_op m) (m_authority m) (flag m)]
  | _ => []
  end.

Definition advance_calls (env : Env) (k : Conn) (g : Coordinator) : list reg_call :=
  match pc k with
  | DispatchCreate op auth =>
      if bool_decide (g_workers g = ∅) then [] else [Create op auth; Dispatch op auth]
  | DispatchRun op auth => [Run op auth]
  | CompleteConfirm op auth => [ConfirmCompletion op auth]
  | LostAppend _ cur => [ReportFailure (g_current_op g) cur true]
  | LostRedispatch cur =>
      match choose_replacement env g with
      | Some (Some _) => [Dispatch (g_current_op g) (new_attempt env cur)]
      | _ => []
      end
  | _ => []
  end.

Definition step_calls (ev : event) (env : Env) (g : Coordinator) : list reg_call :=
  match ev with
  | Receive c m => receive_calls m
  | Advance c => match g_conns g !! c with Some k => advance_calls env k g | None => [] end
  | _ => []
  end.

(** The records a step logs, and its calls on the recovery ownership. *)
Definition step_log (ev : event) (env : Env) (g : Coordinator) : list FailureRecord :=
  match ev with
  | Advance c =>
      match pc <$> g_conns g !! c with
      | Some (LostAppend b _) => [(B.build rng_next b (rng env)).1]
      | _ => []
      end
  | _ => []
  end.

Definition step_ownership (ev : event) (env : Env) (g : Coordinator) : list ownership_call :=
  match ev with
  | Advance c =>
      match pc <$> g_conns g !! c with
      | Some LostTransfer =>
          let cur := current_authority (g_current_op g) (ops g) in
          [Transfer RecoveryOwner.REPLACEMENT_WORKER (next (recovery_generation cur)) (generate env) cur]
      | _ => []
      end
  | _ => []
  end.

(** What the steps of a trace do, in order. *)
Fixpoint collect {A} (f : event → Env → Coordinator → list A) (tr : list (event * Env))
    (g : Coordinator) : list A :=
  match tr with
  | [] => []
  | (ev, env) :: tr =>
      f ev env g ++ match coord_step ev env g with Some g' => collect f tr g' | None => [] end
  end.

(** The same calls made on the parts of a store. *)
Definition store_run (calls : list reg_call) (log : list FailureRecord) (own : list ownership_call)
    (s : FailureStore) : FailureStore :=
  MkStore (failures_ (append_run s log)) (reg_run calls (ops_ s)) (idem_ s)
    (ownership_run (ownership_ s) own).

Lemma handle_message_ops env c m g g' :
  handle_message env c m g = Some g' → ops g' = reg_run (receive_calls m) (ops g).
Proof.
  unfold handle_message, receive_calls. rewrite !call_eq.
  destruct (type m); intros H; simplify_option_eq; try done; cbn [reg_run];
    by rewrite reg_apply_next.
Qed.

Lemma append_failure_ownership rec s : ownership_ (append_failure rec s).2 = ownership_ s.
Proof. unfold append_failure. by repeat case_match. Qed.

Lemma append_failure_ops rec s : ops_ (append_failure rec s).2 = ops_ s.
Proof. unfold append_failure. by repeat case_match. Qed.

Lemma advance_ops env c k g g' :
  advance env c k g = Some g' → ops g' = reg_run (advance_calls env k g) (ops g).
Proof.
  unfold advance, advance_calls, dispatch_send, save_state. rewrite ?call_eq.
  destruct (pc k); intros H; try done; simplify_option_eq; try done; rewrite ?call_eq.
  - cbn [reg_run]. by rewrite !reg_apply_next.
  - cbn [reg_run]. by rewrite !reg_apply_next.
  - cbn [reg_run]. by rewrite !reg_apply_next.
  - cbn [reg_run]. rewrite !reg_apply_next. cbn.
    unfold ops at 1. cbn. by rewrite append_failure_ops.
  - destruct H0; [|done]. cbn [reg_run]. by rewrite !reg_apply_next.
Qed.

Lemma append_run_failures recs : ∀ s t,
  failures_ s = failures_ t → failures_ (append_run s recs) = failures_ (append_run t recs).
Proof.
  induction recs as [|r recs IH]; intros s t Hst; [done|]. cbn. apply IH.
  unfold append_failure. rewrite Hst. by repeat case_match.
Qed.

Lemma handle_message_rest env c m g g' :
  handle_message env c m g = Some g' →
  g_store g' = g_store g <| ops_ := ops g' |>.
Proof.
  unfold handle_message. rewrite ?call_eq. intros H.
  destruct (type m); simplify_option_eq; first [by destruct g as [[]] | by destruct g' as [[]]].
Qed.

Lemma advance_store env c k g g' :
  g_conns g !! c = Some k → advance env c k g = Some g' →
  g_store g' = store_run (step_calls (Advance c) env g) (step_log (Advance c) env g)
                 (step_ownership (Advance c) env g) (g_store g).
Proof.
  intros Hk Hs. pose proof (advance_ops _ _ _ _ _ Hs) as Hops.
  unfold store_run, step_log, step_ownership. cbn [step_calls]. rewrite Hk. cbn [fmap option_fmap option_map].
  unfold ops in Hops at 2. rewrite <- Hops. clear Hops. revert Hs.
  unfold advance, dispatch_send, save_state. rewrite ?call_eq.
  destruct (pc k); intros Hs; try done;
    first [injection Hs as <- | simplify_option_eq]; try done; rewrite ?call_eq;
    try (by destruct g as [[]]); try (case_bool_decide; by destruct g as [[]]); try (by destruct g' as [[]]).
  - set (h := append_failure _ _). cbn.
    assert (h.2 = MkStore (failures_ h.2) (ops_ (g_store g)) (idem_ (g_store g))
                    (ownership_ (g_store g))) as Hh.
    { unfold h, append_failure. repeat case_match; by destruct (g_store g). }
    unfold ops. cbn. by rewrite Hh.
  - destruct H; by destruct g as [[]].
Qed.

Lemma store_run_nil s : store_run [] [] [] s = s.
Proof. by destruct s. Qed.

Lemma coord_step_store ev env g g' :
  coord_step ev env g = Some g' →
  g_store g' = store_run (step_calls ev env g) (step_log ev env g) (step_ownership ev env g)
                 (g_store g).
Proof.
  destruct ev as [c|c m|c|c]; cbn [coord_step];
    destruct (g_conns g !! c) as [k|] eqn:Hk; cbn [mbind option_bind]; try done.
  - intros [= <-]. cbn. by rewrite store_run_nil.
  - destruct (pc k); try done. intros Hs. rewrite (handle_message_rest _ _ _ _ _ Hs).
    rewrite (handle_message_ops _ _ _ _ _ Hs). unfold ops. by destruct (g_store g).
  - destruct (pc k); try done. intros [= <-]. cbn. by rewrite store_run_nil.
  - by apply advance_store.
Qed.

Lemma coord_step_ops ev env g g' :
  coord_step ev env g = Some g' → ops g' = reg_run (step_calls ev env g) (ops g).
Proof. intros Hs. unfold ops at 1. by rewrite (coord_step_store _ _ _ _ Hs). Qed.

Lemma store_run_app c1 c2 l1 l2 o1 o2 s :
  store_run (c1 ++ c2) (l1 ++ l2) (o1 ++ o2) s = store_run c2 l2 o2 (store_run c1 l1 o1 s).
Proof.
  unfold store_run, ownership_run. cbn. rewrite reg_run_app, foldl_app. f_equal.
  unfold append_run at 1. rewrite foldl_app. by apply append_run_failures.
Qed.

Definition run_calls := collect step_calls.

(** The store of a run is the store run on its calls. *)
Lemma coord_run_store tr : ∀ g g',
  coord_run tr g = Some g' →
  g_store g' = store_run (run_calls tr g) (collect step_log tr g) (collect step_ownership tr g)
                 (g_store g).
Proof.
  unfold run_calls. induction tr as [|[ev env] tr IH]; intros g g'; cbn [coord_run collect].
  { intros [= <-]. by rewrite store_run_nil. }
  destruct (coord_step ev env g) as [g1|] eqn:E; cbn [mbind option_bind]; [|done].
  intros H. rewrite store_run_app, <- (coord_step_store _ _ _ _ E). by apply IH.
Qed.

(** ** The program counters *)
Definition pcs (g : Coordinator) : gmap ConnId Pc := pc <$> g_conns g.

Lemma pcs_alter (f : Conn → Conn) c (m : gmap ConnId Conn) :
  (∀ k, pc (f k) = pc k) → pc <$> alter f c m = pc <$> m.
Proof.
  intros Hf. apply map_eq. intros i. rewrite !lookup_fmap.
  destruct (decide (c = i)) as [->|Hne]; [|by rewrite lookup_alter_ne].
  rewrite lookup_alter_eq. destruct (m !! i) as [k|]; [|done]. cbn. by rewrite Hf.
Qed.

Lemma pcs_goto c p p0 g : pcs g !! c = Some p0 → pcs (goto c p g) = <[c := p]> (pcs g).
Proof.
  intros Hc. apply map_eq. intros i. unfold pcs, goto in *. cbn. rewrite lookup_fmap.
  destruct (decide (c = i)) as [->|Hne].
  - rewrite lookup_alter_eq, lookup_insert_eq. rewrite lookup_fmap in Hc.
    by destruct (g_conns g !! i).
  - by rewrite lookup_alter_ne, lookup_insert_ne, lookup_fmap by done.
Qed.

(** The connection a step belongs to. *)
Definition actor (ev : event) : ConnId :=
  match ev with Accept c | Receive c _ | Disconnect c | Advance c => c end.

(** ** Acknowledgements *)

(** The positive acknowledgements of [op] that were sent. *)
Definition is_ack (op : OperationId) (s : ConnId * WireMessage) : bool :=
  bool_decide (type s.2 = ProtocolMessage.ACK) && flag s.2 && bool_decide (m_op s.2 = op).

Definition acks (op : OperationId) (g : Coordinator) : nat := length (List.filter (is_ack op) (g_sent g)).

(** Threads that will send one. *)
Definition acking (op : OperationId) (p : Pc) : bool :=
  match p with
  | CompleteConfirm op' _ | CompleteAck op' => bool_decide (op' = op)
  | _ => false
  end.

Definition pending_acks (op : OperationId) (m : gmap ConnId Pc) : nat :=
  size (filter (λ cp, acking op cp.2 = true) m).

(** A completion of the operation can still be accepted. *)
Definition open_state (s : OperationState) : bool :=
  bool_decide (s = OperationState.DISPATCHED) || bool_decide (s = OperationState.RUNNING)
  || bool_decide (s = OperationState.RETRYING).

Definition completable (op : OperationId) (o : OperationRegistry) : bool :=
  match o !! op with
  | Some r => negb (terminal_recorded r) && open_state (state_ (machine r))
  | None => false
  end.

Definition dispatches_of (op : OperationId) (cs : list reg_call) : nat :=
  length (List.filter (λ c, is_dispatch c && bool_decide (call_op c = op)) cs).

(** The calls the coordinator makes. *)
Definition coordinator_call (c : reg_call) : bool :=
  match c with Restore _ _ | Transition _ _ _ | RecordTerminal _ _ _ => false | _ => true end.

Lemma pending_insert op m c p p' :
  m !! c = Some p →
  (pending_acks op (<[c := p']> m) + Nat.b2n (acking op p)
   = pending_acks op m + Nat.b2n (acking op p'))%nat.
Proof.
  intros Hc. unfold pending_acks. rewrite map_filter_insert. cbn [snd].
  rewrite map_filter_delete.
  set (f := filter (λ cp : ConnId * Pc, acking op cp.2 = true) m).
  assert (f !! c = if acking op p then Some p else None) as Hf.
  { unfold f. destruct (acking op p) eqn:E.
    - apply map_lookup_filter_Some. by split.
    - apply map_lookup_filter_None. right. intros x Hx. cbn. congruence. }
  assert (acking op p = true → size f ≠ 0%nat) as Hz.
  { intros E Hz. apply map_size_empty_inv in Hz. rewrite E, Hz, lookup_empty in Hf. done. }
  destruct (decide _) as [E'|E'].
  - rewrite E', map_size_insert, Hf. destruct (acking op p); cbn; lia.
  - apply not_true_is_false in E'. rewrite E', map_size_delete, Hf.
    destruct (acking op p); [specialize (Hz eq_refl)|]; cbn; lia.
Qed.

Lemma pending_insert_new op m c :
  m !! c = None → pending_acks op (<[c := Receiving]> m) = pending_acks op m.
Proof.
  intros Hc. unfold pending_acks. rewrite map_filter_insert_False by done.
  by rewrite map_filter_delete, delete_id by (apply map_lookup_filter_None; by left).
Qed.

(** No transition the coordinator asks for makes an operation completable. *)
Definition open_runtime (r : OperationRuntime) : bool :=
  negb (terminal_recorded r) && open_state (state_ (machine r)).

Lemma open_state_from s s' :
  is_allowed s s' = true → s' = OperationState.RUNNING ∨ s' = OperationState.COMPLETION_REPORTED →
  open_state s = true.
Proof.
  intros Hs Hor.
  pose proof (step_by_table (λ s s', implb (bool_decide (s' = OperationState.RUNNING) ||
    bool_decide (s' = OperationState.COMPLETION_REPORTED)) (open_state s)) eq_refl s s' Hs) as H.
  cbn beta in H. destruct Hor as [-> | ->]; exact H.
Qed.

Lemma transition_open to a r :
  to = OperationState.RUNNING ∨ open_state to = false →
  open_runtime (transition_body to a r).2 = true → open_runtime r = true.
Proof.
  intros Hto. unfold transition_body. destruct (terminal_recorded r) eqn:Et; [done|].
  destruct (negb (accepted _)); [done|]. rewrite machine_transition_eq.
  destruct (is_allowed _ _) eqn:Ea; cbn [negb snd]; [|by rewrite set_machine_id].
  unfold open_runtime. cbn. rewrite Et. destruct Hto as [-> | ->]; [|done]. intros _.
  eapply open_state_from; eauto.
Qed.

Lemma report_open a r :
  let '(res, r') := report_completion_body a false r in
  (res = ApplyResult.OK → open_runtime r = true ∧ open_runtime r' = false) ∧
  (open_runtime r' = true → open_runtime r = true).
Proof.
  unfold report_completion_body. destruct (terminal_recorded r) eqn:Et; [done|].
  destruct (negb (accepted _)); [done|]. destruct (_ || _); [done|].
  rewrite machine_transition_eq. destruct (is_allowed _ _) eqn:Ea; cbn [negb];
    [|by rewrite set_machine_id].
  unfold open_runtime. cbn. rewrite Et. split; [|done]. intros _. split; [|done].
  eapply open_state_from; eauto.
Qed.

Lemma confirm_open a r :
  open_runtime (confirm_completion_body a r).2 = true → open_runtime r = true.
Proof.
  unfold confirm_completion_body. destruct (terminal_recorded r) eqn:Et; [done|].
  destruct (negb (accepted _)); [done|]. rewrite machine_transition_eq.
  destruct (is_allowed _ _) eqn:Ea; cbn [negb snd]; [done|by rewrite set_machine_id].
Qed.

Lemma completable_call op c o :
  coordinator_call c = true →
  (Nat.b2n (completable op (reg_apply c o).2)
   ≤ Nat.b2n (completable op o) + dispatches_of op [c])%nat.
Proof.
  intros Hc. unfold completable, dispatches_of. cbn [List.filter].
  destruct (decide (call_op c = op)) as [<-|Hne].
  2: { rewrite reg_apply_frame by done. lia. }
  rewrite (bool_decide_eq_true_2 (call_op c = call_op c)), andb_true_r by done.
  destruct (o !! call_op c) as [r|] eqn:E.
  - rewrite (reg_apply_present c o r E). fold (open_runtime r) (open_runtime (call_body c r).2).
    assert (is_dispatch c = false → open_runtime (call_body c r).2 = true → open_runtime r = true)
      as Himp.
    { intros Hd. destruct c; try done; cbn [call_body].
      - apply transition_open. by left.
      - destruct partial; [|].
        + unfold report_completion_body. destruct (terminal_recorded r) eqn:Et; [done|].
          destruct (negb (accepted _)); [done|]. destruct (_ || _); [done|].
          rewrite machine_transition_eq. destruct (is_allowed _ _) eqn:Ea; cbn [negb snd];
            [|by rewrite set_machine_id]. unfold open_runtime. cbn. by rewrite andb_false_r.
        + pose proof (report_open attempt r) as H.
          destruct (report_completion_body attempt false r). apply H.
      - apply confirm_open.
      - apply transition_open. by destruct ambiguous; right. }
    destruct (is_dispatch c); [|].
    + destruct (open_runtime _), (open_runtime _); cbn; lia.
    + specialize (Himp eq_refl).
      destruct (open_runtime (call_body c r).2); [rewrite Himp by done|]; cbn; lia.
  - rewrite (reg_apply_absent c o E). destruct c; cbn in *; try lia; done.
Qed.

Lemma report_ok_completable op' op a o :
  (report_completion op' a false o).1 = ApplyResult.OK →
  (Nat.b2n (completable op (report_completion op' a false o).2) + Nat.b2n (bool_decide (op' = op))
   ≤ Nat.b2n (completable op o))%nat.
Proof.
  unfold report_completion, with_op, completable. destruct (o !! op') as [r|] eqn:E; [|done].
  pose proof (report_open a r) as H.
  destruct (report_completion_body a false r) as [res r']. cbn. intros ->.
  destruct H as [H _]. destruct (H eq_refl) as [H1 H2].
  case_bool_decide as Hd; [subst|].
  - rewrite lookup_insert_eq, E. unfold open_runtime in *. rewrite H1, H2. cbn. lia.
  - rewrite lookup_insert_ne by done. cbn. lia.
Qed.

Lemma dispatches_of_app op cs1 cs2 :
  dispatches_of op (cs1 ++ cs2) = (dispatches_of op cs1 + dispatches_of op cs2)%nat.
Proof. unfold dispatches_of. by rewrite List.filter_app, length_app. Qed.

Lemma completable_run op cs o :
  Forall (λ c, coordinator_call c = true) cs →
  (Nat.b2n (completable op (reg_run cs o)) ≤ Nat.b2n (completable op o) + dispatches_of op cs)%nat.
Proof.
  revert o. induction cs as [|c cs IH]; intros o Hcs; [cbn; lia|].
  apply Forall_cons in Hcs as [Hc Hcs]. cbn [reg_run].
  specialize (IH (reg_apply c o).2 Hcs). pose proof (completable_call op c o Hc).
  change (c :: cs) with ([c] ++ cs). rewrite dispatches_of_app. lia.
Qed.

Lemma acks_send op c m g : acks op (send c m g) = (acks op g + Nat.b2n (is_ack op (c, m)))%nat.
Proof.
  unfold acks. cbn. rewrite List.filter_app, length_app. cbn.
  by destruct (is_ack op (c, m)).
Qed.

Lemma pcs_dispatch_mark r op g : pcs (dispatch_mark r op g) = pcs g.
Proof. unfold pcs. cbn. by apply pcs_alter. Qed.

(** The thread is recovering from the loss of the running worker. *)
Definition recovering (p : Pc) : bool :=
  match p with
  | LostTransfer | LostBuild _ | LostAppend _ _ | LostRedispatch _ | LostCheck _ _ | LostSend _ _
  | LostMark _ => true
  | _ => false
  end.

(** What a step does to its own thread: the counter it moves to, with the
    acknowledgements sent or still to be sent unchanged in number, without a
    new confirmation to make, and with a recovery only begun before the process
    is marked finished. *)
Definition moves (c : ConnId) (p : Pc) (g g' : Coordinator) : Prop :=
  ∃ p', pcs g' = <[c := p']> (pcs g) ∧
    (∀ op, (acks op g' + Nat.b2n (acking op p') = acks op g + Nat.b2n (acking op p))%nat) ∧
    (∀ op auth, p' ≠ CompleteConfirm op auth) ∧
    (recovering p' = true → recovering p = true ∨ g_finished g = false).

Lemma moves_goto c p p' g h :
  pcs g !! c = Some p → pcs h = pcs g →
  (∀ op, acks op h + Nat.b2n (acking op p') = acks op g + Nat.b2n (acking op p))%nat →
  (∀ op auth, p' ≠ CompleteConfirm op auth) →
  (recovering p' = true → recovering p = true ∨ g_finished g = false) →
  moves c p g (goto c p' h).
Proof.
  intros Hc Hh Ha Hn Hr. exists p'. split_and!; [|exact Ha|exact Hn|exact Hr].
  rewrite <- Hh. apply (pcs_goto c p' p). by rewrite Hh.
Qed.

Lemma advance_moves env c k g g' :
  g_conns g !! c = Some k → advance env c k g = Some g' → moves c (pc k) g g'.
Proof.
  intros Hk Hs. assert (pcs g !! c = Some (pc k)) as Hc.
  { unfold pcs. by rewrite lookup_fmap, Hk. }
  revert Hs. unfold advance, dispatch_send, save_state. rewrite ?call_eq.
  destruct (pc k) eqn:Ep; intros Hs; try done; simplify_option_eq; try done; rewrite ?call_eq.
  all: apply moves_goto; try done; try intros o; rewrite ?acks_send, ?pcs_dispatch_mark; try done.
  all: try by left.
  all: try by repeat case_match.
  right. by destruct was_running, (g_finished g).
Qed.

Definition measure (op : OperationId) (g : Coordinator) : nat :=
  acks op g + pending_acks op (pcs g) + Nat.b2n (completable op (ops g)).

Lemma moves_pending c p g g' op :
  pcs g !! c = Some p → moves c p g g' →
  (acks op g' + pending_acks op (pcs g') = acks op g + pending_acks op (pcs g))%nat.
Proof.
  intros Hc (p' & -> & Ha & _). pose proof (pending_insert op (pcs g) c p p' Hc).
  specialize (Ha op). lia.
Qed.

Lemma step_calls_ok ev env g : Forall (λ c, coordinator_call c = true) (step_calls ev env g).
Proof.
  destruct ev as [c|c m|c|c]; cbn [step_calls]; [constructor| |constructor|].
  - unfold receive_calls. destruct (type m); repeat constructor.
  - destruct (g_conns g !! c); [|constructor]. unfold advance_calls.
    destruct (pc _); repeat case_match; repeat constructor.
Qed.

Lemma run_calls_ok tr : ∀ g, Forall (λ c, coordinator_call c = true) (run_calls tr g).
Proof.
  induction tr as [|[ev env] tr IH]; intros g; unfold run_calls in *; cbn [collect]; [constructor|].
  apply Forall_app. split; [apply step_calls_ok|].
  destruct (coord_step ev env g); [apply IH|constructor].
Qed.

Lemma receive_moves env c m g g' :
  pcs g !! c = Some Receiving → type m ≠ ProtocolMessage.COMPLETE →
  handle_message env c m g = Some g' → moves c Receiving g g'.
Proof.
  intros Hc Hm. unfold handle_message. rewrite ?call_eq.
  assert (∀ h, pcs h = pcs g → (∀ op, acks op h = acks op g) → moves c Receiving g h) as Hstay.
  { intros h Hh Ha. exists Receiving. split_and!; [by rewrite Hh, insert_id| |done|done].
    intros o. by rewrite Ha. }
  destruct (type m) eqn:Et; intros Hs; try done; simplify_option_eq; try by apply Hstay.
  - apply Hstay; [|intros o; rewrite acks_send; cbn; by rewrite Nat.add_0_r].
    unfold pcs. cbn. by apply pcs_alter.
  - by apply moves_goto.
Qed.

Lemma complete_measure env c m g g' op :
  pcs g !! c = Some Receiving → type m = ProtocolMessage.COMPLETE →
  handle_message env c m g = Some g' → (measure op g' ≤ measure op g)%nat.
Proof.
  intros Hc Hm. unfold handle_message. rewrite Hm, call_eq. intros [= <-].
  set (r := report_completion (m_op m) (m_authority m) false (ops g)).
  set (p' := if bool_decide (r.1 = ApplyResult.OK) then _ else _).
  set (h := with_ops r.2 g).
  assert (pcs (goto c p' h) = <[c := p']> (pcs g)) as Hp 
    by exact (pcs_goto c p' Receiving h Hc).
  unfold measure. rewrite Hp. pose proof (pending_insert op (pcs g) c Receiving p' Hc) as Hi.
  change (acks op (goto c p' h)) with (acks op g). change (ops (goto c p' h)) with r.2.
  pose proof (completable_call op (ReportCompletion (m_op m) (m_authority m) false) (ops g) eq_refl)
    as Hcall. rewrite reg_apply_next in Hcall. fold r in Hcall. cbn [acking Nat.b2n] in Hi.
  unfold p' in Hi |- *. destruct (bool_decide _) eqn:Eb; bool_simp; cbn [acking Nat.b2n] in Hi.
  - pose proof (report_ok_completable (m_op m) op (m_authority m) (ops g) Eb) as Hr.
    fold r in Hr. lia.
  - cbn in Hcall. lia.
Qed.

Lemma step_measure ev env g g' op :
  coord_step ev env g = Some g' →
  (measure op g' ≤ measure op g + dispatches_of op (step_calls ev env g))%nat.
Proof.
  intros Hs. pose proof (coord_step_ops _ _ _ _ Hs) as Hops.
  pose proof (completable_run op _ (ops g) (step_calls_ok ev env g)) as Hrun.
  rewrite <- Hops in Hrun. clear Hops.
  assert (∀ c p, pcs g !! c = Some p → moves c p g g' →
    (measure op g' ≤ measure op g + dispatches_of op (step_calls ev env g))%nat) as Hmove.
  { intros c p Hc Hm. pose proof (moves_pending c p g g' op Hc Hm). unfold measure. lia. }
  destruct ev as [c|c m|c|c]; cbn [coord_step] in Hs;
    destruct (g_conns g !! c) as [k|] eqn:Hk; cbn [mbind option_bind] in Hs; try done.
  - injection Hs as <-. unfold measure, pcs. cbn [g_conns]. cbn. rewrite fmap_insert.
    change (pc conn0) with Receiving. rewrite pending_insert_new by (by rewrite lookup_fmap, Hk).
    unfold acks. cbn. unfold ops. cbn. lia.
  - destruct (pc k) eqn:Ep; try done.
    assert (pcs g !! c = Some Receiving) as Hc by (unfold pcs; rewrite lookup_fmap, Hk; cbn; by rewrite Ep).
    destruct (decide (type m = ProtocolMessage.COMPLETE)) as [Hm|Hm].
    + pose proof (complete_measure env c m g g' op Hc Hm Hs). lia.
    + eapply Hmove; [done|]. by eapply receive_moves.
  - destruct (pc k) eqn:Ep; try done. injection Hs as <-.
    assert (pcs g !! c = Some Receiving) as Hc by (unfold pcs; rewrite lookup_fmap, Hk; cbn; by rewrite Ep).
    eapply Hmove; [done|]. by apply moves_goto.
  - eapply (Hmove c (pc k)); [unfold pcs; by rewrite lookup_fmap, Hk|]. by eapply advance_moves.
Qed.

Lemma run_measure tr op : ∀ g g',
  coord_run tr g = Some g' →
  (measure op g' ≤ measure op g + dispatches_of op (run_calls tr g))%nat.
Proof.
  unfold run_calls.
  induction tr as [|[ev env] tr IH]; intros g g'; cbn [coord_run collect].
  { intros [= <-]. lia. }
  destruct (coord_step ev env g) as [g1|] eqn:E; cbn [mbind option_bind]; [|done].
  intros H. specialize (IH _ _ H). pose proof (step_measure _ _ _ _ op E).
  rewrite dispatches_of_app. lia.
Qed.

Lemma append_run_subseteq s recs : failures_ s ⊆ failures_ (append_run s recs).
Proof.
  revert s. induction recs as [|r recs IH]; intros s; [done|]. cbn. etransitivity; [|apply IH].
  destruct (append_failure_spec r s); cbn; [done|by apply insert_subseteq].
Qed.

(** ** Where outcomes come from *)
Section provenance.
  (** The reports of completion that may be received. *)
  Context (P : OperationId → AuthorityEnvelope → Prop).

Definition reports (ev : event) : Prop :=
  match ev with
  | Receive _ m => type m = ProtocolMessage.COMPLETE → P (m_op m) (m_authority m)
  | _ => True
  end.

Definition pc_reported (p : Pc) : Prop :=
  match p with CompleteConfirm op auth => P op auth | _ => True end.

Definition reported (r : OperationRuntime) (op : OperationId) : Prop :=
  terminal_outcome r = "COMPLETED" ∧ state_ (machine r) = OperationState.COMPLETION_CONFIRMED ∧
  P op (terminal r).

Definition reported_since (o : OperationRegistry) (g : Coordinator) : Prop :=
  map_Forall (λ _, pc_reported) (pcs g) ∧
  ∀ op r, ops g !! op = Some r → terminal_recorded r = true → o !! op = Some r ∨ reported r op.

Definition call_reported (c : reg_call) : Prop :=
  match c with ConfirmCompletion op a => P op a | _ => True end.

Lemma call_terminal c r :
  coordinator_call c = true → call_reported c →
  terminal_recorded (call_body c r).2 = true → (call_body c r).2 = r ∨ reported (call_body c r).2 (call_op c).
Proof.
  intros Hc HP Ht. destruct (terminal_recorded r) eqn:Er.
  { left. eapply effect_frozen; [apply call_body_effect|done]. }
  destruct c; try done; cbn [call_body] in *; revert Ht.
  - by left.
  - unfold dispatch_body. rewrite Er. repeat case_match; simplify_eq/=; congruence.
  - unfold transition_body. rewrite Er. rewrite machine_transition_eq. repeat case_match; simplify_eq/=; congruence.
  - unfold report_completion_body. rewrite Er. rewrite machine_transition_eq. repeat case_match; simplify_eq/=; congruence.
  - unfold confirm_completion_body. rewrite Er. rewrite machine_transition_eq.
    destruct (negb (accepted _)); cbn [snd]; [congruence|]. destruct (is_allowed _ _); cbn [negb snd].
    + right. by split_and!.
    + by rewrite set_machine_id, Er.
  - unfold transition_body. rewrite Er. rewrite machine_transition_eq. repeat case_match; simplify_eq/=; congruence.
Qed.
Lemma reg_apply_reported (o os : OperationRegistry) c :
  coordinator_call c = true → call_reported c →
  (∀ op r, os !! op = Some r → terminal_recorded r = true → o !! op = Some r ∨ reported r op) →
  ∀ op r, (reg_apply c os).2 !! op = Some r → terminal_recorded r = true →
    o !! op = Some r ∨ reported r op.
Proof.
  intros Hc HP Hinv op r Hr Ht. destruct (decide (call_op c = op)) as [<-|Hne].
  2: { rewrite reg_apply_frame in Hr by done. eauto. }
  destruct (os !! call_op c) as [r0|] eqn:E.
  - rewrite (reg_apply_present c os r0 E) in Hr. injection Hr as <-.
    destruct (call_terminal c r0 Hc HP Ht) as [Heq|]; [|by right].
    rewrite Heq in *. eauto.
  - rewrite (reg_apply_absent c os E) in Hr. destruct c; try done. by injection Hr as <-.
Qed.

Lemma reg_run_reported (o : OperationRegistry) cs : ∀ os : OperationRegistry,
  Forall (λ c, coordinator_call c = true ∧ call_reported c) cs →
  (∀ op r, os !! op = Some r → terminal_recorded r = true → o !! op = Some r ∨ reported r op) →
  ∀ op r, reg_run cs os !! op = Some r → terminal_recorded r = true →
    o !! op = Some r ∨ reported r op.
Proof.
  induction cs as [|c cs IH]; intros os Hcs Hinv; [done|].
  apply Forall_cons in Hcs as [[Hc HP] Hcs]. cbn [reg_run]. apply IH; [done|].
  by apply reg_apply_reported.
Qed.

(** The confirmations of a step are those of the thread that runs. *)
Lemma step_calls_reported ev env g :
  map_Forall (λ _, pc_reported) (pcs g) → Forall call_reported (step_calls ev env g).
Proof.
  intros Hp. destruct ev as [c|c m|c|c]; cbn [step_calls]; [constructor| |constructor|].
  - unfold receive_calls. by destruct (type m); repeat constructor.
  - destruct (g_conns g !! c) as [k|] eqn:Hk; [|constructor].
    assert (pc_reported (pc k)) as Hpk.
    { apply (Hp c). unfold pcs. by rewrite lookup_fmap, Hk. }
    unfold advance_calls. destruct (pc k); repeat case_match; by repeat constructor.
Qed.

Lemma goto_reported c p p0 g h :
  map_Forall (λ _, pc_reported) (pcs g) → pcs h = pcs g → pcs g !! c = Some p0 → pc_reported p →
  map_Forall (λ _, pc_reported) (pcs (goto c p h)).
Proof.
  intros Hp Hh Hc Hpr. rewrite (pcs_goto c p p0) by congruence. rewrite Hh.
  by apply map_Forall_insert_2.
Qed.

Lemma moves_reported c p g g' :
  map_Forall (λ _, pc_reported) (pcs g) → moves c p g g' → map_Forall (λ _, pc_reported) (pcs g').
Proof.
  intros Hp (p' & -> & _ & Hn & _). apply map_Forall_insert_2; [|done].
  destruct p'; try done. by destruct (Hn op auth).
Qed.

Lemma step_reported o ev env g g' :
  coord_step ev env g = Some g' → reports ev → reported_since o g → reported_since o g'.
Proof.
  intros Hs HP [Hp Hinv]. split.
  2: { rewrite (coord_step_ops _ _ _ _ Hs). apply reg_run_reported; [|done].
       apply Forall_and. split; [apply step_calls_ok|by apply step_calls_reported]. }
  destruct ev as [c|c m|c|c]; cbn [coord_step] in Hs;
    destruct (g_conns g !! c) as [k|] eqn:Hk; cbn [mbind option_bind] in Hs; try done;
    try (assert (pcs g !! c = Some (pc k)) as Hc by (unfold pcs; by rewrite lookup_fmap, Hk)).
  - injection Hs as <-. unfold pcs. cbn. rewrite fmap_insert. by apply map_Forall_insert_2.
  - destruct (pc k) eqn:Ep; try done.
    destruct (decide (type m = ProtocolMessage.COMPLETE)) as [Hm|Hm].
    + unfold handle_message in Hs. rewrite Hm, call_eq in Hs. injection Hs as <-.
      eapply goto_reported; [done|done|done|]. case_bool_decide; [|done]. by apply HP.
    + exact (moves_reported c _ g g' Hp (receive_moves env c m g g' Hc Hm Hs)).
  - destruct (pc k); try done. injection Hs as <-. by eapply goto_reported.
  - exact (moves_reported c _ g g' Hp (advance_moves env c k g g' Hk Hs)).
Qed.

Lemma run_reported o tr : ∀ g g',
  coord_run tr g = Some g' → Forall (λ e, reports e.1) tr → reported_since o g → reported_since o g'.
Proof.
  induction tr as [|[ev env] tr IH]; intros g g'; cbn [coord_run]; [by intros [= <-]|].
  destruct (coord_step ev env g) as [g1|] eqn:E; cbn [mbind option_bind]; [|done].
  intros H HP Hg. apply Forall_cons in HP as [HP HPs]. eapply IH; [done|done|].
  by eapply step_reported.
Qed.
End provenance.

Lemma start_reported P file : reported_since P (ops (coordinator_start file)) (coordinator_start file).
Proof.
  split; [|intros op r Hr _; by left].
  unfold pcs. cbn [coordinator_start g_conns]. rewrite fmap_empty. apply map_Forall_empty.
Qed.

(** [op] was reported complete under [auth] by a message of the trace. *)
Definition complete_received (tr : list (event * Env)) (op : OperationId) (auth : AuthorityEnvelope)
    : Prop :=
  ∃ c m env, (Receive c m, env) ∈ tr ∧ type m = ProtocolMessage.COMPLETE ∧ m_op m = op ∧
    m_authority m = auth.

Lemma trace_reports tr : Forall (λ e, reports (complete_received tr) e.1) tr.
Proof.
  apply Forall_forall. intros [ev env] Hin. destruct ev as [c|c m|c|c]; try done.
  intros Hm. by exists c, m, env.
Qed.

(** ** Finished processes *)

Lemma step_finished ev env g g' :
  coord_step ev env g = Some g' → g_finished g = true → g_finished g' = true.
Proof.
  intros Hs Hf. revert Hs.
  destruct ev as [c|c m|c|c]; cbn [coord_step];
    destruct (g_conns g !! c) as [k|]; cbn [mbind option_bind]; try done.
  - by intros [= <-].
  - destruct (pc k); try done. unfold handle_message. rewrite ?call_eq.
    destruct (type m); intros Hs; by simplify_option_eq.
  - destruct (pc k); try done. by intros [= <-].
  - unfold advance, dispatch_send. rewrite ?call_eq. destruct (pc k); intros Hs; try done;
      first [injection Hs as <- | simplify_option_eq]; rewrite ?call_eq; try done;
      by repeat case_match.
Qed.

(** No thread is recovering. *)
Definition no_recovery (g : Coordinator) : Prop := map_Forall (λ _ p, recovering p = false) (pcs g).

Lemma moves_no_recovery c p g g' :
  pcs g !! c = Some p → g_finished g = true → no_recovery g → moves c p g g' → no_recovery g'.
Proof.
  intros Hc Hf Hn (p' & Hp' & _ & _ & Hr). unfold no_recovery. rewrite Hp'.
  apply map_Forall_insert_2; [|done]. apply not_true_is_false. intros Ht.
  destruct (Hr Ht) as [H|H]; [|congruence]. specialize (Hn c p Hc). cbn in Hn. congruence.
Qed.

Lemma step_no_recovery ev env g g' :
  coord_step ev env g = Some g' → g_finished g = true → no_recovery g → no_recovery g'.
Proof.
  intros Hs Hf Hn.
  destruct ev as [c|c m|c|c]; cbn [coord_step] in Hs;
    destruct (g_conns g !! c) as [k|] eqn:Hk; cbn [mbind option_bind] in Hs; try done;
    try (assert (pcs g !! c = Some (pc k)) as Hc by (unfold pcs; by rewrite lookup_fmap, Hk)).
  - injection Hs as <-. unfold no_recovery, pcs. cbn. rewrite fmap_insert.
    by apply map_Forall_insert_2.
  - destruct (pc k) eqn:Ep; try done.
    destruct (decide (type m = ProtocolMessage.COMPLETE)) as [Hm|Hm].
    + unfold handle_message in Hs. rewrite Hm, call_eq in Hs. injection Hs as <-.
      unfold no_recovery. erewrite pcs_goto by exact Hc.
      apply map_Forall_insert_2; [by case_bool_decide|done].
    + exact (moves_no_recovery c _ g g' Hc Hf Hn (receive_moves env c m g g' Hc Hm Hs)).
  - destruct (pc k) eqn:Ep; try done. injection Hs as <-.
    apply (moves_no_recovery c Receiving g); [done..|]. by apply moves_goto.
  - exact (moves_no_recovery c _ g g' Hc Hf Hn (advance_moves env c k g g' Hk Hs)).
Qed.

Lemma no_recovery_step_log ev env g :
  no_recovery g → step_log ev env g = [] ∧ step_ownership ev env g = [].
Proof.
  intros Hn. destruct ev as [c|c m|c|c]; try done. cbn [step_log step_ownership].
  destruct (g_conns g !! c) as [k|] eqn:Hk; [|done]. cbn.
  assert (recovering (pc k) = false) as Hp.
  { apply (Hn c). unfold pcs. by rewrite lookup_fmap, Hk. }
  by destruct (pc k).
Qed.

Lemma no_recovery_collect tr : ∀ g,
  g_finished g = true → no_recovery g →
  collect step_log tr g = [] ∧ collect step_ownership tr g = [].
Proof.
  induction tr as [|[ev env] tr IH]; intros g Hf Hn; [done|]. cbn [collect].
  destruct (no_recovery_step_log ev env g Hn) as [-> ->].
  destruct (coord_step ev env g) as [g1|] eqn:E; [|done].
  apply IH; [by eapply step_finished|by eapply step_no_recovery].
Qed.

(** ** Properties *)

(** C8: the coordinator implements its parts. However its connection threads
    interleave and whatever messages arrive, the store of a run is the store
    obtained by making the run's calls, in order, on the registry, the failure
    log and the recovery ownership, each an atomic call of that component; no
    call restores, forces a transition or records an outcome directly, no
    record once logged is lost, and the idempotency entries stay as they
    were. *)
Theorem coordinator_refines_components tr g g' (Hrun : coord_run tr g = Some g') :
  g_store g' = store_run (run_calls tr g) (collect step_log tr g) (collect step_ownership tr g)
                 (g_store g) ∧
  Forall (λ c, coordinator_call c = true) (run_calls tr g) ∧
  failures_ (g_store g) ⊆ failures_ (g_store g') ∧ idem_ (g_store g') = idem_ (g_store g).
Proof.
  pose proof (coord_run_store tr g g' Hrun) as Hs. rewrite Hs.
  split_and!; [done|apply run_calls_ok|apply append_run_subseteq|done].
Qed.

(** C2: the coordinator confirms one outcome per operation, and only a reported
    one. From the start of the process, for any interleaving and any messages:
    an outcome loaded or recorded never changes, an operation gets at most one,
    and each outcome that was not loaded is a confirmed completion whose
    authority came in a [COMPLETE] message for that operation. *)
Theorem coordinator_single_outcome file tr g (Hrun : coord_run tr (coordinator_start file) = Some g) op :
  let o := ops (coordinator_start file) in
  (∀ r, o !! op = Some r → terminal_recorded r = true → ops g !! op = Some r) ∧
  (terminal_events op (run_calls tr (coordinator_start file)) o ≤ 1)%nat ∧
  (∀ r, ops g !! op = Some r → terminal_recorded r = true →
     o !! op = Some r ∨
     (terminal_outcome r = "COMPLETED" ∧
      state_ (machine r) = OperationState.COMPLETION_CONFIRMED ∧
      complete_received tr op (terminal r))).
Proof.
  intros o. pose proof (coord_run_store tr _ _ Hrun) as Hs.
  assert (ops g = reg_run (run_calls tr (coordinator_start file)) o) as Hops.
  { unfold ops at 1. by rewrite Hs. }
  split_and!.
  - intros r. rewrite Hops. apply reg_run_frozen.
  - apply terminal_events_le_1.
  - destruct (run_reported (complete_received tr) o tr _ _ Hrun (trace_reports tr)
      (start_reported _ file)) as [_ H]. intros r Hr Ht. exact (H op r Hr Ht).
Qed.

(** C10: a worker is not told twice that one attempt completed. The positive
    acknowledgements of an operation are no more than the dispatches the
    coordinator made for it, plus one if the state file held the operation in
    a state that can still complete. *)
Theorem acks_bounded_by_dispatches file tr g
    (Hrun : coord_run tr (coordinator_start file) = Some g) op :
  (acks op g ≤ dispatches_of op (run_calls tr (coordinator_start file))
               + Nat.b2n (completable op (ops (coordinator_start file))))%nat.
Proof.
  pose proof (run_measure tr op _ _ Hrun) as H. revert H. unfold measure at 2, pcs, pending_acks.
  cbn [coordinator_start g_conns]. rewrite fmap_empty, map_filter_empty, map_size_empty.
  unfold measure. change (acks op (coordinator_start file)) with 0%nat. lia.
Qed.

(** Once the process is marked finished and no recovery is under way, no
    lost worker is recovered any more, whatever operation it runs: the failure
    log and the recovery ownership never change again. The flag is one for the
    whole process, and is set by the first completed operation. *)
Lemma finished_process_never_recovers tr g g'
    (Hrun : coord_run tr g = Some g') (Hf : g_finished g = true) (Hn : no_recovery g) :
  failures_ (g_store g') = failures_ (g_store g) ∧
  ownership_ (g_store g') = ownership_ (g_store g).
Proof.
  rewrite (coord_run_store tr g g' Hrun). destruct (no_recovery_collect tr g Hf Hn) as [-> ->].
  done.
Qed.

(** C21: reports of an old attempt are fenced. While an operation is current on
    an attempt, a [COMPLETE] of another attempt is answered by exactly one
    [FENCE] on its connection, and leaves the coordinator as it was. *)
Theorem stale_complete_fenced g c k m r e1 e2
    (Hk : g_conns g !! c = Some k) (Hp : pc k = Receiving)
    (Hm : type m = ProtocolMessage.COMPLETE) (Hr : ops g !! m_op m = Some r)
    (Hcur : attempt (authority r) ≠ null_id) (Hold : attempt (m_authority m) ≠ attempt (authority r)) :
  coord_run [(Receive c m, e1); (Advance c, e2)] g = Some (send c (fence_message (m_op m)) g).
Proof.
  assert (report_completion (m_op m) (m_authority m) false (ops g) =
    (if terminal_recorded r then ApplyResult.ALREADY_TERMINAL else ApplyResult.STALE_REJECTED, ops g))
    as Hrep.
  { unfold report_completion, with_op, report_completion_body. rewrite Hr.
    destruct (other_attempt_rejected _ _ (terminal r) Hcur Hold) as [_ ->]. cbn [negb].
    destruct (terminal_recorded r); by rewrite insert_id. }
  cbn [coord_run coord_step]. rewrite Hk. cbn [mbind option_bind]. rewrite Hp.
  unfold handle_message. rewrite Hm, call_eq, Hrep. cbn [fst snd].
  rewrite bool_decide_eq_false_2 by (by destruct (terminal_recorded r)).
  set (p := CompleteFence (m_op m)).
  assert (alter (λ k, k <| pc := Receiving |>) c (alter (λ k, k <| pc := p |>) c (g_conns g))
          = g_conns g) as Hcn.
  { apply map_eq. intros i. destruct (decide (c = i)) as [<-|Hne]; [|by rewrite !lookup_alter_ne].
    rewrite !lookup_alter_eq, Hk. cbn. rewrite <- Hp. by destruct k. }
  cbn [mbind option_bind]. cbn [goto g_conns set_field]. cbn. rewrite lookup_alter_eq, Hk. cbn.
  f_equal. destruct g as [[] cn w ro rc cu f sv sn]. unfold goto, send, with_ops, ops. cbn in *.
  by rewrite Hcn.
Qed.

(** ** Running one thread *)
Lemma goto_goto c p p' g : goto c p' (goto c p g) = goto c p' g.
Proof.
  unfold goto. cbn. by rewrite alter_alter_eq.
Qed.

Lemma goto_lookup c p g k :
  g_conns g !! c = Some k → g_conns (goto c p g) !! c = Some (k <| pc := p |>).
Proof. intros Hk. cbn. by rewrite lookup_alter_eq, Hk. Qed.

(** One step of the thread of [c], which stands at [p]. *)
Lemma run_advance c p p' h h' k env tr :
  g_conns h !! c = Some k →
  advance env c (k <| pc := p |>) (goto c p h) = Some (goto c p' (goto c p h')) →
  coord_run ((Advance c, env) :: tr) (goto c p h) = coord_run tr (goto c p' h').
Proof.
  intros Hk Ha. cbn [coord_run coord_step]. rewrite (goto_lookup c p h k Hk).
  cbn [mbind option_bind]. rewrite Ha. cbn [mbind option_bind]. by rewrite goto_goto.
Qed.

Lemma run_disconnect c g k env tr :
  g_conns g !! c = Some k → pc k = Receiving →
  coord_run ((Disconnect c, env) :: tr) g = coord_run tr (goto c LostTake g).
Proof. intros Hk Hp. cbn [coord_run coord_step]. rewrite Hk. cbn. by rewrite Hp. Qed.

Lemma run_receive c g k m env tr :
  g_conns g !! c = Some k → pc k = Receiving →
  coord_run ((Receive c m, env) :: tr) g = handle_message env c m g ≫= coord_run tr.
Proof. intros Hk Hp. cbn [coord_run coord_step]. rewrite Hk. cbn. by rewrite Hp. Qed.

Lemma choose_replacement_goto env c p g :
  choose_replacement env (goto c p g) = choose_replacement env g.
Proof.
  unfold choose_replacement, begin_. cbn. case_bool_decide; [done|].
  destruct (g_reg_order g) as [|x l]; [done|].
  destruct (decide (c = x)) as [->|Hne]; [|by rewrite lookup_alter_ne].
  rewrite lookup_alter_eq. by destruct (g_conns g !! x).
Qed.

(** The steps of the thread of a lost connection. The four environments are
    those of the transfer, of the record's timestamp, of its identity and of the
    fresh attempt. *)
Definition recovery_trace (a : ConnId) (e et eb ea er : Env) : list (event * Env) :=
  [(Disconnect a, e); (Advance a, e); (Advance a, e); (Advance a, et); (Advance a, eb);
   (Advance a, ea); (Advance a, er); (Advance a, e); (Advance a, e); (Advance a, e)].

(** The running worker on connection [a] is lost in state [g], and the
    coordinator will choose connection [b]. *)
Record lost_running (g : Coordinator) (a b : ConnId) (ka kb : Conn) (r : OperationRuntime)
    (er : Env) : Prop := {
  lr_conn : g_conns g !! a = Some ka;
  lr_receiving : pc ka = Receiving;
  lr_running : g_running_conn g = Some a;
  lr_unfinished : g_finished g = false;
  lr_op : ops g !! g_current_op g = Some r;
  lr_open : terminal_recorded r = false;
  lr_nonterminal : is_terminal (state_ (machine r)) = false;
  lr_other : b ≠ a;
  lr_replacement : g_conns g !! b = Some kb;
  lr_choice : choose_replacement er (g <| g_workers := delete (wid ka) (g_workers g) |>)
              = Some (Some b);
}.

Lemma report_failure_open op cur o r :
  o !! op = Some r → terminal_recorded r = false → is_terminal (state_ (machine r)) = false →
  ∃ r1, (report_failure op cur true o).2 = <[op := r1]> o ∧ terminal_recorded r1 = false ∧
    is_terminal (state_ (machine r1)) = false ∧ attempt_count r1 = attempt_count r ∧
    terminal r1 = terminal r.
Proof.
  intros Hr Ht Hs. unfold report_failure, with_op. rewrite Hr. unfold transition_body. rewrite Ht.
  destruct (negb (accepted _)); [by exists r|].
  rewrite machine_transition_eq. destruct (is_allowed _ _); cbn [negb].
  - exists (set_machine (MkMachine OperationState.FAILED_AMBIGUOUS) r). done.
  - rewrite set_machine_id. by exists r.
Qed.

(** *** The states along a recovery *)
Definition take_lost (k : Conn) (g : Coordinator) : Coordinator :=
  g <| g_workers := delete (wid k) (g_workers g) |> <| g_running_conn := None |>.

Definition own_lost (env : Env) (cur : AuthorityEnvelope) (g : Coordinator) : Coordinator :=
  g <| g_store := g_store g <| ownership_ :=
    (transfer (ownership_ (g_store g)) RecoveryOwner.REPLACEMENT_WORKER
       (next (recovery_generation cur)) (generate env) cur).2 |> |>.

Definition log_lost (rec : FailureRecord) (cur : AuthorityEnvelope) (g : Coordinator)
    : Coordinator :=
  with_ops (report_failure (g_current_op g) cur true (ops g)).2
    (g <| g_store := (append_failure rec (g_store g)).2 |>).

Definition redispatched (fresh : AuthorityEnvelope) (g : Coordinator) : Coordinator :=
  with_ops (dispatch_op (g_current_op g) fresh (ops g)).2 g.

Lemma ops_log rec g : ops (g <| g_store := (append_failure rec (g_store g)).2 |>) = ops g.
Proof. unfold ops. cbn. apply append_failure_ops. Qed.

(** One lemma per step of the recovering thread. *)
Section recovery_steps.
  Context (env : Env) (c : ConnId) (k : Conn) (h : Coordinator).

Lemma advance_take :
  g_running_conn h = Some c →
  advance env c (k <| pc := LostTake |>) (goto c LostTake h)
  = Some (goto c (LostDecide true) (goto c LostTake (take_lost k h))).
Proof. intros Hr. unfold advance. cbn. by rewrite Hr, bool_decide_eq_true_2. Qed.

Lemma advance_decide :
  g_finished h = false →
  advance env c (k <| pc := LostDecide true |>) (goto c (LostDecide true) h)
  = Some (goto c LostTransfer (goto c (LostDecide true) h)).
Proof. intros Hf. unfold advance. cbn. by rewrite Hf. Qed.

Lemma advance_transfer cur :
  current_authority (g_current_op h) (ops h) = cur →
  advance env c (k <| pc := LostTransfer |>) (goto c LostTransfer h)
  = Some (goto c (LostBuild cur) (goto c LostTransfer (own_lost env cur h))).
Proof. intros <-. reflexivity. Qed.

Lemma advance_build cur :
  advance env c (k <| pc := LostBuild cur |>) (goto c (LostBuild cur) h)
  = Some (goto c (LostAppend (lost_record env (g_current_op h) cur) cur) (goto c (LostBuild cur) h)).
Proof. reflexivity. Qed.

Lemma advance_append b cur :
  let p := LostAppend b cur in
  advance env c (k <| pc := p |>) (goto c p h)
  = Some (goto c (LostRedispatch cur)
            (goto c p (log_lost (B.build rng_next b (rng env)).1 cur h))).
Proof.
  intros p. unfold advance, log_lost. change (pc _) with p. cbv beta iota zeta delta [p].
  generalize (B.build rng_next b (rng env)).1. intros rec. rewrite call_eq, ops_log. reflexivity.
Qed.

Lemma advance_redispatch b cur :
  let p := LostRedispatch cur in
  choose_replacement env h = Some (Some b) →
  advance env c (k <| pc := p |>) (goto c p h)
  = Some (goto c (LostCheck (Some b) (new_attempt env cur))
            (goto c p (redispatched (new_attempt env cur) h))).
Proof.
  intros p Hch. unfold advance. change (pc _) with p. cbv beta iota zeta delta [p].
  rewrite choose_replacement_goto, Hch. cbn [mbind option_bind]. by rewrite call_eq.
Qed.

Lemma advance_check b fresh :
  let p := LostCheck (Some b) fresh in
  is_terminal (state (g_current_op h) (ops h)) = false →
  advance env c (k <| pc := p |>) (goto c p h) = Some (goto c (LostSend b fresh) (goto c p h)).
Proof.
  intros p Hs. unfold advance. change (pc _) with p. cbv beta iota zeta delta [p].
  change (g_current_op (goto _ _ h)) with (g_current_op h). change (ops (goto _ _ h)) with (ops h).
  by rewrite Hs.
Qed.

Lemma advance_send b kb fresh :
  let p := LostSend b fresh in
  b ≠ c → g_conns h !! b = Some kb →
  advance env c (k <| pc := p |>) (goto c p h)
  = Some (goto c (LostMark b)
      (goto c p (send b (dispatch_message (g_current_op h) fresh (wid kb)) h))).
Proof.
  intros p Hne Hb. unfold advance. change (pc _) with p. cbv beta iota zeta delta [p].
  unfold dispatch_send. cbn [goto g_conns set_field]. cbn. by rewrite lookup_alter_ne, Hb.
Qed.
End recovery_steps.

(** The store when the replacement is dispatched to. *)
Definition recovery_state (g : Coordinator) (ka : Conn) (cur fresh : AuthorityEnvelope)
    (rec : FailureRecord) (et : Env) : Coordinator :=
  redispatched fresh (log_lost rec cur (own_lost et cur (take_lost ka g))).

Lemma recovery_registry g ka cur fresh rec et r :
  ops g !! g_current_op g = Some r → terminal_recorded r = false →
  is_terminal (state_ (machine r)) = false →
  ∃ r1 r2, ops (recovery_state g ka cur fresh rec et)
           = <[g_current_op g := r2]> (<[g_current_op g := r1]> (ops g)) ∧
    authority r2 = fresh ∧ state_ (machine r2) = OperationState.DISPATCHED ∧
    terminal_recorded r2 = false ∧ attempt_count r2 = wrap 32 (attempt_count r + 1) ∧
    terminal r2 = terminal r.
Proof.
  intros Hr Ht Hs. set (op := g_current_op g).
  destruct (report_failure_open op cur (ops g) r Hr Ht Hs) as (r1 & Hrep & Ht1 & Hs1 & Hn1 & Hm1).
  destruct (dispatch_open (<[op := r1]> (ops g)) op r1 fresh (lookup_insert_eq _ _ _) Ht1 Hs1)
    as (r2 & Hdis & Hauth & Hst & Ht2 & Hm2 & Hn2).
  exists r1, r2. split_and!; try done; [|by rewrite Hn2, Hn1|by rewrite Hm2, Hm1].
  change (ops (recovery_state g ka cur fresh rec et))
    with (dispatch_op op fresh (report_failure op cur true (ops g)).2).2.
  by rewrite Hrep, Hdis.
Qed.

(** The steps of the recovery, composed. *)
Lemma recovery_run g a b ka kb r e et eb ea er (H : lost_running g a b ka kb r er) :
  let cur := authority r in
  let fresh := new_attempt er cur in
  let h := recovery_state g ka cur fresh
             (B.build rng_next (lost_record eb (g_current_op g) cur) (rng ea)).1 et in
  coord_run (recovery_trace a e et eb ea er) g
  = Some (goto a Gone (dispatch_mark b (g_current_op g) (goto a (LostMark b)
      (send b (dispatch_message (g_current_op g) fresh (wid kb)) h)))).
Proof.
  destruct H as [Ha Hpa Hrun Hfin Hop Ht Hs Hne Hb Hch]. cbv zeta.
  set (cur := authority r). set (fresh := new_attempt er cur). unfold recovery_trace.
  rewrite (run_disconnect a g ka) by done.
  erewrite run_advance; [|exact Ha|by apply advance_take].
  erewrite run_advance; [|exact Ha|by apply advance_decide].
  erewrite run_advance; [|exact Ha|apply (advance_transfer _ _ _ _ cur)].
  2: { change (current_authority (g_current_op g) (ops g) = cur).
       unfold current_authority. by rewrite Hop. }
  erewrite run_advance; [|exact Ha|apply advance_build].
  erewrite run_advance; [|exact Ha|apply advance_append].
  change (g_current_op (own_lost et cur (take_lost ka g))) with (g_current_op g).
  generalize (B.build rng_next (lost_record eb (g_current_op g) cur) (rng ea)).1. intros rec.
  erewrite run_advance; [|exact Ha|apply (advance_redispatch _ _ _ _ b); exact Hch].
  fold fresh. fold (recovery_state g ka cur fresh rec et).
  destruct (recovery_registry g ka cur fresh rec et r Hop Ht Hs) as (r1 & r2 & Hops & _ & Hst & _).
  assert (g_current_op (recovery_state g ka cur fresh rec et) = g_current_op g) as Hcur by done.
  assert (g_conns (recovery_state g ka cur fresh rec et) = g_conns g) as Hcn by done.
  revert Hops Hcur Hcn. generalize (recovery_state g ka cur fresh rec et). intros h Hops Hcur Hcn.
  rewrite <- Hcn in Ha, Hb.
  erewrite run_advance; [|exact Ha|apply advance_check].
  2: { rewrite Hops, Hcur. unfold state. by rewrite lookup_insert_eq, Hst. }
  erewrite run_advance; [|exact Ha|by apply advance_send].
  rewrite Hcur. cbn [coord_run coord_step]. rewrite (goto_lookup a (LostMark b) _ ka) by done.
  cbn [mbind option_bind]. unfold advance. cbn [pc set_field]. cbn. by rewrite Hcur.
Qed.

(** The coordinator at the end of a recovery. *)
Definition recovered (g : Coordinator) (a b : ConnId) (ka kb : Conn)
    (cur fresh : AuthorityEnvelope) (rec : FailureRecord) (et : Env) : Coordinator :=
  goto a Gone (dispatch_mark b (g_current_op g) (goto a (LostMark b)
    (send b (dispatch_message (g_current_op g) fresh (wid kb))
       (recovery_state g ka cur fresh rec et)))).

Lemma recovered_pcs g a b ka kb cur fresh rec et :
  g_conns g !! a = Some ka → pcs (recovered g a b ka kb cur fresh rec et) = <[a := Gone]> (pcs g).
Proof.
  intros Ha. unfold recovered.
  assert (pcs g !! a = Some (pc ka)) as Hpc by (unfold pcs; by rewrite lookup_fmap, Ha).
  set (h := send _ _ _).
  assert (pcs (dispatch_mark b (g_current_op g) (goto a (LostMark b) h)) = <[a := LostMark b]> (pcs g))
    as Hd.
  { rewrite pcs_dispatch_mark. by apply (pcs_goto a _ (pc ka) h). }
  rewrite (pcs_goto a Gone (LostMark b)) by (rewrite Hd; apply lookup_insert_eq).
  by rewrite Hd, insert_insert_eq.
Qed.

Lemma recovered_ops g a b ka kb cur fresh rec et :
  ops (recovered g a b ka kb cur fresh rec et) = ops (recovery_state g ka cur fresh rec et).
Proof. done. Qed.

Lemma recovered_failures g a b ka kb cur fresh rec et :
  failures_ (g_store (recovered g a b ka kb cur fresh rec et))
  = failures_ (append_failure rec (g_store g)).2.
Proof. exact (append_run_failures [rec] (g_store (own_lost et cur (take_lost ka g))) (g_store g) eq_refl). Qed.

Lemma recovered_ownership g a b ka kb cur fresh rec et :
  ownership_ (g_store (recovered g a b ka kb cur fresh rec et))
  = (transfer (ownership_ (g_store g)) RecoveryOwner.REPLACEMENT_WORKER
       (next (recovery_generation cur)) (generate et) cur).2.
Proof. exact (append_failure_ownership rec (g_store (own_lost et cur (take_lost ka g)))). Qed.

(** What the transfer to the replacement makes of the ownership. *)
Lemma transfer_replacement own gen boot auth :
  (transfer own RecoveryOwner.REPLACEMENT_WORKER gen boot auth).2
  = if bool_decide (value gen ≠ 0 ∧
                    (owner_ own = RecoveryOwner.NONE ∨ value (generation_ own) < value gen))
    then MkOwnership RecoveryOwner.REPLACEMENT_WORKER gen boot else own.
Proof.
  unfold transfer, adopt, is_unset, gen_ltb. cbn [bool_decide].
  rewrite bool_decide_eq_false_2 by done. destruct (N.eqb_spec (value gen) 0).
  { rewrite bool_decide_eq_false_2; [done|tauto]. }
  destruct (decide (owner_ own = RecoveryOwner.NONE)) as [E|E].
  - rewrite (bool_decide_eq_true_2 (owner_ own = _)), (bool_decide_eq_false_2 (owner_ own ≠ _)) by tauto.
    by rewrite bool_decide_eq_true_2 by tauto.
  - rewrite (bool_decide_eq_false_2 (owner_ own = _)) by done.
    destruct (N.ltb_spec (value (generation_ own)) (value gen)); cbn [negb snd].
    + by rewrite bool_decide_eq_true_2 by tauto.
    + rewrite bool_decide_eq_false_2; [done|]. intros [_ [?|?]]; [done|lia].
Qed.

(** The record of a lost worker, and when the log takes it. *)
Lemma lost_record_logged env op cur rng s :
  let rec := (B.build rng_next (lost_record env op cur) rng).1 in
  (fr_failure_class rec = FailureClass.AMBIGUOUS ∧ fr_operation rec = op ∧
   fr_attempt rec = attempt cur ∧ fr_authority rec = cur ∧
   fr_completion rec = Ambiguity.AMBIGUOUS ∧ fr_side_effect_state rec = SideEffectState.MAY_OCCURRED) ∧
  failures_ (append_failure rec s).2
  = if bool_decide (op ≠ null_id ∧ attempt cur ≠ null_id ∧ validate_authority cur = true ∧
                    failures_ s !! fr_failure_id rec = None)
    then <[fr_failure_id rec := rec]> (failures_ s) else failures_ s.
Proof.
  cbv zeta. destruct (build_built rng_next (lost_record env op cur) rng) as (id & -> & Hid & _).
  split; [done|]. set (rec := built _ _).
  assert (fr_failure_id rec = id ∧ fr_operation rec = op ∧ fr_attempt rec = attempt cur ∧
          fr_authority rec = cur) as (E1 & E2 & E3 & E4) by done.
  clearbody rec. apply is_null_false in Hid.
  destruct (append_failure_spec rec s) as [Hno|Hnone Hlog]; cbn [snd failures_]; unfold loggable in *;
    rewrite E1, E2, E3, E4 in *.
  - rewrite bool_decide_eq_false_2; [done|]. intros (? & ? & ? & Hn).
    destruct Hno as [[? ?]|Hno]; [congruence|]. by apply Hno.
  - rewrite bool_decide_eq_true_2; [done|]. naive_solver.
Qed.

(** C9: a lost worker is recovered from. When the connection that runs the
    current operation is lost, its thread, left to itself, re-dispatches the
    operation to the replacement worker under a fresh attempt: the operation is
    [DISPATCHED] under the fresh envelope with one more attempt counted, the
    replacement is sent exactly that dispatch and is the running connection, the
    lost thread is gone, and no other operation is touched. On the way it
    records an ambiguous failure of that operation and attempt, and the log
    takes that record exactly when the operation and the attempt are not null,
    their authority is valid and the identity drawn is new. The recovery
    ownership goes to the replacement under the generation that follows the
    operation's exactly when there is no owner or the owner's generation is
    lower; otherwise the code, which ignores the answer, leaves the old owner
    in place and carries on. *)
Theorem lost_worker_recovered g a b ka kb r e et eb ea er
    (H : lost_running g a b ka kb r er) :
  let op := g_current_op g in
  let cur := authority r in
  let fresh := new_attempt er cur in
  let rec := (B.build rng_next (lost_record eb op cur) (rng ea)).1 in
  let taken := next (recovery_generation cur) in
  let own := ownership_ (g_store g) in
  ∃ g', coord_run (recovery_trace a e et eb ea er) g = Some g' ∧
    pcs g' = <[a := Gone]> (pcs g) ∧ g_running_conn g' = Some b ∧ g_current_op g' = op ∧
    (∃ r', ops g' !! op = Some r' ∧ authority r' = fresh ∧
       state_ (machine r') = OperationState.DISPATCHED ∧ terminal_recorded r' = false ∧
       attempt_count r' = wrap 32 (attempt_count r + 1)) ∧
    (∀ op', op' ≠ op → ops g' !! op' = ops g !! op') ∧
    g_sent g' = g_sent g ++ [(b, dispatch_message op fresh (wid kb))] ∧
    (fr_failure_class rec = FailureClass.AMBIGUOUS ∧ fr_operation rec = op ∧
     fr_attempt rec = attempt cur ∧ fr_authority rec = cur ∧
     fr_completion rec = Ambiguity.AMBIGUOUS ∧
     fr_side_effect_state rec = SideEffectState.MAY_OCCURRED) ∧
    failures_ (g_store g')
    = (if bool_decide (op ≠ null_id ∧ attempt cur ≠ null_id ∧ validate_authority cur = true ∧
                       failures_ (g_store g) !! fr_failure_id rec = None)
       then <[fr_failure_id rec := rec]> (failures_ (g_store g)) else failures_ (g_store g)) ∧
    ownership_ (g_store g')
    = (if bool_decide (value taken ≠ 0 ∧
                       (owner_ own = RecoveryOwner.NONE ∨ value (generation_ own) < value taken))
       then MkOwnership RecoveryOwner.REPLACEMENT_WORKER taken (generate et) else own).
Proof.
  intros op cur fresh rec taken own. pose proof (recovery_run g a b ka kb r e et eb ea er H) as Hrun.
  cbv zeta in Hrun. fold op cur fresh rec in Hrun.
  destruct H as [Ha _ _ _ Hop Ht Hs _ _ _].
  destruct (recovery_registry g ka cur fresh rec et r Hop Ht Hs)
    as (r1 & r2 & Hops & Hauth & Hst & Ht2 & Hn2 & _).
  destruct (lost_record_logged eb op cur (rng ea) (g_store g)) as [Hrec Hlog]. fold rec in Hrec, Hlog.
  exists (recovered g a b ka kb cur fresh rec et). split; [exact Hrun|].
  rewrite recovered_ops, Hops. fold op.
  rewrite recovered_failures, recovered_ownership, transfer_replacement.
  split_and!; try apply Hrec; try done; [by apply recovered_pcs| |].
  - exists r2. split_and!; [apply lookup_insert_eq|done..].
  - intros op' Hne. by rewrite !lookup_insert_ne by done.
Qed.
End threads.

(** ** Witnesses *)

(** An engine that counts, and two workers with a client. *)
Definition count (n : N) : N * N := (n, n + 1).
Definition worker_a : WorkerId := MkId (uuid128_from_hex "0a").
Definition worker_b : WorkerId := MkId (uuid128_from_hex "0b").
Definition env_a (seed : N) : @Env N := MkEnv seed 1000 worker_a.
Definition env_b (seed : N) : @Env N := MkEnv seed 1000 worker_b.

Definition register (w : WorkerId) (b : WorkerBootId) : WireMessage :=
  message0 <| type := ProtocolMessage.REGISTER |> <| m_worker := w |> <| m_boot := b |>.

Definition request (op : OperationId) : WireMessage :=
  message0 <| type := ProtocolMessage.DISPATCH |> <| m_op := op |>.

Definition completion (op : OperationId) (a : AuthorityEnvelope) : WireMessage :=
  message0 <| type := ProtocolMessage.COMPLETE |> <| m_op := op |> <| m_authority := a |>.

(** Worker A runs [op1] for the client on connection 2. *)
Definition running_trace : list (event * @Env N) :=
  [(Accept 0, env_a 0); (Receive 0 (register worker_a boot_a), env_a 0);
   (Accept 1, env_a 0); (Receive 1 (register worker_b boot_b), env_a 0);
   (Accept 2, env_a 0); (Receive 2 (request op1), env_a 5); (Advance 2, env_a 0);
   (Advance 2, env_a 0); (Advance 2, env_a 0); (Advance 2, env_a 0)].

Definition run_of (tr : list (event * @Env N)) : Coordinator :=
  default (coordinator_start None) (coord_run count tr (coordinator_start None)).

Definition completes (tr : list (event * @Env N)) : bool :=
  match coord_run count tr (coordinator_start None) with Some _ => true | None => false end.

Lemma run_of_some tr :
  completes tr = true → coord_run count tr (coordinator_start None) = Some (run_of tr).
Proof. unfold completes, run_of. by destruct (coord_run _ _ _). Qed.

Definition running_coordinator : Coordinator := run_of running_trace.

Definition running_authority : AuthorityEnvelope := current_authority op1 (ops running_coordinator).

(** Worker A reports completion. *)
Definition completed_trace : list (event * @Env N) :=
  running_trace ++ [(Receive 0 (completion op1 running_authority), env_a 0); (Advance 0, env_a 0);
                    (Advance 0, env_a 0); (Advance 0, env_a 0)].

Definition completed_coordinator : Coordinator := run_of completed_trace.

Definition running_conn_a : Conn := MkConn true worker_a boot_a true Receiving.
Definition idle_conn_b : Conn := MkConn true worker_b boot_b false Receiving.

Lemma coordinator_refines_components_witness :
  failures_ (g_store (coordinator_start None)) ⊆ failures_ (g_store completed_coordinator).
Proof.
  apply (coordinator_refines_components count completed_trace (coordinator_start None)).
  apply run_of_some. vm_compute; reflexivity.
Defined.

Lemma coordinator_single_outcome_witness :
  (terminal_events op1 (run_calls count completed_trace (coordinator_start None))
     (ops (coordinator_start None)) ≤ 1)%nat.
Proof.
  apply (coordinator_single_outcome count None completed_trace completed_coordinator).
  apply run_of_some. vm_compute; reflexivity.
Defined.

Lemma acks_bounded_by_dispatches_witness :
  (acks op1 completed_coordinator
   ≤ dispatches_of op1 (run_calls count completed_trace (coordinator_start None))
     + Nat.b2n (completable op1 (ops (coordinator_start None))))%nat ∧
  acks op1 completed_coordinator = 1%nat.
Proof.
  split; [|vm_compute; reflexivity].
  apply (acks_bounded_by_dispatches count None completed_trace completed_coordinator).
  apply run_of_some. vm_compute; reflexivity.
Defined.

(** The connection of worker B is lost in a finished process. *)
Definition lost_trace : list (event * @Env N) :=
  [(Disconnect 1, env_a 0); (Advance 1, env_a 0); (Advance 1, env_a 0)].

Definition lost_coordinator : Coordinator :=
  default completed_coordinator (coord_run count lost_trace completed_coordinator).

Lemma completed_quiet : no_recovery completed_coordinator.
Proof. apply map_Forall_to_list. vm_compute. repeat constructor. Qed.

Lemma lost_coordinator_run :
  coord_run count lost_trace completed_coordinator = Some lost_coordinator.
Proof.
  assert (match coord_run count lost_trace completed_coordinator with
          | Some _ => true | None => false end = true) as H by (vm_compute; reflexivity).
  unfold lost_coordinator. revert H. by destruct (coord_run _ _ _).
Qed.

Lemma finished_process_never_recovers_witness :
  failures_ (g_store lost_coordinator) = failures_ (g_store completed_coordinator) ∧
  ownership_ (g_store lost_coordinator) = ownership_ (g_store completed_coordinator).
Proof.
  apply (finished_process_never_recovers count lost_trace completed_coordinator).
  - exact lost_coordinator_run.
  - vm_compute; reflexivity.
  - exact completed_quiet.
Defined.

Lemma stale_complete_fenced_witness :
  coord_run count
    [(Receive 1 (completion op1 auth2), env_a 0); (Advance 1, env_a 0)] running_coordinator
  = Some (send 1 (fence_message op1) running_coordinator).
Proof.
  apply (stale_complete_fenced count running_coordinator 1 idle_conn_b (completion op1 auth2)
    (set_authority running_authority running_rt)); try (vm_compute; reflexivity).
  - vm_compute; discriminate.
  - vm_compute; discriminate.
Defined.

Lemma running_lost :
  lost_running running_coordinator 0 1 running_conn_a idle_conn_b
    (set_authority running_authority running_rt) (env_b 9).
Proof. constructor; try (vm_compute; reflexivity). discriminate. Qed.

Lemma lost_worker_recovered_witness :
  let fresh := new_attempt count (env_b 9) running_authority in
  ∃ g', coord_run count (recovery_trace 0 (env_b 0) (env_b 7) (env_b 0) (env_b 8) (env_b 9))
          running_coordinator = Some g' ∧
    g_sent g' = g_sent running_coordinator ++ [(1%nat, dispatch_message op1 fresh worker_b)] ∧
    size (failures_ (g_store g')) = 1%nat ∧
    ownership_ (g_store g')
    = MkOwnership RecoveryOwner.REPLACEMENT_WORKER (MkGeneration 1) (generate count (env_b 7)).
Proof.
  destruct (lost_worker_recovered count running_coordinator 0 1 running_conn_a idle_conn_b
    (set_authority running_authority running_rt) (env_b 0) (env_b 7) (env_b 0) (env_b 8) (env_b 9)
    running_lost) as (g' & H & _ & _ & _ & _ & _ & Hs & _ & Hf & Ho).
  exists g'. split_and!; [exact H|exact Hs| |].
  - rewrite Hf. vm_compute; reflexivity.
  - rewrite Ho. vm_compute; reflexivity.
Defined.

(** The generations of the ownership are those of the operations, each of which
    starts at 0: after one recovery, the loss of another operation finds an
    owner that is already at generation 1, and the transfer is refused. The
    recovery goes on under the owner of the first one. *)
Definition worker_c : WorkerId := MkId (uuid128_from_hex "0c").
Definition op2 : OperationId := MkId (uuid128_from_hex "22").

Definition second_loss_trace : list (event * @Env N) :=
  running_trace ++ recovery_trace 0 (env_b 0) (env_b 7) (env_b 0) (env_b 8) (env_b 9)
  ++ [(Receive 2 (request op2), env_b 20); (Advance 2, env_b 0); (Advance 2, env_b 0);
      (Advance 2, env_b 0); (Advance 2, env_b 0);
      (Accept 3, env_b 0); (Receive 3 (register worker_c boot_a), env_b 0);
      (Disconnect 1, env_b 0); (Advance 1, env_b 0); (Advance 1, env_b 0)].

Definition second_loss : Coordinator := run_of second_loss_trace.

Lemma second_transfer_refused :
  completes second_loss_trace = true ∧ g_current_op second_loss = op2 ∧
  pcs second_loss !! 1%nat = Some LostTransfer ∧
  generation_ (ownership_ (g_store second_loss)) = MkGeneration 1 ∧
  (let cur := current_authority op2 (ops second_loss) in
   recovery_generation cur = gen0 ∧
   (transfer (ownership_ (g_store second_loss)) RecoveryOwner.REPLACEMENT_WORKER
      (next (recovery_generation cur)) (generate count (env_b 30)) cur).1 = false) ∧
  match coord_run count [(Advance 1%nat, env_b 30)] second_loss with
  | Some g' => ownership_ (g_store g') = ownership_ (g_store second_loss)
  | None => False
  end.
Proof. by vm_compute. Qed.
