(* ===== verification/Launch.v ===== *)
(** * Starting the processes ([main] of [src/coordinator.cpp], [serve] and
    [worker] of [tools/ff_cli.cpp])

    The coordinator's command line and start-up, and that the command lines the
    tool builds reach the two processes with the port it was given. How the
    shell and the C run time cut a command line into the arguments of [main] is
    an argument, with what is documented for words without quotes, spaces or
    characters special to the shell ([argv_laws]). *)
From stdpp Require Import gmap.
From Stdlib Require Import Ascii.
From S2P Require Import Prelude Ident Enums Authority Idempotency Registry FailureRecord Store Protocol Worker Explain Cli Coordinator.

Local Open Scope N_scope.

(** ** The coordinator's [main] *)

(** The argument loop: the port and the state file so far. A flag without a
    value is skipped. *)
Fixpoint coordinator_args (args : list string) (port : N) (statefile : string) : N * string :=
  match args with
  | [] => (port, statefile)
  | a :: rest =>
      match rest with
      | v :: rest' =>
          if bool_decide (a = "--port") then coordinator_args rest' (port_of v) statefile
          else if bool_decide (a = "--state") then coordinator_args rest' port v
          else coordinator_args rest port statefile
      | [] => coordinator_args rest port statefile
      end
  end.

(** [main] up to its accept loop: the exit code, or the process that serves on
    a port with a state file. [listens] is whether the port can be bound. *)
Definition coordinator_main (args : list string) (winsock_ok : bool) (listens : N → bool)
    (files : string → option (list byte)) : Z + (N * string * Coordinator) :=
  let '(port, statefile) := coordinator_args args 5000 "ff_coord_state.bin" in
  if negb winsock_ok then inl 2%Z
  else
    let g := coordinator_start (files statefile) in
    if negb (listens port) then inl 2%Z else inr (port, statefile, g).

(** ** Ports survive printing and parsing *)
Lemma digits_value_go n : ∀ s,
  digits_value (pretty_N_go n s) 0 = digits_value s (Z.of_N n).
Proof.
  induction (N.lt_wf_0 n) as [n _ IH]. intros s.
  destruct (decide (n = 0)) as [->|Hn]; [by rewrite pretty_N_go_0|].
  rewrite pretty_N_go_step by lia. rewrite IH by (apply N.div_lt; lia).
  pose proof (N.div_mod' n 10) as Hd. pose proof (N.mod_lt n 10 ltac:(lia)) as Hm.
  revert Hd Hm. generalize (n / 10) (n mod 10). intros q m -> Hm. cbn [digits_value].
  assert (m = 0 ∨ m = 1 ∨ m = 2 ∨ m = 3 ∨ m = 4 ∨ m = 5 ∨ m = 6 ∨ m = 7 ∨ m = 8 ∨ m = 9) as H by lia.
  repeat destruct H as [->|H]; subst; cbn [pretty_N_char]; (f_equal; cbn; lia).
Qed.

Lemma digits_value_dec n : digits_value (dec n) 0 = Z.of_N n.
Proof.
  unfold dec. change (pretty n) with (if decide (n = 0) then "0" else pretty_N_go n "").
  destruct (decide (n = 0)) as [->|Hn]; [done|]. by rewrite digits_value_go.
Qed.

Lemma is_digit_plain c :
  is_digit c = true →
  is_space c = false ∧ bool_decide (c = "-"%char) = false ∧ bool_decide (c = "+"%char) = false.
Proof. destruct c as [[] [] [] [] [] [] [] []]; vm_compute; intros [=]; done. Qed.

Lemma atoi_dec n : atoi (dec n) = Z.of_N n.
Proof.
  rewrite <- digits_value_dec. destruct (dec_ok n) as [Hne Hd].
  destruct (dec n) as [|c s]; [done|]. unfold digits in Hd.
  cbn [String.list_ascii_of_string forallb] in Hd. apply andb_true_iff in Hd as [Hc _].
  destruct (is_digit_plain c Hc) as (H1 & H2 & H3).
  unfold atoi. cbn [skip_spaces]. by rewrite H1, H2, H3.
Qed.

Lemma port_of_dec p : p < 65536 → port_of (dec p) = p.
Proof. intros Hp. unfold port_of. rewrite atoi_dec, Z.mod_small by lia. lia. Qed.

(** ** Command lines *)

(** Characters that mean themselves to the shell and to the C run time; inside
    the quotes of the program's path also separators and spaces. *)
Definition plain_char (c : ascii) : bool :=
  char_between "a" c "z" || char_between "A" c "Z" || char_between "0" c "9"
  || existsb (Ascii.eqb c) ["-"; "_"; "."]%char.

Definition path_char (c : ascii) : bool :=
  plain_char c || existsb (Ascii.eqb c) [":"; "/"; " "; ascii_of_N 92]%char.

Definition plain_word (w : string) : bool :=
  bool_decide (w ≠ EmptyString) && forallb plain_char (String.list_ascii_of_string w).

Definition plain_path (p : string) : bool :=
  bool_decide (p ≠ EmptyString) && forallb path_char (String.list_ascii_of_string p).

(** A command line in the form the tool writes. *)
Definition command_line (program : string) (ws : list string) : string :=
  put [put [dquote; program; dquote]; " "; String.concat " " ws].

(** [argv c] is what [main] of the program that command [c] starts receives:
    the quoted program and the words, whatever space is left at the end. *)
Class argv_laws (argv : string → list string) : Prop := {
  argv_plain program ws :
    plain_path program = true → Forall (λ w, plain_word w = true) ws →
    argv (command_line program ws) = program :: ws;
  argv_trailing program ws :
    plain_path program = true → Forall (λ w, plain_word w = true) ws →
    argv (command_line program ws +:+ " ") = program :: ws;
}.

(** ** The command lines of the tool *)
Lemma coordinator_args_serve p port file :
  p < 65536 →
  coordinator_args ["--port"; dec p; "--state"; "ff_coord_state.bin"] port file
  = (p, "ff_coord_state.bin").
Proof. intros Hp. cbn. by rewrite port_of_dec. Qed.

Lemma plain_digit c : is_digit c = true → plain_char c = true.
Proof. destruct c as [[] [] [] [] [] [] [] []]; vm_compute; congruence. Qed.

Lemma plain_dec n : plain_word (dec n) = true.
Proof.
  destruct (dec_ok n) as [Hne Hd]. revert Hne Hd. unfold plain_word, digits.
  generalize (dec n). intros s Hne Hd.
  apply andb_true_iff. split; [apply bool_decide_eq_true; by destruct s|].
  rewrite forallb_forall in Hd |- *. intros c Hc. by apply plain_digit, Hd.
Qed.

Ltac solve_plain :=
  repeat apply Forall_cons_2; try apply Forall_nil_2;
  first [assumption | apply plain_dec | reflexivity].

Lemma port_of_fits text : port_of text < 65536.
Proof. unfold port_of. pose proof (Z.mod_pos_bound (atoi text) 65536 ltac:(lia)). lia. Qed.

Section launch.
  Context {Rng : Type} (rng_next : Rng → N * Rng) (seeded : N → Rng) (entropy : nat → Rng).
  Context (failures_list : gmap FailureId FailureRecord → list FailureRecord).
  Context (operations : gmap OperationId OperationRuntime → list OperationId).
  Context (collect_entries : gmap (OperationId * IdempotencyKey) Entry →
             list EntryView).
  Context (module_path : string) (readable : string → option (list byte)).
  Context (writable : string → bool) (system : string → Z).
  Context (argv : string → list string) `{!argv_laws argv}.
  Context {Net : Type} (sys_send : Net → list byte → option nat * Net).
  Context (sys_recv : Net → nat → option (list byte) * Net) (can_open : string → bool).

(** The tool, on this host. *)
Definition tool : list string → Outcome :=
  Cli.main rng_next seeded entropy failures_list operations collect_entries module_path readable
    writable system.

Abbreviation coordinator_path := (sibling module_path "ff_coordinator.exe").
Abbreviation worker_path := (sibling module_path "ff_worker.exe").

Lemma serve_command text :
  ran (tool ["serve"; text])
  = Some (command_line coordinator_path
            ["--port"; dec (port_of text); "--state"; "ff_coord_state.bin"]).
Proof. unfold tool, Cli.main. eval_names. reflexivity. Qed.

Lemma worker_command text mode :
  ran (tool ["worker"; text; mode])
  = Some (command_line worker_path ["127.0.0.1"; dec (port_of text); "."; mode]).
Proof.
  unfold tool, Cli.main. eval_names. unfold cmd_worker, port_arg, arg, command_line.
  cbn [lookup list_lookup nth_error default from_option id shell ran String.concat].
  by f_equal.
Qed.

(** C25: the tool starts a coordinator and workers that meet. Let the tool live
    in a directory whose path holds letters, digits, and plain punctuation, and
    let the mode be a word of letters, digits, dots, dashes and underscores. For
    every port argument, [serve] runs the coordinator of its own directory, and
    from the arguments that [main] is given for that command line it reads that
    port, reduced to 16 bits, and the default state file, from which it starts
    if the port can be bound; and [worker] runs the worker of its own directory,
    whose [main], given the arguments of its command line, connects to the same
    port of this machine and nowhere else, and serves in that mode. *)
Theorem tool_starts_matching_processes text mode
    (Hc : plain_path coordinator_path = true) (Hw : plain_path worker_path = true)
    (Hmode : plain_word mode = true) :
  let p := port_of text in
  (∃ c, ran (tool ["serve"; text]) = Some c ∧ head (argv c) = Some coordinator_path ∧
     ∀ listens, coordinator_main (tail (argv c)) true listens readable
       = if listens p
         then inr (p, "ff_coord_state.bin", coordinator_start (readable "ff_coord_state.bin"))
         else inl 2%Z) ∧
  (∃ c, ran (tool ["worker"; text; mode]) = Some c ∧ head (argv c) = Some worker_path ∧
     argv c !! 4%nat = Some mode ∧
     ∀ rng fuel connect,
       worker_main sys_send sys_recv can_open rng_next rng fuel (argv c) true connect
       = worker_main sys_send sys_recv can_open rng_next rng fuel (argv c) true
           (λ _ _, connect "127.0.0.1" p)).
Proof.
  intros p. assert (p < 65536) as Hp by apply port_of_fits. split.
  - eexists. split; [apply serve_command|]. rewrite argv_plain; [|done|].
    2: solve_plain.
    split; [done|]. intros listens. unfold coordinator_main. cbn [tail].
    rewrite coordinator_args_serve by exact Hp. cbn [negb]. unfold p.
    by destruct (listens (port_of text)).
  - eexists. split; [apply worker_command|]. rewrite argv_plain; [|done|].
    2: solve_plain.
    split_and!; [done|done|]. intros rng fuel connect.
    unfold worker_main. cbn [negb].
    rewrite (port_of_dec (port_of text)) by exact Hp. reflexivity.
Qed.

(** An empty mode leaves no word behind: the worker gets four arguments, prints
    its usage and exits without connecting. *)
Lemma empty_mode_starts_nothing text rng fuel connect :
  plain_path worker_path = true →
  ∃ c, ran (tool ["worker"; text; EmptyString]) = Some c ∧ length (argv c) = 4%nat ∧
    worker_main sys_send sys_recv can_open rng_next rng fuel (argv c) true connect
    = Some (2%Z, None).
Proof.
  intros Hw. eexists. split; [apply worker_command|].
  assert (command_line worker_path ["127.0.0.1"; dec (port_of text); "."; EmptyString]
          = command_line worker_path ["127.0.0.1"; dec (port_of text); "."] +:+ " ") as ->.
  { unfold command_line, put. cbn [String.concat]. by rewrite !sapp_assoc. }
  rewrite argv_trailing; [done|done|].
  solve_plain.
Qed.
End launch.

(** ** A run time that cuts at the quotes and the spaces *)
Fixpoint until (c : ascii) (s : string) : string * string :=
  match s with
  | EmptyString => (EmptyString, EmptyString)
  | String d r => if Ascii.eqb d c then (EmptyString, r)
                  else let '(w, r) := until c r in (String d w, r)
  end.

Fixpoint cut_words (word : string) (s : string) : list string :=
  match s with
  | EmptyString => if bool_decide (word = EmptyString) then [] else [word]
  | String d r =>
      if Ascii.eqb d " " then (if bool_decide (word = EmptyString) then [] else [word])
                              ++ cut_words EmptyString r
      else cut_words (word +:+ String d EmptyString) r
  end.

Definition quoted_argv (c : string) : list string :=
  match c with
  | EmptyString => []
  | String _ r => let '(program, rest) := until (ascii_of_N 34) r in program :: cut_words EmptyString rest
  end.

Lemma plain_word_chars w :
  plain_word w = true →
  w ≠ EmptyString ∧ forallb plain_char (String.list_ascii_of_string w) = true.
Proof. unfold plain_word. intros [H1 H2]%andb_true_iff. by apply bool_decide_eq_true in H1. Qed.

Lemma cut_words_word w : ∀ word s,
  forallb plain_char (String.list_ascii_of_string w) = true →
  cut_words word (w +:+ s) = cut_words (word +:+ w) s.
Proof.
  induction w as [|c w IH]; intros word s Hw; [by rewrite sapp_nil|].
  cbn [String.list_ascii_of_string forallb] in Hw. apply andb_true_iff in Hw as [Hc Hw].
  change (String c w +:+ s) with (String c (w +:+ s)). cbn [cut_words].
  destruct (Ascii.eqb_spec c " ") as [->|_]; [done|].
  rewrite IH by done. by rewrite sapp_assoc.
Qed.

Lemma cut_words_sep w rest :
  w ≠ EmptyString → cut_words w (String " " rest) = w :: cut_words EmptyString rest.
Proof. intros Hw. cbn [cut_words Ascii.eqb Bool.eqb]. by rewrite bool_decide_eq_false_2. Qed.

(** The words come back, with or without a space behind. *)
Lemma cut_words_concat ws : ∀ tl,
  tl = EmptyString ∨ tl = String " " EmptyString →
  Forall (λ w, plain_word w = true) ws →
  cut_words EmptyString (String.concat " " ws +:+ tl) = ws.
Proof.
  intros tl Htl Hws. induction Hws as [|w ws Hw Hws IH]; [by destruct Htl as [-> | ->]|].
  apply plain_word_chars in Hw as [Hne Hw].
  destruct ws as [|w' ws].
  - cbn [String.concat]. rewrite cut_words_word by done. change (EmptyString +:+ w) with w.
    destruct Htl as [-> | ->].
    + cbn [cut_words]. by rewrite bool_decide_eq_false_2.
    + by rewrite cut_words_sep.
  - change (String.concat " " (w :: w' :: ws)) with (w +:+ (String " " (String.concat " " (w' :: ws)))).
    rewrite sapp_assoc, cut_words_word by done. change (EmptyString +:+ w) with w.
    change (String " " ?s +:+ tl) with (String " " (s +:+ tl)).
    by rewrite cut_words_sep, IH.
Qed.

Lemma until_path p : ∀ rest,
  forallb path_char (String.list_ascii_of_string p) = true →
  until (ascii_of_N 34) (p +:+ String (ascii_of_N 34) rest) = (p, rest).
Proof.
  induction p as [|c p IH]; intros rest Hp; [done|].
  cbn [String.list_ascii_of_string forallb] in Hp. apply andb_true_iff in Hp as [Hc Hp].
  change (String c p +:+ ?s) with (String c (p +:+ s)). cbn [until].
  destruct (Ascii.eqb_spec c (ascii_of_N 34)) as [->|_]; [done|]. by rewrite IH.
Qed.

#[export] Instance quoted_argv_laws : argv_laws quoted_argv.
Proof.
  assert (∀ program ws tl, plain_path program = true → Forall (λ w, plain_word w = true) ws →
    tl = EmptyString ∨ tl = String " " EmptyString →
    quoted_argv (command_line program ws +:+ tl) = program :: ws) as H.
  { intros program ws tl Hp Hws Htl. apply andb_true_iff in Hp as [_ Hp].
    assert (command_line program ws +:+ tl
      = String (ascii_of_N 34) (program +:+ String (ascii_of_N 34)
          (String " " (String.concat " " ws +:+ tl)))) as ->.
    { unfold command_line, put, dquote. cbn [String.concat].
      repeat first [rewrite sapp_assoc | rewrite sapp_cons]. reflexivity. }
    unfold quoted_argv. rewrite until_path by done.
    cbn [cut_words Ascii.eqb Bool.eqb app]. by rewrite cut_words_concat. }
  split; intros program ws Hp Hws.
  - rewrite <- (H program ws EmptyString); [|done|done|by left]. by rewrite sapp_nil.
  - apply H; [done|done|by right].
Qed.

(** The tool in a directory with a space in its name. *)
Definition module0 : string := "C:" +:+ String backslash "Failure Fabric" +:+ String backslash "ff_cli.exe".

Lemma tool_starts_matching_processes_witness :
  ∃ c, ran (tool count_words (λ n, n) (λ _, 0) (λ _, []) (λ _, []) (λ _, []) module0 (λ _, None)
              (λ _, true) (λ _, 0%Z) ["worker"; "57321"; "slow"]) = Some c ∧
    quoted_argv c !! 4%nat = Some "slow".
Proof.
  destruct (tool_starts_matching_processes count_words (λ n, n) (λ _, 0) (λ _, []) (λ _, [])
    (λ _, []) module0 (λ _, None) (λ _, true) (λ _, 0%Z) quoted_argv send3 recv3 (λ _, true)
    "57321" "slow") as (_ & c & Hc & _ & Hm & _); [vm_compute; reflexivity ..|].
  exists c. split; [exact Hc|exact Hm].
Defined.
