(* ===== verification/Restart.v ===== *)
(** * Saving and restarting the coordinator ([save_state] and [main] of
    [src/coordinator.cpp], [save] and [load] of [src/store.cpp])

    The life of a coordinator across restarts: each process starts by loading
    the state file, runs, calls [save] when an operation completes, and dies at
    any point; the next process loads the file it left. [save] rewrites the file
    in place and its result is ignored, so a call can leave the file as it was,
    whole, or torn ([Store.save_effect]). The invariant kept along a run makes
    every store handed to [save] representable, so that a file written whole
    loads again; a torn one is refused, or lacks only the ownership. *)
From stdpp Require Import gmap.
From S2P Require Import Prelude Ident Enums Authority Operation Idempotency Registry FailureRecord Recovery Codec RecordCodec Store Protocol Reload Coordinator.

Local Open Scope N_scope.

(** ** Envelopes the coordinator makes *)

(** A set epoch and attempt generation, and generations of at most [k]. *)
Record live (k : N) (e : AuthorityEnvelope) : Prop := {
  live_epoch : 1 <= value (coordinator_epoch e) ∧ fits 64 (value (coordinator_epoch e));
  live_attempt : 1 <= value (attempt_generation e) <= k;
  live_operation : value (operation_generation e) <= k;
  live_failure : value (failure_generation e) <= k;
  live_recovery : value (recovery_generation e) <= k;
}.

Lemma live_mono k k' e : k <= k' → live k e → live k' e.
Proof. intros Hk [H1 H2 H3 H4 H5]. split; try done; lia. Qed.

Lemma small_fits k x : k < 2 ^ 32 → x <= k → fits 64 x.
Proof. intros Hk Hx. unfold fits. change (2 ^ 32) with 4294967296 in Hk. change (2 ^ 64) with 18446744073709551616. lia. Qed.

Lemma set_generation (g : Generation) : 1 <= value g → is_unset g = false.
Proof. intros H. apply is_unset_false. lia. Qed.

Lemma live_auth_ok k e : k < 2 ^ 32 → live k e → auth_ok e.
Proof.
  intros Hk [[H1 H1'] [H2 H2'] H3 H4 H5]. split.
  - unfold auth_fits. split_and!; try done; by eapply small_fits.
  - unfold validate_authority. rewrite !set_generation by done. by rewrite !andb_false_r.
Qed.

(** A report that passes the fence of a live envelope is itself valid. *)
Lemma accepted_valid k c cur t :
  live k cur → accepted (fence_completion c cur t) = true → validate_authority c = true.
Proof.
  intros [[H1 _] [H2 _] _ _ _] Hc. apply fence_completion_accepted in Hc.
  destruct Hc as (_ & He & _ & _ & _ & Ha & _).
  unfold validate_authority. rewrite !set_generation, !andb_false_r; [done|..].
  - destruct He; lia.
  - destruct Ha; lia.
Qed.

(** ** The registry *)
Record rt_ok (k : N) (rt : OperationRuntime) : Prop := {
  rt_state : fits 32 (OperationState.to_u32 (state_ (machine rt)));
  rt_attempts : fits 32 (attempt_count rt);
  rt_outcome : str16_ok (terminal_outcome rt);
  rt_authority : live k (authority rt);
  rt_terminal : auth_ok (terminal rt);
}.

Lemma rt_mono k k' rt : k <= k' → rt_ok k rt → rt_ok k' rt.
Proof. intros Hk []. split; try done. by eapply live_mono. Qed.

Lemma rt_op_ok k rt : k < 2 ^ 32 → rt_ok k rt → op_ok rt.
Proof. intros Hk []. do 3 (split; [done|]). split; [by apply (live_auth_ok k)|done]. Qed.

Definition call_ok (k : N) (c : reg_call) : Prop :=
  match c with
  | Create _ a | Dispatch _ a => live k a
  | ConfirmCompletion _ a => auth_fits a
  | Run _ _ | ReportCompletion _ _ _ | ReportFailure _ _ _ => True
  | Transition _ _ _ | RecordTerminal _ _ _ | Restore _ _ => False
  end.

Lemma rt_set_machine k r to :
  fits 32 (OperationState.to_u32 to) → rt_ok k r → rt_ok k (set_machine (MkMachine to) r).
Proof. intros Hf []. by split. Qed.

Lemma transition_ok k to a r :
  fits 32 (OperationState.to_u32 to) → rt_ok k r → rt_ok k (transition_body to a r).2.
Proof.
  intros Hto Hr. unfold transition_body. destruct (terminal_recorded r); [done|].
  destruct (negb _); [done|]. rewrite machine_transition_eq.
  destruct (is_allowed _ _); cbn [negb snd]; [by apply rt_set_machine|by rewrite set_machine_id].
Qed.

Lemma call_body_ok k c r : call_ok k c → rt_ok k r → rt_ok k (call_body c r).2.
Proof.
  intros Hc Hr. destruct c; cbn [call_ok call_body] in *; try done.
  - unfold dispatch_body. destruct (terminal_recorded r); [done|].
    assert (rt_ok k (set_authority attempt r)) as Ha by (by destruct Hr; split).
    destruct (is_terminal _); [done|]. cbn [snd].
    set (r1 := if decide _ then _ else _).
    assert (rt_ok k r1) as [] by (unfold r1; case_decide; [by apply rt_set_machine|done]).
    split; try done. apply wrap_fits.
  - by apply transition_ok.
  - unfold report_completion_body. destruct (terminal_recorded r); [done|].
    destruct (negb _); [done|]. destruct (_ || _); [done|]. rewrite machine_transition_eq.
    destruct (is_allowed _ _); cbn [negb snd]; [|by rewrite set_machine_id].
    apply rt_set_machine; [by destruct partial|done].
  - unfold confirm_completion_body. destruct (terminal_recorded r); [done|].
    destruct (accepted _) eqn:Ea; [|done]. rewrite machine_transition_eq. cbn [negb].
    destruct (is_allowed _ _); cbn [negb snd]; [|by rewrite set_machine_id].
    pose proof (accepted_valid k _ _ _ (rt_authority k r Hr) Ea). by destruct Hr; split.
  - destruct ambiguous; by apply transition_ok.
Qed.

Definition regs_ok (k : N) (o : OperationRegistry) : Prop := map_Forall (λ _, rt_ok k) o.

Definition is_create (c : reg_call) : bool := match c with Create _ _ => true | _ => false end.

Lemma runtime0_ok k a : live k a → rt_ok k (set_authority a runtime0).
Proof. intros Ha. by split. Qed.

Lemma reg_apply_ok k c o : call_ok k c → regs_ok k o → regs_ok k (reg_apply c o).2.
Proof.
  intros Hc Ho op r. destruct (decide (call_op c = op)) as [<-|Hne].
  2: { rewrite reg_apply_frame by done. intros Hr. by apply (Ho op). }
  destruct (o !! call_op c) as [r0|] eqn:E.
  - rewrite (reg_apply_present c o r0 E). intros [= <-]. apply call_body_ok; [done|]. by eapply Ho.
  - rewrite (reg_apply_absent c o E). destruct c; try done. intros [= <-]. by apply runtime0_ok.
Qed.

Lemma reg_run_ok k cs : ∀ o, Forall (call_ok k) cs → regs_ok k o → regs_ok k (reg_run cs o).
Proof.
  induction cs as [|c cs IH]; intros o Hcs Ho; [done|]. apply Forall_cons in Hcs as [Hc Hcs].
  apply IH; [done|]. by apply reg_apply_ok.
Qed.

Lemma reg_apply_size k c o :
  call_ok k c → (size (reg_apply c o).2 <= size o + Nat.b2n (is_create c))%nat.
Proof.
  intros Hc. destruct (o !! call_op c) as [r|] eqn:E.
  - assert ((reg_apply c o).2 = <[call_op c := (call_body c r).2]> o) as ->.
    { apply map_eq. intros op. destruct (decide (call_op c = op)) as [<-|Hne].
      - by rewrite (reg_apply_present c o r E), lookup_insert_eq.
      - by rewrite reg_apply_frame, lookup_insert_ne. }
    rewrite map_size_insert_Some by done. lia.
  - destruct c; cbn in Hc, E; try done; rewrite reg_apply_next;
      unfold create, dispatch_op, run, report_completion, confirm_completion, report_failure, with_op;
      rewrite E; cbn; rewrite ?map_size_insert_None by done; lia.
Qed.

Lemma reg_run_size k cs : ∀ o,
  Forall (call_ok k) cs → (size (reg_run cs o) <= size o + length (List.filter is_create cs))%nat.
Proof.
  induction cs as [|c cs IH]; intros o Hcs; [cbn; lia|]. apply Forall_cons in Hcs as [Hc Hcs].
  cbn [reg_run]. specialize (IH (reg_apply c o).2 Hcs). pose proof (reg_apply_size k c o Hc).
  cbn. destruct (is_create c); cbn in *; lia.
Qed.

(** An operation never leaves the registry. *)
Lemma reg_run_present cs op : ∀ o, is_Some (o !! op) → is_Some (reg_run cs o !! op).
Proof.
  induction cs as [|c cs IH]; intros o Ho; [done|]. apply IH. destruct Ho as [r Hr].
  destruct (decide (call_op c = op)) as [<-|Hne].
  - rewrite (reg_apply_present c o r Hr). eauto.
  - rewrite reg_apply_frame by done. eauto.
Qed.

(** ** The store *)
Record sane (k : N) (s : FailureStore) : Prop := {
  sane_failures : map_Forall (λ id r, fr_failure_id r = id ∧ record_ok r) (failures_ s);
  sane_ops : regs_ok k (ops_ s);
  sane_idem : map_Forall (λ k e, entry_ok (entry_view (k, e))) (idem_ s);
  sane_owner : value (generation_ (ownership_ s)) <= k;
  sane_sizes : N.of_nat (size (failures_ s)) <= k ∧ N.of_nat (size (ops_ s)) <= k ∧
               N.of_nat (size (idem_ s)) <= k;
}.

Lemma sane_store_ok k s : k < 2 ^ 32 → sane k s → store_ok s.
Proof.
  intros Hk [H1 H2 H3 H4 (S1 & S2 & S3)]. split; try done.
  - eapply map_Forall_impl; [exact H2|]. intros op r. by apply rt_op_ok.
  - by eapply small_fits.
  - split_and!; lia.
Qed.

(** The record of a lost worker is representable. *)
Section builder.
  Context {Rng : Type} (rng_next : Rng → N * Rng).

Lemma lost_record_ok (env : @Env Rng) op cur g :
  fits 64 (now_ms env) → auth_ok cur → record_ok (B.build rng_next (lost_record env op cur) g).1.
Proof.
  intros Hn [Hf Hv]. destruct (build_built rng_next (lost_record env op cur) g) as (id & -> & _).
  unfold record_ok. split_and!; try exact Hn; try exact Hv; try apply Hf; try (vm_compute; congruence).
  cbn. lia.
Qed.

(** ** The threads *)

(** The operation that a recovery is about is registered. *)
Definition present (g : Coordinator) : Prop := is_Some (ops g !! g_current_op g).

(** What the threads carry from one step to the next. *)
Definition pc_ok (k : N) (g : Coordinator) (p : Pc) : Prop :=
  match p with
  | DispatchCreate op auth => live k auth
  | DispatchSend _ op _ | DispatchMark _ op _ => is_Some (ops g !! op)
  | CompleteConfirm _ auth => auth_fits auth
  | LostDecide was => was = true → present g
  | LostTransfer | LostCheck _ _ | LostSend _ _ | LostMark _ => present g
  | LostBuild cur | LostRedispatch cur => present g ∧ live k cur
  | LostAppend b cur =>
      present g ∧ live k cur ∧
      ∃ (env : @Env Rng) op, fits 64 (now_ms env) ∧ b = lost_record env op cur
  | _ => True
  end.

(** Outcomes once recorded in [o] are in [o']. *)
Definition keeps (o o' : OperationRegistry) : Prop :=
  ∀ op r, o !! op = Some r → terminal_recorded r = true → o' !! op = Some r.

Record good (o : OperationRegistry) (k : N) (g : Coordinator) : Prop := {
  good_store : sane k (g_store g);
  good_keeps : keeps o (ops g);
  good_running : g_running_conn g ≠ None → present g;
  good_pcs : map_Forall (λ _, pc_ok k g) (pcs g);
}.

(** What the hardware guarantees of an event: 64-bit generations and clock. *)
Definition typed (e : event * @Env Rng) : Prop :=
  fits 64 (now_ms e.2) ∧
  match e.1 with Receive _ m => auth_fits (m_authority m) | _ => True end.

(** *** What a step does to the store *)
Lemma client_authority_live k env g auth :
  1 <= k → client_authority rng_next env g = Some auth → live k auth.
Proof.
  intros Hk. unfold client_authority. intros H. simplify_option_eq; split; cbn; try done; lia.
Qed.

Lemma next_le k (g : Generation) : k + 1 < 2 ^ 32 → value g <= k → value (next g) = value g + 1.
Proof. intros Hk Hg. apply next_value. eapply (small_fits (k + 1)); [done|lia]. Qed.

Lemma new_attempt_live k env cur :
  k + 1 < 2 ^ 32 → live k cur → live (k + 1) (new_attempt rng_next env cur).
Proof.
  intros Hk [H1 [H2 H2'] H3 H4 H5]. split; try exact H1.
  all: cbn [new_attempt attempt_generation operation_generation failure_generation
    recovery_generation set_field].
  all: unfold new_attempt; cbn -[next]; rewrite (next_le k) by done; lia.
Qed.

Lemma receive_calls_ok k m : Forall (call_ok k) (receive_calls m).
Proof. unfold receive_calls. destruct (type m); repeat constructor. Qed.

Lemma pcs_lookup g c k : g_conns g !! c = Some k → pcs g !! c = Some (pc k).
Proof. intros Hk. unfold pcs. by rewrite lookup_fmap, Hk. Qed.

Lemma step_calls_live o k ev env g :
  k + 1 < 2 ^ 32 → good o k g → Forall (call_ok (k + 1)) (step_calls rng_next ev env g).
Proof.
  intros Hk Hg. destruct ev as [c|c m|c|c]; cbn [step_calls]; try constructor.
  - apply receive_calls_ok.
  - destruct (g_conns g !! c) as [kc|] eqn:Ec; [|constructor].
    pose proof (good_pcs o k g Hg c _ (pcs_lookup _ _ _ Ec)) as Hp. cbn beta in Hp.
    unfold advance_calls. destruct (pc kc); cbn [pc_ok] in Hp;
      try apply Forall_nil_2; try (apply Forall_cons_2; [done|apply Forall_nil_2]).
    + apply (live_mono k (k + 1)) in Hp; [|lia].
      case_bool_decide; [apply Forall_nil_2|]. by repeat (apply Forall_cons_2; [done|]); apply Forall_nil_2.
    + destruct (choose_replacement env g) as [[r|]|]; try apply Forall_nil_2.
      apply Forall_cons_2; [apply new_attempt_live; [done|apply Hp]|apply Forall_nil_2].
Qed.

Lemma step_creates ev env g :
  (length (List.filter is_create (step_calls rng_next ev env g)) <= 1)%nat.
Proof.
  destruct ev as [c|c m|c|c]; cbn; try lia.
  - unfold receive_calls. destruct (type m); cbn; lia.
  - destruct (g_conns g !! c); [|cbn; lia]. unfold advance_calls.
    destruct (pc _); repeat case_match; cbn; lia.
Qed.

Lemma step_log_ok o k ev env g :
  k + 1 < 2 ^ 32 → good o k g →
  Forall record_ok (step_log rng_next ev env g) ∧ (length (step_log rng_next ev env g) <= 1)%nat.
Proof.
  intros Hk Hg. destruct ev as [c|c m|c|c]; try (split; [constructor|cbn; lia]). cbn [step_log].
  destruct (g_conns g !! c) as [kc|] eqn:Ec; [|split; [constructor|cbn; lia]].
  pose proof (good_pcs o k g Hg c _ (pcs_lookup _ _ _ Ec)) as Hp. cbn beta in Hp.
  cbn [fmap option_fmap option_map].
  destruct (pc kc); cbn [pc_ok] in Hp; try (split; [apply Forall_nil_2|cbn; lia]).
  destruct Hp as (_ & Hl & env' & op & Hn & ->). split; [|apply le_n]. apply Forall_cons_2; [|apply Forall_nil_2].
  apply lost_record_ok; [exact Hn|]. apply (live_auth_ok k); [lia|done].
Qed.

Lemma append_run_sane log : ∀ s,
  Forall record_ok log → map_Forall (λ id r, fr_failure_id r = id ∧ record_ok r) (failures_ s) →
  let t := append_run s log in
  map_Forall (λ id r, fr_failure_id r = id ∧ record_ok r) (failures_ t) ∧
  (size (failures_ t) <= size (failures_ s) + length log)%nat.
Proof.
  cbv zeta. induction log as [|r log IH]; intros s Hl Hs; [by split; [|cbn; lia]|].
  apply Forall_cons in Hl as [Hr Hl]. cbn [append_run foldl length].
  destruct (append_failure_spec r s) as [|Hnone]; cbn [snd].
  - destruct (IH s Hl Hs) as [H1 H2]. split; [exact H1|]. unfold append_run in H2. lia.
  - destruct (IH (MkStore (<[fr_failure_id r:=r]> (failures_ s)) (ops_ s) (idem_ s) (ownership_ s)) Hl)
      as [H1 H2]; cbn [failures_] in *; [by apply map_Forall_insert_2|].
    split; [exact H1|]. unfold append_run in H2. rewrite map_size_insert_None in H2 by done. lia.
Qed.

Lemma step_owner o k ev env g :
  k + 1 < 2 ^ 32 → good o k g →
  value (generation_ (ownership_run (ownership_ (g_store g)) (step_ownership rng_next ev env g))) <= k + 1.
Proof.
  intros Hk Hg. pose proof (sane_owner _ _ (good_store _ _ _ Hg)) as Ho.
  destruct ev as [c|c m|c|c]; try (cbn; lia). cbn [step_ownership].
  destruct (g_conns g !! c) as [kc|] eqn:Ec; [|cbn; lia].
  pose proof (good_pcs o k g Hg c _ (pcs_lookup _ _ _ Ec)) as Hp. cbn beta in Hp.
  cbn [fmap option_fmap option_map]. destruct (pc kc); try (cbn; lia).
  destruct Hp as [r Hr]. unfold ownership_run. cbn [foldl ownership_step].
  unfold current_authority. rewrite Hr.
  assert (value (next (recovery_generation (authority r))) <= k + 1) as Hn.
  { destruct (rt_authority k r (sane_ops _ _ (good_store _ _ _ Hg) _ _ Hr)) as [_ _ _ _ H5].
    rewrite (next_le k) by done. lia. }
  unfold transfer, adopt. repeat case_match; simplify_eq/=; lia.
Qed.

Lemma step_sane o k ev env g g' :
  k + 1 < 2 ^ 32 → good o k g → coord_step rng_next ev env g = Some g' →
  sane (k + 1) (g_store g').
Proof.
  intros Hk Hg Hs. rewrite (coord_step_store _ _ _ _ _ Hs).
  destruct (good_store o k g Hg) as [H1 H2 H3 H4 (S1 & S2 & S3)].
  destruct (step_log_ok o k ev env g Hk Hg) as [Hl Hl1].
  pose proof (step_calls_live o k ev env g Hk Hg) as Hc.
  destruct (append_run_sane _ (g_store g) Hl H1) as [F1 F2].
  pose proof (reg_run_size (k + 1) _ (ops_ (g_store g)) Hc) as Hsz.
  pose proof (step_creates ev env g) as Hcr.
  split; unfold store_run; cbn [failures_ ops_ idem_ ownership_].
  - exact F1.
  - apply reg_run_ok; [done|]. eapply map_Forall_impl; [exact H2|]. intros op r.
    apply rt_mono. lia.
  - exact H3.
  - by apply (step_owner o).
  - split_and!; lia.
Qed.

(** *** What a step does to the globals *)

(** The store a step hands to [save]. *)
Definition step_saves (ev : event) (env : @Env Rng) (g : Coordinator) : list FailureStore :=
  match ev with
  | Advance c =>
      match pcs g !! c with Some CompleteFinish => [g_store g] | _ => [] end
  | _ => []
  end.

(** [g_saved] is the last of them. *)
Lemma step_saved ev env g g' :
  coord_step rng_next ev env g = Some g' →
  g_saved g' = match last (step_saves ev env g) with Some s => Some s | None => g_saved g end.
Proof.
  unfold step_saves, pcs. destruct ev as [c|c m|c|c]; cbn [coord_step];
    destruct (g_conns g !! c) as [k|] eqn:Ek; cbn [mbind option_bind]; try done.
  - by intros [= <-].
  - destruct (pc k); try done. unfold handle_message. rewrite ?call_eq.
    by destruct (type m); intros Hs; simplify_option_eq.
  - destruct (pc k); try done. by intros [= <-].
  - rewrite lookup_fmap, Ek. cbn [fmap option_fmap option_map].
    unfold advance, dispatch_send. rewrite ?call_eq. destruct (pc k); intros Hs; try done;
      first [injection Hs as <- | simplify_option_eq]; rewrite ?call_eq; by repeat case_match.
Qed.

(** The operation that [dispatch_to] makes current. *)
Definition marks (g : Coordinator) (p : Pc) : option OperationId :=
  match p with
  | DispatchMark _ op _ => Some op
  | LostMark _ => Some (g_current_op g)
  | _ => None
  end.

Lemma step_current ev env g g' :
  coord_step rng_next ev env g = Some g' →
  (g_current_op g' = g_current_op g ∧ (g_running_conn g' ≠ None → g_running_conn g ≠ None)) ∨
  ∃ c p, pcs g !! c = Some p ∧ marks g p = Some (g_current_op g').
Proof.
  destruct ev as [c|c m|c|c]; cbn [coord_step];
    destruct (g_conns g !! c) as [k|] eqn:Ek; cbn [mbind option_bind]; try done.
  - intros [= <-]. by left.
  - destruct (pc k); try done. unfold handle_message. rewrite ?call_eq.
    destruct (type m); intros Hs; simplify_option_eq; by left.
  - destruct (pc k); try done. intros [= <-]. by left.
  - apply pcs_lookup in Ek. unfold advance, dispatch_send. rewrite ?call_eq.
    destruct (pc k) eqn:Ep; intros Hs; try done;
      first [injection Hs as <- | simplify_option_eq]; rewrite ?call_eq;
      first [left; split; [reflexivity|intros Hx; exact Hx] | right; by eexists c, _
            | left; split; [by repeat case_match|by repeat case_match] ].
Qed.

Lemma pc_marks k g c p op :
  pcs g !! c = Some p → pc_ok k g p → marks g p = Some op → is_Some (ops g !! op).
Proof. intros _ Hp. by destruct p; intros [= <-]. Qed.

Lemma step_present o k ev env g g' :
  good o k g → coord_step rng_next ev env g = Some g' →
  (∀ op, is_Some (ops g !! op) → is_Some (ops g' !! op)) ∧ (present g → present g') ∧
  (g_running_conn g' ≠ None → present g').
Proof.
  intros Hg Hs. assert (∀ op, is_Some (ops g !! op) → is_Some (ops g' !! op)) as Hmono.
  { intros op. rewrite (coord_step_ops _ _ _ _ _ Hs). apply reg_run_present. }
  split; [exact Hmono|]. unfold present.
  destruct (step_current ev env g g' Hs) as [[Hc Hr]|(c & p & Hp & Hm)].
  - rewrite Hc. split; [apply Hmono|]. intros Hrun. apply Hmono, (good_running o k g Hg), Hr, Hrun.
  - pose proof (pc_marks k g c p _ Hp (good_pcs o k g Hg c p Hp) Hm) as Hop.
    split; intros _; by apply Hmono.
Qed.

Lemma pc_mono k k' g g' p :
  k <= k' → (∀ op, is_Some (ops g !! op) → is_Some (ops g' !! op)) → (present g → present g') →
  pc_ok k g p → pc_ok k' g' p.
Proof.
  intros Hk Ho Hp. destruct p; cbn [pc_ok]; try done; try apply Ho; try apply Hp;
    naive_solver eauto using live_mono.
Qed.

Lemma create_present op a o : is_Some ((reg_apply (Create op a) o).2 !! op).
Proof.
  destruct (o !! op) as [r|] eqn:E.
  - pose proof (reg_apply_present (Create op a) o r E) as H. cbn [call_op] in H. rewrite H. eauto.
  - pose proof (reg_apply_absent (Create op a) o E) as H. cbn [call_op] in H. rewrite H. cbn. eauto.
Qed.

Lemma goto_pc k c p p0 g h :
  pcs g !! c = Some p0 → pcs h = pcs g → pc_ok k (goto c p h) p →
  ∃ p', pcs (goto c p h) = <[c := p']> (pcs g) ∧ pc_ok k (goto c p h) p'.
Proof.
  intros Hc Hh Hp. exists p. split; [|done]. rewrite <- Hh. apply (pcs_goto c p p0). by rewrite Hh.
Qed.

(** The counter a thread moves to is well formed. *)
Lemma advance_pc o k env c kc g g' :
  good o k g → fits 64 (now_ms env) → g_conns g !! c = Some kc →
  advance rng_next env c kc g = Some g' → (present g → present g') →
  (∀ op, is_Some (ops g !! op) → is_Some (ops g' !! op)) →
  ∃ p', pcs g' = <[c := p']> (pcs g) ∧ pc_ok k g' p'.
Proof.
  intros Hg Hn Hk Hs Hpre Hmono.
  pose proof (pcs_lookup g c kc Hk) as Hc. pose proof (good_pcs o k g Hg c _ Hc) as Hp. cbn beta in Hp.
  revert Hs. unfold advance, dispatch_send. rewrite ?call_eq.
  destruct (pc kc) eqn:Ep; cbn [pc_ok] in Hp; intros Hs; try done.
  all: first [injection Hs as <- | simplify_option_eq]; rewrite ?call_eq in *.
  all: eapply goto_pc; [exact Hc|first [reflexivity | apply pcs_dispatch_mark | by repeat case_match]|].
  all: cbn [pc_ok]; try done.
  - pose proof (reg_run_present [Dispatch op auth] op _ (create_present op auth (ops g))) as Hr.
    cbn [reg_run] in Hr. rewrite !reg_apply_next in Hr. exact Hr.
  - intros Hd. apply Hpre, (good_running o k g Hg). apply bool_decide_eq_true in Hd. congruence.
  - destruct was_running, (negb (g_finished g)); try done. by apply Hpre, Hp.
  - split; [by apply Hpre|]. destruct Hp as [r Hr]. unfold current_authority. rewrite Hr.
    apply (rt_authority k r), (sane_ops _ _ (good_store _ _ _ Hg) _ _ Hr).
  - destruct Hp as [Hpr Hl]. split_and!; [by apply Hpre|done|]. by exists env, (g_current_op g).
  - destruct Hp as (Hpr & Hl & _). split; [by apply Hpre|done].
  - apply Hpre, Hp.
  - repeat case_match; try done; by apply Hpre.
Qed.

(** A message that is received starts a handler with a well-formed counter. *)
Lemma receive_pc o k env c m g g' :
  1 <= k → good o k g → auth_fits (m_authority m) → pcs g !! c = Some Receiving →
  handle_message rng_next env c m g = Some g' →
  ∃ p', pcs g' = <[c := p']> (pcs g) ∧ pc_ok k g' p'.
Proof.
  intros H1 Hg Hm Hc. unfold handle_message. rewrite ?call_eq.
  assert (∀ h, pcs h = pcs g → ∃ p', pcs h = <[c := p']> (pcs g) ∧ pc_ok k h p') as Hstay.
  { intros h Hh. exists Receiving. split; [by rewrite Hh, insert_id|done]. }
  destruct (type m); intros Hs; simplify_option_eq; try (by apply Hstay).
  - apply Hstay. unfold pcs. cbn. by apply pcs_alter.
  - eapply goto_pc; [exact Hc|done|]. by eapply client_authority_live.
  - by eapply goto_pc.
  - by eapply goto_pc.
Qed.

Lemma step_pcs o k ev env g g' :
  1 <= k → good o k g → typed (ev, env) → coord_step rng_next ev env g = Some g' →
  ∃ p', pcs g' = <[actor ev := p']> (pcs g) ∧ pc_ok k g' p'.
Proof.
  intros H1 Hg [Hn Hm] Hs. cbn [fst snd] in Hn, Hm.
  destruct (step_present o k ev env g g' Hg Hs) as (Hmono & Hpre & _).
  destruct ev as [c|c m|c|c]; cbn [coord_step actor] in *;
    destruct (g_conns g !! c) as [kc|] eqn:Ek; cbn [mbind option_bind] in Hs; try done.
  - injection Hs as <-. exists Receiving. split; [|done]. unfold pcs. cbn. by rewrite fmap_insert.
  - apply pcs_lookup in Ek. destruct (pc kc); try done. by eapply receive_pc.
  - apply pcs_lookup in Ek. destruct (pc kc); try done. injection Hs as <-. by eapply goto_pc.
  - by eapply advance_pc.
Qed.

Lemma keeps_trans o1 o2 o3 : keeps o1 o2 → keeps o2 o3 → keeps o1 o3.
Proof. intros H12 H23 op r Hr Ht. by apply H23, Ht; apply H12. Qed.

Lemma keeps_run cs o : keeps o (reg_run cs o).
Proof. intros op r. apply reg_run_frozen. Qed.

Lemma sane_mono k k' s : k <= k' → sane k s → sane k' s.
Proof.
  intros Hk [H1 H2 H3 H4 H5]. split; try done; try lia.
  eapply map_Forall_impl; [exact H2|]. intros op r. by apply rt_mono.
Qed.

(** One step keeps the invariant, with one more unit of generations. *)
Lemma step_good o k ev env g g' :
  1 <= k → k + 1 < 2 ^ 32 → good o k g → typed (ev, env) →
  coord_step rng_next ev env g = Some g' → good o (k + 1) g'.
Proof.
  intros H1 Hk Hg Ht Hs. pose proof (step_sane o k ev env g g' Hk Hg Hs) as Hst.
  assert (keeps o (ops g')) as Hkeep.
  { rewrite (coord_step_ops _ _ _ _ _ Hs). eapply keeps_trans; [exact (good_keeps o k g Hg)|apply keeps_run]. }
  destruct (step_present o k ev env g g' Hg Hs) as (Hmono & Hpre & Hrun).
  split; [done|done|done|].
  - destruct (step_pcs o k ev env g g' H1 Hg Ht Hs) as (p' & -> & Hp').
    apply map_Forall_insert_2; [eapply pc_mono; [|by intros..|exact Hp']; lia|].
    eapply map_Forall_impl; [exact (good_pcs o k g Hg)|]. intros c p.
    apply pc_mono; [lia|done..].
Qed.

Lemma run_good o tr : ∀ k g g',
  1 <= k → k + N.of_nat (length tr) < 2 ^ 32 → good o k g → Forall typed tr →
  coord_run rng_next tr g = Some g' → good o (k + N.of_nat (length tr)) g'.
Proof.
  induction tr as [|[ev env] tr IH]; intros k g g' H1 Hk Hg Ht; cbn [coord_run length].
  { intros [= <-]. by rewrite N.add_0_r. }
  apply Forall_cons in Ht as [Ht Hts]. cbn [length] in Hk.
  destruct (coord_step rng_next ev env g) as [g1|] eqn:E; cbn [mbind option_bind]; [|done].
  intros Hrun. replace (k + N.of_nat (S (length tr))) with (k + 1 + N.of_nat (length tr)) by lia.
  eapply IH; [lia|lia| |done|exact Hrun]. eapply step_good; [..|exact E]; try done; lia.
Qed.

(** Every store a run saves is sound and keeps the outcomes it started with. *)
Lemma run_saves_good o tr : ∀ k g,
  1 <= k → k + N.of_nat (length tr) < 2 ^ 32 → good o k g → Forall typed tr →
  Forall (λ s, sane (k + N.of_nat (length tr)) s ∧ keeps o (ops_ s))
    (collect rng_next step_saves tr g).
Proof.
  induction tr as [|[ev env] tr IH]; intros k g H1 Hk Hg Ht; cbn [collect length]; [constructor|].
  apply Forall_cons in Ht as [Ht Hts]. cbn [length] in Hk. apply Forall_app_2.
  - unfold step_saves. destruct ev as [| | |c]; try constructor.
    destruct (pcs g !! c) as [[]|]; try constructor; [|constructor].
    split; [|apply (good_keeps o k g Hg)].
    eapply sane_mono; [|exact (good_store o k g Hg)]. lia.
  - destruct (coord_step rng_next ev env g) as [g1|] eqn:E; [|constructor].
    replace (k + N.of_nat (S (length tr))) with (k + 1 + N.of_nat (length tr)) by lia.
    apply IH; [lia|lia| |done]. eapply step_good; [..|exact E]; try done; lia.
Qed.

(** [g_saved] is the last store the run saved. *)
Lemma run_saved tr : ∀ g g',
  coord_run rng_next tr g = Some g' →
  g_saved g' = match last (collect rng_next step_saves tr g) with
               | Some s => Some s
               | None => g_saved g
               end.
Proof.
  induction tr as [|[ev env] tr IH]; intros g g'; cbn [coord_run collect]; [by intros [= <-]|].
  destruct (coord_step rng_next ev env g) as [g1|] eqn:E; cbn [mbind option_bind]; [|done].
  intros Hrun. rewrite (IH g1 g' Hrun), (step_saved ev env g g1 E), last_app.
  by destruct (last (collect _ _ _ _)).
Qed.

(** ** Lives of the process *)

(** The saves that were made, each with its fate, and what they make of the
    state file. *)
Inductive disk : list (FailureStore * Fate) → option (list byte) → option (list byte) → Prop :=
  | disk_nil file : disk [] file file
  | disk_snoc h s fate file file1 file2 :
      disk h file file1 → save_effect s file1 fate file2 → disk (h ++ [(s, fate)]) file file2.

Lemma disk_app h1 h2 file file1 file2 :
  disk h1 file file1 → disk h2 file1 file2 → disk (h1 ++ h2) file file2.
Proof.
  intros H1 H2. revert H1. induction H2 as [|h s fate f1 f2 f3 _ IH He]; intros H1;
    [by rewrite app_nil_r|]. rewrite app_assoc. by eapply disk_snoc; [apply IH|].
Qed.

(** The last save that touched the file. *)
Definition last_change (h : list (FailureStore * Fate)) : option (FailureStore * Fate) :=
  last (filter (λ e, e.2 ≠ Refused) h).

(** One process: it starts from the state file, takes some steps, and dies;
    [h] lists the saves it made and [file'] is the state file it leaves. A
    process killed inside a save has that save [Torn]. *)
Variant lifetime (file : option (list byte))
    : nat → list (FailureStore * Fate) → option (list byte) → Prop :=
  | lived tr g h file' :
      coord_run rng_next tr (coordinator_start file) = Some g → Forall typed tr →
      h.*1 = collect rng_next step_saves tr (coordinator_start file) →
      disk h file file' → lifetime file (length tr) h file'.

(** Several in a row, with the number of their steps and all their saves. *)
Inductive lifetimes (file : option (list byte))
    : nat → list (FailureStore * Fate) → option (list byte) → Prop :=
  | no_life : lifetimes file 0 [] file
  | one_more_life n h file1 n' h' file2 :
      lifetimes file n h file1 → lifetime file1 n' h' file2 →
      lifetimes file (n + n') (h ++ h') file2.

(** The state files that occur: none, or what a save of a sound store left. *)
Definition left_by (k : N) (e : FailureStore * Fate) (file : option (list byte)) : Prop :=
  sane k e.1 ∧ e.2 ≠ Refused ∧ ∃ file0, save_effect e.1 file0 e.2 file.

Definition file_ok (k : N) (file : option (list byte)) : Prop :=
  file = None ∨ ∃ e, left_by k e file.

(** A process started from the file has the log and the operations of [s]. *)
Definition restores (s : FailureStore) (file : option (list byte)) : Prop :=
  (load file store0).1 = true ∧
  failures_ (g_store (coordinator_start file)) = failures_ s ∧ ops (coordinator_start file) = ops_ s.

Lemma left_by_mono k k' e file : k <= k' → left_by k e file → left_by k' e file.
Proof. intros Hk [H1 H2]. split; [by eapply sane_mono|done]. Qed.

Lemma file_ok_mono k k' file : k <= k' → file_ok k file → file_ok k' file.
Proof. intros Hk [->|(e & He)]; [by left|right]. exists e. by eapply left_by_mono. Qed.

Lemma load_sane k s data s0 :
  k < 2 ^ 32 → sane k s → saves s data →
  load (Some data) s0 = (true, MkStore (failures_ s) (ops_ s) (forget_authority <$> idem_ s) ownership0).
Proof. intros Hk Hs. apply load_image. by eapply sane_store_ok. Qed.

(** A file a save left gives back what was saved, or, torn, nothing. *)
Lemma left_by_loads k s fate file :
  k < 2 ^ 32 → left_by k (s, fate) file →
  load file store0 = (true, MkStore (failures_ s) (ops_ s) (forget_authority <$> idem_ s) ownership0) ∨
  fate = Torn ∧ load file store0 = (false, store0).
Proof.
  intros Hk (Hs & Hf & file0 & He). cbn [fst snd] in *.
  destruct He as [|data Hd|data n (frames & Hfr & ->) Hn]; [done| |].
  - left. by apply (load_sane k).
  - destruct (cut_image_load s store0 frames n) as [E|[_ E]]; [by eapply sane_store_ok|done|done|..];
      [by right|by left].
Qed.

Lemma left_by_restores k s fate file :
  k < 2 ^ 32 → left_by k (s, fate) file →
  restores s file ∨ fate = Torn ∧ g_store (coordinator_start file) = store0.
Proof.
  intros Hk He. unfold restores, coordinator_start, ops. cbn [g_store].
  destruct (left_by_loads k s fate file Hk He) as [->|[-> ->]]; [by left|by right].
Qed.

Lemma start_good k file :
  k < 2 ^ 32 → file_ok k file → good (ops (coordinator_start file)) k (coordinator_start file).
Proof.
  intros Hk Hf. assert (sane k store0) as H0.
  { split; [by apply map_Forall_empty..|apply N.le_0_l|]. split_and!; apply N.le_0_l. }
  assert (sane k (load file store0).2) as Hs.
  { destruct Hf as [->|([s fate] & He)]; [done|].
    destruct (left_by_loads k s fate file Hk He) as [->|[_ ->]]; [|done].
    destruct He as ([H1 H2 H3 H4 H5] & _). split; try done; [|cbn; lia|].
    - intros key e. cbn [idem_ snd]. rewrite lookup_fmap_Some. intros (e0 & <- & He). exact (H3 key e0 He).
    - cbn [failures_ ops_ idem_ snd]. by rewrite map_size_fmap. }
  split; [done|by intros op r|by intros []|]. unfold pcs. cbn [coordinator_start g_conns].
  rewrite fmap_empty. apply map_Forall_empty.
Qed.

(** The file after some saves is that of the last one that touched it. *)
Lemma disk_last k h file file' :
  disk h file file' → Forall (sane k) h.*1 →
  match last_change h with Some e => left_by k e file' | None => file' = file end.
Proof.
  unfold last_change. induction 1 as [|h s fate file file1 file2 _ IH He]; intros Hs; [done|].
  rewrite fmap_app, Forall_app in Hs. destruct Hs as [Hs Hs1]. specialize (IH Hs).
  cbn in Hs1. rewrite Forall_singleton in Hs1.
  rewrite filter_app. destruct (decide (fate = Refused)) as [->|Hne].
  - rewrite filter_cons_False by naive_solver. rewrite filter_nil, app_nil_r.
    inversion He; subst. done.
  - rewrite filter_cons_True by done. rewrite filter_nil, last_snoc.
    split_and!; [done|done|by exists file1].
Qed.

Lemma disk_file_ok k h file file' :
  disk h file file' → Forall (sane k) h.*1 → file_ok k file → file_ok k file'.
Proof.
  intros Hd Hs Hf. pose proof (disk_last k h file file' Hd Hs) as H.
  destruct (last_change h) as [e|]; [right; by exists e|by subst].
Qed.

(** Without torn saves, outcomes stay. *)
Lemma disk_keeps k o h file file' :
  k < 2 ^ 32 → disk h file file' → Forall (λ s, sane k s ∧ keeps o (ops_ s)) h.*1 → Torn ∉ h.*2 →
  keeps o (ops (coordinator_start file)) → keeps o (ops (coordinator_start file')).
Proof.
  intros Hk Hd Hs Ht Ho.
  assert (Forall (sane k) h.*1) as Hs1 by (eapply Forall_impl; [exact Hs|]; by intros s []).
  pose proof (disk_last k h file file' Hd Hs1) as H.
  destruct (last_change h) as [[s fate]|] eqn:E; [|by subst].
  assert ((s, fate) ∈ h) as Hin.
  { apply last_Some_elem_of in E. by apply list_elem_of_filter in E as [_ E]. }
  destruct (left_by_restores k s fate file' Hk H) as [(_ & _ & ->)|[-> _]].
  - rewrite Forall_forall in Hs. apply Hs. apply list_elem_of_fmap. by exists (s, fate).
  - exfalso. apply Ht, list_elem_of_fmap. by exists (s, Torn).
Qed.

Lemma lifetime_ok k file n h file' :
  1 <= k → k + N.of_nat n < 2 ^ 32 → file_ok k file → lifetime file n h file' →
  disk h file file' ∧ Forall (sane (k + N.of_nat n)) h.*1 ∧
  (Torn ∉ h.*2 → keeps (ops (coordinator_start file)) (ops (coordinator_start file'))).
Proof.
  intros H1 Hk Hf Hl. pose proof (start_good k file ltac:(lia) Hf) as Hg.
  destruct Hl as [tr g h file' Hrun Ht Hh Hd].
  pose proof (run_saves_good _ tr k _ H1 Hk Hg Ht) as Hs. rewrite <- Hh in Hs.
  split_and!; [done| |].
  - eapply Forall_impl; [exact Hs|]. by intros s [].
  - intros Hn. eapply disk_keeps; [exact Hk|done|exact Hs|done|]. by intros op r.
Qed.

Lemma lifetimes_ok k file n h file' :
  1 <= k → k + N.of_nat n < 2 ^ 32 → file_ok k file → lifetimes file n h file' →
  disk h file file' ∧ Forall (sane (k + N.of_nat n)) h.*1 ∧
  (Torn ∉ h.*2 → keeps (ops (coordinator_start file)) (ops (coordinator_start file'))).
Proof.
  intros H1 Hk Hf Hl. induction Hl as [|n h file1 n' h' file2 Hl IH Hlast].
  { split_and!; [constructor|constructor|]. by intros _ op r. }
  destruct IH as (Hd1 & Hs1 & Hk1); [lia|].
  assert (file_ok (k + N.of_nat n) file1) as Hf1
    by (eapply disk_file_ok; [exact Hd1|exact Hs1|]; eapply file_ok_mono; [|exact Hf]; lia).
  destruct (lifetime_ok (k + N.of_nat n) file1 n' h' file2) as (Hd2 & Hs2 & Hk2); [lia|lia|done|done|].
  replace (k + N.of_nat (n + n')) with (k + N.of_nat n + N.of_nat n') by lia.
  rewrite !fmap_app. split_and!; [by eapply disk_app|apply Forall_app_2; [|done]|].
  - eapply Forall_impl; [exact Hs1|]. intros s. apply sane_mono. lia.
  - rewrite elem_of_app. intros Ht. eapply keeps_trans; [apply Hk1|apply Hk2]; tauto.
Qed.

(** C3: outcomes survive restarts. Take any number of coordinator processes one
    after the other, the first without a state file, each killed at any point of
    any interleaving, inside a save included; each call of [save], whose result
    the coordinator ignores, leaves the file untouched, written whole, or torn.
    What the next process starts from is settled by the last save that touched
    the file. If it was written whole, the file loads and gives exactly the
    failure log and the operations handed to that save; if it was torn, the
    process starts either so or empty, never from anything else; without any
    save there is no file. And as long as no save is torn, an outcome that one
    process starts with is the outcome of that operation in every later
    process. (A save reads the store as it stands when it is called. Fewer than
    2^32 steps in all: generations and the counts of the file do not wrap.) *)
Theorem outcomes_survive_restarts n h file
    (Hlives : lifetimes None n h file) (Hn : N.of_nat n + 1 < 2 ^ 32) :
  match last_change h with
  | None => file = None ∧ g_store (coordinator_start file) = store0
  | Some (s, Torn) => restores s file ∨ g_store (coordinator_start file) = store0
  | Some (s, _) => restores s file
  end ∧
  (∀ n' h' file', lifetimes file n' h' file' → N.of_nat n + N.of_nat n' + 1 < 2 ^ 32 →
     Torn ∉ h'.*2 →
     ∀ op r, ops (coordinator_start file) !! op = Some r → terminal_recorded r = true →
       ops (coordinator_start file') !! op = Some r).
Proof.
  destruct (lifetimes_ok 1 None n h file) as (Hd & Hs & _); [lia|lia|by left|done|].
  pose proof (disk_last _ h None file Hd Hs) as Hlast. split.
  - destruct (last_change h) as [[s fate]|]; [|by subst].
    destruct (left_by_restores (1 + N.of_nat n) s fate file) as [?|[-> ?]]; [lia|done|..].
    + destruct fate; [done|done|by left].
    + by right.
  - intros n' h' file' Hl Hm Ht. apply (lifetimes_ok (1 + N.of_nat n) file n' h' file'); [lia|lia| |done|done].
    eapply disk_file_ok; [exact Hd|exact Hs|by left].
Qed.
End builder.

(** ** Witnesses *)

(** The image for the enumerations of [map_to_list]. *)
Definition canonical_image (s : FailureStore) : list byte :=
  image (save_frames (map_to_list (failures_ s)).*2 (map_to_list (ops_ s))
           (entry_view <$> map_to_list (idem_ s)) (ownership_ s)).

Lemma canonical_saves s : saves s (canonical_image s).
Proof. eexists. split; [|done]. by eexists _, _, _. Qed.

(** The store the completed coordinator saved. *)
Definition completed_store : FailureStore := default store0 (g_saved completed_coordinator).

Definition typed_event (e : event * @Env N) : bool :=
  (now_ms e.2 <? 2 ^ 64) &&
  match e.1 with
  | Receive _ m => forallb (λ x, x <? 2 ^ 64) (value <$> [coordinator_epoch (m_authority m);
      attempt_generation (m_authority m); operation_generation (m_authority m);
      failure_generation (m_authority m); recovery_generation (m_authority m)])
  | _ => true
  end.

Lemma typed_trace tr : forallb typed_event tr = true → Forall typed tr.
Proof.
  intros H. apply Forall_forall. intros [ev env] Hin.
  rewrite forallb_forall in H. specialize (H _ (proj1 (list_elem_of_In _ _) Hin)).
  apply andb_true_iff in H as [H1 H2]. split; [by apply N.ltb_lt|].
  destruct ev; try done. cbn in H2. rewrite !andb_true_iff, !N.ltb_lt in H2.
  unfold auth_fits, fits. cbn. naive_solver.
Qed.

Definition completed_history (fate : Fate) : list (FailureStore * Fate) :=
  [(completed_store, fate)].

Lemma single_save {A} (d : A) (o : option A) (l : list A) :
  o = match last l with Some s => Some s | None => None end → length l = 1%nat →
  l = [default d o].
Proof. destruct l as [|x [|y l]]; [done| |done]. by intros ->. Qed.

Lemma completed_run :
  coord_run count completed_trace (coordinator_start None) = Some completed_coordinator ∧
  Forall typed completed_trace ∧
  collect count step_saves completed_trace (coordinator_start None) = [completed_store].
Proof.
  assert (coord_run count completed_trace (coordinator_start None) = Some completed_coordinator) as Hrun
    by (apply run_of_some; vm_compute; reflexivity).
  split_and!; [done|apply typed_trace; vm_compute; reflexivity|].
  apply single_save; [|vm_compute; reflexivity].
  exact (run_saved count completed_trace _ _ Hrun).
Qed.

Lemma completed_life fate file :
  save_effect completed_store None fate file →
  lifetimes count None (0 + length completed_trace) (completed_history fate) file.
Proof.
  intros He. destruct completed_run as (Hrun & Ht & Hc).
  apply (one_more_life count None 0 [] None _ (completed_history fate)); [constructor|].
  eapply lived; [exact Hrun|exact Ht|exact (eq_sym Hc)|].
  apply (disk_snoc [] completed_store fate None None file); [constructor|exact He].
Qed.

Lemma completed_last fate :
  fate ≠ Refused → last_change (completed_history fate) = Some (completed_store, fate).
Proof.
  intros Hf. unfold last_change, completed_history. by rewrite filter_cons_True, filter_nil.
Qed.

Lemma completed_written :
  save_effect completed_store None Written (Some (canonical_image completed_store)).
Proof. apply save_written, canonical_saves. Qed.

Lemma completed_torn :
  save_effect completed_store None Torn (Some (take 100 (canonical_image completed_store))).
Proof.
  apply save_torn; [apply canonical_saves|]. apply Nat.ltb_lt. vm_compute; reflexivity.
Qed.

Lemma outcomes_survive_restarts_witness :
  restores completed_store (Some (canonical_image completed_store)) ∧
  (restores completed_store (Some (take 100 (canonical_image completed_store))) ∨
   g_store (coordinator_start (Some (take 100 (canonical_image completed_store)))) = store0).
Proof.
  split.
  - destruct (outcomes_survive_restarts count _ _ _ (completed_life Written _ completed_written))
      as [H _]; [vm_compute; reflexivity|].
    rewrite completed_last in H by done. exact H.
  - destruct (outcomes_survive_restarts count _ _ _ (completed_life Torn _ completed_torn))
      as [H _]; [vm_compute; reflexivity|].
    rewrite completed_last in H by done. exact H.
Defined.

(** [save] truncates the file it replaces: whatever the file held, a process
    killed before the first byte is out leaves an empty file, and the next
    process starts without any failure, operation or outcome. *)
Lemma torn_save_loses_everything s file :
  save_effect s file Torn (Some []) ∧ g_store (coordinator_start (Some [])) = store0.
Proof.
  split; [|done]. apply (save_torn s file (canonical_image s) 0); [apply canonical_saves|].
  unfold canonical_image. eapply Nat.lt_le_trans; [|apply length_image]. cbn. lia.
Qed.

(** The acknowledgement goes out before the save: a process that dies between
    the two leaves no trace of a completion it acknowledged. *)
Definition acked_trace : list (event * @Env N) := take 13 completed_trace.

Lemma acknowledged_before_saved :
  completes acked_trace = true ∧ acks op1 (run_of acked_trace) = 1%nat ∧
  match g_saved (run_of acked_trace) with Some _ => true | None => false end = false.
Proof. by vm_compute. Qed.
