(* ===== verification/System.v ===== *)
(** * Coordinator and workers together

    The messages of [Worker] delivered to the threads of [Coordinator]: an
    operation a client asks for is run and completed, and it is completed by
    another worker when the first one is lost. *)
From stdpp Require Import gmap.
From S2P Require Import Prelude Ident Enums Authority Operation Idempotency Registry.
From S2P Require Import FailureRecord Recovery Codec RecordCodec Store Protocol Worker Coordinator.

Local Open Scope N_scope.

(** ** The registry's part *)

(** A runtime that waits for the completion of its current attempt. *)
Definition awaiting (r : OperationRuntime) : Prop :=
  terminal_recorded r = false ∧ terminal r = authority0 ∧ envelope_is_unset (authority r) = false ∧
  (state_ (machine r) = OperationState.DISPATCHED ∨ state_ (machine r) = OperationState.RUNNING).

Definition in_state (s : OperationState) (r : OperationRuntime) : OperationRuntime :=
  set_machine (MkMachine s) r.

Definition confirmed (r : OperationRuntime) : OperationRuntime :=
  set_terminal (authority r) "COMPLETED" (in_state OperationState.COMPLETION_CONFIRMED r).

Lemma running_report r o op :
  o !! op = Some r → awaiting r →
  (run op (authority r) o).2 = <[op := in_state OperationState.RUNNING r]> o.
Proof.
  intros Hr (Ht & _ & Ha & Hs). unfold run, with_op. rewrite Hr. unfold transition_body.
  rewrite Ht, fence_failure_self by done. rewrite machine_transition_eq. cbn [negb].
  destruct Hs as [Hs|Hs]; [by rewrite Hs|].
  assert (in_state OperationState.RUNNING r = r) as ->.
  { destruct r as [[s] ? ? ? ? ? ? ?]. cbn in Hs. by subst. }
  rewrite Hs. change (is_allowed OperationState.RUNNING OperationState.RUNNING) with false.
  cbn [negb snd]. by rewrite set_machine_id.
Qed.

Lemma complete_report r o op :
  terminal_recorded r = false → terminal r = authority0 → envelope_is_unset (authority r) = false →
  report_completion op (authority r) false (<[op := in_state OperationState.RUNNING r]> o)
  = (ApplyResult.OK, <[op := in_state OperationState.COMPLETION_REPORTED r]> o).
Proof.
  intros Ht Hn Ha. unfold report_completion. rewrite with_op_insert. unfold report_completion_body.
  cbn [terminal_recorded authority terminal in_state set_machine machine state_].
  by rewrite Ht, Hn, fence_completion_self by done.
Qed.

Lemma confirm_report r o op :
  terminal_recorded r = false → terminal r = authority0 → envelope_is_unset (authority r) = false →
  confirm_completion op (authority r) (<[op := in_state OperationState.COMPLETION_REPORTED r]> o)
  = (ApplyResult.OK, <[op := confirmed r]> o).
Proof.
  intros Ht Hn Ha. unfold confirm_completion. rewrite with_op_insert. unfold confirm_completion_body.
  cbn [terminal_recorded authority terminal in_state set_machine machine state_].
  by rewrite Ht, Hn, fence_completion_self by done.
Qed.

Section system.
  Context {Rng : Type} (rng_next : Rng → N * Rng).

Lemma goto_same c g k : g_conns g !! c = Some k → goto c (pc k) g = g.
Proof.
  intros Hk. unfold goto.
  replace (alter (λ x, x <| pc := pc k |>) c (g_conns g)) with (g_conns g); [by destruct g|].
  symmetry. apply map_eq. intros i. destruct (decide (c = i)) as [<-|Hne]; [|by rewrite lookup_alter_ne].
  rewrite lookup_alter_eq, Hk. cbn. by destruct k.
Qed.

Lemma goto_receiving c p g k :
  g_conns g !! c = Some k → pc k = Receiving → goto c Receiving (goto c p g) = g.
Proof. intros Hk Hp. rewrite goto_goto, <- Hp. by apply goto_same. Qed.

(** ** A worker reports completion *)

(** The coordinator when the completion of [op] has been acknowledged on [c]. *)
Definition acknowledged (c : ConnId) (op : OperationId) (r : OperationRuntime) (g : Coordinator)
    : Coordinator :=
  save_state (send c (ack_message op) (with_ops (<[op := confirmed r]> (ops g)) g)
              <| g_finished := true |>).

Definition completion_trace (c : ConnId) (reg m : WireMessage) (e : @Env Rng)
    : list (event * @Env Rng) :=
  [(Receive c (running_message reg m), e); (Receive c (complete_message reg m), e);
   (Advance c, e); (Advance c, e); (Advance c, e)].

Lemma completion_run g c k r reg m e :
  g_conns g !! c = Some k → pc k = Receiving → ops g !! m_op m = Some r → awaiting r →
  authority r = m_authority m →
  coord_run rng_next (completion_trace c reg m e) g = Some (acknowledged c (m_op m) r g).
Proof.
  intros Hk Hp Hr Hw Ha. pose proof Hw as (Ht & Hn & Hu & _). unfold completion_trace.
  rewrite (run_receive rng_next c g k) by done. unfold handle_message at 1. cbn [type running_message].
  change (type (running_message reg m)) with ProtocolMessage.RUNNING. cbv beta iota zeta.
  change (m_op (running_message reg m)) with (m_op m).
  change (m_authority (running_message reg m)) with (m_authority m).
  rewrite call_eq, <- Ha, (running_report r) by done. cbn [snd mbind option_bind].
  set (g1 := with_ops _ g).
  rewrite (run_receive rng_next c g1 k) by done. unfold handle_message.
  change (type (complete_message reg m)) with ProtocolMessage.COMPLETE. cbv beta iota zeta.
  change (m_op (complete_message reg m)) with (m_op m).
  change (m_authority (complete_message reg m)) with (m_authority m).
  rewrite call_eq, <- Ha.
  change (ops g1) with (<[m_op m := in_state OperationState.RUNNING r]> (ops g)).
  rewrite complete_report by done. cbn [fst snd]. rewrite bool_decide_eq_true_2 by done.
  cbn [mbind option_bind]. set (g2 := with_ops _ g1).
  set (g3 := with_ops (<[m_op m := confirmed r]> (ops g)) g).
  rewrite (run_advance rng_next c _ (CompleteAck (m_op m)) g2 g3 k); [|done|].
  2: { unfold advance. change (pc _) with (CompleteConfirm (m_op m) (authority r)).
       cbv beta iota zeta. rewrite call_eq.
       change (ops (goto _ _ g2)) with (<[m_op m := in_state OperationState.COMPLETION_REPORTED r]> (ops g)).
       by rewrite confirm_report. }
  rewrite (run_advance rng_next c _ CompleteFinish g3 (send c (ack_message (m_op m)) g3) k); [|done|done].
  cbn [coord_run coord_step]. rewrite (goto_lookup c CompleteFinish _ k) by done.
  cbn [mbind option_bind]. unfold advance. change (pc _) with CompleteFinish.
  cbv beta iota zeta. cbn [mbind option_bind]. f_equal.
  exact (goto_receiving c CompleteFinish (acknowledged c (m_op m) r g) k Hk Hp).
Qed.

(** ** A client asks for an operation *)

(** The runtime of an operation that runs its first attempt. *)
Definition started (a : AuthorityEnvelope) : OperationRuntime :=
  MkRuntime (MkMachine OperationState.RUNNING) a authority0 false 1 "" false idem_key0.

Lemma created_dispatched op a o :
  o !! op = None →
  (dispatch_op op a (create op a o).2).2
  = <[op := set_machine (MkMachine OperationState.DISPATCHED) (started a)]> o.
Proof.
  intros Hn. unfold create. rewrite Hn. cbn [snd]. unfold dispatch_op. by rewrite with_op_insert.
Qed.

Lemma dispatched_run op a o :
  envelope_is_unset a = false →
  (run op a (<[op := set_machine (MkMachine OperationState.DISPATCHED) (started a)]> o)).2
  = <[op := started a]> o.
Proof.
  intros Ha. unfold run. rewrite with_op_insert. unfold transition_body.
  cbn [terminal_recorded authority set_machine started]. by rewrite fence_failure_self.
Qed.

(** The attempt of a request served with environment [e]. *)
Definition first_attempt (e : @Env Rng) (b : WorkerBootId) : AuthorityEnvelope :=
  authority0 <| coordinator_epoch := MkGeneration 1 |> <| attempt := generate rng_next e |>
             <| attempt_generation := MkGeneration 1 |>
             <| operation_generation := MkGeneration 1 |> <| worker_boot := b |>.

Definition request_trace (c : ConnId) (m : WireMessage) (e : @Env Rng) : list (event * @Env Rng) :=
  [(Receive c m, e); (Advance c, e); (Advance c, e); (Advance c, e); (Advance c, e)].

(** The coordinator when the operation has been handed to the worker. *)
Definition handed (w : ConnId) (kw : Conn) (op : OperationId) (a : AuthorityEnvelope) (g : Coordinator)
    : Coordinator :=
  dispatch_mark w op (send w (dispatch_message op a (wid kw)) (with_ops (<[op := started a]> (ops g)) g)).

Lemma dispatch_mark_goto w op c p g :
  c ≠ w → dispatch_mark w op (goto c p g) = goto c p (dispatch_mark w op g).
Proof.
  intros Hne. unfold dispatch_mark, goto.
  set (f := λ k : Conn, k <| pc := p |>). set (h := λ k : Conn, k <| running_op := true |>).
  assert (alter h w (alter f c (g_conns g)) = alter f c (alter h w (g_conns g))) as E
    by (by apply alter_alter_ne).
  cbn in *. by rewrite E.
Qed.

Lemma generate_not_null {tag} e : generate rng_next e ≠ @null_id tag.
Proof.
  intros E. pose proof (uuid128_generate_nonzero rng_next (rng e)) as H.
  unfold generate in E. injection E as E. rewrite E in H.
  assert (is_zero uuid128_zero = true) as Hz by (by apply is_zero_spec). congruence.
Qed.

Lemma attempt_set a : attempt a ≠ null_id → envelope_is_unset a = false.
Proof.
  intros H. apply is_null_false in H. unfold envelope_is_unset. rewrite H.
  by rewrite andb_false_r.
Qed.

Lemma request_run g c k w kw m e :
  let op := m_op m in
  let a := first_attempt e (boot kw) in
  g_conns g !! c = Some k → pc k = Receiving → type m = ProtocolMessage.DISPATCH →
  begin_ e g = Some w → g_conns g !! w = Some kw → c ≠ w → ops g !! op = None →
  coord_run rng_next (request_trace c m e) g = Some (handed w kw op a g).
Proof.
  intros op a Hk Hp Hm Hw Hkw Hne Hop. unfold request_trace.
  assert (bool_decide (g_workers g = ∅) = false) as Hws.
  { apply bool_decide_eq_false. intros E. unfold begin_ in Hw. by rewrite E in Hw. }
  rewrite (run_receive rng_next c g k) by done. unfold handle_message. rewrite Hm.
  unfold client_authority. rewrite Hws, Hw. cbn [mbind option_bind]. rewrite Hkw.
  cbn [mbind option_bind]. fold (first_attempt e (boot kw)). fold op a.
  set (g1 := with_ops (<[op := set_machine (MkMachine OperationState.DISPATCHED) (started a)]> (ops g)) g).
  rewrite (run_advance rng_next c _ (DispatchSend w op a) g g1 k); [|done|].
  2: { unfold advance. change (pc _) with (DispatchCreate op a). cbv beta iota zeta.
       change (g_workers (goto _ _ g)) with (g_workers g). rewrite Hws.
       change (begin_ e (goto _ _ g)) with (begin_ e g). rewrite Hw. cbn [mbind option_bind].
       rewrite !call_eq. cbn [snd]. do 2 f_equal. unfold g1. rewrite <- created_dispatched by done.
       reflexivity. }
  set (g2 := send w (dispatch_message op a (wid kw)) g1).
  rewrite (run_advance rng_next c _ (DispatchMark w op a) g1 g2 k); [|done|].
  2: { unfold advance. change (pc _) with (DispatchSend w op a). cbv beta iota zeta.
       unfold dispatch_send. cbn [goto g_conns set_field]. cbn. by rewrite lookup_alter_ne, Hkw. }
  set (g3 := dispatch_mark w op g2).
  rewrite (run_advance rng_next c _ (DispatchRun op a) g2 g3 k); [|done|].
  2: { unfold advance. change (pc _) with (DispatchMark w op a). cbv beta iota zeta.
       by rewrite dispatch_mark_goto. }
  assert (g_conns g3 !! c = Some k) as Hk3.
  { unfold g3. cbn. by rewrite lookup_alter_ne. }
  cbn [coord_run coord_step]. rewrite (goto_lookup c (DispatchRun op a) g3 k Hk3).
  cbn [mbind option_bind]. unfold advance. change (pc _) with (DispatchRun op a).
  cbv beta iota zeta. rewrite call_eq. cbn [snd].
  change (ops (goto _ _ g3))
    with (<[op := set_machine (MkMachine OperationState.DISPATCHED) (started a)]> (ops g)).
  rewrite dispatched_run by (apply attempt_set, generate_not_null). cbn [mbind option_bind]. f_equal.
  exact (goto_receiving c (DispatchRun op a) (handed w kw op a g) k Hk3 Hp).
Qed.

Lemma started_awaiting e b : awaiting (started (first_attempt e b)).
Proof.
  split_and!; [done|done| |by right]. apply attempt_set, generate_not_null.
Qed.

Lemma coord_run_app tr1 tr2 (g : Coordinator) :
  coord_run rng_next (tr1 ++ tr2) g = coord_run rng_next tr1 g ≫= coord_run rng_next tr2.
Proof.
  revert g. induction tr1 as [|[ev env] tr1 IH]; intros g; [done|]. cbn [app coord_run].
  destruct (coord_step rng_next ev env g) as [g1|]; cbn [mbind option_bind]; [apply IH|done].
Qed.

Lemma pcs_handed w kw op a g : pcs (handed w kw op a g) = pcs g.
Proof. unfold handed. by rewrite pcs_dispatch_mark. Qed.

(** ** Properties *)

(** C7: an operation a client asks for is done. With an idle worker first in the
    map, a new operation and no interference, a client's request and the
    worker's reports, made from the dispatch it was sent, end with the operation
    confirmed under the attempt that was dispatched; the worker is sent the
    dispatch and one acknowledgement and nothing else is sent, the other
    operations and all program counters are as before, and the store is
    saved with the outcome in it. *)
Theorem requested_operation_completes g c k w kw m reg e e' :
  let op := m_op m in
  let a := first_attempt e (boot kw) in
  let dispatch := dispatch_message op a (wid kw) in
  g_conns g !! c = Some k → pc k = Receiving → type m = ProtocolMessage.DISPATCH →
  begin_ e g = Some w → g_conns g !! w = Some kw → pc kw = Receiving → c ≠ w →
  ops g !! op = None →
  ∃ g', coord_run rng_next (request_trace c m e ++ completion_trace w reg dispatch e') g = Some g' ∧
    ops g' = <[op := MkRuntime (MkMachine OperationState.COMPLETION_CONFIRMED) a a true 1
                       "COMPLETED" false idem_key0]> (ops g) ∧
    g_sent g' = g_sent g ++ [(w, dispatch); (w, ack_message op)] ∧
    pcs g' = pcs g ∧ g_finished g' = true ∧ g_saved g' = Some (g_store g').
Proof.
  intros op a dispatch Hk Hp Hm Hw Hkw Hpw Hne Hop.
  rewrite coord_run_app. rewrite (request_run g c k w kw) by done. fold op a.
  cbn [mbind option_bind]. set (h := handed w kw op a g).
  assert (g_conns h !! w = Some (kw <| running_op := true |>)) as Hkh.
  { unfold h, handed, dispatch_mark. cbn. by rewrite lookup_alter_eq, Hkw. }
  assert (ops h !! op = Some (started a)) as Hoh by apply lookup_insert_eq.
  exists (acknowledged w op (started a) h). split.
  { exact (completion_run h w _ (started a) reg dispatch e' Hkh Hpw Hoh (started_awaiting _ _) eq_refl). }
  split_and!; [| | |done|done].
  - change (<[op := confirmed (started a)]> (<[op := started a]> (ops g))
            = <[op := confirmed (started a)]> (ops g)).
    by rewrite insert_insert_eq.
  - change ((g_sent g ++ [(w, dispatch)]) ++ [(w, ack_message op)]
            = g_sent g ++ [(w, dispatch); (w, ack_message op)]).
    by rewrite <- app_assoc.
  - apply pcs_handed.
Qed.

(** C6: an operation whose worker is lost is done elsewhere. When the running
    connection is lost and nothing interferes, the thread of the lost
    connection and the reports of the replacement, made from the dispatch it
    is sent, end with the operation confirmed under the fresh attempt; the
    replacement is sent that dispatch and one acknowledgement, and the other
    operations are as before. *)
Theorem lost_operation_completes_elsewhere g a b ka kb r reg e et eb ea er e' :
  let op := g_current_op g in
  let fresh := new_attempt rng_next er (authority r) in
  let dispatch := dispatch_message op fresh (wid kb) in
  lost_running g a b ka kb r er → terminal r = authority0 → pc kb = Receiving →
  ∃ g' r', coord_run rng_next (recovery_trace a e et eb ea er ++ completion_trace b reg dispatch e') g
           = Some g' ∧
    ops g' !! op = Some r' ∧ state_ (machine r') = OperationState.COMPLETION_CONFIRMED ∧
    terminal_outcome r' = "COMPLETED" ∧ terminal r' = fresh ∧
    outcome_of (ops g') op = Some "COMPLETED" ∧
    (∀ op', op' ≠ op → ops g' !! op' = ops g !! op') ∧
    g_sent g' = g_sent g ++ [(b, dispatch); (b, ack_message op)].
Proof.
  intros op fresh dispatch H Hn Hpb.
  pose proof (recovery_run rng_next g a b ka kb r e et eb ea er H) as Hrun. cbv zeta in Hrun.
  fold op fresh in Hrun. destruct H as [Ha _ _ _ Hop Ht Hs Hne Hb _].
  revert Hrun. generalize (B.build rng_next (lost_record eb op (authority r)) (rng ea)).1.
  intros rec Hrun. rewrite coord_run_app. unfold fresh in Hrun. rewrite Hrun. clear Hrun.
  fold fresh dispatch. cbn [mbind option_bind].
  destruct (recovery_registry rng_next g ka (authority r) fresh rec et r Hop Ht Hs)
    as (r1 & r2 & Hops & Hauth & Hst & Ht2 & _ & Hm2).
  set (h := recovered rng_next g a b ka kb (authority r) fresh rec et).
  change (goto a Gone _) with h.
  assert (ops h = <[op := r2]> (<[op := r1]> (ops g))) as Hoh by exact Hops.
  assert (g_conns h !! b = Some (kb <| running_op := true |>)) as Hkh.
  { unfold h, recovered. cbn. rewrite lookup_alter_ne, lookup_alter_eq, lookup_alter_ne by done.
    change (g_conns _ !! b) with (g_conns g !! b). by rewrite Hb. }
  assert (awaiting r2) as Hw.
  { split_and!; [done|congruence| |by left]. rewrite Hauth. apply attempt_set, generate_not_null. }
  assert (ops h !! op = Some r2) as Hor by (rewrite Hoh; apply lookup_insert_eq).
  exists (acknowledged b op r2 h), (confirmed r2). split.
  { exact (completion_run h b _ r2 reg dispatch e' Hkh Hpb Hor Hw Hauth). }
  assert (ops (acknowledged b op r2 h) = <[op := confirmed r2]> (ops h)) as -> by done.
  split_and!; [apply lookup_insert_eq|done|done|exact Hauth| | |].
  - unfold outcome_of. by rewrite lookup_insert_eq.
  - intros op' Hop'. by rewrite Hoh, !lookup_insert_ne.
  - change ((g_sent g ++ [(b, dispatch)]) ++ [(b, ack_message op)]
            = g_sent g ++ [(b, dispatch); (b, ack_message op)]).
    by rewrite <- app_assoc.
Qed.

(** C5: the processes work together over the wire. Over a reliable connection
    that carries to the worker process the acknowledgement of its registration
    and the dispatch the coordinator sent it, the process exits with 0 and what
    it wrote reads back, on the coordinator's side and whatever the segmentation
    on both sides, as its registration and two reports; the coordinator that
    served the request and receives those two reports confirms the operation
    and acknowledges it once. *)
Theorem process_completes_operation {Net sys_send sys_recv can_open}
    (incoming outgoing : Net → list byte) {laws : duplex_laws sys_send sys_recv incoming outgoing}
    rng fuel prog host port workdir mode connect n ack
    g c k w kw m e e' :
  let '(u, rng1) := uuid128_generate rng_next rng in
  let '(b, _) := uuid128_generate rng_next rng1 in
  let reg := register_message (MkId u) (MkId b) workdir in
  let op := m_op m in
  let dispatch := dispatch_message op (first_attempt e (boot kw)) (wid kw) in
  reliable sys_send → connect host (port_of port) = Some n → outgoing n = [] → str16_ok workdir →
  mode ≠ "fail" → message_ok ack → type ack = ProtocolMessage.REGISTER_ACK →
  incoming n = message_frame ack ++ message_frame dispatch → (length (incoming n) < fuel)%nat →
  g_conns g !! c = Some k → pc k = Receiving → type m = ProtocolMessage.DISPATCH →
  begin_ e g = Some w → g_conns g !! w = Some kw → pc kw = Receiving → c ≠ w → ops g !! op = None →
  ∃ world, worker_main sys_send sys_recv can_open rng_next rng fuel
             [prog; host; port; workdir; mode] true connect = Some (0%Z, Some world) ∧
  ∀ receiver, incoming receiver = outgoing (net world) →
  ∃ run comp receiver' g',
    recv_messages sys_recv 3 receiver = (Some [reg; run; comp], receiver') ∧
    coord_run rng_next (request_trace c m e ++
      [(Receive w run, e'); (Receive w comp, e'); (Advance w, e'); (Advance w, e'); (Advance w, e')]) g
    = Some g' ∧
    outcome_of (ops g') op = Some "COMPLETED" ∧ acks op g' = S (acks op g).
Proof.
  pose proof (worker_main_dispatch sys_send sys_recv can_open incoming outgoing rng_next rng fuel
    prog host port workdir mode [] connect n ack []) as Hmain.
  destruct (uuid128_generate rng_next rng) as [u rng1].
  destruct (uuid128_generate rng_next rng1) as [b rng2]. cbv zeta in *.
  set (reg := register_message _ _ _) in *. set (op := m_op m).
  set (a := first_attempt e (boot kw)). set (dispatch := dispatch_message op a (wid kw)).
  intros Hr Hc Ho Hwd Hmode Hack Hta Hi Hf Hk Hp Hm Hw Hkw Hpw Hne Hop.
  assert (message_ok dispatch) as Hd by (by repeat split).
  destruct (Hmain dispatch [] Hr Hc Ho Hack Hta) as (n' & Hrun & Hout & _); clear Hmain;
    [constructor|exact Hd|done|by rewrite app_nil_r|done|].
  eexists. split; [exact Hrun|]. intros receiver Hrecv. cbn [net] in Hrecv.
  unfold final_message in Hout. rewrite bool_decide_eq_false_2 in Hout by done.
  destruct (recv_messages_of sys_send sys_recv incoming outgoing
    [reg; running_message reg dispatch; complete_message reg dispatch] [] receiver)
    as (receiver' & Hms & _).
  { repeat constructor; [by apply register_message_ok|by apply running_message_ok
                        |by apply complete_message_ok]. }
  { rewrite Hrecv, Hout. cbn [fmap list_fmap concat]. by rewrite !app_nil_r. }
  exists (running_message reg dispatch), (complete_message reg dispatch), receiver'.
  set (h := handed w kw op a g).
  assert (g_conns h !! w = Some (kw <| running_op := true |>)) as Hkh.
  { unfold h, handed, dispatch_mark. cbn. by rewrite lookup_alter_eq, Hkw. }
  assert (ops h !! op = Some (started a)) as Hoh by apply lookup_insert_eq.
  exists (acknowledged w op (started a) h). split; [exact Hms|]. split.
  { rewrite coord_run_app, (request_run g c k w kw) by done. cbn [mbind option_bind].
    exact (completion_run h w _ (started a) reg dispatch e' Hkh Hpw Hoh (started_awaiting _ _) eq_refl). }
  split.
  - unfold outcome_of. change (ops (acknowledged w op (started a) h))
      with (<[op := confirmed (started a)]> (ops h)). by rewrite lookup_insert_eq.
  - unfold acks. change (g_sent (acknowledged w op (started a) h))
      with ((g_sent g ++ [(w, dispatch)]) ++ [(w, ack_message op)]).
    rewrite !List.filter_app, !length_app.
    assert (is_ack op (w, dispatch) = false) as E1 by done.
    assert (is_ack op (w, ack_message op) = true) as E2.
    { unfold is_ack. cbn. by rewrite !bool_decide_eq_true_2. }
    cbn [List.filter]. rewrite E1, E2. cbn [length]. lia.
Qed.
End system.

(** ** Witnesses *)

(** Two idle workers and a client. *)
Definition idle_coordinator : Coordinator := run_of (take 5 running_trace).
Definition idle_conn_a : Conn := MkConn true worker_a boot_a false Receiving.

Lemma requested_operation_completes_witness :
  let a := first_attempt count (env_a 5) boot_a in
  let dispatch := dispatch_message op1 a worker_a in
  ∃ g', coord_run count (request_trace 2 (request op1) (env_a 5)
                         ++ completion_trace 0 message0 dispatch (env_a 0)) idle_coordinator = Some g' ∧
    g_sent g' = g_sent idle_coordinator ++ [(0%nat, dispatch); (0%nat, ack_message op1)].
Proof.
  destruct (requested_operation_completes count idle_coordinator 2 conn0 0 idle_conn_a (request op1)
    message0 (env_a 5) (env_a 0)) as (g' & H & _ & Hs & _); try (vm_compute; reflexivity).
  - discriminate.
  - exists g'. split; [exact H|exact Hs].
Defined.

Lemma lost_operation_completes_elsewhere_witness :
  ∃ g', coord_run count
          (recovery_trace 0 (env_b 0) (env_b 7) (env_b 0) (env_b 8) (env_b 9)
           ++ completion_trace 1 message0
                (dispatch_message op1 (new_attempt count (env_b 9) running_authority) worker_b) (env_b 0))
          running_coordinator = Some g' ∧
    outcome_of (ops g') op1 = Some "COMPLETED".
Proof.
  destruct (lost_operation_completes_elsewhere count running_coordinator 0 1 running_conn_a idle_conn_b
    (set_authority running_authority running_rt) message0 (env_b 0) (env_b 7) (env_b 0) (env_b 8)
    (env_b 9) (env_b 0)) as (g' & r' & H & _ & _ & _ & _ & Ho & _).
  - exact running_lost.
  - reflexivity.
  - reflexivity.
  - exists g'. split; [exact H|exact Ho].
Defined.

(** The worker's side of the first dispatch. *)
Definition dispatch1 : WireMessage :=
  dispatch_message op1 (first_attempt count (env_a 5) boot_a) worker_a.

Definition stream1 : net3 := (message_frame ack0 ++ message_frame dispatch1, []).

Lemma process_completes_operation_witness :
  ∃ world, worker_main send3 recv3 (λ _, true) count 0 1000
             ["ff_worker"; "127.0.0.1"; "57321"; "work"; "slow"] true (λ _ _, Some stream1)
           = Some (0%Z, Some world).
Proof.
  destruct (process_completes_operation count (sys_send := send3) (sys_recv := recv3)
    (can_open := λ _, true) fst snd 0 1000 "ff_worker" "127.0.0.1" "57321" "work" "slow"
    (λ _ _, Some stream1) stream1 ack0 idle_coordinator 2 conn0 0 idle_conn_a (request op1)
    (env_a 5) (env_a 0)) as (world & H & _);
    try match goal with
        | |- reliable _ => exact net3_reliable
        | |- (_ < _)%nat => apply Nat.ltb_lt; vm_compute; reflexivity
        | |- message_ok _ => repeat split; vm_compute; congruence
        | |- _ ≠ _ => discriminate
        | |- _ = _ => vm_compute; reflexivity
        | |- str16_ok _ => vm_compute; congruence
        end.
  exists world. exact H.
Defined.
