(* ===== verification/Float32.v ===== *)
(** * Single-precision arithmetic on small integers

    The [float] of the language is the binary format of 24 bits of the Standard
    Library's [SpecFloat], rounded to nearest even. Every value that
    [src/cuda_proof.cu] computes is an integer below [2 ^ 24]; on these the
    operations are exact, so that it makes no difference whether a compiler
    rounds a product before it adds to it. *)
From Stdlib Require Import ZArith Lia Floats.SpecFloat.
From S2P Require Import Prelude.

Local Open Scope Z_scope.

Abbreviation float := spec_float.

Definition prec : Z := 24.
Definition emax : Z := 128.

(** [static_cast<float>(z)]. *)
Definition float_of_int (z : Z) : float := binary_normalize prec emax z 0 false.

Definition fmul (x y : float) : float := SFmul prec emax x y.
Definition fadd (x y : float) : float := SFadd prec emax x y.

(** The signed mantissa of a finite value, brought to the exponent [e]. *)
Definition aligned (s : bool) (m : positive) (em e : Z) : Z :=
  cond_Zopp s (Z.pos (shl_align m em e).1).

(** [fmaf(a, x, y)]: one rounding, of the exact value of [a * x + y]. *)
Definition ffma (a x y : float) : float :=
  match a, x, y with
  | S754_finite sa ma ea, S754_finite sx mx ex, S754_finite sy my ey =>
      let e := Z.min (ea + ex) ey in
      binary_normalize prec emax
        (aligned (xorb sa sx) (ma * mx) (ea + ex) e + aligned sy my ey e) e false
  | S754_finite _ _ _, S754_finite _ _ _, S754_zero _ => fmul a x
  | S754_finite _ _ _, S754_finite _ _ _, _ => y
  | _, _, _ => fadd (fmul a x) y
  end.

(** ** Shifts *)
Abbreviation digits m := (Z.pos (digits2_pos m)).

(** [m * 2 ^ k], for a shift count that is not negative. *)
Definition shifted (m : positive) (k : Z) : positive := Z.to_pos (Z.pos m * 2 ^ k).

Lemma pos_shifted m k : 0 ≤ k → Z.pos (shifted m k) = Z.pos m * 2 ^ k.
Proof. intros H. unfold shifted. apply Z2Pos.id. pose proof (Z.pow_pos_nonneg 2 k). lia. Qed.

Lemma shifted_0 m : shifted m 0 = m.
Proof. unfold shifted. by rewrite Z.mul_1_r. Qed.

Lemma shifted_succ m k : 0 ≤ k → shifted m (Z.succ k) = xO (shifted m k).
Proof.
  intros H. apply Pos2Z.inj. rewrite Pos2Z.inj_xO, !pos_shifted, Z.pow_succ_r by lia. lia.
Qed.

Lemma shifted_shifted m j k : 0 ≤ j → 0 ≤ k → shifted (shifted m j) k = shifted m (j + k).
Proof.
  intros. apply Pos2Z.inj. rewrite !pos_shifted, Z.pow_add_r by lia. lia.
Qed.

Lemma digits_bounds m : 2 ^ (digits m - 1) ≤ Z.pos m < 2 ^ digits m.
Proof.
  induction m as [m IH|m IH|]; cbn [digits2_pos]; [| |lia];
    rewrite Pos2Z.inj_succ; replace (Z.succ (digits m) - 1) with (Z.succ (digits m - 1)) by lia;
    rewrite !Z.pow_succ_r by lia; lia.
Qed.

Lemma digits_unique m d : 0 < d → 2 ^ (d - 1) ≤ Z.pos m < 2 ^ d → digits m = d.
Proof.
  intros Hd [H1 H2]. pose proof (digits_bounds m) as [H3 H4].
  assert (digits m - 1 < d) by (apply (Z.pow_lt_mono_r_iff 2); lia).
  assert (d - 1 < digits m) by (apply (Z.pow_lt_mono_r_iff 2); lia). lia.
Qed.

Lemma digits_shifted m k : 0 ≤ k → digits (shifted m k) = digits m + k.
Proof.
  intros Hk. apply digits_unique; [lia|]. rewrite pos_shifted by done.
  pose proof (digits_bounds m) as [H1 H2]. pose proof (Z.pow_pos_nonneg 2 k).
  replace (digits m + k - 1) with (digits m - 1 + k) by lia.
  rewrite !Z.pow_add_r by lia. split; [by apply Z.mul_le_mono_nonneg_r; lia|].
  apply Z.mul_lt_mono_pos_r; lia.
Qed.

(** The values of at most [prec] bits. *)
Lemma digits_small m : Z.pos m < 2 ^ prec → digits m ≤ prec.
Proof.
  intros H. pose proof (digits_bounds m) as [H1 _].
  assert (digits m - 1 < prec) by (apply (Z.pow_lt_mono_r_iff 2); unfold prec in *; lia). lia.
Qed.

Lemma iter_xO m d : Pos.iter xO m d = shifted m (Z.pos d).
Proof.
  induction d as [|d IH] using Pos.peano_ind.
  - change (Z.pos 1) with (Z.succ 0). rewrite shifted_succ, shifted_0 by lia. done.
  - by rewrite Pos.iter_succ, IH, Pos2Z.inj_succ, shifted_succ by lia.
Qed.

(** Aligning to a smaller exponent multiplies the mantissa. *)
Lemma shl_align_le m e e' : e' ≤ e → shl_align m e e' = (shifted m (e - e'), e').
Proof.
  intros H. unfold shl_align. destruct (e' - e) as [|d|d] eqn:E; [|lia|].
  - replace e' with e by lia. by rewrite Z.sub_diag, shifted_0.
  - rewrite iter_xO. do 2 f_equal. lia.
Qed.

Lemma shl_align_ge m e e' : e ≤ e' → shl_align m e e' = (m, e).
Proof. intros H. unfold shl_align. by destruct (e' - e) as [|d|d] eqn:E; [|done|lia]. Qed.

(** *** Dropping low zero bits *)
Definition exact_record (m : Z) : shr_record := Build_shr_record m false false.

Lemma shr_record_exact m : shr_record_of_loc m loc_Exact = exact_record m.
Proof. reflexivity. Qed.

Lemma iter_pos_iter {A} (f : A → A) p x : SpecFloat.iter_pos f p x = Pos.iter f x p.
Proof.
  revert x. induction p as [p IH|p IH|]; intros x; cbn; [| |done]; rewrite !IH; [|done].
  by rewrite !Pos.iter_swap.
Qed.

Lemma iter_shr_1 m p :
  SpecFloat.iter_pos shr_1 p (exact_record (Z.pos (shifted m (Z.pos p)))) = exact_record (Z.pos m).
Proof.
  rewrite iter_pos_iter. induction p as [|p IH] using Pos.peano_ind.
  - change (Z.pos 1) with (Z.succ 0). rewrite shifted_succ, shifted_0 by lia. done.
  - rewrite Pos.iter_succ_r, Pos2Z.inj_succ, shifted_succ by lia. exact IH.
Qed.

Lemma shr_shifted m e k :
  0 ≤ k → shr (exact_record (Z.pos (shifted m k))) e k = (exact_record (Z.pos m), e + k).
Proof.
  intros Hk. destruct k as [|p|p]; [|by cbn [shr]; rewrite iter_shr_1|lia].
  rewrite shifted_0. cbn [shr]. by rewrite Z.add_0_r.
Qed.

(** ** The representation of a small integer *)
Definition canonical (p : positive) : float :=
  S754_finite false (shifted p (prec - digits p)) (digits p - prec).

(** The canonical exponent of a value that is neither tiny nor huge. *)
Lemma fexp_small d : 0 < d ≤ prec → fexp prec emax d = d - prec.
Proof. intros H. unfold fexp, emin, prec, emax in *. lia. Qed.

(** Rounding is exact on a small integer, at whatever exponent at or below the
    canonical one it comes. *)
Lemma round_aux_exact p e :
  Z.pos p < 2 ^ prec → e ≤ digits p - prec →
  binary_round_aux prec emax false (Z.pos (shifted p (- e))) e loc_Exact = canonical p.
Proof.
  intros Hp He. pose proof (digits_small p Hp) as Hd.
  assert (0 ≤ prec - digits p) as Hk by lia.
  set (d := digits p) in *. set (m := shifted p (prec - d)).
  assert (shr_fexp prec emax (Z.pos (shifted p (- e))) e loc_Exact
          = (exact_record (Z.pos m), d - prec)) as E1.
  { unfold shr_fexp. rewrite shr_record_exact. cbn [Zdigits2]. rewrite digits_shifted by lia. fold d.
    replace (d + - e + e) with d by lia. rewrite fexp_small by lia.
    replace (shifted p (- e)) with (shifted m (d - prec - e)).
    2:{ unfold m. rewrite shifted_shifted by lia. f_equal. lia. }
    rewrite (shr_shifted m e (d - prec - e)) by lia. f_equal. lia. }
  assert (shr_fexp prec emax (Z.pos m) (d - prec) loc_Exact
          = (exact_record (Z.pos m), d - prec)) as E2.
  { unfold shr_fexp. rewrite shr_record_exact. cbn [Zdigits2].
    unfold m at 2. rewrite digits_shifted by lia. fold d.
    replace (d + (prec - d) + (d - prec)) with d by lia. rewrite fexp_small by lia.
    by rewrite Z.sub_diag. }
  unfold binary_round_aux. rewrite E1. cbn [shr_m exact_record loc_of_shr_record round_nearest_even].
  fold (exact_record (Z.pos m)). rewrite E2. cbn [shr_m exact_record].
  rewrite (proj2 (Z.leb_le _ _)) by (unfold emax, prec in *; lia). done.
Qed.

Lemma round_exact p e :
  Z.pos p < 2 ^ prec → e ≤ 0 →
  binary_round prec emax false (shifted p (- e)) e = canonical p.
Proof.
  intros Hp He. pose proof (digits_small p Hp) as Hd. unfold binary_round.
  rewrite digits_shifted by lia. replace (digits p + - e + e) with (digits p) by lia.
  rewrite fexp_small by lia. destruct (Z.le_ge_cases (digits p - prec) e) as [H|H].
  - rewrite shl_align_le by done. rewrite shifted_shifted by lia.
    replace (- e + (e - (digits p - prec))) with (- (digits p - prec)) by lia.
    by apply round_aux_exact.
  - rewrite shl_align_ge by done. by apply round_aux_exact.
Qed.

(** The same for a mantissa given as an integer. *)
Lemma normalize_exact p m e :
  Z.pos p < 2 ^ prec → e ≤ 0 → m = Z.pos p * 2 ^ (- e) →
  binary_normalize prec emax m e false = canonical p.
Proof.
  intros Hp He ->. rewrite <- pos_shifted by lia. cbn [binary_normalize]. by apply round_exact.
Qed.

Lemma float_of_pos p : Z.pos p < 2 ^ prec → float_of_int (Z.pos p) = canonical p.
Proof. intros H. apply normalize_exact; [done|lia|]. cbn. lia. Qed.

(** Both factors of a small product are small. *)
Lemma small_factors p q :
  Z.pos p * Z.pos q < 2 ^ prec → Z.pos p < 2 ^ prec ∧ Z.pos q < 2 ^ prec.
Proof. nia. Qed.

Lemma digits_mul_ge p q : digits p + digits q ≤ digits (p * q) + 1.
Proof.
  pose proof (digits_bounds p) as [H1 _]. pose proof (digits_bounds q) as [H2 _].
  pose proof (digits_bounds (p * q)) as [_ H3].
  assert (2 ^ (digits p - 1 + (digits q - 1)) < 2 ^ digits (p * q)) as H.
  { rewrite Z.pow_add_r by lia. rewrite Pos2Z.inj_mul in H3.
    eapply Z.le_lt_trans; [|exact H3]. apply Z.mul_le_mono_nonneg; lia. }
  apply Z.pow_lt_mono_r_iff in H; lia.
Qed.

(** The exact product of two mantissas. *)
Lemma canonical_product p q :
  digits p ≤ prec → digits q ≤ prec →
  (shifted p (prec - digits p) * shifted q (prec - digits q))%positive
  = shifted (p * q) (- (digits p - prec + (digits q - prec))).
Proof.
  intros Hp Hq. apply Pos2Z.inj. rewrite Pos2Z.inj_mul, !pos_shifted, Pos2Z.inj_mul by lia.
  replace (- (digits p - prec + (digits q - prec))) with (prec - digits p + (prec - digits q)) by lia.
  rewrite Z.pow_add_r by lia. lia.
Qed.

Lemma aligned_canonical p k e :
  0 ≤ k → e ≤ - k → aligned false (shifted p k) (- k) e = Z.pos p * 2 ^ (- e).
Proof.
  intros Hk He. unfold aligned. rewrite shl_align_le by done. cbn [cond_Zopp fst].
  rewrite shifted_shifted, pos_shifted by lia. do 2 f_equal. lia.
Qed.

(** ** The operations are exact on small integers *)
Ltac small_cases z := destruct z as [|?p|?p]; [| |lia].

Lemma fmul_exact a b :
  0 ≤ a → 0 ≤ b → a * b < 2 ^ prec → a < 2 ^ prec → b < 2 ^ prec →
  fmul (float_of_int a) (float_of_int b) = float_of_int (a * b).
Proof.
  intros Ha Hb Hab Ha' Hb'. small_cases a; small_cases b; try reflexivity.
  - by rewrite float_of_pos.
  - by rewrite float_of_pos.
  - rewrite <- Pos2Z.inj_mul in *. rewrite !float_of_pos by done.
    pose proof (digits_small _ Ha'). pose proof (digits_small _ Hb').
    pose proof (digits_small _ Hab). pose proof (digits_mul_ge p p0).
    unfold fmul. cbn [SFmul canonical xorb]. rewrite canonical_product by done.
    apply round_aux_exact; [done|]. unfold prec in *. lia.
Qed.

Lemma fadd_exact a b :
  0 ≤ a → 0 ≤ b → a + b < 2 ^ prec →
  fadd (float_of_int a) (float_of_int b) = float_of_int (a + b).
Proof.
  intros Ha Hb Hab. small_cases a; small_cases b; try reflexivity.
  - by rewrite Z.add_0_l, float_of_pos by lia.
  - by rewrite Z.add_0_r, float_of_pos by lia.
  - rewrite <- Pos2Z.inj_add in *. rewrite !float_of_pos by lia.
    assert (digits p ≤ prec) by (apply digits_small; lia).
    assert (digits p0 ≤ prec) by (apply digits_small; lia).
    unfold fadd. cbn [SFadd canonical].
    set (e := Z.min _ _).
    apply normalize_exact; [done|lia|].
    change (aligned false (shifted p (prec - digits p)) (digits p - prec) e
            + aligned false (shifted p0 (prec - digits p0)) (digits p0 - prec) e
            = Z.pos (p + p0) * 2 ^ (- e)).
    replace (digits p - prec) with (- (prec - digits p)) by lia.
    replace (digits p0 - prec) with (- (prec - digits p0)) by lia.
    rewrite !aligned_canonical by lia. rewrite Pos2Z.inj_add. lia.
Qed.

Lemma ffma_exact a x y :
  0 ≤ a → 0 ≤ x → 0 ≤ y → a < 2 ^ prec → x < 2 ^ prec → a * x + y < 2 ^ prec →
  ffma (float_of_int a) (float_of_int x) (float_of_int y) = float_of_int (a * x + y).
Proof.
  intros Ha Hx Hy Ha' Hx' Hs.
  assert (0 ≤ a * x) by (by apply Z.mul_nonneg_nonneg).
  assert (fadd (fmul (float_of_int a) (float_of_int x)) (float_of_int y)
          = float_of_int (a * x + y)) as Htwo.
  { rewrite fmul_exact by lia. by apply fadd_exact. }
  small_cases a; [by rewrite <- Htwo|]. small_cases x.
  { rewrite <- Htwo. by rewrite float_of_pos. }
  small_cases y.
  { rewrite Z.add_0_r in *. rewrite <- fmul_exact by lia. by rewrite !float_of_pos. }
  rewrite <- Pos2Z.inj_mul, <- Pos2Z.inj_add in *. rewrite !float_of_pos by lia.
  assert (digits p ≤ prec) by (by apply digits_small).
  assert (digits p0 ≤ prec) by (by apply digits_small).
  assert (digits p1 ≤ prec) by (apply digits_small; lia).
  unfold canonical at 1 2 3. cbn [ffma xorb]. set (e := Z.min _ _).
  apply normalize_exact; [done|lia|]. rewrite canonical_product by done.
  replace (digits p - prec + (digits p0 - prec))
    with (- (- (digits p - prec + (digits p0 - prec)))) at 2 by lia.
  replace (digits p1 - prec) with (- (prec - digits p1)) by lia.
  rewrite !aligned_canonical by lia. rewrite Pos2Z.inj_add. lia.
Qed.

(** A value equals itself unless it is not a number. *)
Lemma float_eq_refl z : 0 ≤ z < 2 ^ prec → SFeqb (float_of_int z) (float_of_int z) = true.
Proof.
  intros H. small_cases z; [done|]. rewrite float_of_pos by lia. unfold SFeqb, canonical.
  cbn [SFcompare]. rewrite Z.compare_refl. fold (Pos.compare (shifted p (prec - digits p)) (shifted p (prec - digits p))).
  by rewrite Pos.compare_refl.
Qed.

#[global] Arguments float_of_int : simpl never.
#[global] Arguments fmul : simpl never.
#[global] Arguments fadd : simpl never.
#[global] Arguments ffma : simpl never.
