(* ===== verification/Device.v ===== *)
(** * The device proof program ([src/cuda_proof.cu])

    The kernel is a function of one thread on the device memory, a launch runs
    the threads of the grid in any order, and the host scenarios are programs in
    a state monad that ends the process when a checked call fails. The CUDA run
    time is a record of operations with the documented laws; an operation that
    is not covered by a law may do anything. What is printed is left out, save
    the values shown, which each scenario returns. *)
From stdpp Require Import gmap.
From Stdlib Require Import Floats.SpecFloat.
From S2P Require Import Prelude Ident Enums Authority Idempotency FailureRecord Retry Float32.
Module B := FailureRecordBuilder.

Local Open Scope Z_scope.

(** ** The device memory and the kernel *)
Abbreviation devptr := N.
Abbreviation Memory := (gmap N (list float)).

(** [l\[i\]], for an [int] index that may be out of range. *)
Definition at_index {A} (l : list A) (i : Z) : option A :=
  if i <? 0 then None else l !! Z.to_nat i.

(** The value of an unsigned 32-bit integer converted to [int]. *)
Definition to_int (u : N) : Z :=
  let u := wrap 32 u in if (u <? 2 ^ 31)%N then Z.of_N u else Z.of_N u - 2 ^ 32.

(** [a * x + y] in [float]. A compiler may contract it to one operation
    ([-fmad] of nvcc, which is on by default): [contract] says whether it did. *)
Definition mul_add (contract : bool) (a x y : float) : float :=
  if contract then ffma a x y else fadd (fmul a x) y.

(** One thread of the kernel. An access outside a buffer has no defined effect;
    here it has none. *)
Definition saxpy_kernel (contract : bool) (x y out : devptr) (a : float) (n : Z)
    (blockDim blockIdx threadIdx : N) (mem : Memory) : Memory :=
  let i := to_int (blockIdx * blockDim + threadIdx) in
  if i <? n then
    match mem !! x ≫= λ l, at_index l i, mem !! y ≫= λ l, at_index l i with
    | Some xi, Some yi => alter (λ l, <[Z.to_nat i := mul_add contract a xi yi]> l) out mem
    | _, _ => mem
    end
  else mem.

(** The threads of a grid, as pairs of [blockIdx] and [threadIdx]. *)
Definition threads (gridDim blockDim : N) : list (N * N) :=
  b ← seq 0 (N.to_nat gridDim); t ← seq 0 (N.to_nat blockDim); mret (N.of_nat b, N.of_nat t).

(** The threads of [order], one after the other. *)
Definition run_threads (kernel : N → N → Memory → Memory) (order : list (N * N)) (mem : Memory)
    : Memory :=
  foldl (λ m t, kernel t.1 t.2 m) mem order.

(** ** The run time: [true] stands for [cudaSuccess] *)
Record CudaRuntime (Dev : Type) := MkRuntime {
  cudaSetDevice : Z → Dev → bool * Dev;
  cudaGetDeviceProperties : Z → Dev → Dev;
  cudaMalloc : N → Dev → bool * devptr * Dev;
  cudaFree : devptr → Dev → bool * Dev;
  cudaMemcpyHostToDevice : devptr → list float → Dev → bool * Dev;
  cudaMemcpyDeviceToHost : devptr → N → Dev → bool * list float * Dev;
  cudaLaunch : N → N → (N → N → Memory → Memory) → Dev → Dev;
  cudaGetLastError : Dev → bool * Dev;
  cudaMemGetInfo : Dev → N * Dev;
  cudaDeviceSynchronize : Dev → Dev;
}.
Arguments cudaSetDevice {Dev} c.
Arguments cudaGetDeviceProperties {Dev} c.
Arguments cudaMalloc {Dev} c.
Arguments cudaFree {Dev} c.
Arguments cudaMemcpyHostToDevice {Dev} c.
Arguments cudaMemcpyDeviceToHost {Dev} c.
Arguments cudaLaunch {Dev} c.
Arguments cudaGetLastError {Dev} c.
Arguments cudaMemGetInfo {Dev} c.
Arguments cudaDeviceSynchronize {Dev} c.

(** [view d] is the memory of the device, or [None] once a kernel has failed: the
    error is then reported by the calls that follow. *)
Class cuda_laws {Dev} (R : CudaRuntime Dev) (view : Dev → option Memory) : Prop := {
  set_device_law i d d' : cudaSetDevice R i d = (true, d') → is_Some (view d');
  properties_law i d : view (cudaGetDeviceProperties R i d) = view d;
  malloc_law size d p d' : cudaMalloc R size d = (true, p, d') →
    ∃ mem buf, view d = Some mem ∧ mem !! p = None ∧ N.of_nat (length buf) = (size / 4)%N ∧
      view d' = Some (<[p := buf]> mem);
  free_law p d d' : cudaFree R p d = (true, d') →
    ∃ mem, view d = Some mem ∧ view d' = Some (delete p mem);
  h2d_law p l d d' : cudaMemcpyHostToDevice R p l d = (true, d') →
    ∃ mem, view d = Some mem ∧
      ∀ buf, mem !! p = Some buf → length l = length buf → view d' = Some (<[p := l]> mem);
  d2h_law p size d l d' : cudaMemcpyDeviceToHost R p size d = (true, l, d') →
    ∃ mem, view d = Some mem ∧ view d' = Some mem ∧
      ∀ buf, mem !! p = Some buf → size = N.of_nat (4 * length buf) → l = buf;
  launch_law g b kernel d d' mem : view d = Some mem →
    cudaGetLastError R (cudaLaunch R g b kernel d) = (true, d') →
    view d' = None ∨
    ∃ order, order ≡ₚ threads g b ∧ view d' = Some (run_threads kernel order mem);
  info_law d : view (cudaMemGetInfo R d).2 = view d;
  synchronize_law d : view (cudaDeviceSynchronize R d) = view d ∨
    view (cudaDeviceSynchronize R d) = None;
}.

(** Every checked call of [R] succeeds. *)
Definition reliable {Dev} (R : CudaRuntime Dev) : Prop :=
  (∀ size d, (cudaMalloc R size d).1.1 = true) ∧
  (∀ p d, (cudaFree R p d).1 = true) ∧
  (∀ p l d, (cudaMemcpyHostToDevice R p l d).1 = true) ∧
  (∀ p size d, (cudaMemcpyDeviceToHost R p size d).1.1 = true) ∧
  (∀ d, (cudaGetLastError R d).1 = true).

(** ** Programs: [None] is [std::exit(1)] *)
Definition M (Dev A : Type) : Type := Dev → option (A * Dev).

#[export] Instance M_ret {Dev} : MRet (M Dev) := λ A a d, Some (a, d).
#[export] Instance M_bind {Dev} : MBind (M Dev) := λ A B k m d,
  match m d with Some (a, d) => k a d | None => None end.

(** [ok(e, what)], for a call without and with a result. *)
Definition ok {Dev} (call : Dev → bool * Dev) : M Dev unit := λ d,
  let '(e, d) := call d in if e then Some ((), d) else None.
Definition ok_value {Dev A} (call : Dev → bool * A * Dev) : M Dev A := λ d,
  let '(e, a, d) := call d in if e then Some (a, d) else None.

(** A call whose status is not looked at. *)
Definition unchecked {Dev A} (call : Dev → A * Dev) : M Dev A := λ d, Some (call d).

(** A host vector of [n] entries, filled by the loop over [int i]. *)
Definition host_vector (f : Z → Z) (n : Z) : list float := (λ i, float_of_int (f i)) <$> seqZ 0 n.

Definition bytes_of (n : Z) : N := Z.to_N (n * 4).

Section programs.
  Context {Dev : Type} (R : CudaRuntime Dev).
  (** Whether the device's and the host's compiler contract. *)
  Context (device_contract host_contract : bool).
  (** The engine, [std::mt19937_64 rng(n)], and the engine of the [n]-th
      [generate()]. *)
  Context {Rng : Type} (rng_next : Rng → N * Rng).
  Context (seeded : N → Rng) (entropy : nat → Rng).

Definition generate {tag} (rng : Rng) : Id tag * Rng :=
  let '(u, rng) := uuid128_generate rng_next rng in (MkId u, rng).

Definition generate_fresh {tag} (k : nat) : Id tag := (generate (entropy k)).1.

(** The calls that [run_kernel] and [scenario_b] both begin with: three
    allocations, two copies and the launch. *)
Definition upload_and_launch (hx hy : list float) (a : float) (n : Z)
    : M Dev (devptr * devptr * devptr) :=
  dx ← ok_value (cudaMalloc R (bytes_of n));
  dy ← ok_value (cudaMalloc R (bytes_of n));
  dout ← ok_value (cudaMalloc R (bytes_of n));
  ok (cudaMemcpyHostToDevice R dx hx);;
  ok (cudaMemcpyHostToDevice R dy hy);;
  ok (λ d, cudaGetLastError R
    (cudaLaunch R (Z.to_N ((n + 255) ÷ 256)) 256
       (saxpy_kernel device_contract dx dy dout a n 256) d));;
  mret (dx, dy, dout).

Definition free_all (p : devptr * devptr * devptr) : M Dev unit :=
  ok (cudaFree R p.1.1);; ok (cudaFree R p.1.2);; ok (cudaFree R p.2).

Definition x_dummy : list float := [float_of_int 1].
Definition x_dummy2 : list float := [float_of_int 2].

(** [run_kernel]: the result read back, [hout], is local and not looked at; the
    value returned is computed on the host. *)
Definition run_kernel (x y : list float) (n : Z) : M Dev float :=
  let hx := host_vector id n in
  let hy := host_vector (λ i, 2 * i) n in
  p ← upload_and_launch hx hy (float_of_int 3) n;
  hout ← ok_value (cudaMemcpyDeviceToHost R p.2 (bytes_of n));
  let reference := mul_add host_contract (float_of_int 3)
    (default (float_of_int 0) (at_index hx (n - 1))) (default (float_of_int 0) (at_index hy (n - 1))) in
  free_all p;;
  mret reference.

(** *** Scenario A *)
Record ScenarioA := MkScenarioA {
  a_record : FailureRecord;
  a_decision : RetryDecision;
  a_reference : float;
  a_idem : IdempotencyStore;
  a_result : bool;
}.

Definition scenario_a : M Dev ScenarioA :=
  let n := 1024 * 1024 in
  let rng := seeded 99 in
  let '(op, rng) := generate rng in
  let '(key, rng) := uuid128_generate rng_next rng in
  let key := MkIdemKey key in
  let '(b_attempt, rng) := generate rng in
  let b := foldl B.builder_call B.builder0
    [ B.Failure_class FailureClass.EXECUTION_FAILURE; B.Operation op; B.Attempt b_attempt;
      B.Origin FailureOrigin.DEVICE; B.Phase FailurePhase.EXECUTE;
      B.Side_effect_state SideEffectState.NONE_POSSIBLE; B.Completion Ambiguity.KNOWN ] in
  let '(attempt, rng) := generate rng in
  let '(boot, rng) := generate rng in
  let a := MkAuthority (MkGeneration 1) boot attempt (MkGeneration 1) null_id gen0 gen0 gen0 in
  let '(fail, rng) := B.build rng_next (B.builder_call b (B.Authority a)) rng in
  ref ← run_kernel x_dummy x_dummy2 n;
  let inp := MkRetryInput 1 true true true true false true in
  let d := classify fail inp policy0 in
  let '(_, idem) := idem_begin op key 0xA a ∅ in
  ref2 ← run_kernel x_dummy x_dummy2 n;
  let idem := idem_complete op key "ok" idem in
  mret (MkScenarioA fail d ref2 idem true).

(** *** Scenario B *)
Record ScenarioB := MkScenarioB {
  b_before : N;
  b_after : N;
  b_fence : FenceResult;
  b_out : option (list float);     (* what was read back; [None]: not reached *)
  b_result : bool;
}.

Definition b_old_boot : AuthorityEnvelope :=
  MkAuthority (MkGeneration 1) (generate_fresh 0) (generate_fresh 1) (MkGeneration 1)
    (generate_fresh 2) (MkGeneration 1) gen0 gen0.

(** The loop with its early exit: every entry read back equals the host's. *)
Fixpoint parity_loop (hout hx hy : list float) : bool :=
  match hout, hx, hy with
  | o :: hout, x :: hx, y :: hy =>
      if SFeqb o (mul_add host_contract (float_of_int 2) x y) then parity_loop hout hx hy else false
  | _, _, _ => true
  end.

Definition scenario_b : M Dev ScenarioB :=
  let n := 256 * 1024 in
  before ← unchecked (cudaMemGetInfo R);
  let hx := host_vector id n in
  let hy := host_vector (λ i, i + 1) n in
  p ← upload_and_launch hx hy (float_of_int 2) n;
  let fr := fence_completion b_old_boot (next_boot b_old_boot (generate_fresh 3)) authority0 in
  if accepted fr then mret (MkScenarioB before 0 fr None false) else
  hout ← ok_value (cudaMemcpyDeviceToHost R p.2 (bytes_of n));
  let parity := parity_loop hout hx hy in
  free_all p;;
  unchecked (λ d, ((), cudaDeviceSynchronize R d));;
  after ← unchecked (cudaMemGetInfo R);
  mret (MkScenarioB before after fr (Some hout) parity).

(** *** Scenario C *)
Record ScenarioC := MkScenarioC {
  c_replay : IdempotencyVerdict.t;
  c_conflict : IdempotencyVerdict.t;
  c_prior : option string;
  c_result : bool;
}.

Definition scenario_c : M Dev ScenarioC :=
  let n := 128 * 1024 in
  let rng := seeded 7 in
  let '(op, rng) := generate rng in
  let '(key, rng) := uuid128_generate rng_next rng in
  let key := MkIdemKey key in
  let '(attempt, rng) := generate rng in
  let '(boot, rng) := generate rng in
  let '(dispatch, rng) := generate rng in
  let a := MkAuthority (MkGeneration 1) boot attempt (MkGeneration 1) dispatch (MkGeneration 1) gen0 gen0 in
  ref ← run_kernel x_dummy x_dummy2 n;
  let '(_, idem) := idem_begin op key 0xBEEF a ∅ in
  let '(v1, idem) := idem_begin op key 0xBEEF a idem in
  let idem := idem_complete op key "committed" idem in
  let prior := prior_result op key idem in
  let '(vconf, idem) := idem_begin op key 0xDEAD a idem in
  mret (MkScenarioC v1 vconf prior
    (bool_decide (v1 = IdempotencyVerdict.IN_PROGRESS_REPLAY) &&
     bool_decide (vconf = IdempotencyVerdict.CONFLICT) && bool_decide (is_Some prior))).

(** ** [main] *)
Definition proofs : M Dev (ScenarioA * ScenarioB * ScenarioC) :=
  a ← scenario_a; b ← scenario_b; c ← scenario_c; mret (a, b, c).

(** The exit code. The answer of [cudaGetDeviceProperties] is not looked at. *)
Definition main (d : Dev) : Z :=
  let '(init, d) := cudaSetDevice R 0 d in
  if negb init then 2
  else match proofs (cudaGetDeviceProperties R 0 d) with
  | None => 1
  | Some (a, b, c, _) => if a_result a && b_result b && c_result c then 0 else 1
  end.
End programs.

(** ** Launches *)
Lemma elem_of_threads g bd b t : (b, t) ∈ threads g bd ↔ (b < g)%N ∧ (t < bd)%N.
Proof.
  unfold threads. rewrite list_elem_of_bind. setoid_rewrite list_elem_of_bind.
  setoid_rewrite list_elem_of_ret. setoid_rewrite elem_of_seq. split.
  - intros (b' & (t' & [= -> ->] & Ht) & Hb). lia.
  - intros [Hb Ht]. exists (N.to_nat b). split; [|lia]. exists (N.to_nat t).
    split; [by rewrite !N2Nat.id | lia].
Qed.

Definition thread_index (bd : N) (t : N * N) : Z := to_int (t.1 * bd + t.2).

Lemma to_int_small u : (u < 2 ^ 31)%N → to_int u = Z.of_N u.
Proof.
  intros H. unfold to_int. rewrite wrap_small by (unfold fits; lia).
  by rewrite (proj2 (N.ltb_lt _ _) H).
Qed.

Lemma bytes_of_count n : 0 ≤ n → (bytes_of n / 4)%N = Z.to_N n.
Proof.
  intros Hn. unfold bytes_of. rewrite Z2N.inj_mul by lia. change (Z.to_N 4) with 4%N.
  by rewrite N.div_mul.
Qed.

Lemma elem_of_last {A} (l : list A) (u v : A) : u ∈ l ++ [v] ↔ u ∈ l ∨ u = v.
Proof. by rewrite elem_of_app, list_elem_of_singleton. Qed.

(** Every index below [n] belongs to a thread of the grid. *)
Lemma grid_covers n i :
  0 < n < 2 ^ 31 - 256 → 0 ≤ i < n →
  ∃ t, t ∈ threads (Z.to_N ((n + 255) ÷ 256)) 256 ∧ thread_index 256 t = i.
Proof.
  intros Hn Hi. exists (Z.to_N (i / 256), Z.to_N (i mod 256)).
  pose proof (Z.div_mod i 256 ltac:(lia)). pose proof (Z.mod_pos_bound i 256 ltac:(lia)).
  assert (0 ≤ i / 256) by (apply Z.div_pos; lia). split.
  - apply elem_of_threads. rewrite Z.quot_div_nonneg by lia.
    assert (i / 256 < (n + 255) / 256) by (apply Z.div_lt_upper_bound; [lia|];
      pose proof (Z.div_mod (n + 255) 256 ltac:(lia)); pose proof (Z.mod_pos_bound (n + 255) 256 ltac:(lia)); lia).
    lia.
  - unfold thread_index. cbn [fst snd]. rewrite to_int_small by lia. lia.
Qed.

Section kernel.
  Context (c : bool) (a : float) (x y out : devptr) (lx ly buf : list float) (mem : Memory) (n bd : N).
  Hypothesis x_buffer : mem !! x = Some lx.
  Hypothesis y_buffer : mem !! y = Some ly.
  Hypothesis out_buffer : mem !! out = Some buf.
  Hypothesis x_apart : x ≠ out.
  Hypothesis y_apart : y ≠ out.

(** Threads write their own entries and nothing else, whatever their order. *)
Lemma run_threads_writes order :
  ∃ buf', run_threads (saxpy_kernel c x y out a (Z.of_N n) bd) order mem = <[out := buf']> mem ∧
    length buf' = length buf ∧
    ∀ t i xi yi, t ∈ order → thread_index bd t = Z.of_nat i → (i < N.to_nat n)%nat →
      (i < length buf)%nat → lx !! i = Some xi → ly !! i = Some yi →
      buf' !! i = Some (mul_add c a xi yi).
Proof.
  induction order as [|t order IH] using rev_ind.
  { exists buf. rewrite insert_id by done. split_and!; [done..|]. set_solver. }
  destruct IH as (buf1 & Hrun & Hlen & Hval). unfold run_threads in *. rewrite foldl_app, Hrun.
  cbn [foldl]. unfold saxpy_kernel. fold (thread_index bd t). set (i := thread_index bd t).
  rewrite !lookup_insert_ne, x_buffer, y_buffer by done. cbn [mbind option_bind].
  destruct (Z.ltb_spec i (Z.of_N n)) as [Hi|Hi].
  2:{ exists buf1. split_and!; [done..|]. intros t' j xi yi [Ht| ->]%elem_of_last;
        [by eauto|]. intros Hj. fold i in Hj. lia. }
  destruct (at_index lx i) as [xi|] eqn:Hx, (at_index ly i) as [yi|] eqn:Hy.
  1:{ exists (<[Z.to_nat i := mul_add c a xi yi]> buf1).
      rewrite alter_insert_eq, length_insert. split_and!; [done..|].
      unfold at_index in Hx, Hy. destruct (Z.ltb_spec i 0) as [|Hi0]; [done|].
      intros t' j xj yj Ht Hj Hjn Hjl Hxj Hyj. destruct (decide (j = Z.to_nat i)) as [->|Hne].
      - rewrite list_lookup_insert_eq by lia. congruence.
      - rewrite list_lookup_insert_ne by done.
        apply elem_of_last in Ht as [Ht| ->]; [by eauto|]. fold i in Hj. lia. }
  all: exists buf1; split_and!; [done..|];
    intros t' j xj yj [Ht| ->]%elem_of_last; [by eauto|];
    intros Hj; fold i in Hj; unfold at_index in *; rewrite Hj, Nat2Z.id in *;
    destruct (Z.ltb_spec (Z.of_nat j) 0); [lia|]; congruence.
Qed.
End kernel.

(** A launch over a covering grid computes the whole vector, in any order of
    the threads. *)
Lemma launch_computes c a x y out lx ly buf (mem : Memory) n order :
  mem !! x = Some lx → mem !! y = Some ly → mem !! out = Some buf → x ≠ out → y ≠ out →
  0 < n < 2 ^ 31 - 256 → length lx = Z.to_nat n → length ly = Z.to_nat n →
  length buf = Z.to_nat n → order ≡ₚ threads (Z.to_N ((n + 255) ÷ 256)) 256 →
  run_threads (saxpy_kernel c x y out a n 256) order mem
  = <[out := zip_with (mul_add c a) lx ly]> mem.
Proof.
  intros Hx Hy Ho Hxo Hyo Hn Hlx Hly Hlb Hord.
  destruct (run_threads_writes c a x y out lx ly buf mem (Z.to_N n) 256 Hx Hy Ho Hxo Hyo order)
    as (buf' & Hrun & Hlen & Hval).
  rewrite Z2N.id in Hrun by lia. rewrite Hrun. f_equal.
  apply list_eq_same_length with (n := Z.to_nat n); [by rewrite length_zip_with; lia|lia|].
  intros i u v Hi Hu Hv. apply lookup_zip_with_Some in Hv as (xi & yi & -> & Hxi & Hyi).
  destruct (grid_covers n (Z.of_nat i)) as (t & Ht & Hti); [lia..|].
  erewrite (Hval t i xi yi) in Hu; [by injection Hu as <-|by rewrite Hord|done|lia|lia|done|done].
Qed.

(** ** Programs *)
Lemma bind_Some {Dev A B} (m : M Dev A) (k : A → M Dev B) d r :
  (m ≫= k) d = Some r ↔ ∃ a d1, m d = Some (a, d1) ∧ k a d1 = Some r.
Proof.
  unfold mbind, M_bind. destruct (m d) as [[a d1]|]; naive_solver.
Qed.

Lemma mret_Some {Dev A} (a : A) (d d' : Dev) r :
  (mret a : M Dev A) d = Some (r, d') → r = a ∧ d' = d.
Proof. intros H. by injection H. Qed.

Lemma ok_Some {Dev} (call : Dev → bool * Dev) d u d' :
  ok call d = Some (u, d') ↔ call d = (true, d').
Proof. unfold ok. destruct u. destruct (call d) as [[] d1]; naive_solver. Qed.

Lemma ok_value_Some {Dev A} (call : Dev → bool * A * Dev) d a d' :
  ok_value call d = Some (a, d') ↔ call d = (true, a, d').
Proof. unfold ok_value. destruct (call d) as [[[] a1] d1]; naive_solver. Qed.

(** Takes a successful run apart, one call at a time. *)
Ltac calls H :=
  repeat (apply bind_Some in H as (? & ? & ?Hcall & H));
  repeat match goal with
  | H : ok_value _ _ = Some _ |- _ => apply ok_value_Some in H
  | H : ok _ _ = Some _ |- _ => apply ok_Some in H
  end.

Lemma lookup_host_vector f n i :
  (i < Z.to_nat n)%nat → host_vector f n !! i = Some (float_of_int (f (Z.of_nat i))).
Proof.
  intros H. unfold host_vector. rewrite list_lookup_fmap, lookup_seqZ_lt by lia. cbn.
  by rewrite Z.add_0_l.
Qed.

Lemma length_host_vector f n : length (host_vector f n) = Z.to_nat n.
Proof. unfold host_vector. by rewrite length_fmap, length_seqZ. Qed.

(** ** Small integers: contracted or not, the arithmetic is exact *)
Lemma mul_add_exact c a x y :
  0 ≤ a → 0 ≤ x → 0 ≤ y → a < 2 ^ prec → x < 2 ^ prec → a * x + y < 2 ^ prec →
  mul_add c (float_of_int a) (float_of_int x) (float_of_int y) = float_of_int (a * x + y).
Proof.
  intros. pose proof (Z.mul_nonneg_nonneg a x). unfold mul_add. destruct c; [by apply ffma_exact|].
  rewrite fmul_exact, fadd_exact by lia. done.
Qed.

(** The vector a kernel computes from integer vectors. *)
Lemma saxpy_vectors c a f g n :
  0 ≤ a < 2 ^ prec →
  (∀ i, 0 ≤ i < n → 0 ≤ f i < 2 ^ prec ∧ 0 ≤ g i ∧ a * f i + g i < 2 ^ prec) →
  zip_with (mul_add c (float_of_int a)) (host_vector f n) (host_vector g n)
  = host_vector (λ i, a * f i + g i) n.
Proof.
  intros Ha Hfg. apply list_eq_same_length with (n := Z.to_nat n);
    [apply length_host_vector|rewrite length_zip_with, !length_host_vector; lia|].
  intros i u v Hi Hu Hv. rewrite lookup_host_vector in Hv by done.
  apply lookup_zip_with_Some in Hu as (x & y & -> & Hx & Hy).
  rewrite lookup_host_vector in Hx, Hy by done. simplify_eq.
  destruct (Hfg (Z.of_nat i)) as (? & ? & ?); [lia|]. apply mul_add_exact; lia.
Qed.

Lemma parity_loop_true hc (o x y : Z → float) l :
  (∀ i, i ∈ l → SFeqb (o i) (mul_add hc (float_of_int 2) (x i) (y i)) = true) →
  parity_loop hc (o <$> l) (x <$> l) (y <$> l) = true.
Proof.
  induction l as [|i l IH]; intros H; [done|]. cbn. rewrite H by by constructor.
  apply IH. intros j Hj. apply H. by constructor.
Qed.

(** What [run_kernel] returns is computed on the host: it is the same for any run
    time, whatever its calls do. *)
Lemma run_kernel_value {Dev} (R : CudaRuntime Dev) dc hc l1 l2 n d r d' :
  0 < n ≤ 2 ^ 20 → run_kernel R dc hc l1 l2 n d = Some (r, d') → r = float_of_int (5 * (n - 1)).
Proof.
  intros Hn H. unfold run_kernel in H.
  apply bind_Some in H as (p & d1 & _ & H). apply bind_Some in H as (hout & d2 & _ & H).
  apply bind_Some in H as (u & d3 & _ & H). apply mret_Some in H as [-> _].
  assert (∀ f, default (float_of_int 0) (at_index (host_vector f n) (n - 1))
            = float_of_int (f (n - 1))) as E.
  { intros f. unfold at_index. rewrite (proj2 (Z.ltb_ge _ _)) by lia.
    rewrite lookup_host_vector by lia. by rewrite Z2Nat.id by lia. }
  rewrite !E, mul_add_exact by (unfold prec, id; lia). f_equal. unfold id. lia.
Qed.

Section runs.
  Context {Dev : Type} (R : CudaRuntime Dev) (view : Dev → option Memory) `{!cuda_laws R view}.
  Context (dc hc : bool).

Lemma upload_and_launch_spec hx hy a n d p d' mem :
  0 < n < 2 ^ 31 - 256 → length hx = Z.to_nat n → length hy = Z.to_nat n → view d = Some mem →
  upload_and_launch R dc hx hy a n d = Some (p, d') →
  mem !! p.1.1 = None ∧ mem !! p.1.2 = None ∧ mem !! p.2 = None ∧
  p.1.1 ≠ p.1.2 ∧ p.1.1 ≠ p.2 ∧ p.1.2 ≠ p.2 ∧
  (view d' = None ∨ view d' =
    Some (<[p.2 := zip_with (mul_add dc a) hx hy]> (<[p.1.2 := hy]> (<[p.1.1 := hx]> mem)))).
Proof.
  intros Hn Hlx Hly Hv H. unfold upload_and_launch in H. calls H.
  apply malloc_law in Hcall as (m0 & bx & E0 & Hfx & Hbx & Hv1). rewrite Hv in E0. injection E0 as <-.
  apply malloc_law in Hcall0 as (m1 & by_ & E1 & Hfy & Hby & Hv2).
  rewrite Hv1 in E1. injection E1 as <-.
  apply malloc_law in Hcall1 as (m2 & bo & E2 & Hfo & Hbo & Hv3).
  rewrite Hv2 in E2. injection E2 as <-. rewrite bytes_of_count in Hbx, Hby, Hbo by lia.
  apply lookup_insert_None in Hfy as [Hfy Hxy].
  apply lookup_insert_None in Hfo as [[Hfo Hxo]%lookup_insert_None Hyo].
  apply h2d_law in Hcall2 as (m3 & E3 & Hc1). rewrite Hv3 in E3. injection E3 as <-.
  specialize (Hc1 bx). rewrite !lookup_insert_ne, lookup_insert_eq in Hc1 by done.
  specialize (Hc1 eq_refl ltac:(lia)).
  apply h2d_law in Hcall3 as (m4 & E4 & Hc2). rewrite Hc1 in E4. injection E4 as <-.
  specialize (Hc2 by_). rewrite !lookup_insert_ne, lookup_insert_eq in Hc2 by done.
  specialize (Hc2 eq_refl ltac:(lia)).
  injection H as <- <-. cbn [fst snd]. split_and!; try done.
  destruct (launch_law _ _ _ _ _ _ Hc2 Hcall4) as [Hnone|(order & Hord & Hmem)]; [by left|right].
  rewrite Hmem. f_equal. rewrite (launch_computes dc a x x1 x3 hx hy bo _ n order); try done; try lia;
    try by simplify_map_eq.
  apply map_eq. intros k.
  destruct (decide (x3 = k)), (decide (x1 = k)), (decide (x = k)); simplify_map_eq; done.
Qed.

(** Reading the result back and freeing the three buffers leaves the memory as
    it was before they were allocated. *)
Lemma read_back_spec p n d d1 d2 hout u mem lx ly lo :
  mem !! p.1.1 = None → mem !! p.1.2 = None → mem !! p.2 = None →
  length lo = Z.to_nat n →
  view d = None ∨ view d = Some (<[p.2 := lo]> (<[p.1.2 := ly]> (<[p.1.1 := lx]> mem))) →
  ok_value (cudaMemcpyDeviceToHost R p.2 (bytes_of n)) d = Some (hout, d1) →
  free_all R p d1 = Some (u, d2) →
  hout = lo ∧ view d2 = Some mem.
Proof.
  intros Hx Hy Ho Hlen Hv Hread Hfree.
  apply ok_value_Some, d2h_law in Hread as (m & Em & Em1 & Hout).
  destruct Hv as [Hv|Hv]; [congruence|]. rewrite Hv in Em. injection Em as <-.
  unfold free_all in Hfree. calls Hfree.
  apply free_law in Hcall as (m1 & E1 & Hv1). rewrite Em1 in E1. injection E1 as <-.
  apply free_law in Hcall0 as (m2 & E2 & Hv2). rewrite Hv1 in E2. injection E2 as <-.
  apply free_law in Hfree as (m3 & E3 & Hv3). rewrite Hv2 in E3. injection E3 as <-.
  split.
  - apply Hout; [by rewrite lookup_insert_eq|]. unfold bytes_of. lia.
  - rewrite Hv3. f_equal. apply map_eq. intros k.
    destruct (decide (p.2 = k)), (decide (p.1.2 = k)), (decide (p.1.1 = k)); simplify_map_eq; done.
Qed.

(** [run_kernel] leaves nothing allocated. *)
Lemma run_kernel_frame l1 l2 n d r d' mem :
  0 < n ≤ 2 ^ 20 → view d = Some mem → run_kernel R dc hc l1 l2 n d = Some (r, d') →
  view d' = Some mem.
Proof.
  intros Hn Hv H. unfold run_kernel in H.
  apply bind_Some in H as (p & d1 & Hup & H). apply bind_Some in H as (hout & d2 & Hread & H).
  apply bind_Some in H as (u & d3 & Hfree & H). apply mret_Some in H as [-> ->].
  apply (upload_and_launch_spec _ _ _ _ _ _ _ mem) in Hup as (? & ? & ? & _ & _ & _ & Hmem);
    [|lia|by rewrite length_host_vector..|done].
  eapply read_back_spec; [..|exact Hread|exact Hfree]; try done.
  rewrite length_zip_with, !length_host_vector. lia.
Qed.
End runs.

(** ** Scenarios *)

(** Scenario A: the failure of the device is retried under a fresh attempt. The
    outcome does not depend on the device: this holds for any run time, its
    results may be wrong. *)
Lemma scenario_a_spec {Dev} (R : CudaRuntime Dev) dc hc {Rng} (rng_next : Rng → N * Rng) seeded d r d' :
  scenario_a R dc hc rng_next seeded d = Some (r, d') →
  (a_result r = true ∧ verdict (a_decision r) = RetryVerdict.RETRY ∧
   requires_fresh_attempt (a_decision r) = true ∧ a_reference r = float_of_int 5242875) ∧
  ∃ f1 d1 f2, run_kernel R dc hc x_dummy x_dummy2 (1024 * 1024) d = Some (f1, d1) ∧
    run_kernel R dc hc x_dummy x_dummy2 (1024 * 1024) d1 = Some (f2, d').
Proof.
  intros H. unfold scenario_a in H.
  destruct (generate rng_next (seeded 99%N)) as [op g1].
  destruct (uuid128_generate rng_next g1) as [key g2].
  destruct (generate rng_next g2) as [at1 g3].
  destruct (generate rng_next g3) as [at2 g4].
  destruct (generate rng_next g4) as [boot g5].
  match type of H with context [B.build _ ?b ?g] =>
    destruct (build_built rng_next b g) as (id & E & _); destruct (B.build rng_next b g) as [fail g6]
  end.
  cbn [fst] in E. subst fail.
  apply bind_Some in H as (f1 & d1 & H1 & H).
  destruct (idem_begin _ _ _ _ _) as [v1 idem].
  apply bind_Some in H as (f2 & d2 & H2 & H).
  apply mret_Some in H as [-> ->]. split; [|by eauto].
  apply run_kernel_value in H2 as ->; [|lia]. cbn [a_result a_decision a_reference].
  split; [done|]. split; [vm_compute; reflexivity|]. split; [vm_compute; reflexivity|done].
Qed.

Section scenarios.
  Context {Dev : Type} (R : CudaRuntime Dev) (view : Dev → option Memory) `{!cuda_laws R view}.
  Context (dc hc : bool).
  Context {Rng : Type} (rng_next : Rng → N * Rng) (seeded : N → Rng) (entropy : nat → Rng).

(** The integers of scenario B are small enough for the loop to find parity. *)
Lemma scenario_b_vectors c n :
  n ≤ 2 ^ 22 →
  zip_with (mul_add c (float_of_int 2)) (host_vector id n) (host_vector (λ i, i + 1) n)
  = host_vector (λ i, 3 * i + 1) n ∧
  parity_loop hc (host_vector (λ i, 3 * i + 1) n) (host_vector id n) (host_vector (λ i, i + 1) n)
  = true.
Proof.
  intros Hn. split.
  - rewrite saxpy_vectors; [|unfold prec; lia|intros i Hi; unfold prec, id; lia].
    unfold host_vector. apply list_fmap_ext. intros _ i _. f_equal. unfold id. lia.
  - apply parity_loop_true. intros i Hi%elem_of_seqZ.
    rewrite mul_add_exact by (unfold prec, id; lia).
    replace (2 * id i + (i + 1)) with (3 * i + 1) by (unfold id; lia).
    apply float_eq_refl. unfold prec. lia.
Qed.

(** A run of scenario B that gets through its checked calls reads back what the
    host computes, and frees what it allocated. *)
Lemma scenario_b_spec d r d' mem :
  view d = Some mem → scenario_b R dc hc rng_next entropy d = Some (r, d') →
  b_result r = true ∧ accepted (b_fence r) = false ∧
  b_out r = Some (host_vector (λ i, 3 * i + 1) (256 * 1024)) ∧
  (view d' = Some mem ∨ view d' = None).
Proof.
  intros Hv H. unfold scenario_b in H.
  set (n := 256 * 1024) in *. assert (0 < n ≤ 2 ^ 22) as Hn by (unfold n; lia). clearbody n.
  apply bind_Some in H as (before & d1 & H1 & H).
  unfold unchecked in H1. injection H1 as E1.
  pose proof (info_law d) as Hi1. rewrite E1, Hv in Hi1. cbn [snd] in Hi1.
  apply bind_Some in H as (p & d2 & Hup & H).
  apply (upload_and_launch_spec R view _ _ _ _ _ _ _ _ mem) in Hup
    as (? & ? & ? & _ & _ & _ & Hmem);
    [|lia|by rewrite length_host_vector..|done].
  destruct (scenario_b_vectors dc n) as [Hvec Hpar]; [lia|]. rewrite Hvec in Hmem.
  rewrite next_boot_always_fences in H by done.
  apply bind_Some in H as (hout & d3 & Hread & H). apply bind_Some in H as (u & d4 & Hfree & H).
  assert (hout = host_vector (λ i, 3 * i + 1) n ∧ view d4 = Some mem) as [-> Hend].
  { eapply read_back_spec; [..|exact Hmem|exact Hread|exact Hfree]; [done..|].
    apply length_host_vector. }
  apply bind_Some in H as (u' & d5 & H5 & H). apply bind_Some in H as (after & d6 & H6 & H).
  unfold unchecked in H5, H6. injection H5 as _ <-. injection H6 as E6.
  pose proof (info_law (cudaDeviceSynchronize R d4)) as Hi6. rewrite E6 in Hi6. cbn [snd] in Hi6.
  apply mret_Some in H as [-> ->]. cbn [b_result b_fence b_out].
  rewrite Hpar, next_boot_always_fences by done. split_and!; [done..|].
  rewrite Hi6. destruct (synchronize_law d4) as [->| ->]; [by left|by right].
Qed.

(** Scenario C: the second submission is a replay, another payload a conflict. *)
Lemma scenario_c_spec d r d' mem :
  view d = Some mem → scenario_c R dc hc rng_next seeded d = Some (r, d') →
  r = MkScenarioC IdempotencyVerdict.IN_PROGRESS_REPLAY IdempotencyVerdict.CONFLICT
        (Some "committed") true ∧ view d' = Some mem.
Proof.
  intros Hv H. unfold scenario_c in H.
  destruct (generate rng_next (seeded 7)) as [op g1].
  destruct (uuid128_generate rng_next g1) as [key g2].
  destruct (generate rng_next g2) as [at1 g3].
  destruct (generate rng_next g3) as [boot g4].
  destruct (generate rng_next g4) as [disp g5].
  apply bind_Some in H as (f1 & d1 & H1 & H).
  apply (run_kernel_frame R view dc hc _ _ _ _ _ _ mem) in H1 as Hv1; [|lia|done].
  match type of H with context [idem_begin op ?k ?h ?a ∅] =>
    destruct (resubmission op k h 0xDEAD a "committed") as (idem & E1 & E2 & E3 & E4); [done|]
  end.
  rewrite E1, E2, E3, E4 in H. by apply mret_Some in H as [-> ->].
Qed.

Lemma scenario_c_poisoned d : view d = None → scenario_c R dc hc rng_next seeded d = None.
Proof.
  intros Hv. destruct (scenario_c R dc hc rng_next seeded d) as [[r d']|] eqn:H; [exfalso|done].
  unfold scenario_c in H. repeat case_match; try done.
  apply bind_Some in H as (f & d1 & H & _). unfold run_kernel in H.
  apply bind_Some in H as (p & d2 & H & _). unfold upload_and_launch in H.
  apply bind_Some in H as (dx & d3 & H & _).
  apply ok_value_Some, malloc_law in H as (m & ? & E & _). congruence.
Qed.

(** Everything that [main] runs passes. *)
Lemma proofs_pass d a b c d' mem :
  view d = Some mem → proofs R dc hc rng_next seeded entropy d = Some (a, b, c, d') →
  a_result a && b_result b && c_result c = true.
Proof.
  intros Hv H. unfold proofs in H.
  apply bind_Some in H as (a1 & d1 & Ha & H). apply bind_Some in H as (b1 & d2 & Hb & H).
  apply bind_Some in H as (c1 & d3 & Hc & H). apply mret_Some in H as [[= -> -> ->] ->].
  apply scenario_a_spec in Ha as [(-> & _) (f1 & d0 & f2 & H1 & H2)].
  apply (run_kernel_frame R view dc hc _ _ _ _ _ _ mem) in H1 as Hv0; [|lia|done].
  apply (run_kernel_frame R view dc hc _ _ _ _ _ _ mem) in H2 as Hv1; [|lia|done].
  apply (scenario_b_spec _ _ _ mem Hv1) in Hb as (-> & _ & _ & [Hv2|Hv2]).
  - by apply (scenario_c_spec _ _ _ mem Hv2) in Hc as [-> _].
  - by rewrite (scenario_c_poisoned d2 Hv2) in Hc.
Qed.
End scenarios.

(** ** Runs that get through *)
Definition total {Dev A} (m : M Dev A) : Prop := ∀ d, is_Some (m d).

Lemma total_mret {Dev A} (a : A) : total (mret a : M Dev A).
Proof. intros d. by eexists. Qed.

Lemma total_bind {Dev A B} (m : M Dev A) (k : A → M Dev B) :
  total m → (∀ a, total (k a)) → total (m ≫= k).
Proof.
  intros Hm Hk d. unfold mbind, M_bind. destruct (Hm d) as [[a d1] ->]. apply Hk.
Qed.

Lemma total_ok {Dev} (call : Dev → bool * Dev) : (∀ d, (call d).1 = true) → total (ok call).
Proof. intros H d. unfold ok. specialize (H d). destruct (call d) as [[] ?]; [by eexists|done]. Qed.

Lemma total_ok_value {Dev A} (call : Dev → bool * A * Dev) :
  (∀ d, (call d).1.1 = true) → total (ok_value call).
Proof.
  intros H d. unfold ok_value. specialize (H d). destruct (call d) as [[[] ?] ?]; [by eexists|done].
Qed.

Lemma total_unchecked {Dev A} (call : Dev → A * Dev) : total (unchecked call).
Proof. intros d. by eexists. Qed.

Create HintDb device discriminated.
#[export] Hint Resolve total_mret total_ok total_ok_value total_unchecked : device.

Ltac solve_total :=
  cbv zeta; first
    [ solve [auto with device]
    | apply total_bind; [solve_total | intros ?; solve_total]
    | case_match; solve_total ].

Section reliable.
  Context {Dev : Type} (R : CudaRuntime Dev) (dc hc : bool).
  Context {Rng : Type} (rng_next : Rng → N * Rng) (seeded : N → Rng) (entropy : nat → Rng).
  Hypothesis R_reliable : reliable R.

Lemma total_upload hx hy a n : total (upload_and_launch R dc hx hy a n).
Proof. destruct R_reliable as (? & ? & ? & ? & ?). unfold upload_and_launch. solve_total. Qed.

Lemma total_free_all p : total (free_all R p).
Proof. destruct R_reliable as (? & ? & ? & ? & ?). unfold free_all. solve_total. Qed.

Lemma total_read p size : total (ok_value (cudaMemcpyDeviceToHost R p size)).
Proof. destruct R_reliable as (? & ? & ? & ? & ?). auto with device. Qed.

Lemma total_run_kernel l1 l2 n : total (run_kernel R dc hc l1 l2 n).
Proof.
  unfold run_kernel. pose proof total_upload. pose proof total_free_all. pose proof total_read.
  solve_total.
Qed.

Lemma total_scenario_b : total (scenario_b R dc hc rng_next entropy).
Proof.
  unfold scenario_b. pose proof total_upload. pose proof total_free_all. pose proof total_read.
  solve_total.
Qed.

Lemma total_proofs : total (proofs R dc hc rng_next seeded entropy).
Proof.
  pose proof total_run_kernel. pose proof total_scenario_b. unfold proofs, scenario_a, scenario_c.
  solve_total.
Qed.
End reliable.

(** ** A run time in memory, which runs the threads in order *)
Definition memory_runtime : CudaRuntime Memory := {|
  cudaSetDevice _ mem := (true, mem);
  cudaGetDeviceProperties _ mem := mem;
  cudaMalloc size mem :=
    let p := fresh (dom mem) in
    (true, p, <[p := replicate (N.to_nat (size / 4)) (S754_zero false)]> mem);
  cudaFree p mem := (true, delete p mem);
  cudaMemcpyHostToDevice p l mem := (true, <[p := l]> mem);
  cudaMemcpyDeviceToHost p size mem := (true, default [] (mem !! p), mem);
  cudaLaunch g b kernel mem := run_threads kernel (threads g b) mem;
  cudaGetLastError mem := (true, mem);
  cudaMemGetInfo mem := (0%N, mem);
  cudaDeviceSynchronize mem := mem;
|}.

#[export] Instance memory_runtime_laws : cuda_laws memory_runtime Some.
Proof.
  split; cbn.
  - by eexists.
  - done.
  - intros size d p d' [= <- <-]. do 2 eexists. split; [done|]. split.
    { apply not_elem_of_dom, is_fresh. }
    split; [|done]. by rewrite length_replicate, N2Nat.id.
  - intros p d d' [= <-]. by eexists.
  - intros p l d d' [= <-]. by eexists.
  - intros p size d l d' [= <- <-]. eexists. split; [done|]. split; [done|].
    intros buf Hb _. by rewrite Hb.
  - intros g b kernel d d' mem [= ->] [= <-]. right. by exists (threads g b).
  - done.
  - by left.
Qed.

Lemma memory_runtime_reliable : reliable memory_runtime.
Proof. by repeat split. Qed.

(** ** Properties *)
Section claims.
  Context {Dev : Type} (R : CudaRuntime Dev) (view : Dev → option Memory) `{!cuda_laws R view}.
  Context (dc hc : bool).
  Context {Rng : Type} (rng_next : Rng → N * Rng) (seeded : N → Rng) (entropy : nat → Rng).

(** C35: the device agrees with the host. Whatever the order in which the device
    runs the threads of the grid, and whether or not either compiler contracts
    the multiplication and the addition, a run of scenario B that gets through
    its checked calls reads back exactly [3 i + 1] at every index, finds parity
    with the host's own arithmetic, has fenced the old boot, and ends with the
    device memory as it began (or, after a failed synchronisation that it does
    not look at, with a device that answers nothing more). *)
Theorem device_matches_host d r d' mem :
  view d = Some mem → scenario_b R dc hc rng_next entropy d = Some (r, d') →
  b_result r = true ∧ accepted (b_fence r) = false ∧
  b_out r = Some (host_vector (λ i, 3 * i + 1) (256 * 1024)) ∧
  (view d' = Some mem ∨ view d' = None).
Proof. by apply scenario_b_spec. Qed.

(** C36: the exit code of the program. It is 2 if the device cannot be selected,
    1 if one of the checked calls of the run time fails, and 0 otherwise: no
    scenario reports a failure of its own. *)
Theorem device_proof_exit d :
  main R dc hc rng_next seeded entropy d
  = (if (cudaSetDevice R 0 d).1 then
       match proofs R dc hc rng_next seeded entropy
               (cudaGetDeviceProperties R 0 (cudaSetDevice R 0 d).2) with
       | Some _ => 0
       | None => 1
       end
     else 2) ∧
  (reliable R → main R dc hc rng_next seeded entropy d = (if (cudaSetDevice R 0 d).1 then 0 else 2)).
Proof.
  unfold main. destruct (cudaSetDevice R 0 d) as [[] d1] eqn:E; cbn [negb fst snd]; [|done].
  destruct (set_device_law _ _ _ E) as [mem Hv]. rewrite <- (properties_law 0 d1) in Hv.
  revert Hv. generalize (cudaGetDeviceProperties R 0 d1). clear d1 E. intros d1 Hv.
  assert (∀ r, proofs R dc hc rng_next seeded entropy d1 = Some r →
    (let '(a, b, c, _) := r in if a_result a && b_result b && c_result c then 0 else 1) = 0) as Hp.
  { intros [[[a b] c] d'] H. by rewrite (proofs_pass R view dc hc rng_next seeded entropy d1 a b c d' mem). }
  split.
  - destruct (proofs _ _ _ _ _ _ _) as [r|] eqn:Er; [|done]. by apply Hp.
  - intros Hr. destruct (total_proofs R dc hc rng_next seeded entropy Hr d1) as [r Er].
    rewrite Er. by apply Hp.
Qed.
End claims.

(** ** Witnesses *)
Definition counting : N → N * N := λ n, (n, (n + 1)%N).

Lemma device_proof_exit_witness :
  main memory_runtime true false counting id N.of_nat ∅ = 0.
Proof.
  destruct (device_proof_exit memory_runtime Some true false counting id N.of_nat ∅) as [_ H].
  rewrite (H memory_runtime_reliable). reflexivity.
Defined.

Lemma device_matches_host_witness :
  ∃ r d', scenario_b memory_runtime true false counting N.of_nat ∅ = Some (r, d') ∧
    b_result r = true.
Proof.
  destruct (total_scenario_b memory_runtime true false counting N.of_nat memory_runtime_reliable ∅)
    as [[r d'] H].
  exists r, d'. split; [exact H|].
  apply (device_matches_host memory_runtime Some true false counting N.of_nat ∅ r d' ∅ eq_refl H).
Defined.
