(* ===== verification/Clients.v ===== *)
(** * The example programs and the downstream consumer
    ([examples/*.cpp], [consumer/main.cpp])

    Each [main] is a function to what it shows, as for the command line tool:
    the engines of [std::mt19937_64] and of [generate()] are arguments, as are
    the orders of enumeration and whether the files open. They put the
    components together the way a user of the library does. *)
From stdpp Require Import gmap.
From S2P Require Import Prelude Ident Enums Authority Operation Idempotency Registry FailureRecord Retry Recovery Rollback Codec RecordCodec Store Reload Explain Cli.
Module B := FailureRecordBuilder.

Local Open Scope N_scope.

Section clients.
  Context {Rng : Type} (rng_next : Rng → N * Rng).
  (** [std::mt19937_64 rng(n)], and the engine of the [n]-th [generate()]. *)
  Context (seeded : N → Rng) (entropy : nat → Rng).
  Context (failures_list : gmap FailureId FailureRecord → list FailureRecord).
  Context (operations : OperationRegistry → list OperationId).
  Context (collect_entries : IdempotencyStore → list EntryView).

Definition draw {tag} (rng : Rng) : Id tag * Rng :=
  let '(u, rng) := uuid128_generate rng_next rng in (MkId u, rng).

(** The envelope the programs build: epoch and attempt generation 1, the attempt
    and the boot drawn in this order. *)
Definition drawn_authority (rng : Rng) : AuthorityEnvelope * Rng :=
  let '(att, rng) := draw rng in
  let '(boot, rng) := draw rng in
  (MkAuthority (MkGeneration 1) boot att (MkGeneration 1) null_id gen0 gen0 gen0, rng).

(** ** [example_ambiguous.cpp] *)
Definition example_ambiguous : Outcome :=
  let rng := seeded 2 in
  let '(op, rng) := draw rng in
  let '(key, rng) := uuid128_generate rng_next rng in
  let key := MkIdemKey key in
  let '(a, rng) := drawn_authority rng in
  let '(v0, idem) := idem_begin op key 0xA a ∅ in
  let l1 := line ["submit (may have side effect) -> "; IdempotencyVerdict.to_string v0] in
  let '(v1, idem) := idem_begin op key 0xA a idem in
  let l2 := line ["replay ambiguous completion under same key+hash -> ";
                  IdempotencyVerdict.to_string v1; " (deduplicated, no double apply)"] in
  let idem := idem_complete op key "result=42" idem in
  let l3 := match prior_result op key idem with
            | Some prior => line ["completed idempotent op returns prior result metadata: "; prior]
            | None => EmptyString
            end in
  let '(vconf, idem) := idem_begin op key 0xBAD a idem in
  let l4 := line ["conflicting duplicate payload under same key -> ";
                  IdempotencyVerdict.to_string vconf; " (rejected)"] in
  say (put [l1; l2; l3; l4])
    (if bool_decide (v1 = IdempotencyVerdict.IN_PROGRESS_REPLAY)
        && bool_decide (vconf = IdempotencyVerdict.CONFLICT) then 0 else 1)%Z.

(** ** [example_ownership.cpp] *)
Definition example_ownership : Outcome :=
  let '(a, _) := drawn_authority (seeded 3) in
  let '(_, own) := adopt ownership0 RecoveryOwner.COORDINATOR (MkGeneration 1) (worker_boot a) a in
  let '(t, own) :=
    transfer own RecoveryOwner.REPLACEMENT_WORKER (MkGeneration 2) (fresh rng_next entropy 0) a in
  let l1 := line ["ownership transfer to replacement (gen2): "; one_zero t; ", owner=";
                  RecoveryOwner.to_string (owner_ own)] in
  let '(regress, own) :=
    transfer own RecoveryOwner.OPERATOR (MkGeneration 1) (fresh rng_next entropy 1) a in
  let l2 := line ["stale transfer (gen1 <= gen2) rejected: "; one_zero (negb regress)] in
  let oldBoot := a in
  let newBoot := next_boot oldBoot (fresh rng_next entropy 2) in
  let fr := fence_completion oldBoot newBoot authority0 in
  let l3 := line ["stale completion from old boot rejected: "; one_zero (negb (accepted fr))] in
  say (put [l1; l2; l3]) (if t && negb regress && negb (accepted fr) then 0 else 1)%Z.

(** ** [example_persist_replay.cpp] *)
Definition replay_op : OperationId := (draw (seeded 4)).1.
Definition replay_authority : AuthorityEnvelope := (drawn_authority (draw (tag := OperationIdTag) (seeded 4)).2).1.

Definition replay_ops : OperationRegistry :=
  let op := replay_op in
  let a := replay_authority in
  let o := (create op a ∅).2 in
  let o := (dispatch_op op a o).2 in
  let o := (run op a o).2 in
  let o := (report_completion op a false o).2 in
  (confirm_completion op a o).2.

Definition replay_record : FailureRecord :=
  let a := replay_authority in
  (B.build rng_next (foldl B.builder_call B.builder0
    [ B.Failure_class FailureClass.PARTIAL_SUCCESS; B.Operation replay_op;
      B.Attempt (attempt a); B.Authority a ])
    (drawn_authority (draw (tag := OperationIdTag) (seeded 4)).2).2).1.

Definition replay_store : FailureStore :=
  (append_failure replay_record (MkStore ∅ replay_ops ∅ ownership0)).2.

(** [writable] and [readable]: whether the file opens for writing and then for
    reading. What is read is what was written. *)
Definition example_persist_replay (writable readable : bool) : Outcome :=
  let path := "ff_example_state.bin" in
  let data := save_bytes failures_list operations collect_entries replay_store in
  if negb writable then say "" 1 else
  let '(loaded_ok, loaded) := load (if readable then Some data else None) store0 in
  if negb loaded_ok then MkOutcome "" 1 (Some (path, data)) None else
  let r := ops_ loaded !! replay_op in
  say (put
    [ line ["reloaded op state="; OperationState.to_string (state replay_op (ops_ loaded));
            " terminal_recorded=";
            one_zero (match r with Some rt => terminal_recorded rt | None => false end)];
      line ["reloaded failure records="; dec (N.of_nat (failure_count loaded))] ])
    (if bool_decide (state replay_op (ops_ loaded) = OperationState.COMPLETION_CONFIRMED) then 0 else 1)%Z.

(** ** [example_retry.cpp] *)
Definition example_retry : Outcome :=
  let rng := seeded 1 in
  let '(op, rng) := draw rng in
  let '(att, rng) := draw rng in
  let a := MkAuthority (MkGeneration 1) (fresh rng_next entropy 1) (fresh rng_next entropy 0)
             (MkGeneration 1) null_id gen0 gen0 gen0 in
  let rec := (B.build rng_next (foldl B.builder_call B.builder0
    [ B.Failure_class FailureClass.TRANSIENT; B.Operation op; B.Attempt att; B.Authority a ]) rng).1 in
  let d := classify rec (MkRetryInput 1 true true true true false true) policy0 in
  say (put
    [ line ["transient failure -> verdict "; RetryVerdict.to_string (verdict d); " (backoff ";
            dec (backoff_ms 1); " ms)"];
      line ["bounded: attempts=1/3, "; RetryVerdict.to_string (verdict d)] ])
    (if bool_decide (verdict d = RetryVerdict.RETRY) then 0 else 1)%Z.

(** ** [example_rollback_compensate.cpp] *)
Definition example_steps : list RollbackStep :=
  [ MkStep RollbackAction.RELEASE_RESERVATION "res-1" true false false "";
    MkStep RollbackAction.FREE_ALLOCATION "alloc-1" true false false "";
    MkStep RollbackAction.REVERT_METADATA "meta-1" true false false "" ].

Definition example_plan : RollbackPlan :=
  MkRollbackPlan (MkId (uuid128_from_hex "cafe0001")) (MkGeneration 1) RecoveryOwner.COORDINATOR
    authority0 example_steps.

(** The loop: a round completes a step or breaks, so the number of steps is
    enough fuel. *)
Fixpoint run_rollback (fuel : nat) (ex : RollbackExecutor) : string * RollbackExecutor :=
  if is_complete ex then (EmptyString, ex)
  else match fuel with
  | O => (EmptyString, ex)
  | S fuel =>
      let '(ok, ex) := run_next ex true in
      if negb ok then (line ["rollback blocked/failed: "; failure_reason_ ex], ex)
      else run_rollback fuel ex
  end.

Definition example_rollback_compensate : Outcome :=
  let '(text, ex) := run_rollback (length example_steps) (executor example_plan) in
  let l1 := line ["rollback complete="; one_zero (is_complete ex); " (monotonic, resumable)"] in
  let cr := compensation0 <| compensation_id := fresh rng_next entropy 0 |>
    <| target_operation := MkId (uuid128_from_hex "cafe0002") |>
    <| cr_reason := "external side effect escaped; accounting adjustment required" |> in
  let comp := compensator_run cr true in
  let complete := bool_decide (completion comp = CompletionState.COMPLETE) in
  let l2 := line ["compensation complete="; one_zero complete; " (distinct from rollback)"] in
  say (put [text; l1; l2]) (if is_complete ex && complete then 0 else 1)%Z.

(** ** [consumer/main.cpp] *)
Definition consumer_record : FailureRecord :=
  let rng := seeded 1 in
  let '(op, rng) := draw rng in
  let '(att, rng) := draw rng in
  let '(a, rng) := drawn_authority rng in
  (B.build rng_next (foldl B.builder_call B.builder0
    [ B.Failure_class FailureClass.VALIDATION_FAILURE; B.Operation op; B.Attempt att;
      B.Authority a ]) rng).1.

Definition consumer : Outcome :=
  let d := classify consumer_record (MkRetryInput 0 true true true true false true) policy0 in
  say (put
    [ line ["consumer: VALIDATION_FAILURE -> verdict "; RetryVerdict.to_string (verdict d)];
      line ["consumer: "; explain_failure consumer_record] ])
    (if bool_decide (verdict d = RetryVerdict.DO_NOT_RETRY) then 0 else 1)%Z.

(** ** The parts of the programs *)
Lemma draw_not_null {tag} rng : (draw rng).1 ≠ @null_id tag.
Proof.
  intros E. pose proof (uuid128_generate_nonzero rng_next rng) as H. unfold draw in E.
  destruct (uuid128_generate rng_next rng) as [u r]. cbn in *. injection E as ->.
  assert (is_zero uuid128_zero = true) as Hz by by apply is_zero_spec. congruence.
Qed.

(** What the drawn envelopes have in common. *)
Lemma drawn_authority_shape rng :
  ∃ att boot rng', drawn_authority rng
    = (MkAuthority (MkGeneration 1) boot att (MkGeneration 1) null_id gen0 gen0 gen0, rng') ∧
    att ≠ null_id.
Proof.
  unfold drawn_authority. pose proof (draw_not_null (tag := AttemptIdTag) rng) as H.
  destruct (draw rng) as [att r1]. destruct (draw r1) as [boot r2]. by do 3 eexists.
Qed.

Lemma classify_transient op att a rng :
  verdict (classify (B.build rng_next (foldl B.builder_call B.builder0
      [ B.Failure_class FailureClass.TRANSIENT; B.Operation op; B.Attempt att; B.Authority a ]) rng).1
    (MkRetryInput 1 true true true true false true) policy0) = RetryVerdict.RETRY.
Proof.
  match goal with |- context [B.build _ ?b ?g] =>
    destruct (build_built rng_next b g) as (id & -> & _) end.
  vm_compute. reflexivity.
Qed.

Lemma consumer_verdict :
  verdict (classify consumer_record (MkRetryInput 0 true true true true false true) policy0)
  = RetryVerdict.DO_NOT_RETRY.
Proof.
  unfold consumer_record. destruct (draw (seeded 1)) as [op g1]. destruct (draw g1) as [att g2].
  destruct (drawn_authority g2) as [a g3].
  match goal with |- context [B.build _ ?b ?g] =>
    destruct (build_built rng_next b g) as (id & -> & _) end.
  vm_compute. reflexivity.
Qed.

(** *** The store of [example_persist_replay.cpp] *)
Definition replay_rt : OperationRuntime :=
  MkRuntime (MkMachine OperationState.COMPLETION_CONFIRMED) replay_authority replay_authority true 1
    "COMPLETED" false idem_key0.

Lemma replay_authority_ok : auth_ok replay_authority ∧ attempt replay_authority ≠ null_id.
Proof.
  unfold replay_authority. destruct (drawn_authority_shape (draw (tag := OperationIdTag) (seeded 4)).2)
    as (att & boot & r & -> & Hatt). cbn [fst attempt]. split; [|done]. split.
  - repeat split; vm_compute; reflexivity.
  - unfold validate_authority. cbn. by rewrite !andb_false_r.
Qed.

Lemma replay_ops_eq : replay_ops = {[ replay_op := replay_rt ]}.
Proof.
  destruct replay_authority_ok as [_ Hatt].
  assert (envelope_is_unset replay_authority = false) as Hset.
  { unfold envelope_is_unset. apply is_null_false in Hatt. by rewrite Hatt, andb_false_r. }
  pose proof (lifecycle_completes replay_op replay_authority ∅ (lookup_empty _) Hset) as H.
  unfold replay_ops. destruct (create _ _ _) as [r1 o1]. cbn [snd].
  destruct (dispatch_op _ _ _) as [r2 o2]. cbn [snd]. destruct (run _ _ _) as [r3 o3]. cbn [snd].
  destruct (report_completion _ _ _ _) as [r4 o4]. cbn [snd].
  destruct (confirm_completion _ _ _) as [r5 o5]. by destruct H as [_ ->].
Qed.

Lemma replay_record_ok : record_ok replay_record ∧ loggable replay_record.
Proof.
  unfold replay_record. destruct replay_authority_ok as [[Hf Hv] Hatt].
  assert (replay_op ≠ null_id) as Hop by apply draw_not_null.
  match goal with |- context [B.build _ ?b ?g] =>
    destruct (build_built rng_next b g) as (id & -> & Hid & _) end.
  revert Hf Hv Hatt Hop. generalize replay_authority as a, replay_op as op. intros.
  split; [unfold record_ok; split_and!|unfold loggable; split_and!]; try done;
    try (vm_compute; congruence); try by vm_compute.
  - cbn. lia.
  - by apply is_null_false.
Qed.

Lemma replay_store_eq :
  replay_store = MkStore {[ fr_failure_id replay_record := replay_record ]}
                   {[ replay_op := replay_rt ]} ∅ ownership0.
Proof.
  destruct replay_record_ok as [_ Hl]. unfold replay_store. rewrite replay_ops_eq.
  destruct (append_failure_spec replay_record (MkStore ∅ {[ replay_op := replay_rt ]} ∅ ownership0))
    as [[[r Hr]|Hn]|]; [by cbn [failures_] in Hr; rewrite lookup_empty in Hr|done|done].
Qed.

Lemma replay_store_ok : store_ok replay_store.
Proof.
  rewrite replay_store_eq. destruct replay_record_ok as [Hr _], replay_authority_ok as [Ha _].
  split; cbn [failures_ ops_ idem_ ownership_]; rewrite ?map_Forall_singleton, ?map_size_singleton.
  - by split.
  - by repeat split; try apply Ha; vm_compute.
  - apply map_Forall_empty.
  - reflexivity.
  - by vm_compute.
Qed.

(** C39: the example programs show what they say. Whatever the random engines, each
    of the five prints exactly the lines below and exits with 0; the one that
    saves and reloads does so whenever its file opens both times and whatever
    the orders of enumeration, and otherwise exits with 1; the consumer exits
    with 0 after the verdict on a validation failure and its explanation. *)
Theorem example_outputs :
  (∀ m, failures_list m ≡ₚ (map_to_list m).*2) →
  (∀ m, operations m ≡ₚ (map_to_list m).*1) →
  (∀ m, collect_entries m ≡ₚ entry_view <$> map_to_list m) →
  example_ambiguous = say (put
    [ line ["submit (may have side effect) -> NEW"];
      line ["replay ambiguous completion under same key+hash -> IN_PROGRESS_REPLAY (deduplicated, no double apply)"];
      line ["completed idempotent op returns prior result metadata: result=42"];
      line ["conflicting duplicate payload under same key -> CONFLICT (rejected)"] ]) 0 ∧
  example_ownership = say (put
    [ line ["ownership transfer to replacement (gen2): 1, owner=REPLACEMENT_WORKER"];
      line ["stale transfer (gen1 <= gen2) rejected: 1"];
      line ["stale completion from old boot rejected: 1"] ]) 0 ∧
  (∀ writable readable,
     (if writable && readable
      then example_persist_replay writable readable = say (put
        [ line ["reloaded op state=COMPLETION_CONFIRMED terminal_recorded=1"];
          line ["reloaded failure records=1"] ]) 0
      else code (example_persist_replay writable readable) = 1%Z)) ∧
  example_retry = say (put
    [ line ["transient failure -> verdict RETRY (backoff 20 ms)"];
      line ["bounded: attempts=1/3, RETRY"] ]) 0 ∧
  example_rollback_compensate = say (put
    [ line ["rollback complete=1 (monotonic, resumable)"];
      line ["compensation complete=1 (distinct from rollback)"] ]) 0 ∧
  consumer = say (put
    [ line ["consumer: VALIDATION_FAILURE -> verdict DO_NOT_RETRY"];
      line ["consumer: "; explain_failure consumer_record] ]) 0.
Proof.
  intros Hfl Hop Hen. split_and!.
  - unfold example_ambiguous. destruct (draw (seeded 2)) as [op g1].
    destruct (uuid128_generate rng_next g1) as [key g2]. destruct (drawn_authority g2) as [a g3].
    destruct (resubmission op (MkIdemKey key) 0xA 0xBAD a "result=42") as (st & E1 & E2 & E3 & E4);
      [done|]. by rewrite E1, E2, E3, E4.
  - unfold example_ownership.
    destruct (drawn_authority_shape (seeded 3)) as (att & boot & r & -> & _).
    cbv zeta. by rewrite next_boot_always_fences.
  - intros [] []; cbn [andb]; [| |done..].
    + unfold example_persist_replay. cbn [negb].
      rewrite (load_image replay_store store0) by
        first [apply replay_store_ok | by apply save_bytes_saves].
      rewrite replay_store_eq. cbn [negb failures_ ops_ idem_ failure_count].
      unfold state, failure_count. rewrite lookup_singleton_eq. cbn [failures_].
      by rewrite map_size_singleton.
    + done.
  - unfold example_retry. destruct (draw (seeded 1)) as [op g1]. destruct (draw g1) as [att g2].
    cbv zeta. by rewrite !classify_transient.
  - reflexivity.
  - unfold consumer. by rewrite consumer_verdict.
Qed.
End clients.

Lemma example_outputs_witness :
  code (example_persist_replay (λ n, (n, n + 1)) id (λ m, (map_to_list m).*2)
          (λ m, (map_to_list m).*1) (λ m, entry_view <$> map_to_list m) true true) = 0%Z.
Proof.
  destruct (example_outputs (λ n, (n, n + 1)) id N.of_nat (λ m, (map_to_list m).*2)
    (λ m, (map_to_list m).*1) (λ m, entry_view <$> map_to_list m)) as (_ & _ & H & _);
    [reflexivity..|].
  by rewrite (H true true).
Defined.
